(** * felix-ha/dl: transformer language models and their training loop

    A shallow embedding of [src/models.py] and [src/training.py].

    Tensors of floating-point numbers are modelled over the real numbers
    (module [Reals] of the Standard Library): a tensor entry is an [R], the
    value [-inf] written by [masked_fill] is the constructor [NegInf] of the
    extended reals [ext], and a result that torch would fill with [nan] is
    reported as [Raise NotANumber].  Rounding is therefore outside the model.

    The batch dimension of the hidden states is mapped over by every layer;
    the layers are modelled on one batch element, a matrix of [T] rows (time
    steps) and [D] columns (features), given as the list of its rows.  The
    sampler [generate] and the decoder stacks keep the batch, as a list of
    sequences.  Shape errors of torch are raised where the code can meet
    them: a width that a layer does not expect, a mask that does not
    broadcast, an index outside an embedding table. *)

From Stdlib Require Import Reals Lra Lia List ZArith Bool String.
From stdpp Require Import gmap strings.
Import ListNotations.

(** ** Python exceptions and results *)

Inductive exn : Set :=
| RuntimeError
| IndexError
| ValueError
| ZeroDivisionError
| KeyError
| UnboundLocalError
| TypeError
| NotANumber.

Inductive res (A : Type) : Type :=
| Ok (a : A)
| Raise (e : exn).

Arguments Ok {A} a.
Arguments Raise {A} e.

Definition bind_res {A B : Type} (r : res A) (k : A -> res B) : res B :=
  match r with
  | Ok a => k a
  | Raise e => Raise e
  end.

Notation "'let?' x ':=' r 'in' k" := (bind_res r (fun x => k))
  (at level 10, x name, r at level 100, k at level 200,
   format "'let?'  x  ':='  r  'in'  '/' k").

Fixpoint mapR {A B : Type} (f : A -> res B) (l : list A) : res (list B) :=
  match l with
  | [] => Ok []
  | a :: l' => let? b := f a in let? bs := mapR f l' in Ok (b :: bs)
  end.

(** ** State and exceptions

    Code that reads or writes a store of type [S] (the random source of
    torch, the training environment) runs in [ST S]. *)

Definition ST (S A : Type) : Type := S -> res (A * S).

Definition ret {S A : Type} (a : A) : ST S A := fun s => Ok (a, s).

Definition bind {S A B : Type} (m : ST S A) (k : A -> ST S B) : ST S B :=
  fun s => match m s with
           | Ok (a, s') => k a s'
           | Raise e => Raise e
           end.

Definition lift {S A : Type} (r : res A) : ST S A :=
  fun s => match r with
           | Ok a => Ok (a, s)
           | Raise e => Raise e
           end.

Definition get {S : Type} : ST S S := fun s => Ok (s, s).

Definition put {S : Type} (s : S) : ST S unit := fun _ => Ok (tt, s).

Notation "'let*' x ':=' m 'in' k" := (bind m (fun x => k))
  (at level 10, x name, m at level 100, k at level 200,
   format "'let*'  x  ':='  m  'in'  '/' k").

Fixpoint mapM_st {S A B : Type} (f : A -> ST S B) (l : list A) : ST S (list B) :=
  match l with
  | [] => ret []
  | a :: l' => let* b := f a in let* bs := mapM_st f l' in ret (b :: bs)
  end.

Fixpoint foldM_st {S A B : Type} (f : B -> A -> ST S B) (l : list A) (b : B) : ST S B :=
  match l with
  | [] => ret b
  | a :: l' => let* b' := f b a in foldM_st f l' b'
  end.

Module models.

Local Open Scope R_scope.

(** ** The random source

    torch's global generator is a tape of uniform draws and a cursor.  Code
    that draws (parameter initialisation, dropout in training mode,
    [torch.multinomial]) runs in [M]. *)

Record rng : Type := { tape : nat -> R; cursor : nat }.

Definition M (A : Type) : Type := ST rng A.

Definition torch_rand : M R :=
  fun g => Ok (tape g (cursor g), {| tape := tape g; cursor := S (cursor g) |}).

(** ** Tensors *)

Definition vector : Type := list R.
Definition matrix : Type := list vector.

Inductive ext : Type :=
| NegInf
| Fin (r : R).

Definition vsum (v : vector) : R := fold_right Rplus 0 v.

Fixpoint dot (u v : vector) : R :=
  match u, v with
  | a :: u', b :: v' => a * b + dot u' v'
  | _, _ => 0
  end.

Fixpoint zip_with {A B C : Type} (f : A -> B -> C) (l : list A) (k : list B) : list C :=
  match l, k with
  | a :: l', b :: k' => f a b :: zip_with f l' k'
  | _, _ => []
  end.

Definition ncols {A : Type} (m : list (list A)) : nat := length (hd [] m).

Definition same_shape {A B : Type} (a : list (list A)) (b : list (list B)) : bool :=
  (length a =? length b)%nat
  && forallb (fun p => (length (fst p) =? length (snd p))%nat) (combine a b).

Definition column (j : nat) (m : matrix) : vector := map (fun r => nth j r 0) m.

(** [k.transpose(-2, -1)] *)
Definition transpose (m : matrix) : matrix :=
  map (fun j => column j m) (seq 0 (ncols m)).

(** [a @ b]: the inner dimensions must agree. *)
Definition matmul (a b : matrix) : res matrix :=
  if forallb (fun r => (length r =? length b)%nat) a
  then Ok (map (fun r => map (fun j => dot r (column j b)) (seq 0 (ncols b))) a)
  else Raise RuntimeError.

Definition scale (c : R) (m : matrix) : matrix := map (map (fun a => a * c)) m.

(** [x + y] on two tensors of one shape (no call site of the models
    broadcasts inside a batch element). *)
Definition tensor_add (x y : matrix) : res matrix :=
  if same_shape x y
  then Ok (zip_with (zip_with Rplus) x y)
  else Raise RuntimeError.

(** [torch.ones(r, c)] and [torch.tril] *)
Definition torch_ones (r c : nat) : matrix := repeat (repeat 1 c) r.

Definition torch_tril (m : matrix) : matrix :=
  map (fun i => map (fun j => if (j <=? i)%nat then nth j (nth i m []) 0 else 0)
                    (seq 0 (ncols m)))
      (seq 0 (length m)).

(** [t[:n, :n]] *)
Definition slice2 {A : Type} (n : nat) (t : list (list A)) : list (list A) :=
  firstn n (map (firstn n) t).

(** [t == 0] *)
Definition eq_zero (t : matrix) : list (list bool) :=
  map (map (fun a => if Req_dec_T a 0 then true else false)) t.

(** Broadcasting of one dimension of a mask to extent [n]: equal extents
    or extent 1. *)
Definition broadcast_to {A : Type} (n : nat) (l : list A) : res (list A) :=
  if (length l =? n)%nat then Ok l
  else match l with
       | [a] => Ok (repeat a n)
       | _ => Raise RuntimeError
       end.

(** [w.masked_fill(mask, float('-inf'))] *)
Definition fill (a : R) (b : bool) : ext := if b then NegInf else Fin a.

Definition masked_fill (w : matrix) (mask : list (list bool)) : res (list (list ext)) :=
  let? rows := broadcast_to (length w) mask in
  mapR (fun p => let? mrow := broadcast_to (length (fst p)) (snd p) in
                 Ok (zip_with fill (fst p) mrow))
       (combine w rows).

(** [exp] on the extended reals: [exp(-inf) = 0]. *)
Definition exp_ext (e : ext) : R :=
  match e with
  | NegInf => 0
  | Fin r => exp r
  end.

Definition is_neginf (e : ext) : bool :=
  match e with
  | NegInf => true
  | Fin _ => false
  end.

(** [F.softmax(row, dim=-1)]: [exp(x_i) / sum_j exp(x_j)].  A row that holds
    nothing but [-inf] is [nan] in torch. *)
Definition softmax (row : list ext) : res vector :=
  match row with
  | [] => Ok []
  | _ => if forallb is_neginf row then Raise NotANumber
         else Ok (map (fun e => exp_ext e / vsum (map exp_ext row)) row)
  end.

(** [n ** -0.5] on a Python int. *)
Definition pow_neg_half (n : nat) : res R :=
  if (n =? 0)%nat then Raise ZeroDivisionError else Ok (/ sqrt (INR n)).

(** Drawing parameters: [n] numbers, [r] rows of [c] numbers. *)
Definition rand_vector (n : nat) : M vector :=
  mapM_st (fun _ => torch_rand) (seq 0 n).

Definition rand_matrix (r c : nat) : M matrix :=
  mapM_st (fun _ => rand_vector c) (seq 0 r).

(** ** [nn.Linear] *)

Record Linear : Type := {
  in_features : nat;
  out_features : nat;
  Linear_weight : matrix;
  Linear_bias : option vector
}.

Definition nn_Linear (n_in n_out : nat) (with_bias : bool) : M Linear :=
  let* w := rand_matrix n_out n_in in
  let* b := (if with_bias then let* v := rand_vector n_out in ret (Some v) else ret None) in
  ret {| in_features := n_in; out_features := n_out;
         Linear_weight := w; Linear_bias := b |}.

Definition Linear_row (l : Linear) (x : vector) : vector :=
  match Linear_bias l with
  | Some b => zip_with Rplus (map (dot x) (Linear_weight l)) b
  | None => map (dot x) (Linear_weight l)
  end.

(** The layer on a matrix: every row must have the width [in_features]
    (RuntimeError otherwise).  A matrix is the list of its rows, so a matrix
    of no row carries no width and passes. *)
Definition Linear_forward (l : Linear) (x : matrix) : res matrix :=
  if forallb (fun r => (length r =? in_features l)%nat) x
  then Ok (map (Linear_row l) x)
  else Raise RuntimeError.

(** ** [nn.Dropout] *)

(** The constructor refuses a rate outside [0, 1].  In training mode an
    entry is zeroed when its uniform draw falls below [p] and scaled by
    [1 / (1 - p)] otherwise; in inference mode the layer is the identity. *)
Record Dropout : Type := { p : R }.

Definition nn_Dropout (rate : R) : res Dropout :=
  if Rle_dec 0 rate
  then if Rle_dec rate 1 then Ok {| p := rate |} else Raise ValueError
  else Raise ValueError.

Definition Dropout_forward (training : bool) (d : Dropout) (x : matrix) : M matrix :=
  if training
  then mapM_st (mapM_st (fun a => let* u := torch_rand in
                                    ret (if Rlt_dec u (p d) then 0 else a / (1 - p d)))) x
  else ret x.

(** ** [nn.Embedding] *)

Record Embedding : Type := {
  num_embeddings : nat;
  embedding_dim : nat;
  Embedding_weight : matrix
}.

Definition nn_Embedding (n d : nat) : M Embedding :=
  let* w := rand_matrix n d in
  ret {| num_embeddings := n; embedding_dim := d; Embedding_weight := w |}.

Definition Embedding_forward (e : Embedding) (idx : list nat) : res matrix :=
  mapR (fun i => match nth_error (Embedding_weight e) i with
                 | Some row => Ok row
                 | None => Raise IndexError
                 end) idx.

(** ** [F.layer_norm], [nn.LayerNorm] and the class [LayerNorm] *)

Definition mean (v : vector) : R := vsum v / INR (length v).

Definition variance (v : vector) : R :=
  vsum (map (fun a => (a - mean v) * (a - mean v)) v) / INR (length v).

Definition normalize (eps : R) (v : vector) : vector :=
  map (fun a => (a - mean v) / sqrt (variance v + eps)) v.

Definition affine (weight bias : option vector) (v : vector) : vector :=
  let scaled := match weight with
                | Some w => zip_with Rmult v w
                | None => v
                end in
  match bias with
  | Some b => zip_with Rplus scaled b
  | None => scaled
  end.

Definition shape_is (n : nat) (o : option vector) : bool :=
  match o with
  | Some v => (length v =? n)%nat
  | None => true
  end.

Definition F_layer_norm (input : matrix) (normalized_shape : nat)
    (weight bias : option vector) (eps : R) : res matrix :=
  if shape_is normalized_shape weight && shape_is normalized_shape bias
     && forallb (fun r => (length r =? normalized_shape)%nat) input
  then Ok (map (fun r => affine weight bias (normalize eps r)) input)
  else Raise RuntimeError.

(** [1e-5] *)
Definition eps_default : R := 1 / 100000.

(** torch's own layer: scale and bias are both learned. *)
Record nn_LayerNorm : Type := {
  normalized_shape : nat;
  nn_LayerNorm_weight : vector;
  nn_LayerNorm_bias : vector
}.

Definition nn_LayerNorm_init (ndim : nat) : nn_LayerNorm :=
  {| normalized_shape := ndim;
     nn_LayerNorm_weight := repeat 1 ndim;
     nn_LayerNorm_bias := repeat 0 ndim |}.

Definition nn_LayerNorm_forward (l : nn_LayerNorm) (input : matrix) : res matrix :=
  F_layer_norm input (normalized_shape l) (Some (nn_LayerNorm_weight l))
               (Some (nn_LayerNorm_bias l)) eps_default.

(** The repository's layer: the bias is optional. *)
Record LayerNorm : Type := {
  LayerNorm_weight : vector;
  LayerNorm_bias : option vector
}.

Definition LayerNorm_init (ndim : nat) (bias : bool) : LayerNorm :=
  {| LayerNorm_weight := repeat 1 ndim;
     LayerNorm_bias := if bias then Some (repeat 0 ndim) else None |}.

Definition LayerNorm_forward (l : LayerNorm) (input : matrix) : res matrix :=
  F_layer_norm input (length (LayerNorm_weight l)) (Some (LayerNorm_weight l))
               (LayerNorm_bias l) eps_default.

(** ** Activations *)

Definition ReLU (a : R) : R := Rmax 0 a.

Definition gauss (t : R) : R := exp (- (t * t)).

(** [gauss] is integrable on every interval, which defines [erf]. *)
Definition gauss_integrable (a b : R) : Riemann_integrable gauss a b.
Proof.
  assert (Hc : continuity gauss) by (unfold gauss; apply derivable_continuous; reg).
  destruct (Rle_dec a b) as [Hab | Hab].
  - apply continuity_implies_RiemannInt; [exact Hab | intros t _; apply Hc].
  - apply RiemannInt_P1, continuity_implies_RiemannInt; [lra | intros t _; apply Hc].
Qed.

Definition erf (a : R) : R := 2 / sqrt PI * RiemannInt (gauss_integrable 0 a).

Definition GELU (a : R) : R := a * (1 / 2) * (1 + erf (a / sqrt 2)).

(** ** [FeedFoward] and [FeedFowardGPT2] *)

Record FeedFoward : Type := {
  FeedFoward_net0 : Linear;
  FeedFoward_net2 : Linear;
  FeedFoward_net3 : Dropout
}.

Definition FeedFoward_init (n_embd : nat) (dropout : R) : M FeedFoward :=
  let* l0 := nn_Linear n_embd (4 * n_embd) true in
  let* l2 := nn_Linear (4 * n_embd) n_embd true in
  let* d := lift (nn_Dropout dropout) in
  ret {| FeedFoward_net0 := l0; FeedFoward_net2 := l2; FeedFoward_net3 := d |}.

Definition FeedFoward_forward (training : bool) (f : FeedFoward) (x : matrix) : M matrix :=
  let* h := lift (Linear_forward (FeedFoward_net0 f) x) in
  let a := map (map ReLU) h in
  let* o := lift (Linear_forward (FeedFoward_net2 f) a) in
  Dropout_forward training (FeedFoward_net3 f) o.

Record FeedFowardGPT2 : Type := {
  FeedFowardGPT2_net0 : Linear;
  FeedFowardGPT2_net2 : Linear;
  FeedFowardGPT2_net3 : Dropout
}.

Definition FeedFowardGPT2_init (n_embd : nat) (dropout : R) : M FeedFowardGPT2 :=
  let* l0 := nn_Linear n_embd (4 * n_embd) true in
  let* l2 := nn_Linear (4 * n_embd) n_embd true in
  let* d := lift (nn_Dropout dropout) in
  ret {| FeedFowardGPT2_net0 := l0; FeedFowardGPT2_net2 := l2;
         FeedFowardGPT2_net3 := d |}.

Definition FeedFowardGPT2_forward (training : bool) (f : FeedFowardGPT2) (x : matrix)
    : M matrix :=
  let* h := lift (Linear_forward (FeedFowardGPT2_net0 f) x) in
  let a := map (map GELU) h in
  let* o := lift (Linear_forward (FeedFowardGPT2_net2 f) a) in
  Dropout_forward training (FeedFowardGPT2_net3 f) o.

(** ** [Head]: one head of self-attention *)

Record Head : Type := {
  Head_key : Linear;
  Head_query : Linear;
  Head_value : Linear;
  Head_tril : matrix;
  Head_dropout : Dropout
}.

Definition Head_init (head_size n_embd block_size : nat) (dropout : R) : M Head :=
  let* k := nn_Linear n_embd head_size false in
  let* q := nn_Linear n_embd head_size false in
  let* v := nn_Linear n_embd head_size false in
  let* d := lift (nn_Dropout dropout) in
  ret {| Head_key := k; Head_query := q; Head_value := v;
         Head_tril := torch_tril (torch_ones block_size block_size);
         Head_dropout := d |}.

(** The attention weights [wei] of [Head.forward], as they stand after the
    dropout of line 193. *)
Definition Head_attention (training : bool) (h : Head) (x : matrix) : M matrix :=
  let T := length x in
  let* k := lift (Linear_forward (Head_key h) x) in
  let* q := lift (Linear_forward (Head_query h) x) in
  let* qk := lift (matmul q (transpose k)) in
  let* c := lift (pow_neg_half (out_features (Head_key h))) in
  let wei := scale c qk in
  let* wei := lift (masked_fill wei (eq_zero (slice2 T (Head_tril h)))) in
  let* wei := lift (mapR softmax wei) in
  Dropout_forward training (Head_dropout h) wei.

Definition Head_forward (training : bool) (h : Head) (x : matrix) : M matrix :=
  let* wei := Head_attention training h x in
  let* v := lift (Linear_forward (Head_value h) x) in
  lift (matmul wei v).

(** ** [MultiHeadAttention] *)

Record MultiHeadAttention : Type := {
  MultiHeadAttention_heads : list Head;
  MultiHeadAttention_proj : Linear;
  MultiHeadAttention_dropout : Dropout
}.

Definition MultiHeadAttention_init (num_heads head_size n_embd block_size : nat)
    (dropout : R) : M MultiHeadAttention :=
  let* hs := mapM_st (fun _ => Head_init head_size n_embd block_size dropout)
                      (seq 0 num_heads) in
  let* pr := nn_Linear n_embd n_embd true in
  let* d := lift (nn_Dropout dropout) in
  ret {| MultiHeadAttention_heads := hs; MultiHeadAttention_proj := pr;
         MultiHeadAttention_dropout := d |}.

(** [torch.cat(ts, dim=-1)]: the tensors agree on the number of rows
    (RuntimeError otherwise); an empty list of tensors is refused with
    ValueError. *)
Fixpoint torch_cat_last (ts : list matrix) : res matrix :=
  match ts with
  | [] => Raise ValueError
  | [t] => Ok t
  | t :: ts' =>
      let? r := torch_cat_last ts' in
      if (length t =? length r)%nat
      then Ok (zip_with (@app R) t r)
      else Raise RuntimeError
  end.

Definition MultiHeadAttention_forward (training : bool) (m : MultiHeadAttention)
    (x : matrix) : M matrix :=
  let* outs := mapM_st (fun h => Head_forward training h x)
                        (MultiHeadAttention_heads m) in
  let* out := lift (torch_cat_last outs) in
  let* out := lift (Linear_forward (MultiHeadAttention_proj m) out) in
  Dropout_forward training (MultiHeadAttention_dropout m) out.

(** [a // b] on Python ints. *)
Definition floordiv (a b : nat) : res nat :=
  if (b =? 0)%nat then Raise ZeroDivisionError else Ok (a / b)%nat.

(** ** The three transformer blocks *)

Record Block : Type := {
  Block_sa : MultiHeadAttention;
  Block_ffwd : FeedFoward;
  Block_ln1 : nn_LayerNorm;
  Block_ln2 : nn_LayerNorm
}.

Definition Block_init (n_embd n_head block_size : nat) (dropout : R) : M Block :=
  let* head_size := lift (floordiv n_embd n_head) in
  let* sa := MultiHeadAttention_init n_head head_size n_embd block_size dropout in
  let* ff := FeedFoward_init n_embd dropout in
  ret {| Block_sa := sa; Block_ffwd := ff;
         Block_ln1 := nn_LayerNorm_init n_embd;
         Block_ln2 := nn_LayerNorm_init n_embd |}.

Definition Block_forward (training : bool) (b : Block) (x : matrix) : M matrix :=
  let* n1 := lift (nn_LayerNorm_forward (Block_ln1 b) x) in
  let* a := MultiHeadAttention_forward training (Block_sa b) n1 in
  let* x := lift (tensor_add x a) in
  let* n2 := lift (nn_LayerNorm_forward (Block_ln2 b) x) in
  let* f := FeedFoward_forward training (Block_ffwd b) n2 in
  let* x := lift (tensor_add x f) in
  ret x.

Record BlockGPT1 : Type := {
  BlockGPT1_multi_head : MultiHeadAttention;
  BlockGPT1_ffwd : FeedFoward;
  BlockGPT1_ln1 : nn_LayerNorm;
  BlockGPT1_ln2 : nn_LayerNorm
}.

Definition BlockGPT1_init (n_embd n_head block_size : nat) (dropout : R) : M BlockGPT1 :=
  let* head_size := lift (floordiv n_embd n_head) in
  let* mh := MultiHeadAttention_init n_head head_size n_embd block_size dropout in
  let* ff := FeedFoward_init n_embd dropout in
  ret {| BlockGPT1_multi_head := mh; BlockGPT1_ffwd := ff;
         BlockGPT1_ln1 := nn_LayerNorm_init n_embd;
         BlockGPT1_ln2 := nn_LayerNorm_init n_embd |}.

Definition BlockGPT1_forward (training : bool) (b : BlockGPT1) (x : matrix) : M matrix :=
  let* a := MultiHeadAttention_forward training (BlockGPT1_multi_head b) x in
  let* x := lift (tensor_add a x) in
  let* x := lift (nn_LayerNorm_forward (BlockGPT1_ln1 b) x) in
  let* f := FeedFoward_forward training (BlockGPT1_ffwd b) x in
  let* x := lift (tensor_add f x) in
  let* x := lift (nn_LayerNorm_forward (BlockGPT1_ln2 b) x) in
  ret x.

Record BlockGPT2 : Type := {
  BlockGPT2_multi_head : MultiHeadAttention;
  BlockGPT2_ffwd : FeedFowardGPT2;
  BlockGPT2_ln1 : LayerNorm;
  BlockGPT2_ln2 : LayerNorm
}.

Definition BlockGPT2_init (n_embd n_head block_size : nat) (bias : bool) (dropout : R)
    : M BlockGPT2 :=
  let* head_size := lift (floordiv n_embd n_head) in
  let* mh := MultiHeadAttention_init n_head head_size n_embd block_size dropout in
  let* ff := FeedFowardGPT2_init n_embd dropout in
  ret {| BlockGPT2_multi_head := mh; BlockGPT2_ffwd := ff;
         BlockGPT2_ln1 := LayerNorm_init n_embd bias;
         BlockGPT2_ln2 := LayerNorm_init n_embd bias |}.

Definition BlockGPT2_forward (training : bool) (b : BlockGPT2) (x : matrix) : M matrix :=
  let* n1 := lift (LayerNorm_forward (BlockGPT2_ln1 b) x) in
  let* a := MultiHeadAttention_forward training (BlockGPT2_multi_head b) n1 in
  let* x := lift (tensor_add x a) in
  let* n2 := lift (LayerNorm_forward (BlockGPT2_ln2 b) x) in
  let* f := FeedFowardGPT2_forward training (BlockGPT2_ffwd b) n2 in
  let* x := lift (tensor_add x f) in
  ret x.

(** ** The decoder stacks *)

Record Config : Type := {
  vocab_size : nat;
  dim_embeddings : nat;
  dim_context : nat;
  num_heads : nat;
  n_layer : nat;
  dropout : R;
  bias : bool;
  device : string
}.

(** A batch of token-id sequences, shape (B, T), and a batch of hidden
    states or logits, shape (B, T, D). *)
Definition tokens : Type := list (list nat).
Definition batch : Type := list matrix.

(** [nn.Sequential] over the list of blocks *)
Definition Sequential {L : Type} (forward : bool -> L -> matrix -> M matrix)
    (training : bool) (layers : list L) (x : matrix) : M matrix :=
  foldM_st (fun x l => forward training l x) layers x.

(** Token embedding plus position embedding, the positions being
    [torch.arange(T)] with [T = idx.shape[-1]]. *)
Definition embed (tok pos : Embedding) (idx : tokens) : res batch :=
  let T := ncols idx in
  let? embedding_token := mapR (Embedding_forward tok) idx in
  let? embedding_position := Embedding_forward pos (seq 0 T) in
  mapR (fun t => tensor_add t embedding_position) embedding_token.

Record BigramLanguageModel : Type := {
  BigramLanguageModel_token_embedding_table : Embedding
}.

Definition BigramLanguageModel_init (vocab : nat) : M BigramLanguageModel :=
  let* e := nn_Embedding vocab vocab in
  ret {| BigramLanguageModel_token_embedding_table := e |}.

Definition BigramLanguageModel_forward (m : BigramLanguageModel) (idx : tokens)
    : M batch :=
  lift (mapR (Embedding_forward (BigramLanguageModel_token_embedding_table m)) idx).

Record simpleGPT : Type := {
  simpleGPT_token_embedding_table : Embedding;
  simpleGPT_position_embedding_table : Embedding;
  simpleGPT_blocks : list Block;
  simpleGPT_ln_f : nn_LayerNorm;
  simpleGPT_lm_head : Linear;
  simpleGPT_device : string
}.


Definition simpleGPT_forward (training : bool) (m : simpleGPT) (idx : tokens) : M batch :=
  let* x := lift (embed (simpleGPT_token_embedding_table m)
                        (simpleGPT_position_embedding_table m) idx) in
  let* x := mapM_st (Sequential Block_forward training (simpleGPT_blocks m)) x in
  lift (mapR (Linear_forward (simpleGPT_lm_head m)) x).

Record GPT1 : Type := {
  GPT1_token_embedding_table : Embedding;
  GPT1_position_embedding_table : Embedding;
  GPT1_blocks : list BlockGPT1;
  GPT1_lm_head : Linear;
  GPT1_device : string
}.

Definition GPT1_init (config : Config) : M GPT1 :=
  let* te := nn_Embedding (vocab_size config) (dim_embeddings config) in
  let* pe := nn_Embedding (dim_context config) (dim_embeddings config) in
  let* bs := mapM_st (fun _ => BlockGPT1_init (dim_embeddings config) (num_heads config)
                                               (dim_context config) (dropout config))
                      (seq 0 (n_layer config)) in
  let* hd := nn_Linear (dim_embeddings config) (vocab_size config) true in
  ret {| GPT1_token_embedding_table := te;
         GPT1_position_embedding_table := pe;
         GPT1_blocks := bs;
         GPT1_lm_head := hd;
         GPT1_device := device config |}.

Definition GPT1_forward (training : bool) (m : GPT1) (idx : tokens) : M batch :=
  let* x := lift (embed (GPT1_token_embedding_table m)
                        (GPT1_position_embedding_table m) idx) in
  let* x := mapM_st (Sequential BlockGPT1_forward training (GPT1_blocks m)) x in
  lift (mapR (Linear_forward (GPT1_lm_head m)) x).

Record GPT2 : Type := {
  GPT2_token_embedding_table : Embedding;
  GPT2_position_embedding_table : Embedding;
  GPT2_drop : Dropout;
  GPT2_blocks : list BlockGPT2;
  GPT2_lm_head : Linear;
  GPT2_device : string
}.

Definition GPT2_init (config : Config) : M GPT2 :=
  let* te := nn_Embedding (vocab_size config) (dim_embeddings config) in
  let* pe := nn_Embedding (dim_context config) (dim_embeddings config) in
  let* dr := lift (nn_Dropout (dropout config)) in
  let* bs := mapM_st (fun _ => BlockGPT2_init (dim_embeddings config) (num_heads config)
                                               (dim_context config) (bias config)
                                               (dropout config))
                      (seq 0 (n_layer config)) in
  let* hd := nn_Linear (dim_embeddings config) (vocab_size config) true in
  ret {| GPT2_token_embedding_table := te;
         GPT2_position_embedding_table := pe;
         GPT2_drop := dr;
         GPT2_blocks := bs;
         GPT2_lm_head := hd;
         GPT2_device := device config |}.

Definition GPT2_forward (training : bool) (m : GPT2) (idx : tokens) : M batch :=
  let* x := lift (embed (GPT2_token_embedding_table m)
                        (GPT2_position_embedding_table m) idx) in
  let* x := mapM_st (Dropout_forward training (GPT2_drop m)) x in
  let* x := mapM_st (Sequential BlockGPT2_forward training (GPT2_blocks m)) x in
  lift (mapR (Linear_forward (GPT2_lm_head m)) x).

(** ** [generate]: the autoregressive sampler *)

(** A model as [generate] sees it: a callable with a training flag. *)
Definition Model : Type := bool -> tokens -> M batch.

(** [l[start:]] with Python's reading of a negative start. *)
Definition slice_from {A : Type} (start : Z) (l : list A) : list A :=
  if (start <? 0)%Z
  then skipn (length l - Z.to_nat (- start)) l
  else skipn (Z.to_nat start) l.

(** [t[-1, :]] *)
Definition last_step (t : matrix) : res vector :=
  match t with
  | [] => Raise IndexError
  | _ => Ok (List.last t [])
  end.

(** [torch.multinomial(probs, num_samples=1)] on one row: an index drawn
    with the weights [probs], read off one uniform draw of the random source
    by inversion of the cumulative weights.  torch refuses an empty row, a
    negative weight and a total that is not positive. *)
Fixpoint inverse_cdf (u : R) (probs : vector) : nat :=
  match probs with
  | [] => 0
  | [_] => 0
  | q :: rest => if Rlt_dec u q then 0%nat else S (inverse_cdf (u - q) rest)
  end.

Definition torch_multinomial (probs : vector) : M nat :=
  match probs with
  | [] => lift (Raise RuntimeError)
  | _ =>
      if forallb (fun q => if Rle_dec 0 q then true else false) probs
      then if Rlt_dec 0 (vsum probs)
           then let* u := torch_rand in ret (inverse_cdf (u * vsum probs) probs)
           else lift (Raise RuntimeError)
      else lift (Raise RuntimeError)
  end.

(** [torch.cat((idx, idx_next), dim=1)] *)
Definition torch_cat_dim1 (idx : tokens) (idx_next : list nat) : res tokens :=
  if (length idx =? length idx_next)%nat
  then Ok (zip_with (fun row t => row ++ [t]) idx idx_next)
  else Raise RuntimeError.

(** [idx_cond]: [idx] when [block_size is None], [idx[:, -block_size:]]
    otherwise. *)
Definition context (block_size : option Z) (idx : tokens) : tokens :=
  match block_size with
  | None => idx
  | Some bs => map (slice_from (- bs)) idx
  end.

(** One iteration of the loop of [generate]; [model.eval()] has set the
    mode, so the model is called with the training flag off. *)
Definition generate_step (model : Model) (block_size : option Z) (idx : tokens)
    : M tokens :=
  let idx_cond := context block_size idx in
  let* logits := model false idx_cond in
  let* logits := lift (mapR last_step logits) in
  let* probs := lift (mapR (fun row => softmax (map Fin row)) logits) in
  let* idx_next := mapM_st torch_multinomial probs in
  lift (torch_cat_dim1 idx idx_next).

Fixpoint generate (model : Model) (idx : tokens) (max_new_tokens : nat)
    (block_size : option Z) : M tokens :=
  match max_new_tokens with
  | O => ret idx
  | S n =>
      let* idx := generate_step model block_size idx in
      generate model idx n block_size
  end.

(** ** Shapes of the parameters

    What the constructors establish and the optimizer keeps: the shape of
    every weight and bias, and the mask buffer of a head. *)

Definition Linear_shaped (l : Linear) (n_in n_out : nat) (with_bias : bool) : Prop :=
  in_features l = n_in /\ out_features l = n_out
  /\ length (Linear_weight l) = n_out
  /\ Forall (fun r => length r = n_in) (Linear_weight l)
  /\ match Linear_bias l with
     | Some b => with_bias = true /\ length b = n_out
     | None => with_bias = false
     end.

Definition Head_shaped (h : Head) (head_size n_embd block_size : nat) : Prop :=
  Linear_shaped (Head_key h) n_embd head_size false
  /\ Linear_shaped (Head_query h) n_embd head_size false
  /\ Linear_shaped (Head_value h) n_embd head_size false
  /\ Head_tril h = torch_tril (torch_ones block_size block_size).

Definition MultiHeadAttention_shaped (m : MultiHeadAttention)
    (num_heads head_size n_embd block_size : nat) : Prop :=
  length (MultiHeadAttention_heads m) = num_heads
  /\ Forall (fun h => Head_shaped h head_size n_embd block_size)
            (MultiHeadAttention_heads m)
  /\ Linear_shaped (MultiHeadAttention_proj m) n_embd n_embd true.

(** The mask [tril[:T, :T] == 0] in closed form: entry (i, j) is masked
    when [j > i]. *)
Definition causal_mask (T : nat) : list (list bool) :=
  map (fun i => map (fun j => negb (j <=? i)%nat) (seq 0 T)) (seq 0 T).

(** The scores [w] with [-inf] written where the mask is set. *)
Definition causal_fill (w : matrix) (T : nat) : list (list ext) :=
  map (fun p => zip_with fill (fst p) (snd p)) (combine w (causal_mask T)).

(** ** The compositions of the specification

    Sections 4.5 and 4.6 of the specification word the blocks and the decoder
    stacks as compositions of their parts.  The definitions below follow
    those words; the theorems compare them with the code. *)

(** Variant A and Variant C:
    [x = x + Attention(Norm(x)); x = x + FeedForward(Norm(x))]. *)
Definition pre_norm_composition (Norm1 Norm2 : matrix -> res matrix)
    (Attention FeedForward : matrix -> M matrix) (x : matrix) : M matrix :=
  let* x' := (let* n := lift (Norm1 x) in
              let* a := Attention n in
              lift (tensor_add x a)) in
  let* n := lift (Norm2 x') in
  let* f := FeedForward n in
  lift (tensor_add x' f).

(** Variant B:
    [x = Norm(Attention(x) + x); x = Norm(FeedForward(x) + x)]. *)
Definition post_norm_composition (Norm1 Norm2 : matrix -> res matrix)
    (Attention FeedForward : matrix -> M matrix) (x : matrix) : M matrix :=
  let* x' := (let* a := Attention x in
              let* s := lift (tensor_add a x) in
              lift (Norm1 s)) in
  let* f := FeedForward x' in
  let* s := lift (tensor_add f x') in
  lift (Norm2 s).

(** The decoder stack: embedding, an optional input dropout, the blocks, an
    optional final normalization, the projection to the vocabulary. *)
Definition decoder_composition (tok pos : Embedding)
    (input_dropout : option (matrix -> M matrix)) (blocks : matrix -> M matrix)
    (final_norm : option (matrix -> res matrix)) (lm_head : Linear) (idx : tokens)
    : M batch :=
  let* x := lift (embed tok pos idx) in
  let* x := match input_dropout with
            | Some drop => mapM_st drop x
            | None => ret x
            end in
  let* x := mapM_st blocks x in
  let* x := match final_norm with
            | Some norm => lift (mapR norm x)
            | None => ret x
            end in
  lift (mapR (Linear_forward lm_head) x).


(** ** A small GPT2 and a bigram model

    [GPT2(Config(vocab_size=2, dim_embeddings=1, dim_context=2, num_heads=1,
    n_layer=1, dropout=0, bias=True))] with chosen parameters: the two
    tokens embed to 1 and 2, the positions to 0, the attention and
    feed-forward weights are 0, the head reads logit 0 off the feature. *)

Definition zero_Linear (n_in n_out : nat) (with_bias : bool) : Linear :=
  {| in_features := n_in; out_features := n_out;
     Linear_weight := repeat (repeat 0 n_in) n_out;
     Linear_bias := if with_bias then Some (repeat 0 n_out) else None |}.

Definition no_dropout : Dropout := {| p := 0 |}.

Definition tiny_head : Head :=
  {| Head_key := zero_Linear 1 1 false;
     Head_query := zero_Linear 1 1 false;
     Head_value := zero_Linear 1 1 false;
     Head_tril := torch_tril (torch_ones 2 2);
     Head_dropout := no_dropout |}.

Definition tiny_block : BlockGPT2 :=
  {| BlockGPT2_multi_head :=
       {| MultiHeadAttention_heads := [tiny_head];
          MultiHeadAttention_proj := zero_Linear 1 1 true;
          MultiHeadAttention_dropout := no_dropout |};
     BlockGPT2_ffwd :=
       {| FeedFowardGPT2_net0 := zero_Linear 1 4 true;
          FeedFowardGPT2_net2 := zero_Linear 4 1 true;
          FeedFowardGPT2_net3 := no_dropout |};
     BlockGPT2_ln1 := LayerNorm_init 1 true;
     BlockGPT2_ln2 := LayerNorm_init 1 true |}.

Definition tiny_GPT2 : GPT2 :=
  {| GPT2_token_embedding_table :=
       {| num_embeddings := 2; embedding_dim := 1; Embedding_weight := [[1]; [2]] |};
     GPT2_position_embedding_table :=
       {| num_embeddings := 2; embedding_dim := 1; Embedding_weight := [[0]; [0]] |};
     GPT2_drop := no_dropout;
     GPT2_blocks := [tiny_block];
     GPT2_lm_head :=
       {| in_features := 1; out_features := 2;
          Linear_weight := [[1]; [0]]; Linear_bias := Some [0; 0] |};
     GPT2_device := "cpu" |}.

Definition rng0 : rng := {| tape := fun _ => 0; cursor := 0 |}.

Definition tiny_bigram : BigramLanguageModel :=
  {| BigramLanguageModel_token_embedding_table :=
       {| num_embeddings := 2; embedding_dim := 2;
          Embedding_weight := [[0; 0]; [0; 0]] |} |}.


Definition tiny_GPT2_model : Model :=
  fun training idx => GPT2_forward training tiny_GPT2 idx.

(** ** The sampler and the context window

    [extends V n idx out]: every row of [out] is the row of [idx] followed
    by [n] token ids below [V]. *)
Definition extends (V n : nat) (idx out : tokens) : Prop :=
  Forall2 (fun r r' => exists new, r' = r ++ new /\ length new = n
                                   /\ Forall (fun t => (t < V)%nat) new)
          idx out.

(** The model answers the context of [idx] with logits over [V] tokens for
    the last time step of every sequence. *)
Definition model_returns (model : Model) (V : nat) (block_size : option Z)
    (idx : tokens) (g : rng) : Prop :=
  exists logits g',
    model false (context block_size idx) g = Ok (logits, g')
    /\ length logits = length idx
    /\ Forall (fun t => exists v, last_step t = Ok v /\ length v = V) logits.



(** ** Attention in closed form

    [attend h pre xi]: the output of a head for the row [xi] when [pre] holds
    the rows the mask lets it see, [xi] being the last of them: the values
    of [pre] averaged with the softmax of the scaled scores of the query of
    [xi] against the keys of [pre]. *)
Definition attend (h : Head) (pre : matrix) (xi : vector) : vector :=
  let c := / sqrt (INR (out_features (Head_key h))) in
  let q := Linear_row (Head_query h) xi in
  let scores := map (fun xj => dot q (Linear_row (Head_key h) xj) * c) pre in
  let weights := map (fun s => exp s / vsum (map exp scores)) scores in
  map (fun col => dot weights (column col (map (Linear_row (Head_value h)) pre)))
      (seq 0 (out_features (Head_value h))).

(** ** Layers in inference mode

    [causal_layer d_in d_out bs f]: on every input of at most [bs] rows of
    width [d_in], [f] returns as many rows of width [d_out], the same for
    every state of the random source, which it leaves as it is; and [f]
    commutes with taking the first [k] rows: the first [k] rows of the
    output are the output on the first [k] rows. *)
Definition causal_layer (d_in d_out bs : nat) (f : matrix -> M matrix) : Prop :=
  forall (x : matrix),
    Forall (fun r => length r = d_in) x ->
    (length x <= bs)%nat ->
    exists out,
      (forall g, f x g = Ok (out, g))
      /\ length out = length x
      /\ Forall (fun r => length r = d_out) out
      /\ forall k g, f (firstn k x) g = Ok (firstn k out, g).

(** ** Shapes of the remaining layers and of the decoder stacks *)

Definition nn_LayerNorm_shaped (l : nn_LayerNorm) (n : nat) : Prop :=
  normalized_shape l = n
  /\ length (nn_LayerNorm_weight l) = n
  /\ length (nn_LayerNorm_bias l) = n.

Definition LayerNorm_shaped (l : LayerNorm) (n : nat) : Prop :=
  length (LayerNorm_weight l) = n
  /\ match LayerNorm_bias l with
     | Some b => length b = n
     | None => True
     end.

Definition FeedFoward_shaped (f : FeedFoward) (n_embd : nat) : Prop :=
  Linear_shaped (FeedFoward_net0 f) n_embd (4 * n_embd) true
  /\ Linear_shaped (FeedFoward_net2 f) (4 * n_embd) n_embd true.

Definition FeedFowardGPT2_shaped (f : FeedFowardGPT2) (n_embd : nat) : Prop :=
  Linear_shaped (FeedFowardGPT2_net0 f) n_embd (4 * n_embd) true
  /\ Linear_shaped (FeedFowardGPT2_net2 f) (4 * n_embd) n_embd true.

Definition Block_shaped (b : Block) (n_embd n_head block_size : nat) : Prop :=
  MultiHeadAttention_shaped (Block_sa b) n_head (n_embd / n_head) n_embd block_size
  /\ FeedFoward_shaped (Block_ffwd b) n_embd
  /\ nn_LayerNorm_shaped (Block_ln1 b) n_embd
  /\ nn_LayerNorm_shaped (Block_ln2 b) n_embd.

Definition BlockGPT1_shaped (b : BlockGPT1) (n_embd n_head block_size : nat) : Prop :=
  MultiHeadAttention_shaped (BlockGPT1_multi_head b) n_head (n_embd / n_head) n_embd
                            block_size
  /\ FeedFoward_shaped (BlockGPT1_ffwd b) n_embd
  /\ nn_LayerNorm_shaped (BlockGPT1_ln1 b) n_embd
  /\ nn_LayerNorm_shaped (BlockGPT1_ln2 b) n_embd.

Definition BlockGPT2_shaped (b : BlockGPT2) (n_embd n_head block_size : nat) : Prop :=
  MultiHeadAttention_shaped (BlockGPT2_multi_head b) n_head (n_embd / n_head) n_embd
                            block_size
  /\ FeedFowardGPT2_shaped (BlockGPT2_ffwd b) n_embd
  /\ LayerNorm_shaped (BlockGPT2_ln1 b) n_embd
  /\ LayerNorm_shaped (BlockGPT2_ln2 b) n_embd.

Definition Embedding_shaped (e : Embedding) (n d : nat) : Prop :=
  length (Embedding_weight e) = n
  /\ Forall (fun r => length r = d) (Embedding_weight e).

Definition simpleGPT_shaped (m : simpleGPT) (vocab n_embd heads block_size layers : nat)
    : Prop :=
  Embedding_shaped (simpleGPT_token_embedding_table m) vocab n_embd
  /\ Embedding_shaped (simpleGPT_position_embedding_table m) block_size n_embd
  /\ length (simpleGPT_blocks m) = layers
  /\ Forall (fun b => Block_shaped b n_embd heads block_size) (simpleGPT_blocks m)
  /\ Linear_shaped (simpleGPT_lm_head m) n_embd vocab true.

Definition GPT1_shaped (m : GPT1) (config : Config) : Prop :=
  Embedding_shaped (GPT1_token_embedding_table m) (vocab_size config)
                   (dim_embeddings config)
  /\ Embedding_shaped (GPT1_position_embedding_table m) (dim_context config)
                      (dim_embeddings config)
  /\ length (GPT1_blocks m) = n_layer config
  /\ Forall (fun b => BlockGPT1_shaped b (dim_embeddings config) (num_heads config)
                                       (dim_context config))
            (GPT1_blocks m)
  /\ Linear_shaped (GPT1_lm_head m) (dim_embeddings config) (vocab_size config) true.

Definition GPT2_shaped (m : GPT2) (config : Config) : Prop :=
  Embedding_shaped (GPT2_token_embedding_table m) (vocab_size config)
                   (dim_embeddings config)
  /\ Embedding_shaped (GPT2_position_embedding_table m) (dim_context config)
                      (dim_embeddings config)
  /\ length (GPT2_blocks m) = n_layer config
  /\ Forall (fun b => BlockGPT2_shaped b (dim_embeddings config) (num_heads config)
                                       (dim_context config))
            (GPT2_blocks m)
  /\ Linear_shaped (GPT2_lm_head m) (dim_embeddings config) (vocab_size config) true.

(** The head count divides the embedding width, and the heads have a
    positive size. *)
Definition heads_divide (n_embd n_head : nat) : Prop :=
  (1 <= n_head)%nat /\ (1 <= n_embd)%nat /\ (n_embd mod n_head = 0)%nat.

(** A batch of [T] token ids per sequence, every id below [V]. *)
Definition in_vocab (V T : nat) (idx : tokens) : Prop :=
  Forall (fun r => length r = T /\ Forall (fun t => (t < V)%nat) r) idx.

(** One embedded sequence in closed form: row [t] is the row of the token
    table that the token at position [t] selects plus row [t] of the
    position table. *)
Definition embed_row (tok pos : Embedding) (row : list nat) : matrix :=
  map (fun p => zip_with Rplus (nth (fst p) (Embedding_weight tok) [])
                               (nth (snd p) (Embedding_weight pos) []))
      (combine row (seq 0 (length row))).

(** ** Small instances of the other two stacks

    [GPT1] and [simpleGPT] of the same size as [tiny_GPT2], with the same
    parameters. *)

Definition tiny_attention : MultiHeadAttention :=
  {| MultiHeadAttention_heads := [tiny_head];
     MultiHeadAttention_proj := zero_Linear 1 1 true;
     MultiHeadAttention_dropout := no_dropout |}.

Definition tiny_ffwd : FeedFoward :=
  {| FeedFoward_net0 := zero_Linear 1 4 true;
     FeedFoward_net2 := zero_Linear 4 1 true;
     FeedFoward_net3 := no_dropout |}.

Definition tiny_Block : Block :=
  {| Block_sa := tiny_attention; Block_ffwd := tiny_ffwd;
     Block_ln1 := nn_LayerNorm_init 1; Block_ln2 := nn_LayerNorm_init 1 |}.

Definition tiny_BlockGPT1 : BlockGPT1 :=
  {| BlockGPT1_multi_head := tiny_attention; BlockGPT1_ffwd := tiny_ffwd;
     BlockGPT1_ln1 := nn_LayerNorm_init 1; BlockGPT1_ln2 := nn_LayerNorm_init 1 |}.

Definition tiny_config : Config :=
  {| vocab_size := 2; dim_embeddings := 1; dim_context := 2; num_heads := 1;
     n_layer := 1; dropout := 0; bias := true; device := "cpu" |}.

Definition tiny_GPT1 : GPT1 :=
  {| GPT1_token_embedding_table := GPT2_token_embedding_table tiny_GPT2;
     GPT1_position_embedding_table := GPT2_position_embedding_table tiny_GPT2;
     GPT1_blocks := [tiny_BlockGPT1];
     GPT1_lm_head := GPT2_lm_head tiny_GPT2;
     GPT1_device := "cpu" |}.

Definition tiny_simpleGPT : simpleGPT :=
  {| simpleGPT_token_embedding_table := GPT2_token_embedding_table tiny_GPT2;
     simpleGPT_position_embedding_table := GPT2_position_embedding_table tiny_GPT2;
     simpleGPT_blocks := [tiny_Block];
     simpleGPT_ln_f := nn_LayerNorm_init 1;
     simpleGPT_lm_head := GPT2_lm_head tiny_GPT2;
     simpleGPT_device := "cpu" |}.

(** [depends_on_past d_in d_out bs f]: [f] returns on every input of at most
    [bs] rows of width [d_in], whatever the state of the random source,
    which it leaves as it is; and two inputs that agree on their first [k]
    rows give outputs that agree on their first [k] rows. *)
Definition depends_on_past (d_in d_out bs : nat) (f : matrix -> M matrix) : Prop :=
  forall (x x' : matrix) (k : nat) (g g' : rng),
    Forall (fun r => length r = d_in) x -> (length x <= bs)%nat ->
    Forall (fun r => length r = d_in) x' -> (length x' <= bs)%nat ->
    firstn k x = firstn k x' ->
    exists out out',
      f x g = Ok (out, g) /\ f x' g' = Ok (out', g')
      /\ length out = length x
      /\ Forall (fun r => length r = d_out) out
      /\ firstn k out = firstn k out'.

(** The models as [generate] calls them: [model(idx_cond)] in the mode that
    [model.eval()] has set. *)
Definition BigramLanguageModel_model (m : BigramLanguageModel) : Model :=
  fun _ idx => BigramLanguageModel_forward m idx.

Definition GPT2_model (m : GPT2) : Model :=
  fun training idx => GPT2_forward training m idx.

(** ** [LastTimeStep]

    The hidden state of torch's recurrent modules is a contiguous tensor of
    three dimensions, (num_layers * num_directions, batch, hidden_size): its
    extents and its entries in row-major order.  [view] and [reshape]
    reinterpret the entries; an extent given as [-1] is inferred, and torch
    refuses the call when the product of the other extents is 0 or does not
    divide the number of entries. *)

Record tensor3 : Type := {
  shape0 : nat;
  shape1 : nat;
  shape2 : nat;
  storage : vector
}.

(** The second item of what a recurrent module returns: [h_t], or the tuple
    [(h_t, c_t)] of an LSTM. *)
Inductive rnn_state : Type :=
| h_t (h : tensor3)
| h_c (h c : tensor3).

Record LastTimeStep : Type := {
  rnn_layers : nat;
  num_driections : nat
}.

Definition LastTimeStep_init (layers : nat) (bidirectional : bool) : LastTimeStep :=
  {| rnn_layers := layers; num_driections := if bidirectional then 2%nat else 1%nat |}.

(** [l] cut into [n] runs of [len] entries. *)
Definition unflatten {A : Type} (n len : nat) (l : list A) : list (list A) :=
  map (fun i => firstn len (skipn (i * len) l)) (seq 0 n).

(** [t.view(a, b, c, -1)] *)
Definition view4 (a b c : nat) (t : vector) : res (list (list matrix)) :=
  let known := (a * b * c)%nat in
  if (known =? 0)%nat then Raise RuntimeError
  else if (length t mod known =? 0)%nat
       then let d := (length t / known)%nat in
            Ok (map (fun x => map (unflatten c d) (unflatten b (c * d) x))
                    (unflatten a (b * c * d) t))
       else Raise RuntimeError.

(** [t[i]] *)
Definition index0 {A : Type} (i : nat) (t : list A) : res A :=
  match nth_error t i with
  | Some x => Ok x
  | None => Raise IndexError
  end.

(** [t.permute(1, 0, 2)] on a tensor whose second extent is [b] *)
Definition permute102 (b : nat) (t : list matrix) : list matrix :=
  map (fun i => map (fun x => nth i x []) t) (seq 0 b).

(** [t.reshape(b, -1)] on a tensor whose first extent is [b], not 0 *)
Definition reshape2 (t : list matrix) : matrix := map (@concat R) t.

Definition LastTimeStep_forward (self : LastTimeStep) (input : batch * rnn_state)
    : res matrix :=
  let last_step := match snd input with
                   | h_t h => h
                   | h_c h _ => h
                   end in
  let batch_size := shape1 last_step in
  let? last_step := view4 (rnn_layers self) (num_driections self) batch_size
                          (storage last_step) in
  let? last_step := index0 (rnn_layers self - 1) last_step in
  let last_step := permute102 batch_size last_step in
  Ok (reshape2 last_step).

(** The tensor that holds the states [hs], one matrix of [b] rows of width
    [h] per layer and direction. *)
Definition tensor_of (b h : nat) (hs : list matrix) : tensor3 :=
  {| shape0 := length hs; shape1 := b; shape2 := h;
     storage := concat (map (@concat R) hs) |}.

(** ** [RNN]

    [nn.RNN(input_size, hidden_size, batch_first=True)]: one layer, one
    direction, the activation [tanh], the initial state 0:
    [h_t = tanh(x_t W_ih^T + b_ih + h_(t-1) W_hh^T + b_hh)].  The module
    returns the states of all time steps and the last state; it refuses a
    sequence of no time step.  The constructor refuses an input size or a
    hidden size of 0 with ValueError. *)

Record nn_RNN : Type := {
  input_size : nat;
  hidden_size : nat;
  RNN_weight_ih : matrix;
  RNN_weight_hh : matrix;
  RNN_bias_ih : vector;
  RNN_bias_hh : vector
}.

Definition nn_RNN_init (n_in n_hidden : nat) : M nn_RNN :=
  let* _ := lift (if ((n_in =? 0) || (n_hidden =? 0))%nat
                  then Raise ValueError else Ok tt) in
  let* w_ih := rand_matrix n_hidden n_in in
  let* w_hh := rand_matrix n_hidden n_hidden in
  let* b_ih := rand_vector n_hidden in
  let* b_hh := rand_vector n_hidden in
  ret {| input_size := n_in; hidden_size := n_hidden;
         RNN_weight_ih := w_ih; RNN_weight_hh := w_hh;
         RNN_bias_ih := b_ih; RNN_bias_hh := b_hh |}.

Definition RNN_cell (r : nn_RNN) (h x : vector) : vector :=
  map tanh (zip_with Rplus
              (zip_with Rplus (map (dot x) (RNN_weight_ih r)) (RNN_bias_ih r))
              (zip_with Rplus (map (dot h) (RNN_weight_hh r)) (RNN_bias_hh r))).

(** The states of one sequence, time step by time step. *)
Fixpoint RNN_states (r : nn_RNN) (h : vector) (xs : matrix) : matrix :=
  match xs with
  | [] => []
  | x :: xs' => let h' := RNN_cell r h x in h' :: RNN_states r h' xs'
  end.

Definition nn_RNN_forward (r : nn_RNN) (x : batch) : res (batch * rnn_state) :=
  if forallb (fun s => forallb (fun v => (length v =? input_size r)%nat) s) x
  then if forallb (fun s => (0 <? length s)%nat) x
       then let out := map (RNN_states r (repeat 0 (hidden_size r))) x in
            Ok (out, h_t (tensor_of (length x) (hidden_size r)
                                    [map (fun s => List.last s []) out]))
       else Raise RuntimeError
  else Raise RuntimeError.

Record RNN : Type := {
  RNN_embedding : Embedding;
  RNN_rnn : nn_RNN;
  RNN_last : LastTimeStep;
  RNN_fc : Linear
}.

Definition RNN_init (vocab dim hidden_nodes n_classes : nat) : M RNN :=
  let* e := nn_Embedding vocab dim in
  let* r := nn_RNN_init dim hidden_nodes in
  let* fc := nn_Linear hidden_nodes n_classes true in
  ret {| RNN_embedding := e; RNN_rnn := r;
         RNN_last := LastTimeStep_init 1 false; RNN_fc := fc |}.

Definition RNN_forward (m : RNN) (x : tokens) : res matrix :=
  let? e := mapR (Embedding_forward (RNN_embedding m)) x in
  let? r := nn_RNN_forward (RNN_rnn m) e in
  let? l := LastTimeStep_forward (RNN_last m) r in
  Linear_forward (RNN_fc m) l.

Definition nn_RNN_shaped (r : nn_RNN) (dim hidden : nat) : Prop :=
  input_size r = dim /\ hidden_size r = hidden
  /\ length (RNN_weight_ih r) = hidden
  /\ Forall (fun w => length w = dim) (RNN_weight_ih r)
  /\ length (RNN_weight_hh r) = hidden
  /\ Forall (fun w => length w = hidden) (RNN_weight_hh r)
  /\ length (RNN_bias_ih r) = hidden
  /\ length (RNN_bias_hh r) = hidden.

Definition RNN_shaped (m : RNN) (vocab dim hidden n_classes : nat) : Prop :=
  Embedding_shaped (RNN_embedding m) vocab dim
  /\ nn_RNN_shaped (RNN_rnn m) dim hidden
  /\ RNN_last m = LastTimeStep_init 1 false
  /\ Linear_shaped (RNN_fc m) hidden n_classes true.

(** [RNN(vocab_size=2, dim_embeddings=1, hidden_nodes=1, n_classes=2)] with
    chosen parameters. *)
Definition tiny_RNN : RNN :=
  {| RNN_embedding :=
       {| num_embeddings := 2; embedding_dim := 1; Embedding_weight := [[1]; [2]] |};
     RNN_rnn := {| input_size := 1; hidden_size := 1;
                   RNN_weight_ih := [[1]]; RNN_weight_hh := [[0]];
                   RNN_bias_ih := [0]; RNN_bias_hh := [0] |};
     RNN_last := LastTimeStep_init 1 false;
     RNN_fc := zero_Linear 1 2 true |}.
End models.

Module training.

(** A Python float as the loop stores it: a number, or [float("NaN")]. *)
Inductive pyfloat (num : Type) : Type :=
| Float (v : num)
| NaN.

Arguments Float {num} v.
Arguments NaN {num}.

Section Loop.

(** The tensors, the model's parameters and the numbers are opaque to the
    loop: [Features] and [Labels] are the two halves of a batch, [Output] is
    what the model returns, [LossT] what the loss function returns, [Params]
    the parameters of the model with the state of its optimizer. *)
Context {Features Labels Output LossT Label Pred Preds Params num : Type}.

(** Library calls of [run_epoch] and [train]. *)
Variable item : LossT -> pyfloat num.
Variable is_tensor : Labels -> bool.
Variable labels_tolist : Labels -> list Label.
Variable output_tolist : Output -> list Pred.
(** [np.asarray], then [np.argmax] over axis 1 for a 2-D array of more than
    one column. *)
Variable np_asarray_argmax : list Pred -> Preds.
Variable np_mean : list (pyfloat num) -> pyfloat num.
(** [end - start] *)
Variable elapsed : num -> num -> num.
(** [torch.save] and [torch.onnx.export] *)
Variable persist : Params -> Features -> res unit.

Definition scorer : Type := list Label -> Preds -> res (pyfloat num).

(** The fields the loop reads.  [model] is the forward pass on given
    parameters and mode; [optimizer] is the update of one step, with [lr]
    inside it; [score_funcs] holds the items of the dictionary in insertion
    order; [save_path] and [model_name] are inside [persist]; [device] has
    no effect on the values. *)
Record TrainingConfig : Type := {
  model : Params -> bool -> Features -> res Output;
  loss_func : Output -> Labels -> res LossT;
  training_loader : list (Features * Labels);
  validation_loader : option (list (Features * Labels));
  optimizer : Params -> LossT -> Params;
  epochs : nat;
  save_model : bool;
  score_funcs : list (string * scorer)
}.

(** The clock behind [time.time()]: a tape of readings and a cursor. *)
Record clock : Type := { reading : nat -> num; ticks : nat }.

(** What the loop mutates besides [results]: the parameters, the mode flag
    [model.training], the clock. *)
Record env : Type := {
  params : Params;
  model_training : bool;
  clk : clock
}.

Definition time_time : ST env num :=
  fun e => Ok (reading (clk e) (ticks (clk e)),
               {| params := params e; model_training := model_training e;
                  clk := {| reading := reading (clk e); ticks := S (ticks (clk e)) |} |}).

(** [config.model.train()] and [config.model.eval()] *)
Definition set_mode (b : bool) : ST env unit :=
  fun e => Ok (tt, {| params := params e; model_training := b; clk := clk e |}).

(** [loss.backward(); optimizer.step(); optimizer.zero_grad()] *)
Definition optimizer_step (config : TrainingConfig) (loss : LossT) : ST env unit :=
  fun e => Ok (tt, {| params := optimizer config (params e) loss;
                      model_training := model_training e; clk := clk e |}).

(** The dictionary [results]. *)
Local Abbreviation results_t := (gmap string (list (pyfloat num))).

(** [results[key].append(v)] *)
Definition append (results : results_t) (key : string) (v : pyfloat num)
    : res results_t :=
  match results !! key with
  | Some l => Ok (<[key := l ++ [v]]> results)
  | None => Raise KeyError
  end.

(** The locals of the batch loop of [run_epoch]. *)
Record locals : Type := {
  running_loss : list (pyfloat num);
  y_true : list Label;
  y_pred : list Pred;
  x_last : option Features
}.

Definition batch_step (config : TrainingConfig) (a : locals) (xy : Features * Labels)
    : ST env locals :=
  let x := fst xy in
  let y := snd xy in
  let* e := get in
  let* y_hat := lift (model config (params e) (model_training e) x) in
  let* loss := lift (loss_func config y_hat y) in
  let* _ := (if model_training e then optimizer_step config loss else ret tt) in
  let tracked := (0 <? length (score_funcs config)) && is_tensor y in
  ret {| running_loss := running_loss a ++ [item loss];
         y_true := if tracked then y_true a ++ labels_tolist y else y_true a;
         y_pred := if tracked then y_pred a ++ output_tolist y_hat else y_pred a;
         x_last := Some x |}.

(** Lines 108 to 112: one entry per scoring function, its value or NaN
    where it raises. *)
Definition score_entry (score_func : scorer) (yt : list Label) (yp : Preds)
    : pyfloat num :=
  match score_func yt yp with
  | Ok v => v
  | Raise _ => NaN
  end.

Definition record_scores (prefix : string) (yt : list Label) (yp : Preds)
    (scores : list (string * scorer)) (results : results_t) : res results_t :=
  fold_left (fun acc nf => let? r := acc in
                           append r (prefix +:+ "_" +:+ fst nf)
                                  (score_entry (snd nf) yt yp))
            scores (Ok results).

Definition select_loader (config : TrainingConfig) (prefix : string)
    : res (list (Features * Labels)) :=
  if String.eqb prefix "training" then Ok (training_loader config)
  else if String.eqb prefix "validation"
       then match validation_loader config with
            | Some l => Ok l
            | None => Raise TypeError
            end
       else Raise UnboundLocalError.

Definition run_epoch (config : TrainingConfig) (results : results_t) (prefix : string)
    : ST env (results_t * (num * Features)) :=
  let* data_loader := lift (select_loader config prefix) in
  let* start := time_time in
  let* a := foldM_st (batch_step config) data_loader
                     {| running_loss := []; y_true := []; y_pred := [];
                        x_last := None |} in
  let* stop := time_time in
  let yp := np_asarray_argmax (y_pred a) in
  let* results := lift (record_scores prefix (y_true a) yp (score_funcs config)
                                      results) in
  let* results := lift (append results (prefix +:+ "_loss")
                               (np_mean (running_loss a))) in
  match x_last a with
  | Some x => ret (results, (elapsed stop start, x))
  | None => lift (Raise UnboundLocalError)
  end.

Definition to_track (config : TrainingConfig) : list string :=
  ["epoch_time"; "training_loss"]
  ++ match validation_loader config with
     | Some _ => ["validation_loss"]
     | None => []
     end
  ++ flat_map (fun nf => ["training_" +:+ fst nf; "validation_" +:+ fst nf])
              (score_funcs config).

Definition init_results (keys : list string) : results_t :=
  fold_left (fun r key => <[key := []]> r) keys ∅.

Definition epoch (config : TrainingConfig) (st : results_t * option Features)
    : ST env (results_t * option Features) :=
  let results := fst st in
  let* _ := set_mode true in
  let* r := run_epoch config results "training" in
  let results := fst r in
  let epoch_time := fst (snd r) in
  let x_sample := snd (snd r) in
  let* results := match validation_loader config with
                   | Some _ =>
                       let* _ := set_mode false in
                       let* r := run_epoch config results "validation" in
                       ret (fst r)
                   | None => ret results
                   end in
  let* results := lift (append results "epoch_time" (Float epoch_time)) in
  ret (results, Some x_sample).

(** The dictionary [results] as it stands when the loop over the epochs is
    left, with [x_sample] if it was bound. *)
Definition epochs_loop (config : TrainingConfig) : ST env (results_t * option Features) :=
  foldM_st (fun st _ => epoch config st) (seq 0 (epochs config))
           (init_results (to_track config), None).

(** [pd.DataFrame.from_dict]: the columns must agree on their length. *)
Definition DataFrame_from_dict (results : results_t) : res results_t :=
  match map_to_list results with
  | [] => Ok results
  | kv :: rest =>
      if forallb (fun kv' => length (snd kv') =? length (snd kv)) rest
      then Ok results
      else Raise ValueError
  end.

Definition train (config : TrainingConfig) : ST env results_t :=
  let* st := epochs_loop config in
  let* _ := (if save_model config
             then match snd st with
                  | Some x_sample =>
                      let* e := get in lift (persist (params e) x_sample)
                  | None => lift (Raise UnboundLocalError)
                  end
             else ret tt) in
  lift (DataFrame_from_dict (fst st)).

(** ** What an epoch writes

    The writes of the loop to [results] are appends; [appends] runs a list
    of them in order.  [epoch_data] collects what one epoch computes: the
    labels, the predictions and the mean loss of the training pass, those of
    the validation pass when there is one, and the time of the epoch. *)

Fixpoint appends (kvs : list (string * pyfloat num)) (results : results_t)
    : res results_t :=
  match kvs with
  | [] => Ok results
  | kv :: kvs' => let? r := append results (fst kv) (snd kv) in appends kvs' r
  end.

Record pass_data : Type := {
  pass_true : list Label;
  pass_pred : Preds;
  pass_loss : pyfloat num
}.

Record epoch_data : Type := {
  training_pass : pass_data;
  validation_pass : option pass_data;
  epoch_time : num
}.

(** The entry of one scoring function for one pass. *)
Definition pass_score (score_func : scorer) (d : pass_data) : pyfloat num :=
  score_entry score_func (pass_true d) (pass_pred d).

Definition pass_writes (config : TrainingConfig) (prefix : string) (d : pass_data)
    : list (string * pyfloat num) :=
  map (fun nf => (prefix +:+ "_" +:+ fst nf, pass_score (snd nf) d))
      (score_funcs config)
  ++ [(prefix +:+ "_loss", pass_loss d)].

Definition epoch_writes (config : TrainingConfig) (d : epoch_data)
    : list (string * pyfloat num) :=
  pass_writes config "training" (training_pass d)
  ++ match validation_pass d with
     | Some v => pass_writes config "validation" v
     | None => []
     end
  ++ [("epoch_time", Float (epoch_time d))].

(** The model and the loss function return on every batch. *)
Definition total (config : TrainingConfig) : Prop :=
  (forall p b x, exists o, model config p b x = Ok o)
  /\ (forall o y, exists l, loss_func config o y = Ok l).

(** Every tracked key is a key of [r]. *)
Definition framed (config : TrainingConfig) (r : results_t) : Prop :=
  forall k, In k (to_track config) -> is_Some (r !! k).

(** The epoch has a validation pass when the configuration has a
    validation loader. *)
Definition consistent (config : TrainingConfig) (d : epoch_data) : Prop :=
  validation_pass d = None <-> validation_loader config = None.

(** The values appended under [key], in order. *)
Definition written (key : string) (kvs : list (string * pyfloat num))
    : list (pyfloat num) :=
  map snd (List.filter (fun kv => String.eqb (fst kv) key) kvs).


(** ** The clock and the mode

    [epoch_ticks]: the clock readings one epoch takes, two per pass.
    [mode_after]: the mode the model is in when an epoch ends, the one the
    last pass has set. *)
Definition epoch_ticks (config : TrainingConfig) : nat :=
  match validation_loader config with
  | Some _ => 4
  | None => 2
  end.

Definition mode_after (config : TrainingConfig) : bool :=
  match validation_loader config with
  | Some _ => false
  | None => true
  end.


(** ** What a pass computes

    For a model and a loss function that return, given as the functions
    [net] and [lossf], what a pass computes is a function of the loader, of
    the mode and of the parameters it starts from.  [batch_params] and
    [pass_params] are the parameters after one batch and after the pass: the
    optimizer steps in training mode only.  [collects] tells whether the
    labels and predictions of a batch are kept (line 93).  [pass_labels],
    [pass_preds] and [pass_losses] are the lists [y_true], [y_pred] and
    [running_loss] when the loop over the batches is left, every batch run
    at the parameters that the batches before it have left.  [pass_of] is
    what the rest of [run_epoch] reads from them.

    [epoch_params p i] are the parameters at the start of epoch [i] when
    the first epoch starts from [p]; only training passes move them.
    [epoch_of p c i] is the data of epoch [i] when the loop over the epochs
    starts from the parameters [p] and the clock [c]: its training pass, its
    validation pass when there is a validation loader, run at the
    parameters the training pass has left, and the time between the first
    two clock readings of the epoch. *)

Section Pass.

Variable net : Params -> bool -> Features -> Output.
Variable lossf : Output -> Labels -> LossT.
Variable config : TrainingConfig.

Definition batch_params (training : bool) (p : Params) (xy : Features * Labels)
    : Params :=
  if training
  then optimizer config p (lossf (net p training (fst xy)) (snd xy))
  else p.

Definition pass_params (training : bool) (p : Params)
    (loader : list (Features * Labels)) : Params :=
  fold_left (batch_params training) loader p.

Definition collects (y : Labels) : bool :=
  (0 <? length (score_funcs config)) && is_tensor y.

Definition pass_labels (loader : list (Features * Labels)) : list Label :=
  flat_map (fun xy => if collects (snd xy) then labels_tolist (snd xy) else [])
           loader.

Fixpoint pass_preds (training : bool) (p : Params)
    (loader : list (Features * Labels)) : list Pred :=
  match loader with
  | [] => []
  | xy :: rest =>
      (if collects (snd xy) then output_tolist (net p training (fst xy)) else [])
      ++ pass_preds training (batch_params training p xy) rest
  end.

Fixpoint pass_losses (training : bool) (p : Params)
    (loader : list (Features * Labels)) : list (pyfloat num) :=
  match loader with
  | [] => []
  | xy :: rest =>
      item (lossf (net p training (fst xy)) (snd xy))
      :: pass_losses training (batch_params training p xy) rest
  end.

Definition pass_of (training : bool) (p : Params)
    (loader : list (Features * Labels)) : pass_data :=
  {| pass_true := pass_labels loader;
     pass_pred := np_asarray_argmax (pass_preds training p loader);
     pass_loss := np_mean (pass_losses training p loader) |}.

Definition epoch_params (p : Params) (i : nat) : Params :=
  Nat.iter i (fun q => pass_params true q (training_loader config)) p.

Definition epoch_of (p : Params) (c : clock) (i : nat) : epoch_data :=
  let q := epoch_params p i in
  let t := ticks c + epoch_ticks config * i in
  {| training_pass := pass_of true q (training_loader config);
     validation_pass :=
       match validation_loader config with
       | Some vl => Some (pass_of false (epoch_params p (S i)) vl)
       | None => None
       end;
     epoch_time := elapsed (reading c (S t)) (reading c t) |}.

End Pass.
End Loop.

(** ** A small run

    Batches, outputs and numbers are natural numbers; the model returns its
    input, the loss is the sum of output and label, the clock reads its own
    tick count.  The scoring function ["accuracy"] counts the labels when
    [raising] is off and raises when it is on. *)

Definition example_scorer (raising : bool) : list nat -> list nat -> res (pyfloat nat) :=
  fun y_true _ => if raising then Raise ValueError else Ok (Float (length y_true)).

Definition example_config (with_validation raising : bool)
    : @TrainingConfig nat nat nat nat nat (list nat) unit nat :=
  {| model := fun _ _ x => Ok x;
     loss_func := fun o y => Ok (o + y);
     training_loader := [(1, 1); (2, 0)];
     validation_loader := if with_validation then Some [(3, 1)] else None;
     optimizer := fun p _ => p;
     epochs := 2;
     save_model := false;
     score_funcs := [("accuracy", example_scorer raising)] |}.

Definition example_env : @env unit nat :=
  {| params := tt; model_training := false;
     clk := {| reading := fun n => n; ticks := 0 |} |}.

Definition example_mean (l : list (pyfloat nat)) : pyfloat nat :=
  match l with
  | [] => NaN
  | _ => Float (fold_right (fun v s => match v with
                                       | Float n => n + s
                                       | NaN => s
                                       end) 0 l / length l)
  end.

Definition example_train (config : @TrainingConfig nat nat nat nat nat (list nat) unit nat)
    : ST (@env unit nat) (gmap string (list (pyfloat nat))) :=
  train Float (fun _ => true) (fun y => [y]) (fun o => [o]) (fun l => l)
        example_mean Nat.sub (fun _ _ => Ok tt) config.


(** ** A family of small runs

    As above, with the parameters a counter that every optimizer step
    increments and that the model adds to its input, so that an update of
    the parameters shows. *)

Definition toy_config (tl : list (nat * nat)) (vl : option (list (nat * nat)))
    (n : nat) (scores : list (string * (list nat -> list nat -> res (pyfloat nat))))
    : @TrainingConfig nat nat nat nat nat (list nat) nat nat :=
  {| model := fun p _ x => Ok (p + x);
     loss_func := fun o y => Ok (o + y);
     training_loader := tl;
     validation_loader := vl;
     optimizer := fun p _ => S p;
     epochs := n;
     save_model := false;
     score_funcs := scores |}.

Definition toy_env (training : bool) : @env nat nat :=
  {| params := 0; model_training := training;
     clk := {| reading := fun n => n * n; ticks := 0 |} |}.

Definition toy_run_epoch
    (config : @TrainingConfig nat nat nat nat nat (list nat) nat nat)
    (results : gmap string (list (pyfloat nat))) (prefix : string)
    : ST (@env nat nat) (gmap string (list (pyfloat nat)) * (nat * nat)) :=
  run_epoch Float (fun _ => true) (fun y => [y]) (fun o => [o]) (fun l => l)
            example_mean Nat.sub config results prefix.

Definition toy_epochs_loop
    (config : @TrainingConfig nat nat nat nat nat (list nat) nat nat)
    : ST (@env nat nat) (gmap string (list (pyfloat nat)) * option nat) :=
  epochs_loop Float (fun _ => true) (fun y => [y]) (fun o => [o]) (fun l => l)
              example_mean Nat.sub config.

Definition toy_train
    (config : @TrainingConfig nat nat nat nat nat (list nat) nat nat)
    : ST (@env nat nat) (gmap string (list (pyfloat nat))) :=
  train Float (fun _ => true) (fun y => [y]) (fun o => [o]) (fun l => l)
        example_mean Nat.sub (fun _ _ => Ok tt) config.

(** Two scoring functions for these runs: ["accuracy"] always raises,
    ["sum"] adds up the predictions. *)
Definition toy_scorers : list (string * (list nat -> list nat -> res (pyfloat nat))) :=
  [("accuracy", example_scorer true);
   ("sum", fun _ y_pred => Ok (Float (list_sum y_pred)))].

(** ** [cross_entropy_language_model]

    Logits are a batch of matrices, shape (B, T, C), and targets a batch of
    sequences of class indices; both are flattened over batch and time, the
    logits by [logits.view(B*T, C)] and the targets by [targets.view(B*T)],
    which only asks the targets for [B*T] elements.  [F.cross_entropy] with
    its defaults takes the mean over the rows of [-log_softmax(row)[target]],
    which is [log (sum (exp row)) - row[target]]; it refuses a class index
    outside the row (IndexError) and batch sizes that differ (ValueError),
    and the mean over no row is [nan]. *)

Definition cross_entropy_row (row : list R) (target : nat) : res R :=
  match nth_error row target with
  | Some a => Ok (ln (models.vsum (map exp row)) - a)%R
  | None => Raise IndexError
  end.

Definition F_cross_entropy (input : list (list R)) (target : list nat) : res R :=
  if length input =? length target
  then let? losses := mapR (fun p => cross_entropy_row (fst p) (snd p))
                           (combine input target) in
       match losses with
       | [] => Raise NotANumber
       | _ => Ok (models.vsum losses / INR (length losses))%R
       end
  else Raise ValueError.

Definition cross_entropy_language_model (logits : list (list (list R)))
    (targets : list (list nat)) : res R :=
  let B := length logits in
  let T := length (hd [] logits) in
  let logits := concat logits in
  if length (concat targets) =? B * T
  then F_cross_entropy logits (concat targets)
  else Raise RuntimeError.
End training.
(** * Properties of [src/models.py] *)

Module models_spec.

Import models.
Local Open Scope R_scope.

(** ** The two monads *)

Lemma bind_lift_ok {S A B : Type} (r : res A) (a : A) (k : A -> ST S B) (s : S) :
  r = Ok a -> bind (lift r) k s = k a s.
Proof. intros ->. reflexivity. Qed.

Lemma bind_lift_raise {S A B : Type} (r : res A) (e : exn) (k : A -> ST S B) (s : S) :
  r = Raise e -> bind (lift r) k s = Raise e.
Proof. intros ->. reflexivity. Qed.

Lemma bind_ok {S A B : Type} (m : ST S A) (a : A) (k : A -> ST S B) (s s' : S) :
  m s = Ok (a, s') -> bind m k s = k a s'.
Proof. unfold bind. intros ->. reflexivity. Qed.

Lemma bind_raise {S A B : Type} (m : ST S A) (e : exn) (k : A -> ST S B) (s : S) :
  m s = Raise e -> bind m k s = Raise e.
Proof. unfold bind. intros ->. reflexivity. Qed.

Lemma mapR_length {A B : Type} (f : A -> res B) (l : list A) (l' : list B) :
  mapR f l = Ok l' -> length l' = length l.
Proof.
  revert l'. induction l as [| a l IH]; simpl; intros l' H.
  - inversion H. reflexivity.
  - destruct (f a) as [b |]; simpl in H; [| discriminate].
    destruct (mapR f l) as [bs |]; simpl in H; [| discriminate].
    inversion H. simpl. f_equal. apply IH. reflexivity.
Qed.

Lemma mapR_nth_error {A B : Type} (f : A -> res B) (l : list A) (l' : list B) :
  mapR f l = Ok l' ->
  forall i b, nth_error l' i = Some b ->
  exists a, nth_error l i = Some a /\ f a = Ok b.
Proof.
  revert l'. induction l as [| a l IH]; simpl; intros l' H i b Hi.
  - inversion H; subst. destruct i; discriminate.
  - destruct (f a) as [b0 |] eqn:Hfa; simpl in H; [| discriminate].
    destruct (mapR f l) as [bs |] eqn:Hl; simpl in H; [| discriminate].
    inversion H; subst. destruct i as [| i]; simpl in Hi.
    + inversion Hi; subst. exists a. split; [reflexivity | exact Hfa].
    + apply (IH bs eq_refl i b Hi).
Qed.

Lemma mapR_total {A B : Type} (f : A -> res B) (l : list A) :
  (forall i a, nth_error l i = Some a -> exists b, f a = Ok b) ->
  exists l', mapR f l = Ok l'.
Proof.
  induction l as [| a l IH]; simpl; intros H.
  - exists []. reflexivity.
  - destruct (H 0%nat a eq_refl) as [b Hb]. rewrite Hb. simpl.
    destruct IH as [bs Hbs].
    + intros i a' Hi. apply (H (S i) a' Hi).
    + rewrite Hbs. simpl. exists (b :: bs). reflexivity.
Qed.

Lemma mapR_map {A B : Type} (f : A -> B) (l : list A) :
  mapR (fun a => Ok (f a)) l = Ok (map f l).
Proof.
  induction l as [| a l IH]; simpl; [reflexivity |]. rewrite IH. reflexivity.
Qed.

Lemma mapR_ext_in {A B : Type} (f g : A -> res B) (l : list A) :
  (forall a, In a l -> f a = g a) -> mapR f l = mapR g l.
Proof.
  induction l as [| a l IH]; simpl; intros H; [reflexivity |].
  rewrite (H a (or_introl eq_refl)), IH; [reflexivity |].
  intros a' Ha'. apply H. right. exact Ha'.
Qed.

(** ** Lists *)

Lemma zip_with_length {A B C : Type} (f : A -> B -> C) (l : list A) (k : list B) :
  length (zip_with f l k) = Nat.min (length l) (length k).
Proof.
  revert k. induction l as [| a l IH]; intros [| b k]; simpl; try reflexivity.
  rewrite IH. reflexivity.
Qed.

Lemma nth_error_zip_with {A B C : Type} (f : A -> B -> C) (l : list A) (k : list B)
    (i : nat) :
  nth_error (zip_with f l k) i =
  match nth_error l i, nth_error k i with
  | Some a, Some b => Some (f a b)
  | _, _ => None
  end.
Proof.
  revert k i. induction l as [| a l IH]; intros [| b k] [| i]; simpl; try reflexivity.
  - destruct (nth_error l i); reflexivity.
  - apply IH.
Qed.

Lemma nth_error_combine {A B : Type} (l : list A) (k : list B) (i : nat) :
  nth_error (combine l k) i =
  match nth_error l i, nth_error k i with
  | Some a, Some b => Some (a, b)
  | _, _ => None
  end.
Proof.
  revert k i. induction l as [| a l IH]; intros [| b k] [| i]; simpl; try reflexivity.
  - destruct (nth_error l i); reflexivity.
  - apply IH.
Qed.

Lemma nth_error_map_seq {A : Type} (f : nat -> A) (n i : nat) :
  (i < n)%nat -> nth_error (map f (seq 0 n)) i = Some (f i).
Proof.
  intros Hi. rewrite nth_error_map, nth_error_seq.
  destruct (Nat.ltb_spec i n); [reflexivity | lia].
Qed.

Lemma forallb_length_eq {A : Type} (n : nat) (l : list (list A)) :
  forallb (fun r => (length r =? n)%nat) l = true <-> Forall (fun r => length r = n) l.
Proof.
  rewrite forallb_forall, List.Forall_forall. split; intros H r Hr.
  - apply Nat.eqb_eq, H, Hr.
  - apply Nat.eqb_eq, H, Hr.
Qed.

(** ** Sums and softmax *)

Lemma vsum_map_div {A : Type} (f : A -> R) (c : R) (l : list A) :
  vsum (map (fun a => f a / c) l) = vsum (map f l) / c.
Proof.
  induction l as [| a l IH]; simpl.
  - unfold Rdiv. ring.
  - rewrite IH. unfold Rdiv. ring.
Qed.

Lemma exp_ext_nonneg (e : ext) : 0 <= exp_ext e.
Proof. destruct e; simpl; [lra | left; apply exp_pos]. Qed.

Lemma vsum_exp_nonneg (row : list ext) : 0 <= vsum (map exp_ext row).
Proof.
  induction row as [| e row IH]; simpl; [lra |].
  pose proof (exp_ext_nonneg e). lra.
Qed.

Lemma vsum_exp_pos (row : list ext) (i : nat) (r : R) :
  nth_error row i = Some (Fin r) -> 0 < vsum (map exp_ext row).
Proof.
  revert i. induction row as [| e row IH]; intros [| i] H; simpl in *; try discriminate.
  - inversion H; subst. simpl. pose proof (exp_pos r). pose proof (vsum_exp_nonneg row). lra.
  - pose proof (exp_ext_nonneg e). pose proof (IH i H). lra.
Qed.

Lemma forallb_is_neginf_false (row : list ext) (i : nat) (r : R) :
  nth_error row i = Some (Fin r) -> forallb is_neginf row = false.
Proof.
  revert i. induction row as [| e row IH]; intros [| i] H; simpl in *; try discriminate.
  - inversion H; subst. reflexivity.
  - rewrite (IH i H). apply andb_false_r.
Qed.

Lemma softmax_finite_entry (row : list ext) (i : nat) (r : R) :
  nth_error row i = Some (Fin r) ->
  exists q, softmax row = Ok q
    /\ length q = length row
    /\ vsum q = 1
    /\ (forall j, nth_error row j = Some NegInf -> nth_error q j = Some 0).
Proof.
  intros Hi.
  pose proof (vsum_exp_pos row i r Hi) as Hpos.
  exists (map (fun e => exp_ext e / vsum (map exp_ext row)) row).
  repeat split.
  - unfold softmax. rewrite (forallb_is_neginf_false row i r Hi).
    destruct row; [destruct i; discriminate | reflexivity].
  - apply length_map.
  - rewrite vsum_map_div. field. lra.
  - intros j Hj. rewrite nth_error_map, Hj. simpl. f_equal. unfold Rdiv. ring.
Qed.

(** ** The causal mask *)

Lemma ncols_torch_ones (r c : nat) : (1 <= r)%nat -> ncols (torch_ones r c) = c.
Proof.
  intros Hr. destruct r as [| r]; [lia |]. unfold ncols, torch_ones. simpl.
  apply repeat_length.
Qed.

Lemma tril_ones (bs : nat) :
  torch_tril (torch_ones bs bs) =
  map (fun i => map (fun j => if (j <=? i)%nat then 1 else 0) (seq 0 bs)) (seq 0 bs).
Proof.
  unfold torch_tril. destruct bs as [| n]; [reflexivity |].
  rewrite ncols_torch_ones by lia. unfold torch_ones. rewrite repeat_length.
  apply map_ext_in. intros i Hi. apply in_seq in Hi.
  apply map_ext_in. intros j Hj. apply in_seq in Hj.
  destruct (j <=? i)%nat; [| reflexivity].
  rewrite !nth_repeat_lt by lia. reflexivity.
Qed.

Lemma mask_of_tril (T bs : nat) :
  (T <= bs)%nat ->
  eq_zero (slice2 T (torch_tril (torch_ones bs bs))) = causal_mask T.
Proof.
  intros HT. rewrite tril_ones. unfold slice2, eq_zero, causal_mask.
  rewrite !map_map, firstn_map, take_seq, Nat.min_l by exact HT.
  rewrite map_map. apply map_ext. intros i.
  rewrite firstn_map, take_seq, Nat.min_l by exact HT.
  rewrite map_map. apply map_ext. intros j.
  destruct (j <=? i)%nat; simpl.
  - destruct (Req_dec_T 1 0); [lra | reflexivity].
  - destruct (Req_dec_T 0 0); [reflexivity | lra].
Qed.

(** ** Shapes *)

Lemma Linear_row_length (l : Linear) (n_in n_out : nat) (wb : bool) (x : vector) :
  Linear_shaped l n_in n_out wb -> length (Linear_row l x) = n_out.
Proof.
  intros (_ & _ & Hw & _ & Hb). unfold Linear_row.
  destruct (Linear_bias l) as [b |].
  - destruct Hb as [_ Hb]. rewrite zip_with_length, length_map, Hw, Hb. lia.
  - rewrite length_map. exact Hw.
Qed.

Lemma Linear_forward_ok (l : Linear) (n_in n_out : nat) (wb : bool) (x : matrix) :
  Linear_shaped l n_in n_out wb ->
  Forall (fun r => length r = n_in) x ->
  Linear_forward l x = Ok (map (Linear_row l) x).
Proof.
  intros Hl Hx. unfold Linear_forward.
  destruct Hl as (Hin & _). rewrite Hin.
  apply forallb_length_eq in Hx. rewrite Hx. reflexivity.
Qed.

Lemma Forall_map_Linear_row (l : Linear) (n_in n_out : nat) (wb : bool) (x : matrix) :
  Linear_shaped l n_in n_out wb ->
  Forall (fun r => length r = n_out) (map (Linear_row l) x).
Proof.
  intros Hl. apply List.Forall_forall. intros r Hr. apply in_map_iff in Hr.
  destruct Hr as (v & <- & _). apply (Linear_row_length l n_in n_out wb v Hl).
Qed.

Lemma matmul_transpose_shape (q k : matrix) (hs : nat) :
  (1 <= hs)%nat -> length q = length k ->
  Forall (fun r => length r = hs) q -> Forall (fun r => length r = hs) k ->
  exists qk, matmul q (transpose k) = Ok qk
    /\ length qk = length k
    /\ Forall (fun r => length r = length k) qk.
Proof.
  intros Hhs Hlen Hq Hk. destruct k as [| k0 ks].
  - destruct q; [| discriminate]. exists []. repeat split. constructor.
  - assert (Hn : ncols (k0 :: ks) = hs) by (inversion Hk; assumption).
    assert (Ht : length (transpose (k0 :: ks)) = hs).
    { unfold transpose. rewrite length_map, length_seq. exact Hn. }
    assert (Hc : ncols (transpose (k0 :: ks)) = length (k0 :: ks)).
    { unfold transpose. rewrite Hn. destruct hs as [| m]; [lia |].
      unfold ncols. cbn [seq map hd]. unfold column. rewrite length_map. reflexivity. }
    unfold matmul. rewrite Ht.
    apply forallb_length_eq in Hq. rewrite Hq.
    eexists. split; [reflexivity |]. split.
    + rewrite length_map. exact Hlen.
    + apply List.Forall_forall. intros r Hr. apply in_map_iff in Hr.
      destruct Hr as (v & <- & _). rewrite length_map, length_seq. exact Hc.
Qed.

Lemma scale_shape (c : R) (m : matrix) (n : nat) :
  Forall (fun r => length r = n) m -> Forall (fun r => length r = n) (scale c m).
Proof.
  intros Hm. apply List.Forall_forall. intros r Hr. apply in_map_iff in Hr.
  destruct Hr as (v & <- & Hv). rewrite length_map.
  rewrite List.Forall_forall in Hm. apply Hm, Hv.
Qed.

Lemma causal_mask_length (T : nat) : length (causal_mask T) = T.
Proof. unfold causal_mask. rewrite length_map, length_seq. reflexivity. Qed.

Lemma causal_mask_rows (T : nat) (r : list bool) :
  In r (causal_mask T) -> length r = T.
Proof.
  unfold causal_mask. intros Hr. apply in_map_iff in Hr.
  destruct Hr as (i & <- & _). rewrite length_map, length_seq. reflexivity.
Qed.

Lemma masked_fill_causal (w : matrix) (T : nat) :
  length w = T -> Forall (fun r => length r = T) w ->
  masked_fill w (causal_mask T) = Ok (causal_fill w T).
Proof.
  intros Hlen Hw. unfold masked_fill, broadcast_to at 1.
  rewrite causal_mask_length, Hlen, Nat.eqb_refl. simpl.
  unfold causal_fill. rewrite <- mapR_map. apply mapR_ext_in. intros [wr mr] Hin. simpl.
  rewrite List.Forall_forall in Hw.
  unfold broadcast_to.
  rewrite (Hw wr (in_combine_l _ _ _ _ Hin)).
  rewrite (causal_mask_rows T mr (in_combine_r _ _ _ _ Hin)).
  rewrite Nat.eqb_refl. reflexivity.
Qed.

Lemma masked_row (w : matrix) (T i : nat) (row : list ext) :
  length w = T -> Forall (fun r => length r = T) w ->
  nth_error (causal_fill w T) i = Some row ->
  (i < T)%nat
  /\ length row = T
  /\ (exists a, nth_error row i = Some (Fin a))
  /\ (forall j, (i < j < T)%nat -> nth_error row j = Some NegInf).
Proof.
  intros Hlen Hw Hi. unfold causal_fill in Hi.
  rewrite nth_error_map, nth_error_combine in Hi.
  unfold matrix, vector in *.
  destruct (nth_error w i) as [wr |] eqn:Hwr; [| discriminate].
  assert (HiT : (i < T)%nat).
  { rewrite <- Hlen. apply nth_error_Some. rewrite Hwr. discriminate. }
  unfold causal_mask in Hi. rewrite nth_error_map_seq in Hi by exact HiT.
  simpl in Hi. inversion Hi as [Hrow]. clear Hi.
  assert (Hwl : length wr = T).
  { rewrite List.Forall_forall in Hw. apply Hw. apply (nth_error_In _ _ Hwr). }
  split; [exact HiT |]. split; [| split].
  - rewrite zip_with_length, length_map, length_seq, Hwl. lia.
  - destruct (nth_error wr i) as [a |] eqn:Ha.
    + exists a. rewrite nth_error_zip_with, Ha, nth_error_map_seq by exact HiT.
      rewrite Nat.leb_refl. reflexivity.
    + apply nth_error_None in Ha. lia.
  - intros j [Hij HjT].
    destruct (nth_error wr j) as [a |] eqn:Ha.
    + rewrite nth_error_zip_with, Ha, nth_error_map_seq by exact HjT.
      destruct (Nat.leb_spec j i); [lia | reflexivity].
    + apply nth_error_None in Ha. lia.
Qed.

Lemma Head_attention_masked (h : Head) (head_size n_embd block_size : nat)
    (x : matrix) (g : rng) :
  Head_shaped h head_size n_embd block_size ->
  (1 <= head_size)%nat ->
  Forall (fun r => length r = n_embd) x ->
  (length x <= block_size)%nat ->
  exists w,
    length w = length x
    /\ Forall (fun r => length r = length x) w
    /\ Head_attention false h x g
       = bind (lift (mapR softmax (causal_fill w (length x))))
              (Dropout_forward false (Head_dropout h)) g.
Proof.
  intros (Hk & Hq & _ & Htril) Hhs Hx HT.
  unfold Head_attention.
  rewrite (bind_lift_ok _ _ _ _ (Linear_forward_ok _ _ _ _ x Hk Hx)).
  rewrite (bind_lift_ok _ _ _ _ (Linear_forward_ok _ _ _ _ x Hq Hx)).
  destruct (matmul_transpose_shape (map (Linear_row (Head_query h)) x)
              (map (Linear_row (Head_key h)) x) head_size Hhs)
    as (qk & Hqk & Hqkl & Hqkr).
  { rewrite !length_map. reflexivity. }
  { apply (Forall_map_Linear_row _ _ _ _ x Hq). }
  { apply (Forall_map_Linear_row _ _ _ _ x Hk). }
  rewrite length_map in Hqkl, Hqkr.
  rewrite (bind_lift_ok _ _ _ _ Hqk).
  assert (Hc : pow_neg_half (out_features (Head_key h)) = Ok (/ sqrt (INR head_size))).
  { destruct Hk as (_ & -> & _). unfold pow_neg_half.
    destruct (Nat.eqb_spec head_size 0); [lia | reflexivity]. }
  rewrite (bind_lift_ok _ _ _ _ Hc).
  rewrite Htril, (mask_of_tril _ _ HT).
  set (w := scale (/ sqrt (INR head_size)) qk).
  assert (Hwl : length w = length x) by (unfold w, scale; rewrite length_map; exact Hqkl).
  assert (Hwr : Forall (fun r => length r = length x) w) by (apply scale_shape, Hqkr).
  rewrite (bind_lift_ok _ _ _ _ (masked_fill_causal w (length x) Hwl Hwr)).
  exists w. split; [exact Hwl |]. split; [exact Hwr | reflexivity].
Qed.

Lemma softmax_causal_fill (w : matrix) (T : nat) :
  length w = T -> Forall (fun r => length r = T) w ->
  exists wei, mapR softmax (causal_fill w T) = Ok wei
    /\ length wei = T
    /\ Forall (fun r => length r = T) wei.
Proof.
  intros Hwl Hwr.
  destruct (mapR_total softmax (causal_fill w T)) as [wei Hwei].
  { intros i row Hi. destruct (masked_row w T i row Hwl Hwr Hi) as (_ & _ & [a Ha] & _).
    destruct (softmax_finite_entry row i a Ha) as (q & Hq' & _). exists q. exact Hq'. }
  exists wei. split; [exact Hwei |]. split.
  - rewrite (mapR_length _ _ _ Hwei). unfold causal_fill.
    rewrite length_map, length_combine, causal_mask_length, Hwl. lia.
  - apply List.Forall_forall. intros p Hp. apply In_nth_error in Hp.
    destruct Hp as [i Hp].
    destruct (mapR_nth_error _ _ _ Hwei i p Hp) as (row & Hrow & Hsm).
    destruct (masked_row w T i row Hwl Hwr Hrow) as (_ & Hrl & [a Ha] & _).
    destruct (softmax_finite_entry row i a Ha) as (q & Hq' & Hql & _).
    rewrite Hq' in Hsm. inversion Hsm; subst q. rewrite Hql. exact Hrl.
Qed.

Lemma Head_attention_shape (h : Head) (head_size n_embd block_size : nat)
    (x : matrix) (g : rng) :
  Head_shaped h head_size n_embd block_size ->
  (1 <= head_size)%nat ->
  Forall (fun r => length r = n_embd) x ->
  (length x <= block_size)%nat ->
  exists wei,
    Head_attention false h x g = Ok (wei, g)
    /\ length wei = length x
    /\ Forall (fun r => length r = length x) wei.
Proof.
  intros Hh Hhs Hx HT.
  destruct (Head_attention_masked h head_size n_embd block_size x g Hh Hhs Hx HT)
    as (w & Hwl & Hwr & Hatt).
  destruct (softmax_causal_fill w (length x) Hwl Hwr) as (wei & Hwei & Hl & Hr).
  exists wei. split; [| split; assumption].
  rewrite Hatt, (bind_lift_ok _ _ _ _ Hwei). reflexivity.
Qed.

(** ** Monad laws, pointwise *)

Lemma bind_assoc {S A B C : Type} (m : ST S A) (k : A -> ST S B) (k' : B -> ST S C)
    (s : S) :
  bind (bind m k) k' s = bind m (fun a => bind (k a) k') s.
Proof.
  unfold bind. destruct (m s) as [[a s'] | e]; reflexivity.
Qed.

Lemma bind_ret_r {S A : Type} (m : ST S A) (s : S) : bind m ret s = m s.
Proof.
  unfold bind, ret. destruct (m s) as [[a s'] | e]; reflexivity.
Qed.

Lemma bind_ext {S A B : Type} (m : ST S A) (k k' : A -> ST S B) (s : S) :
  (forall a s', k a s' = k' a s') -> bind m k s = bind m k' s.
Proof.
  intros H. unfold bind. destruct (m s) as [[a s'] | e]; [apply H | reflexivity].
Qed.

Ltac monad_norm :=
  repeat first
    [ rewrite bind_assoc
    | apply bind_ext; intros ? ?
    | rewrite bind_ret_r
    | reflexivity ].


(** ** Normalization *)

Lemma zip_with_Rplus_zeros (v : vector) (n : nat) :
  (length v <= n)%nat -> zip_with Rplus v (repeat 0 n) = v.
Proof.
  revert n. induction v as [| a v IH]; intros [| n] H; simpl in *; try reflexivity.
  - lia.
  - rewrite IH by lia. f_equal. ring.
Qed.

Lemma affine_zero_bias (w v : vector) :
  affine (Some w) (Some (repeat 0 (length w))) v = affine (Some w) None v.
Proof.
  unfold affine. apply zip_with_Rplus_zeros.
  rewrite zip_with_length. lia.
Qed.


(** ** The small GPT2, evaluated *)

Lemma zero_Linear_shaped (n_in n_out : nat) (wb : bool) :
  Linear_shaped (zero_Linear n_in n_out wb) n_in n_out wb.
Proof.
  unfold Linear_shaped, zero_Linear. simpl. repeat split.
  - apply repeat_length.
  - apply List.Forall_forall. intros r Hr. apply repeat_spec in Hr. subst r.
    apply repeat_length.
  - destruct wb; [split; [reflexivity | apply repeat_length] | reflexivity].
Qed.

Lemma tiny_head_shaped : Head_shaped tiny_head 1 1 2.
Proof.
  unfold Head_shaped, tiny_head. simpl.
  repeat split; try apply zero_Linear_shaped; reflexivity.
Qed.

Lemma tiny_head_forward (u v : R) (g : rng) :
  Head_forward false tiny_head [[u]; [v]] g = Ok ([[0]; [0]], g).
Proof.
  unfold Head_forward.
  destruct (Head_attention_shape tiny_head 1 1 2 [[u]; [v]] g tiny_head_shaped)
    as (wei & Hwei & Hl & Hrows).
  { lia. }
  { repeat constructor. }
  { simpl. lia. }
  rewrite (bind_ok _ _ _ _ _ Hwei).
  destruct wei as [| r0 [| r1 [| r2 wei]]]; try discriminate Hl.
  pose proof (List.Forall_inv Hrows) as H0.
  pose proof (List.Forall_inv (List.Forall_inv_tail Hrows)) as H1.
  destruct r0 as [| a0 [| a1 [| a2 r0]]]; try discriminate H0.
  destruct r1 as [| b0 [| b1 [| b2 r1]]]; try discriminate H1.
  cbn. unfold ret. repeat f_equal; ring.
Qed.

Lemma tiny_attention_forward (u v : R) (g : rng) :
  MultiHeadAttention_forward false (BlockGPT2_multi_head tiny_block) [[u]; [v]] g
  = Ok ([[0]; [0]], g).
Proof.
  unfold MultiHeadAttention_forward. cbn [tiny_block BlockGPT2_multi_head
    MultiHeadAttention_heads MultiHeadAttention_proj MultiHeadAttention_dropout mapM_st].
  rewrite (bind_ok _ _ _ _ _ (bind_ok _ _ _ _ _ (tiny_head_forward u v g))).
  cbn. unfold ret. repeat f_equal; ring.
Qed.

Lemma tiny_feed_forward (u v : R) (g : rng) :
  FeedFowardGPT2_forward false (BlockGPT2_ffwd tiny_block) [[u]; [v]] g
  = Ok ([[0]; [0]], g).
Proof.
  unfold FeedFowardGPT2_forward. cbn -[GELU]. unfold ret. repeat f_equal; ring.
Qed.

Lemma normalize_singleton (eps a : R) : normalize eps [a] = [0].
Proof.
  unfold normalize, mean. simpl. f_equal. unfold Rdiv. rewrite Rinv_1. ring.
Qed.

Lemma tiny_block_forward (a b : R) (g : rng) :
  BlockGPT2_forward false tiny_block [[a]; [b]] g = Ok ([[a]; [b]], g).
Proof.
  unfold BlockGPT2_forward.
  assert (Hln : forall u v, LayerNorm_forward (LayerNorm_init 1 true) [[u]; [v]]
                            = Ok [[0 * 1 + 0]; [0 * 1 + 0]]).
  { intros u v. unfold LayerNorm_forward, F_layer_norm. cbn -[normalize].
    rewrite !normalize_singleton. reflexivity. }
  cbn [tiny_block BlockGPT2_ln1 BlockGPT2_ln2].
  rewrite (bind_lift_ok _ _ _ _ (Hln a b)).
  rewrite (bind_ok _ _ _ _ _ (tiny_attention_forward _ _ g)).
  cbn [tensor_add same_shape length combine forallb fst snd Nat.eqb andb zip_with
       lift bind].
  rewrite (bind_lift_ok _ _ _ _ (Hln _ _)).
  rewrite (bind_ok _ _ _ _ _ (tiny_feed_forward _ _ g)).
  cbn. unfold ret. repeat f_equal; ring.
Qed.

Lemma tiny_GPT2_forward (g : rng) :
  GPT2_forward false tiny_GPT2 [[0; 1]]%nat g = Ok ([[[1; 0]; [2; 0]]], g).
Proof.
  unfold GPT2_forward.
  cbn [tiny_GPT2 GPT2_token_embedding_table GPT2_position_embedding_table GPT2_drop
       GPT2_blocks GPT2_lm_head].
  assert (He : embed {| num_embeddings := 2; embedding_dim := 1;
                        Embedding_weight := [[1]; [2]] |}
                     {| num_embeddings := 2; embedding_dim := 1;
                        Embedding_weight := [[0]; [0]] |} [[0; 1]]%nat
               = Ok [[[1 + 0]; [2 + 0]]]) by reflexivity.
  rewrite (bind_lift_ok _ _ _ _ He).
  cbn [mapM_st Dropout_forward bind ret Sequential foldM_st].
  rewrite !bind_assoc, (bind_ok _ _ _ _ _ (tiny_block_forward _ _ g)).
  cbn. unfold ret. repeat f_equal; ring.
Qed.

(** ** Construction *)

Lemma mapM_st_ok {S A B : Type} (P : B -> Prop) (f : A -> ST S B) (l : list A) :
  (forall a s, exists b s', f a s = Ok (b, s') /\ P b) ->
  forall s, exists bs s',
    mapM_st f l s = Ok (bs, s') /\ length bs = length l /\ Forall P bs.
Proof.
  intros Hf. induction l as [| a l IH]; intros s; simpl.
  - exists [], s. repeat split. constructor.
  - destruct (Hf a s) as (b & s1 & Hb & HP).
    destruct (IH s1) as (bs & s2 & Hbs & Hlen & HPs).
    exists (b :: bs), s2.
    rewrite (bind_ok _ _ _ _ _ Hb), (bind_ok _ _ _ _ _ Hbs).
    repeat split; [simpl; lia | constructor; assumption].
Qed.

Lemma rand_vector_ok (n : nat) (g : rng) :
  exists v g', rand_vector n g = Ok (v, g') /\ length v = n.
Proof.
  destruct (mapM_st_ok (fun _ => True) (fun _ : nat => torch_rand) (seq 0 n)) with (s := g)
    as (v & g' & Hv & Hlen & _).
  { intros _ s. eexists _, _. split; [reflexivity | exact I]. }
  exists v, g'. split; [exact Hv |]. rewrite Hlen. apply length_seq.
Qed.

Lemma rand_matrix_ok (r c : nat) (g : rng) :
  exists m g', rand_matrix r c g = Ok (m, g')
    /\ length m = r /\ Forall (fun row => length row = c) m.
Proof.
  destruct (mapM_st_ok (fun row : vector => length row = c)
              (fun _ : nat => rand_vector c) (seq 0 r)) with (s := g)
    as (m & g' & Hm & Hlen & Hrows).
  { intros _ s. destruct (rand_vector_ok c s) as (v & s' & Hv & Hl).
    exists v, s'. split; assumption. }
  exists m, g'. split; [exact Hm |]. split; [| exact Hrows].
  rewrite Hlen. apply length_seq.
Qed.

Lemma nn_Linear_ok (n_in n_out : nat) (wb : bool) (g : rng) :
  exists l g', nn_Linear n_in n_out wb g = Ok (l, g') /\ Linear_shaped l n_in n_out wb.
Proof.
  unfold nn_Linear.
  destruct (rand_matrix_ok n_out n_in g) as (w & g1 & Hw & Hwl & Hwr).
  rewrite (bind_ok _ _ _ _ _ Hw).
  destruct wb.
  - destruct (rand_vector_ok n_out g1) as (b & g2 & Hb & Hbl).
    rewrite (bind_ok _ _ _ _ _ (bind_ok _ _ _ _ _ Hb)).
    eexists _, _. split; [reflexivity |].
    unfold Linear_shaped. simpl. repeat split; assumption.
  - eexists _, _. split; [reflexivity |].
    unfold Linear_shaped. simpl. repeat split; assumption.
Qed.

Lemma nn_Dropout_ok (rate : R) :
  0 <= rate <= 1 -> nn_Dropout rate = Ok {| p := rate |}.
Proof.
  intros [H0 H1]. unfold nn_Dropout.
  destruct (Rle_dec 0 rate); [| contradiction].
  destruct (Rle_dec rate 1); [reflexivity | contradiction].
Qed.

Lemma Head_init_ok (head_size n_embd block_size : nat) (rate : R) (g : rng) :
  0 <= rate <= 1 ->
  exists h g', Head_init head_size n_embd block_size rate g = Ok (h, g')
    /\ Head_shaped h head_size n_embd block_size.
Proof.
  intros Hr. unfold Head_init.
  destruct (nn_Linear_ok n_embd head_size false g) as (k & g1 & Hk & Hks).
  destruct (nn_Linear_ok n_embd head_size false g1) as (q & g2 & Hq & Hqs).
  destruct (nn_Linear_ok n_embd head_size false g2) as (v & g3 & Hv & Hvs).
  rewrite (bind_ok _ _ _ _ _ Hk), (bind_ok _ _ _ _ _ Hq), (bind_ok _ _ _ _ _ Hv).
  rewrite (bind_lift_ok _ _ _ _ (nn_Dropout_ok rate Hr)).
  eexists _, _. split; [reflexivity |].
  unfold Head_shaped. simpl.
  split; [exact Hks | split; [exact Hqs | split; [exact Hvs | reflexivity]]].
Qed.

Lemma MultiHeadAttention_init_ok (num_heads head_size n_embd block_size : nat)
    (rate : R) (g : rng) :
  0 <= rate <= 1 ->
  exists m g',
    MultiHeadAttention_init num_heads head_size n_embd block_size rate g = Ok (m, g')
    /\ MultiHeadAttention_shaped m num_heads head_size n_embd block_size.
Proof.
  intros Hr. unfold MultiHeadAttention_init.
  destruct (mapM_st_ok (fun h => Head_shaped h head_size n_embd block_size)
              (fun _ : nat => Head_init head_size n_embd block_size rate)
              (seq 0 num_heads)) with (s := g) as (hs & g1 & Hhs & Hlen & Hsh).
  { intros _ s. apply Head_init_ok, Hr. }
  destruct (nn_Linear_ok n_embd n_embd true g1) as (pr & g2 & Hpr & Hprs).
  rewrite (bind_ok _ _ _ _ _ Hhs), (bind_ok _ _ _ _ _ Hpr).
  rewrite (bind_lift_ok _ _ _ _ (nn_Dropout_ok rate Hr)).
  eexists _, _. split; [reflexivity |].
  unfold MultiHeadAttention_shaped. simpl.
  rewrite Hlen, length_seq. split; [reflexivity | split; assumption].
Qed.

Lemma FeedFoward_init_ok (n_embd : nat) (rate : R) (g : rng) :
  0 <= rate <= 1 ->
  exists f g', FeedFoward_init n_embd rate g = Ok (f, g').
Proof.
  intros Hr. unfold FeedFoward_init.
  destruct (nn_Linear_ok n_embd (4 * n_embd) true g) as (l0 & g1 & H0 & _).
  destruct (nn_Linear_ok (4 * n_embd) n_embd true g1) as (l2 & g2 & H2 & _).
  rewrite (bind_ok _ _ _ _ _ H0), (bind_ok _ _ _ _ _ H2).
  rewrite (bind_lift_ok _ _ _ _ (nn_Dropout_ok rate Hr)).
  eexists _, _. reflexivity.
Qed.

Lemma Block_init_ok (n_embd n_head block_size : nat) (rate : R) (g : rng) :
  (1 <= n_head)%nat -> 0 <= rate <= 1 ->
  exists b g', Block_init n_embd n_head block_size rate g = Ok (b, g')
    /\ MultiHeadAttention_shaped (Block_sa b) n_head (n_embd / n_head) n_embd block_size
    /\ Block_ln1 b = nn_LayerNorm_init n_embd.
Proof.
  intros Hh Hr. unfold Block_init, floordiv.
  destruct (Nat.eqb_spec n_head 0) as [-> | _]; [lia |].
  rewrite (bind_lift_ok _ _ _ _ eq_refl).
  destruct (MultiHeadAttention_init_ok n_head (n_embd / n_head) n_embd block_size rate g Hr)
    as (sa & g1 & Hsa & Hsas).
  destruct (FeedFoward_init_ok n_embd rate g1 Hr) as (ff & g2 & Hff).
  rewrite (bind_ok _ _ _ _ _ Hsa), (bind_ok _ _ _ _ _ Hff).
  eexists _, _. split; [reflexivity |]. simpl. split; [exact Hsas | reflexivity].
Qed.

(** ** The forward pass of the attention layers *)

Lemma Forall_zip_with {A B C : Type} (P : A -> Prop) (Q : B -> Prop) (R : C -> Prop)
    (f : A -> B -> C) (l : list A) (k : list B) :
  (forall a b, P a -> Q b -> R (f a b)) ->
  Forall P l -> Forall Q k -> Forall R (zip_with f l k).
Proof.
  intros Hf Hl. revert k. induction Hl as [| a l Ha Hl IH]; intros k Hk; simpl.
  - constructor.
  - destruct Hk as [| b k Hb Hk]; constructor; [apply Hf; assumption | apply IH, Hk].
Qed.

Lemma Head_forward_ok (h : Head) (head_size n_embd block_size : nat) (x : matrix)
    (g : rng) :
  Head_shaped h head_size n_embd block_size ->
  (1 <= head_size)%nat ->
  Forall (fun r => length r = n_embd) x ->
  (1 <= length x <= block_size)%nat ->
  exists out, Head_forward false h x g = Ok (out, g)
    /\ length out = length x
    /\ Forall (fun r => length r = head_size) out.
Proof.
  intros Hh Hhs Hx [HT1 HT].
  destruct (Head_attention_shape h head_size n_embd block_size x g Hh Hhs Hx HT)
    as (wei & Hwei & Hwl & Hrows).
  destruct Hh as (_ & _ & Hv & _).
  unfold Head_forward.
  rewrite (bind_ok _ _ _ _ _ Hwei).
  rewrite (bind_lift_ok _ _ _ _ (Linear_forward_ok _ _ _ _ x Hv Hx)).
  pose proof (Forall_map_Linear_row _ _ _ _ x Hv) as Hvr.
  set (v := map (Linear_row (Head_value h)) x) in *.
  assert (Hvl : length v = length x) by (unfold v; apply length_map).
  assert (Hwr : Forall (fun r => length r = length v) wei)
    by (rewrite Hvl; exact Hrows).
  assert (Hnc : ncols v = head_size).
  { unfold ncols. destruct v as [| v0 v'].
    - simpl in Hvl. lia.
    - simpl. inversion Hvr; assumption. }
  unfold matmul. apply forallb_length_eq in Hwr. rewrite Hwr. simpl.
  eexists. split; [reflexivity |]. split.
  - rewrite length_map. exact Hwl.
  - apply List.Forall_forall. intros r Hr. apply in_map_iff in Hr.
    destruct Hr as (w & <- & _). rewrite length_map, length_seq. exact Hnc.
Qed.

Lemma Head_forward_zero_size (h : Head) (n_embd block_size : nat) (x : matrix)
    (g : rng) :
  Head_shaped h 0 n_embd block_size ->
  Forall (fun r => length r = n_embd) x ->
  exists e, Head_forward false h x g = Raise e.
Proof.
  intros (Hk & Hq & _ & _) Hx. unfold Head_forward, Head_attention.
  rewrite !bind_assoc.
  rewrite (bind_lift_ok _ _ _ _ (Linear_forward_ok _ _ _ _ x Hk Hx)).
  rewrite !bind_assoc.
  rewrite (bind_lift_ok _ _ _ _ (Linear_forward_ok _ _ _ _ x Hq Hx)).
  rewrite !bind_assoc.
  destruct (matmul _ _) as [qk | e] eqn:Hqk.
  - rewrite (bind_lift_ok _ _ _ _ eq_refl). rewrite !bind_assoc.
    exists ZeroDivisionError. apply bind_lift_raise.
    destruct Hk as (_ & -> & _). reflexivity.
  - exists e. apply bind_lift_raise. reflexivity.
Qed.

Lemma mapM_st_pure {S A B : Type} (P : B -> Prop) (f : A -> ST S B) (l : list A)
    (s : S) :
  (forall a, In a l -> exists b, f a s = Ok (b, s) /\ P b) ->
  exists bs, mapM_st f l s = Ok (bs, s) /\ length bs = length l /\ Forall P bs.
Proof.
  induction l as [| a l IH]; intros Hf; simpl.
  - exists []. repeat split. constructor.
  - destruct (Hf a (or_introl eq_refl)) as (b & Hb & HP).
    destruct IH as (bs & Hbs & Hlen & HPs).
    { intros a' Ha'. apply Hf. right. exact Ha'. }
    exists (b :: bs).
    rewrite (bind_ok _ _ _ _ _ Hb), (bind_ok _ _ _ _ _ Hbs).
    repeat split; [simpl; lia | constructor; assumption].
Qed.

Lemma torch_cat_last_shape (outs : list matrix) (T hs : nat) :
  outs <> [] ->
  Forall (fun t => length t = T /\ Forall (fun r => length r = hs) t) outs ->
  exists c, torch_cat_last outs = Ok c
    /\ length c = T
    /\ Forall (fun r => length r = (length outs * hs)%nat) c.
Proof.
  induction outs as [| t outs IH]; intros Hne Hall; [contradiction |].
  pose proof (List.Forall_inv Hall) as [Htl Htr].
  pose proof (List.Forall_inv_tail Hall) as Hrest.
  destruct outs as [| t' outs'].
  - exists t. simpl. rewrite Nat.add_0_r.
    split; [reflexivity | split; [exact Htl | exact Htr]].
  - destruct IH as (c & Hc & Hcl & Hcr); [discriminate | exact Hrest |].
    change (torch_cat_last (t :: t' :: outs'))
      with (let? r := torch_cat_last (t' :: outs') in
            if (length t =? length r)%nat
            then Ok (zip_with (@app R) t r) else Raise RuntimeError).
    rewrite Hc. unfold bind_res, matrix, vector in *. rewrite Htl, Hcl, Nat.eqb_refl.
    eexists. split; [reflexivity |]. split.
    + rewrite zip_with_length, Htl, Hcl. lia.
    + apply (Forall_zip_with (fun r => length r = hs)
               (fun r => length r = (length (t' :: outs') * hs)%nat)); try assumption.
      intros a b Ha Hb. rewrite length_app, Ha, Hb. simpl. lia.
Qed.

Lemma heads_forward_ok (heads : list Head) (head_size n_embd block_size : nat)
    (x : matrix) (g : rng) :
  Forall (fun h => Head_shaped h head_size n_embd block_size) heads ->
  (1 <= head_size)%nat ->
  Forall (fun r => length r = n_embd) x ->
  (1 <= length x <= block_size)%nat ->
  exists outs,
    mapM_st (fun h => Head_forward false h x) heads g = Ok (outs, g)
    /\ length outs = length heads
    /\ Forall (fun t => length t = length x /\ Forall (fun r => length r = head_size) t)
              outs.
Proof.
  intros Hhs Hs Hx HT. apply mapM_st_pure. intros h Hh.
  rewrite List.Forall_forall in Hhs.
  destruct (Head_forward_ok h head_size n_embd block_size x g (Hhs h Hh) Hs Hx HT)
    as (out & Hout & Hl & Hr).
  exists out. repeat split; assumption.
Qed.

Lemma MultiHeadAttention_forward_mismatch (m : MultiHeadAttention)
    (num_heads head_size n_embd block_size : nat) (x : matrix) (g : rng) :
  MultiHeadAttention_shaped m num_heads head_size n_embd block_size ->
  (1 <= num_heads)%nat ->
  (num_heads * head_size)%nat <> n_embd ->
  Forall (fun r => length r = n_embd) x ->
  (1 <= length x <= block_size)%nat ->
  exists e, MultiHeadAttention_forward false m x g = Raise e.
Proof.
  intros (Hlen & Hheads & Hproj) Hn Hne Hx HT.
  unfold MultiHeadAttention_forward.
  destruct head_size as [| hs'].
  - destruct (MultiHeadAttention_heads m) as [| h heads]; [simpl in Hlen; lia |].
    pose proof (List.Forall_inv Hheads) as Hh.
    destruct (Head_forward_zero_size h n_embd block_size x g Hh Hx) as [e He].
    exists e. cbn [mapM_st]. rewrite !bind_assoc. apply bind_raise. exact He.
  - destruct (heads_forward_ok _ _ _ _ x g Hheads ltac:(lia) Hx HT)
      as (outs & Houts & Hol & Hos).
    rewrite (bind_ok _ _ _ _ _ Houts).
    destruct (torch_cat_last_shape outs (length x) (S hs')) as (c & Hc & Hcl & Hcr).
    { intros ->. simpl in Hol. lia. }
    { exact Hos. }
    rewrite (bind_lift_ok _ _ _ _ Hc).
    exists RuntimeError. apply bind_lift_raise.
    unfold Linear_forward. destruct Hproj as (-> & _).
    destruct c as [| r c]; [simpl in Hcl; lia |].
    pose proof (List.Forall_inv Hcr) as Hr. cbn [forallb].
    rewrite Hol, Hlen in Hr. rewrite Hr.
    destruct (Nat.eqb_spec (num_heads * S hs') n_embd); [contradiction | reflexivity].
Qed.

Lemma MultiHeadAttention_forward_ok (m : MultiHeadAttention)
    (num_heads head_size n_embd block_size : nat) (x : matrix) (g : rng) :
  MultiHeadAttention_shaped m num_heads head_size n_embd block_size ->
  (1 <= num_heads)%nat -> (1 <= head_size)%nat ->
  (num_heads * head_size)%nat = n_embd ->
  Forall (fun r => length r = n_embd) x ->
  (1 <= length x <= block_size)%nat ->
  exists out, MultiHeadAttention_forward false m x g = Ok (out, g)
    /\ length out = length x
    /\ Forall (fun r => length r = n_embd) out.
Proof.
  intros (Hlen & Hheads & Hproj) Hn Hs He Hx HT.
  unfold MultiHeadAttention_forward.
  destruct (heads_forward_ok _ _ _ _ x g Hheads Hs Hx HT) as (outs & Houts & Hol & Hos).
  rewrite (bind_ok _ _ _ _ _ Houts).
  destruct (torch_cat_last_shape outs (length x) head_size) as (c & Hc & Hcl & Hcr).
  { intros ->. simpl in Hol. lia. }
  { exact Hos. }
  rewrite (bind_lift_ok _ _ _ _ Hc).
  rewrite Hol, Hlen, He in Hcr.
  rewrite (bind_lift_ok _ _ _ _ (Linear_forward_ok _ _ _ _ c Hproj Hcr)).
  cbn [Dropout_forward ret]. eexists. split; [reflexivity |]. split.
  - rewrite length_map. exact Hcl.
  - apply (Forall_map_Linear_row _ _ _ _ c Hproj).
Qed.

Lemma nn_LayerNorm_forward_ok (ndim : nat) (x : matrix) :
  Forall (fun r => length r = ndim) x ->
  exists y, nn_LayerNorm_forward (nn_LayerNorm_init ndim) x = Ok y
    /\ length y = length x
    /\ Forall (fun r => length r = ndim) y.
Proof.
  intros Hx. unfold nn_LayerNorm_forward, F_layer_norm, nn_LayerNorm_init. simpl.
  rewrite !repeat_length, Nat.eqb_refl. simpl.
  pose proof Hx as Hx'. apply forallb_length_eq in Hx'. rewrite Hx'.
  eexists. split; [reflexivity |]. split; [apply length_map |].
  apply List.Forall_forall. intros r Hr. apply in_map_iff in Hr.
  destruct Hr as (v & <- & Hv). rewrite List.Forall_forall in Hx.
  unfold affine, normalize.
  rewrite !zip_with_length, length_map, !repeat_length, (Hx v Hv). lia.
Qed.

(** ** The sampler *)

Lemma mapM_st_Forall {S A B : Type} (P : B -> Prop) (f : A -> ST S B) (l : list A) :
  Forall (fun a => forall s, exists b s', f a s = Ok (b, s') /\ P b) l ->
  forall s, exists bs s',
    mapM_st f l s = Ok (bs, s') /\ length bs = length l /\ Forall P bs.
Proof.
  intros Hl. induction Hl as [| a l Ha Hl IH]; intros s; simpl.
  - exists [], s. repeat split. constructor.
  - destruct (Ha s) as (b & s1 & Hb & HP).
    destruct (IH s1) as (bs & s2 & Hbs & Hlen & HPs).
    exists (b :: bs), s2.
    rewrite (bind_ok _ _ _ _ _ Hb), (bind_ok _ _ _ _ _ Hbs).
    repeat split; [simpl; lia | constructor; assumption].
Qed.

Lemma mapR_Forall {A B : Type} (P : B -> Prop) (f : A -> res B) (l : list A) :
  Forall (fun a => exists b, f a = Ok b /\ P b) l ->
  exists bs, mapR f l = Ok bs /\ length bs = length l /\ Forall P bs.
Proof.
  intros Hl. induction Hl as [| a l (b & Hb & HP) Hl (bs & Hbs & Hlen & HPs)]; simpl.
  - exists []. repeat split. constructor.
  - exists (b :: bs). rewrite Hb, Hbs. simpl.
    repeat split; [lia | constructor; assumption].
Qed.

Lemma softmax_logits (row : vector) :
  row <> [] ->
  exists q, softmax (map Fin row) = Ok q
    /\ length q = length row
    /\ Forall (fun a => 0 <= a) q
    /\ vsum q = 1.
Proof.
  intros Hne. destruct row as [| r0 row]; [contradiction |].
  set (l := map Fin (r0 :: row)).
  pose proof (vsum_exp_pos l 0 r0 eq_refl) as Hpos.
  exists (map (fun e => exp_ext e / vsum (map exp_ext l)) l).
  split; [reflexivity |]. split; [unfold l; rewrite !length_map; reflexivity |].
  split.
  - apply List.Forall_forall. intros a Ha.
    apply in_map_iff in Ha. destruct Ha as (e & <- & _).
    pose proof (exp_ext_nonneg e) as He.
    apply Rmult_le_pos; [exact He |]. left. apply Rinv_0_lt_compat. exact Hpos.
  - rewrite vsum_map_div. field. lra.
Qed.

Lemma inverse_cdf_lt (probs : vector) (u : R) :
  probs <> [] -> (inverse_cdf u probs < length probs)%nat.
Proof.
  revert u. induction probs as [| q probs IH]; intros u Hne; [contradiction |].
  destruct probs as [| q' probs'].
  - simpl. lia.
  - change (inverse_cdf u (q :: q' :: probs'))
      with (if Rlt_dec u q then 0%nat else S (inverse_cdf (u - q) (q' :: probs'))).
    destruct (Rlt_dec u q); [simpl; lia |].
    specialize (IH (u - q) ltac:(discriminate)). simpl in *. lia.
Qed.

Lemma torch_multinomial_ok (probs : vector) (g : rng) :
  probs <> [] -> Forall (fun a => 0 <= a) probs -> 0 < vsum probs ->
  exists i g', torch_multinomial probs g = Ok (i, g') /\ (i < length probs)%nat.
Proof.
  intros Hne Hnn Hpos. unfold torch_multinomial.
  destruct probs as [| q probs]; [contradiction |].
  assert (Hall : forallb (fun q0 => if Rle_dec 0 q0 then true else false) (q :: probs)
                 = true).
  { apply forallb_forall. intros a Ha. rewrite List.Forall_forall in Hnn.
    destruct (Rle_dec 0 a) as [| Hn]; [reflexivity | exfalso; apply Hn, Hnn, Ha]. }
  rewrite Hall. destruct (Rlt_dec 0 (vsum (q :: probs))); [| contradiction].
  eexists _, _. split; [reflexivity |]. apply inverse_cdf_lt. discriminate.
Qed.

Lemma torch_cat_dim1_extends (V : nat) (idx : tokens) (idx_next : list nat) :
  length idx = length idx_next ->
  Forall (fun t => (t < V)%nat) idx_next ->
  exists out, torch_cat_dim1 idx idx_next = Ok out /\ extends V 1 idx out.
Proof.
  intros Hlen Hv. unfold torch_cat_dim1. rewrite Hlen, Nat.eqb_refl.
  eexists. split; [reflexivity |]. unfold extends.
  revert idx Hlen. induction Hv as [| t ts Ht Hts IH]; intros [| r idx] Hlen;
    try discriminate; simpl.
  - constructor.
  - constructor.
    + exists [t]. repeat split. constructor; [exact Ht | constructor].
    + apply IH. simpl in Hlen. lia.
Qed.

Lemma generate_step_ok (model : Model) (V : nat) (block_size : option Z)
    (idx : tokens) (g : rng) :
  (1 <= V)%nat ->
  model_returns model V block_size idx g ->
  exists out g', generate_step model block_size idx g = Ok (out, g')
                 /\ extends V 1 idx out.
Proof.
  intros HV (logits & g1 & Hm & Hll & Hlast). unfold generate_step.
  rewrite (bind_ok _ _ _ _ _ Hm).
  destruct (mapR_Forall (fun v : vector => length v = V) last_step logits)
    as (last & Hl & Hlen & HlV).
  { exact Hlast. }
  rewrite (bind_lift_ok _ _ _ _ Hl).
  destruct (mapR_Forall (fun q : vector => length q = V /\ Forall (fun a => 0 <= a) q
                                           /\ 0 < vsum q)
              (fun row => softmax (map Fin row)) last) as (probs & Hp & Hpl & HpV).
  { apply List.Forall_forall. intros row Hrow. rewrite List.Forall_forall in HlV.
    destruct (softmax_logits row) as (q & Hq & Hql & Hqn & Hqs).
    { intros ->. specialize (HlV [] Hrow). simpl in HlV. lia. }
    exists q. rewrite Hql, (HlV row Hrow), Hqs. repeat split; [exact Hq | exact Hqn | lra]. }
  rewrite (bind_lift_ok _ _ _ _ Hp).
  destruct (mapM_st_Forall (fun t => (t < V)%nat) torch_multinomial probs)
    with (s := g1) as (idx_next & g2 & Hn & Hnl & HnV).
  { apply List.Forall_forall. intros q Hq s. rewrite List.Forall_forall in HpV.
    destruct (HpV q Hq) as (HqV & Hqn & Hqs).
    destruct (torch_multinomial_ok q s) as (i & s' & Hi & Hlt); try assumption.
    { intros ->. simpl in HqV. lia. }
    exists i, s'. split; [exact Hi | lia]. }
  rewrite (bind_ok _ _ _ _ _ Hn).
  destruct (torch_cat_dim1_extends V idx idx_next) as (out & Ho & He).
  { unfold tokens, batch, matrix, vector in *. congruence. }
  { exact HnV. }
  exists out, g2. split; [| exact He]. rewrite Ho. reflexivity.
Qed.

Lemma extends_refl (V : nat) (idx : tokens) : extends V 0 idx idx.
Proof.
  unfold extends. induction idx as [| r idx IH]; constructor; [| exact IH].
  exists []. rewrite app_nil_r. repeat split. constructor.
Qed.

Lemma extends_trans (V n : nat) (idx mid out : tokens) :
  extends V n idx mid -> extends V 1 mid out -> extends V (S n) idx out.
Proof.
  unfold extends. intros H. revert out.
  induction H as [| r r' idx mid (new & -> & Hl & Hv) H IH]; intros out H1.
  - inversion H1. constructor.
  - inversion H1 as [| ? r'' ? out' (new' & -> & Hl' & Hv') H1']; subst.
    constructor; [| apply IH, H1'].
    exists (new ++ new'). rewrite app_assoc. repeat split.
    + rewrite length_app. lia.
    + apply Forall_app. split; assumption.
Qed.

Lemma extends_length (V n : nat) (idx out : tokens) :
  extends V n idx out -> length out = length idx.
Proof. intros H. symmetry. eapply List.Forall2_length. exact H. Qed.

Lemma generate_from (model : Model) (V : nat) (block_size : option Z) (idx : tokens)
    (N : nat) :
  (1 <= V)%nat ->
  forall (n : nat) (cur : tokens) (g : rng),
    extends V n idx cur ->
    (forall m idx' g', (n <= m < n + N)%nat -> extends V m idx idx' ->
                       model_returns model V block_size idx' g') ->
    exists out g', generate model cur N block_size g = Ok (out, g')
                   /\ extends V (n + N) idx out.
Proof.
  intros HV. induction N as [| N IH]; intros n cur g Hcur Hmodel.
  - exists cur, g. split; [reflexivity |]. rewrite Nat.add_0_r. exact Hcur.
  - destruct (generate_step_ok model V block_size cur g HV) as (nxt & g1 & Hs & He).
    { apply (Hmodel n); [lia | exact Hcur]. }
    destruct (IH (S n) nxt g1) as (out & g2 & Ho & Hx).
    { apply (extends_trans V n idx cur nxt Hcur He). }
    { intros m idx' g' Hm. apply Hmodel. lia. }
    exists out, g2. split.
    + cbn [generate]. rewrite (bind_ok _ _ _ _ _ Hs). exact Ho.
    + replace (n + S N)%nat with (S n + N)%nat by lia. exact Hx.
Qed.






(** ** The bigram model as a model for the sampler *)


Lemma last_In {A : Type} (l : list A) (d : A) : l <> [] -> In (List.last l d) l.
Proof.
  induction l as [| a l IH]; intros Hne; [contradiction |].
  destruct l as [| b l]; [left; reflexivity |].
  right. apply IH. discriminate.
Qed.




(** C1.  In inference mode, on an input of [T] rows with [T] no greater
    than the context window, a head returns attention weights of shape
    [T] by [T] in which every entry (i, j) with [j > i] is 0 and every row
    sums to 1; the mask is the [T] by [T] corner of the buffer built for
    the whole window. *)
Theorem Head_attention_causal (h : Head) (head_size n_embd block_size : nat)
    (x : matrix) (g : rng) :
  Head_shaped h head_size n_embd block_size ->
  (1 <= head_size)%nat ->
  Forall (fun r => length r = n_embd) x ->
  (length x <= block_size)%nat ->
  exists wei,
    Head_attention false h x g = Ok (wei, g)
    /\ length wei = length x
    /\ forall i row, nth_error wei i = Some row ->
         length row = length x
         /\ vsum row = 1
         /\ forall j, (i < j < length x)%nat -> nth_error row j = Some 0.
Proof.
  intros Hh Hhs Hx HT.
  destruct (Head_attention_masked h head_size n_embd block_size x g Hh Hhs Hx HT)
    as (w & Hwl & Hwr & Hatt).
  destruct (softmax_causal_fill w (length x) Hwl Hwr) as (wei & Hwei & Hl & _).
  exists wei. split; [| split; [exact Hl |]].
  - rewrite Hatt, (bind_lift_ok _ _ _ _ Hwei). reflexivity.
  - intros i p Hp.
    destruct (mapR_nth_error _ _ _ Hwei i p Hp) as (row & Hrow & Hsm).
    destruct (masked_row w (length x) i row Hwl Hwr Hrow) as (_ & Hrl & [a Ha] & Hinf).
    destruct (softmax_finite_entry row i a Ha) as (q & Hq & Hql & Hqs & Hqz).
    rewrite Hq in Hsm. inversion Hsm; subst q.
    split; [rewrite Hql; exact Hrl |]. split; [exact Hqs |].
    intros j Hj. apply Hqz, Hinf, Hj.
Qed.

(** C2.  Each block computes the composition the specification gives for
    its variant: [Block] (Variant A) is
    [x' = x + Attention(Norm(x)); x'' = x' + FeedForward(Norm(x'))],
    [BlockGPT1] (Variant B) is
    [x' = Norm(Attention(x) + x); x'' = Norm(FeedForward(x') + x')], and
    [BlockGPT2] (Variant C) is the composition of Variant A over the
    normalization layer with the optional bias; for every input, in both
    modes and from every state of the random source. *)
Theorem block_variants_compose (training : bool) (a : Block) (b : BlockGPT1)
    (c : BlockGPT2) (x : matrix) (g : rng) :
  Block_forward training a x g
  = pre_norm_composition (nn_LayerNorm_forward (Block_ln1 a))
      (nn_LayerNorm_forward (Block_ln2 a))
      (MultiHeadAttention_forward training (Block_sa a))
      (FeedFoward_forward training (Block_ffwd a)) x g
  /\ BlockGPT1_forward training b x g
     = post_norm_composition (nn_LayerNorm_forward (BlockGPT1_ln1 b))
         (nn_LayerNorm_forward (BlockGPT1_ln2 b))
         (MultiHeadAttention_forward training (BlockGPT1_multi_head b))
         (FeedFoward_forward training (BlockGPT1_ffwd b)) x g
  /\ BlockGPT2_forward training c x g
     = pre_norm_composition (LayerNorm_forward (BlockGPT2_ln1 c))
         (LayerNorm_forward (BlockGPT2_ln2 c))
         (MultiHeadAttention_forward training (BlockGPT2_multi_head c))
         (FeedFowardGPT2_forward training (BlockGPT2_ffwd c)) x g.
Proof.
  unfold Block_forward, BlockGPT1_forward, BlockGPT2_forward,
    pre_norm_composition, post_norm_composition.
  repeat split; monad_norm.
Qed.


(** C7.  The layer built without a bias and the layer built with a bias that
    holds the zero vector return the same output, for every learned scale
    and every input (an input of the wrong width is refused by both). *)
Theorem LayerNorm_no_bias_is_zero_bias (scale_w : vector) (input : matrix) :
  LayerNorm_init (length scale_w) false
  = {| LayerNorm_weight := repeat 1 (length scale_w); LayerNorm_bias := None |}
  /\ LayerNorm_init (length scale_w) true
     = {| LayerNorm_weight := repeat 1 (length scale_w);
          LayerNorm_bias := Some (repeat 0 (length scale_w)) |}
  /\ LayerNorm_forward {| LayerNorm_weight := scale_w; LayerNorm_bias := None |} input
     = LayerNorm_forward {| LayerNorm_weight := scale_w;
                            LayerNorm_bias := Some (repeat 0 (length scale_w)) |} input.
Proof.
  split; [reflexivity |]. split; [reflexivity |].
  unfold LayerNorm_forward, F_layer_norm. simpl.
  rewrite repeat_length, Nat.eqb_refl. simpl.
  match goal with
  | |- context [forallb ?f input] => destruct (forallb f input); [| reflexivity]
  end.
  f_equal. apply map_ext. intros r. symmetry. apply affine_zero_bias.
Qed.

(** C4, as stated, fails: on the small GPT2 and the input [[0; 1]] no
    normalization layer between the block and the projection gives the
    logits of the forward pass. *)
Lemma GPT2_final_norm_counterexample :
  ~ exists ln_f : LayerNorm,
      GPT2_forward false tiny_GPT2 [[0; 1]]%nat rng0
      = decoder_composition (GPT2_token_embedding_table tiny_GPT2)
          (GPT2_position_embedding_table tiny_GPT2)
          (Some (Dropout_forward false (GPT2_drop tiny_GPT2)))
          (Sequential BlockGPT2_forward false (GPT2_blocks tiny_GPT2))
          (Some (LayerNorm_forward ln_f)) (GPT2_lm_head tiny_GPT2)
          [[0; 1]]%nat rng0.
Proof.
  intros [ln_f H]. rewrite tiny_GPT2_forward in H.
  unfold decoder_composition in H.
  cbn [tiny_GPT2 GPT2_token_embedding_table GPT2_position_embedding_table GPT2_drop
       GPT2_blocks GPT2_lm_head] in H.
  assert (He : embed {| num_embeddings := 2; embedding_dim := 1;
                        Embedding_weight := [[1]; [2]] |}
                     {| num_embeddings := 2; embedding_dim := 1;
                        Embedding_weight := [[0]; [0]] |} [[0; 1]]%nat
               = Ok [[[1 + 0]; [2 + 0]]]) by reflexivity.
  rewrite (bind_lift_ok _ _ _ _ He) in H.
  cbn [mapM_st Dropout_forward bind ret Sequential foldM_st] in H.
  rewrite !bind_assoc, (bind_ok _ _ _ _ _ (tiny_block_forward _ _ rng0)) in H.
  cbn [bind ret mapR bind_res lift] in H.
  unfold LayerNorm_forward, F_layer_norm in H.
  match type of H with
  | context [if ?c then _ else _] => destruct c
  end. 2:{ cbn in H. discriminate H. }
  cbn [map bind_res] in H. rewrite !normalize_singleton in H.
  set (r := affine _ _ [0]) in H.
  unfold Linear_forward in H. cbn [bind lift mapR bind_res forallb in_features] in H.
  destruct (length r =? 1)%nat; [| cbn in H; discriminate H].
  cbn in H. inversion H. lra.
Qed.

(** C4, amended.  The forward pass of [GPT2] is the embedding, the input
    dropout, the blocks and the projection to the vocabulary, in this order,
    with no normalization between the last block and the projection; [GPT1]
    and [simpleGPT] are the same without the input dropout. *)
Theorem decoder_stacks_compose (training : bool) (m2 : GPT2) (m1 : GPT1)
    (ms : simpleGPT) (idx : tokens) (g : rng) :
  GPT2_forward training m2 idx g
  = decoder_composition (GPT2_token_embedding_table m2)
      (GPT2_position_embedding_table m2)
      (Some (Dropout_forward training (GPT2_drop m2)))
      (Sequential BlockGPT2_forward training (GPT2_blocks m2))
      None (GPT2_lm_head m2) idx g
  /\ GPT1_forward training m1 idx g
     = decoder_composition (GPT1_token_embedding_table m1)
         (GPT1_position_embedding_table m1) None
         (Sequential BlockGPT1_forward training (GPT1_blocks m1))
         None (GPT1_lm_head m1) idx g
  /\ simpleGPT_forward training ms idx g
     = decoder_composition (simpleGPT_token_embedding_table ms)
         (simpleGPT_position_embedding_table ms) None
         (Sequential Block_forward training (simpleGPT_blocks ms))
         None (simpleGPT_lm_head ms) idx g.
Proof.
  unfold GPT2_forward, GPT1_forward, simpleGPT_forward, decoder_composition.
  repeat split; monad_norm.
Qed.




(** C3, as stated, fails: a block of embedding dimension 3 with 2 heads is
    constructed, although 2 does not divide 3. *)
Lemma Block_init_indivisible_counterexample :
  (3 mod 2)%nat <> 0%nat
  /\ exists b g', Block_init 3 2 4 0 rng0 = Ok (b, g').
Proof.
  split; [discriminate |].
  destruct (Block_init_ok 3 2 4 0 rng0) as (b & g' & Hb & _); [lia | lra |].
  exists b, g'. exact Hb.
Qed.

(** C3, amended.  The constructor of a block makes no divisibility check:
    for every embedding dimension and every head count of at least 1 (and a
    dropout rate in [0, 1]) it succeeds, and the attention layer it builds
    has [n_head] heads of size [n_embd // n_head], the quotient rounded
    down, each with key, query and value maps from [n_embd] to that size
    and a mask of [block_size] rows, and a projection from [n_embd] to
    [n_embd].  It is the forward pass that depends on the divisibility: on
    every input of at least one and at most [block_size] rows of width
    [n_embd], in inference mode, the block raises when [n_head] does not
    divide [n_embd], and its attention layer returns when it does (and
    [n_embd] is positive). *)
Theorem Block_init_unchecked (n_embd n_head block_size : nat) (rate : R) (g : rng) :
  (1 <= n_head)%nat -> 0 <= rate <= 1 ->
  exists b g',
    Block_init n_embd n_head block_size rate g = Ok (b, g')
    /\ MultiHeadAttention_shaped (Block_sa b) n_head (n_embd / n_head) n_embd
                                 block_size
    /\ length (MultiHeadAttention_heads (Block_sa b)) = n_head
    /\ Forall (fun h => out_features (Head_key h) = (n_embd / n_head)%nat
                        /\ out_features (Head_query h) = (n_embd / n_head)%nat
                        /\ out_features (Head_value h) = (n_embd / n_head)%nat)
              (MultiHeadAttention_heads (Block_sa b))
    /\ forall (x : matrix) (g1 : rng),
         Forall (fun r => length r = n_embd) x ->
         (1 <= length x <= block_size)%nat ->
         ((n_embd mod n_head)%nat <> 0%nat ->
          exists e, Block_forward false b x g1 = Raise e)
         /\ ((n_embd mod n_head)%nat = 0%nat -> (1 <= n_embd)%nat ->
             exists out,
               MultiHeadAttention_forward false (Block_sa b) x g1 = Ok (out, g1)).
Proof.
  intros Hh Hr.
  destruct (Block_init_ok n_embd n_head block_size rate g Hh Hr)
    as (b & g' & Hb & Hsa & Hln).
  exists b, g'. split; [exact Hb |]. split; [exact Hsa |].
  split; [apply Hsa |]. split.
  { destruct Hsa as (_ & Hheads & _). eapply List.Forall_impl; [| exact Hheads].
    intros h ((_ & Hk & _) & (_ & Hq & _) & (_ & Hv & _) & _).
    repeat split; assumption. }
  intros x g1 Hx HT.
  pose proof (Nat.div_mod_eq n_embd n_head) as Hdiv.
  split.
  - intros Hmod. unfold Block_forward. rewrite Hln.
    destruct (nn_LayerNorm_forward_ok n_embd x Hx) as (n1 & Hn1 & Hl1 & Hr1).
    rewrite (bind_lift_ok _ _ _ _ Hn1).
    destruct (MultiHeadAttention_forward_mismatch (Block_sa b) n_head
                (n_embd / n_head) n_embd block_size n1 g1 Hsa Hh) as [e He].
    { lia. }
    { exact Hr1. }
    { unfold matrix, vector in *. lia. }
    exists e. apply bind_raise. exact He.
  - intros Hmod Hn.
    destruct (MultiHeadAttention_forward_ok (Block_sa b) n_head (n_embd / n_head)
                n_embd block_size x g1 Hsa Hh) as (out & Hout & _).
    { destruct (n_embd / n_head)%nat; lia. }
    { lia. }
    { exact Hx. }
    { exact HT. }
    exists out. exact Hout.
Qed.

Lemma Block_init_unchecked_witness :
  exists b g', Block_init 3 2 4 0 rng0 = Ok (b, g')
    /\ length (MultiHeadAttention_heads (Block_sa b)) = 2%nat
    /\ Forall (fun h => out_features (Head_key h) = 1%nat)
              (MultiHeadAttention_heads (Block_sa b)).
Proof.
  destruct (Block_init_unchecked 3 2 4 0 rng0) as (b & g' & Hb & _ & Hn & Hh & _).
  - lia.
  - lra.
  - exists b, g'. split; [exact Hb |]. split; [exact Hn |].
    eapply List.Forall_impl; [| exact Hh]. intros h (Hk & _). exact Hk.
Defined.

Lemma Head_attention_causal_witness :
  exists wei,
    Head_attention false tiny_head [[1]; [2]] rng0 = Ok (wei, rng0)
    /\ length wei = 2%nat.
Proof.
  destruct (Head_attention_causal tiny_head 1 1 2 [[1]; [2]] rng0)
    as (wei & Hwei & Hlen & _).
  - apply tiny_head_shaped.
  - lia.
  - repeat constructor.
  - simpl. lia.
  - exists wei. split; [exact Hwei | exact Hlen].
Defined.


(** * Further properties of [src/models.py] *)

(** ** Entries of the attention scores *)

Lemma map_nth_seq {A : Type} (l : list A) (d : A) :
  map (fun j => nth j l d) (seq 0 (length l)) = l.
Proof.
  induction l as [| a l IH]; simpl; [reflexivity |].
  f_equal. rewrite <- seq_shift, map_map. exact IH.
Qed.

Lemma nth_column (l j : nat) (k : matrix) :
  nth j (column l k) 0 = nth l (nth j k []) 0.
Proof.
  unfold column. revert j. induction k as [| r k IH]; intros [| j]; simpl.
  - destruct l; reflexivity.
  - destruct l; reflexivity.
  - reflexivity.
  - apply IH.
Qed.

Lemma column_transpose (k : matrix) (hs j : nat) :
  Forall (fun r => length r = hs) k -> k <> [] -> (j < length k)%nat ->
  column j (transpose k) = nth j k [].
Proof.
  intros Hk Hne Hj. unfold transpose, column. rewrite map_map.
  assert (Hn : ncols k = hs).
  { destruct k as [| k0 k]; [contradiction |]. apply (List.Forall_inv Hk). }
  rewrite Hn.
  assert (Hlen : length (nth j k []) = hs).
  { rewrite List.Forall_forall in Hk. apply Hk, nth_In, Hj. }
  rewrite <- Hlen at 1. rewrite <- (map_nth_seq (nth j k []) 0) at 2.
  apply map_ext. intros l. apply (nth_column l j k).
Qed.

Lemma matmul_transpose_eq (q k : matrix) (hs : nat) :
  (1 <= hs)%nat -> length q = length k ->
  Forall (fun r => length r = hs) q -> Forall (fun r => length r = hs) k ->
  matmul q (transpose k) = Ok (map (fun qi => map (dot qi) k) q).
Proof.
  intros Hhs Hlen Hq Hk. destruct k as [| k0 ks].
  - destruct q; [reflexivity | discriminate].
  - assert (Hn : ncols (k0 :: ks) = hs) by (apply (List.Forall_inv Hk)).
    assert (Ht : length (transpose (k0 :: ks)) = hs).
    { unfold transpose. rewrite length_map, length_seq. exact Hn. }
    assert (Hc : ncols (transpose (k0 :: ks)) = length (k0 :: ks)).
    { unfold transpose. rewrite Hn. destruct hs as [| m]; [lia |].
      unfold ncols. cbn [seq map hd]. unfold column. rewrite length_map. reflexivity. }
    unfold matmul. rewrite Ht. pose proof Hq as Hq'.
    apply forallb_length_eq in Hq'. rewrite Hq'. f_equal.
    apply map_ext. intros qi. rewrite Hc.
    transitivity (map (dot qi) (map (fun j => nth j (k0 :: ks) [])
                                    (seq 0 (length (k0 :: ks))))).
    2:{ rewrite map_nth_seq. reflexivity. }
    rewrite map_map.
    apply map_ext_in. intros j Hj. apply in_seq in Hj.
    rewrite (column_transpose (k0 :: ks) hs j Hk); [reflexivity | discriminate | lia].
Qed.

Lemma zip_fill_from (l : vector) (i s : nat) :
  zip_with fill l (map (fun j => negb (j <=? i)%nat) (seq s (length l)))
  = map Fin (firstn (S i - s) l) ++ repeat NegInf (length l - (S i - s)).
Proof.
  revert s. induction l as [| a l IH]; intros s; [destruct (S i - s)%nat; reflexivity |].
  cbn [length seq map zip_with]. rewrite IH.
  destruct (Nat.leb_spec s i) as [Hle | Hgt].
  - replace (S i - s)%nat with (S (i - s)) by lia.
    replace (S i - S s)%nat with (i - s)%nat by lia. reflexivity.
  - replace (S i - s)%nat with 0%nat by lia.
    replace (S i - S s)%nat with 0%nat by lia.
    rewrite !Nat.sub_0_r. reflexivity.
Qed.

Lemma zip_fill_causal (l : vector) (i : nat) :
  zip_with fill l (map (fun j => negb (j <=? i)%nat) (seq 0 (length l)))
  = map Fin (firstn (S i) l) ++ repeat NegInf (length l - S i).
Proof. rewrite zip_fill_from, Nat.sub_0_r. reflexivity. Qed.

Lemma vsum_exp_ext_fin (a : vector) (n : nat) :
  vsum (map exp_ext (map Fin a ++ repeat NegInf n)) = vsum (map exp a).
Proof.
  induction a as [| r a IH]; simpl.
  - induction n as [| n IHn]; simpl; [reflexivity | rewrite IHn; ring].
  - rewrite IH. reflexivity.
Qed.

Lemma softmax_fin_neginf (a : vector) (n : nat) :
  a <> [] ->
  softmax (map Fin a ++ repeat NegInf n)
  = Ok (map (fun s => exp s / vsum (map exp a)) a ++ repeat 0 n).
Proof.
  intros Hne. destruct a as [| r a]; [contradiction |].
  pose proof (vsum_exp_ext_fin (r :: a) n) as Hs.
  remember (r :: a) as ra eqn:Hra.
  assert (Hsm : softmax (map Fin ra ++ repeat NegInf n)
                = Ok (map (fun e => exp_ext e / vsum (map exp_ext (map Fin ra ++ repeat NegInf n)))
                          (map Fin ra ++ repeat NegInf n))).
  { subst ra. reflexivity. }
  rewrite Hsm, Hs. f_equal.
  rewrite map_app, map_map. f_equal.
  clear. induction n as [| n IH]; simpl; [reflexivity |].
  rewrite IH. f_equal. unfold Rdiv. ring.
Qed.

Lemma dot_zeros (n : nat) (col : vector) : dot (repeat 0 n) col = 0.
Proof.
  revert col. induction n as [| n IH]; intros [| c col]; simpl; try reflexivity.
  rewrite IH. ring.
Qed.

Lemma dot_app_zeros (w : vector) (n : nat) (col : vector) :
  dot (w ++ repeat 0 n) col = dot w col.
Proof.
  revert col. induction w as [| a w IH]; intros col; simpl.
  - rewrite dot_zeros. destruct col; reflexivity.
  - destruct col as [| c col]; [reflexivity |]. rewrite IH. reflexivity.
Qed.

Lemma dot_firstn (w col : vector) (k : nat) :
  (length w <= k)%nat -> dot w (firstn k col) = dot w col.
Proof.
  revert col k. induction w as [| a w IH]; intros col k Hk; simpl.
  - destruct (firstn k col); reflexivity.
  - destruct k as [| k]; [simpl in Hk; lia |].
    destruct col as [| c col]; simpl; [reflexivity |].
    rewrite IH by (simpl in Hk; lia). reflexivity.
Qed.

Lemma column_firstn (c k : nat) (v : matrix) :
  column c (firstn k v) = firstn k (column c v).
Proof. unfold column. rewrite firstn_map. reflexivity. Qed.

(** ** The rows of a head's output *)

Lemma Head_attention_scores (h : Head) (head_size n_embd block_size : nat)
    (x : matrix) (g : rng) :
  Head_shaped h head_size n_embd block_size ->
  (1 <= head_size)%nat ->
  Forall (fun r => length r = n_embd) x ->
  (length x <= block_size)%nat ->
  Head_attention false h x g
  = bind (lift (mapR softmax
           (causal_fill
              (scale (/ sqrt (INR (out_features (Head_key h))))
                 (map (fun qi => map (dot qi) (map (Linear_row (Head_key h)) x))
                      (map (Linear_row (Head_query h)) x)))
              (length x))))
         (Dropout_forward false (Head_dropout h)) g.
Proof.
  intros (Hk & Hq & _ & Htril) Hhs Hx HT.
  unfold Head_attention.
  rewrite (bind_lift_ok _ _ _ _ (Linear_forward_ok _ _ _ _ x Hk Hx)).
  rewrite (bind_lift_ok _ _ _ _ (Linear_forward_ok _ _ _ _ x Hq Hx)).
  set (kk := map (Linear_row (Head_key h)) x).
  set (qq := map (Linear_row (Head_query h)) x).
  assert (Hqk : matmul qq (transpose kk) = Ok (map (fun qi => map (dot qi) kk) qq)).
  { apply (matmul_transpose_eq qq kk head_size Hhs).
    - unfold qq, kk. rewrite !length_map. reflexivity.
    - apply (Forall_map_Linear_row _ _ _ _ x Hq).
    - apply (Forall_map_Linear_row _ _ _ _ x Hk). }
  rewrite (bind_lift_ok _ _ _ _ Hqk).
  assert (Hc : pow_neg_half (out_features (Head_key h))
               = Ok (/ sqrt (INR (out_features (Head_key h))))).
  { destruct Hk as (_ & Ho & _). rewrite Ho. unfold pow_neg_half.
    destruct (Nat.eqb_spec head_size 0); [lia | reflexivity]. }
  rewrite (bind_lift_ok _ _ _ _ Hc).
  rewrite Htril, (mask_of_tril _ _ HT).
  set (w := scale _ _).
  assert (Hwl : length w = length x).
  { unfold w, scale, qq. rewrite !length_map. reflexivity. }
  assert (Hwr : Forall (fun r => length r = length x) w).
  { unfold w, scale. apply List.Forall_forall. intros r Hr.
    apply in_map_iff in Hr. destruct Hr as (r0 & <- & Hr0).
    apply in_map_iff in Hr0. destruct Hr0 as (qi & <- & _).
    unfold kk. rewrite !length_map. reflexivity. }
  rewrite (bind_lift_ok _ _ _ _ (masked_fill_causal w (length x) Hwl Hwr)).
  reflexivity.
Qed.

Lemma Head_forward_rows (h : Head) (head_size n_embd block_size : nat) (x : matrix) :
  Head_shaped h head_size n_embd block_size ->
  (1 <= head_size)%nat ->
  Forall (fun r => length r = n_embd) x ->
  (length x <= block_size)%nat ->
  exists out,
    (forall g, Head_forward false h x g = Ok (out, g))
    /\ length out = length x
    /\ forall i xi, nth_error x i = Some xi ->
         nth_error out i = Some (attend h (firstn (S i) x) xi).
Proof.
  intros Hh Hhs Hx HT. pose proof Hh as (Hk & Hq & Hv & Htril).
  unfold Head_forward.
  pose proof (fun g => Head_attention_scores h head_size n_embd block_size x g Hh Hhs Hx HT)
    as Hatt.
  set (c := / sqrt (INR (out_features (Head_key h)))) in *.
  set (w := scale c _) in Hatt.
  assert (Hwl : length w = length x).
  { unfold w, scale. rewrite !length_map. reflexivity. }
  assert (Hwr : Forall (fun r => length r = length x) w).
  { unfold w, scale. apply List.Forall_forall. intros r Hr.
    apply in_map_iff in Hr. destruct Hr as (r0 & <- & Hr0).
    apply in_map_iff in Hr0. destruct Hr0 as (qi & <- & _).
    rewrite !length_map. reflexivity. }
  destruct (softmax_causal_fill w (length x) Hwl Hwr) as (wei & Hwei & Hwei_l & Hwei_r).
  set (vv := map (Linear_row (Head_value h)) x).
  assert (Hvl : length vv = length x) by (unfold vv; apply length_map).
  assert (Hmm : matmul wei vv
                = Ok (map (fun r => map (fun j => dot r (column j vv)) (seq 0 (ncols vv)))
                          wei)).
  { unfold matmul. rewrite Hvl.
    pose proof Hwei_r as Hf. apply forallb_length_eq in Hf. rewrite Hf. reflexivity. }
  eexists. split; [| split].
  { intros g. specialize (Hatt g).
    rewrite (bind_lift_ok _ _ _ _ Hwei) in Hatt.
    change (Dropout_forward false (Head_dropout h) wei g) with (Ok (wei, g)) in Hatt.
    rewrite (bind_ok _ _ _ _ _ Hatt).
    rewrite (bind_lift_ok _ _ _ _ (Linear_forward_ok _ _ _ _ x Hv Hx)).
    fold vv. unfold lift. rewrite Hmm. reflexivity. }
  { rewrite length_map; exact Hwei_l. }
  intros i xi Hxi.
  assert (HiT : (i < length x)%nat) by (apply nth_error_Some; rewrite Hxi; discriminate).
  assert (Hnc : ncols vv = out_features (Head_value h)).
  { unfold ncols, vv. destruct x as [| x0 x']; [simpl in HiT; lia |]. simpl.
    rewrite (Linear_row_length _ _ _ _ x0 Hv). destruct Hv as (_ & Ho & _).
    symmetry. exact Ho. }
  rewrite nth_error_map.
  destruct (nth_error wei i) as [p |] eqn:Hp.
  2:{ apply nth_error_None in Hp. lia. }
  cbn [option_map]. f_equal. rewrite Hnc. unfold attend. apply map_ext. intros col.
  destruct (mapR_nth_error _ _ _ Hwei i p Hp) as (row & Hrow & Hsm).
  unfold causal_fill in Hrow. rewrite nth_error_map, nth_error_combine in Hrow.
  unfold causal_mask in Hrow. rewrite (nth_error_map_seq _ _ _ HiT) in Hrow.
  assert (Hwi : nth_error w i
                = Some (map (fun xj => dot (Linear_row (Head_query h) xi)
                                           (Linear_row (Head_key h) xj) * c) x)).
  { unfold w, scale. rewrite !nth_error_map, Hxi. cbn [option_map].
    rewrite !map_map. reflexivity. }
  unfold matrix, vector in *. rewrite Hwi in Hrow. cbn [option_map fst snd] in Hrow.
  injection Hrow as Hrow. subst row.
  set (scores := map (fun xj : list R => dot (Linear_row (Head_query h) xi)
                                         (Linear_row (Head_key h) xj) * c) x) in *.
  assert (Hsl : length scores = length x) by (unfold scores; apply length_map).
  rewrite <- Hsl, zip_fill_causal in Hsm.
  rewrite softmax_fin_neginf in Hsm.
  2:{ intros Hnil. apply (f_equal (@length R)) in Hnil. rewrite length_firstn in Hnil.
      rewrite Hsl in Hnil. cbn [length] in Hnil. lia. }
  injection Hsm as Hsm. subst p.
  rewrite dot_app_zeros.
  assert (Hpre : firstn (S i) scores
                 = map (fun xj : list R => dot (Linear_row (Head_query h) xi)
                                           (Linear_row (Head_key h) xj) * c)
                       (firstn (S i) x)).
  { unfold scores. rewrite firstn_map. reflexivity. }
  rewrite Hpre.
  rewrite <- (firstn_map (Linear_row (Head_value h))). fold vv.
  rewrite column_firstn, dot_firstn; [reflexivity |].
  rewrite !length_map, length_firstn. lia.
Qed.

(** ** Layers that commute with taking a prefix of the rows *)

Lemma list_eq_nth_error {A : Type} (l k : list A) :
  (forall i, nth_error l i = nth_error k i) -> l = k.
Proof.
  revert k. induction l as [| a l IH]; intros [| b k] H.
  - reflexivity.
  - specialize (H 0%nat). discriminate.
  - specialize (H 0%nat). discriminate.
  - pose proof (H 0%nat) as H0. simpl in H0. injection H0 as ->.
    f_equal. apply IH. intros i. apply (H (S i)).
Qed.

Lemma firstn_zip_with {A B C : Type} (f : A -> B -> C) (k : nat) (l : list A)
    (m : list B) :
  firstn k (zip_with f l m) = zip_with f (firstn k l) (firstn k m).
Proof.
  revert l m. induction k as [| k IH]; intros [| a l] [| b m]; simpl; try reflexivity.
  rewrite IH. reflexivity.
Qed.

Lemma causal_layer_rowwise (d_in d_out bs : nat) (f : matrix -> M matrix)
    (r : vector -> vector) :
  (forall x g, Forall (fun v => length v = d_in) x -> f x g = Ok (map r x, g)) ->
  (forall v, length v = d_in -> length (r v) = d_out) ->
  causal_layer d_in d_out bs f.
Proof.
  intros Hf Hr x Hx _. exists (map r x).
  split; [intros g; apply Hf, Hx |]. split; [apply length_map |]. split.
  - apply List.Forall_forall. intros v Hv. apply in_map_iff in Hv.
    destruct Hv as (u & <- & Hu). rewrite List.Forall_forall in Hx. apply Hr, Hx, Hu.
  - intros k g. rewrite firstn_map. apply Hf, Forall_take, Hx.
Qed.

Lemma causal_layer_bind (a b c bs : nat) (f h : matrix -> M matrix) :
  causal_layer a b bs f -> causal_layer b c bs h ->
  causal_layer a c bs (fun x => bind (f x) h).
Proof.
  intros Hf Hh x Hx HT.
  destruct (Hf x Hx HT) as (y & Hy & Hyl & Hyr & Hyk).
  destruct (Hh y Hyr ltac:(lia)) as (z & Hz & Hzl & Hzr & Hzk).
  exists z.
  split; [intros g; rewrite (bind_ok _ _ _ _ _ (Hy g)); apply Hz |].
  split; [lia |]. split; [exact Hzr |].
  intros k g. rewrite (bind_ok _ _ _ _ _ (Hyk k g)). apply Hzk.
Qed.

Lemma causal_layer_ext (a b bs : nat) (f h : matrix -> M matrix) :
  (forall x g, f x g = h x g) -> causal_layer a b bs f -> causal_layer a b bs h.
Proof.
  intros He Hf x Hx HT. destruct (Hf x Hx HT) as (y & Hy & Hyl & Hyr & Hyk).
  exists y. split; [intros g; rewrite <- He; apply Hy |]. split; [exact Hyl |].
  split; [exact Hyr |]. intros k g. rewrite <- He. apply Hyk.
Qed.

Lemma tensor_add_ok (x y : matrix) (d : nat) :
  length x = length y ->
  Forall (fun r => length r = d) x -> Forall (fun r => length r = d) y ->
  tensor_add x y = Ok (zip_with (zip_with Rplus) x y)
  /\ length (zip_with (zip_with Rplus) x y) = length x
  /\ Forall (fun r => length r = d) (zip_with (zip_with Rplus) x y).
Proof.
  intros Hl Hx Hy. unfold matrix, vector in *. split; [| split].
  - unfold tensor_add, same_shape, matrix, vector in *.
    rewrite Hl, Nat.eqb_refl. cbn [andb].
    replace (forallb _ (combine x y)) with true; [reflexivity |].
    symmetry. apply forallb_forall. intros [u v] Hin. cbn [fst snd].
    rewrite List.Forall_forall in Hx, Hy.
    rewrite (Hx u (in_combine_l _ _ _ _ Hin)), (Hy v (in_combine_r _ _ _ _ Hin)).
    apply Nat.eqb_refl.
  - rewrite zip_with_length. lia.
  - apply (Forall_zip_with (fun r => length r = d) (fun r => length r = d));
      try assumption.
    intros u v Hu Hv. rewrite zip_with_length. lia.
Qed.

Lemma causal_layer_residual (d bs : nat) (f : matrix -> M matrix) :
  causal_layer d d bs f ->
  causal_layer d d bs (fun x => let* a := f x in lift (tensor_add x a)).
Proof.
  intros Hf x Hx HT.
  destruct (Hf x Hx HT) as (y & Hy & Hyl & Hyr & Hyk).
  destruct (tensor_add_ok x y d (eq_sym Hyl) Hx Hyr) as (Hadd & Hal & Har).
  exists (zip_with (zip_with Rplus) x y).
  split; [intros g; rewrite (bind_ok _ _ _ _ _ (Hy g)); unfold lift; rewrite Hadd;
          reflexivity |].
  split; [exact Hal |]. split; [exact Har |].
  intros k g. rewrite (bind_ok _ _ _ _ _ (Hyk k g)). unfold lift.
  destruct (tensor_add_ok (firstn k x) (firstn k y) d) as (Hadd' & _).
  { unfold matrix, vector in *. rewrite !length_firstn. lia. }
  { apply Forall_take, Hx. }
  { apply Forall_take, Hyr. }
  rewrite Hadd', firstn_zip_with. reflexivity.
Qed.

Lemma causal_layer_residual_l (d bs : nat) (f : matrix -> M matrix) :
  causal_layer d d bs f ->
  causal_layer d d bs (fun x => let* a := f x in lift (tensor_add a x)).
Proof.
  intros Hf x Hx HT.
  destruct (Hf x Hx HT) as (y & Hy & Hyl & Hyr & Hyk).
  destruct (tensor_add_ok y x d Hyl Hyr Hx) as (Hadd & Hal & Har).
  exists (zip_with (zip_with Rplus) y x).
  split; [intros g; rewrite (bind_ok _ _ _ _ _ (Hy g)); unfold lift; rewrite Hadd;
          reflexivity |].
  split; [unfold matrix, vector in *; lia |].
  split; [exact Har |].
  intros k g. rewrite (bind_ok _ _ _ _ _ (Hyk k g)). unfold lift.
  destruct (tensor_add_ok (firstn k y) (firstn k x) d) as (Hadd' & _).
  { unfold matrix, vector in *. rewrite !length_firstn. lia. }
  { apply Forall_take, Hyr. }
  { apply Forall_take, Hx. }
  rewrite Hadd', firstn_zip_with. reflexivity.
Qed.

(** ** The row-wise layers *)

Lemma Linear_causal (l : Linear) (n_in n_out bs : nat) (wb : bool) :
  Linear_shaped l n_in n_out wb ->
  causal_layer n_in n_out bs (fun x => lift (Linear_forward l x)).
Proof.
  intros Hl. apply (causal_layer_rowwise _ _ _ _ (Linear_row l)).
  - intros x g Hx. unfold lift. rewrite (Linear_forward_ok _ _ _ _ x Hl Hx). reflexivity.
  - intros v _. apply (Linear_row_length _ _ _ _ v Hl).
Qed.

Lemma Dropout_causal (d bs : nat) (dr : Dropout) :
  causal_layer d d bs (Dropout_forward false dr).
Proof.
  apply (causal_layer_rowwise _ _ _ _ (fun v => v)).
  - intros x g _. cbn [Dropout_forward]. unfold ret. rewrite map_id. reflexivity.
  - intros v Hv. exact Hv.
Qed.

Lemma affine_length (w : vector) (b : option vector) (v : vector) (n : nat) :
  length w = n -> match b with Some b' => length b' = n | None => True end ->
  length v = n -> length (affine (Some w) b v) = n.
Proof.
  intros Hw Hb Hv. unfold affine. destruct b as [b' |].
  - rewrite !zip_with_length. lia.
  - rewrite zip_with_length. lia.
Qed.

Lemma normalize_length (eps : R) (v : vector) : length (normalize eps v) = length v.
Proof. unfold normalize. apply length_map. Qed.

Lemma F_layer_norm_ok (x : matrix) (n : nat) (w : vector) (b : option vector)
    (eps : R) :
  length w = n -> match b with Some b' => length b' = n | None => True end ->
  Forall (fun r => length r = n) x ->
  F_layer_norm x n (Some w) b eps
  = Ok (map (fun r => affine (Some w) b (normalize eps r)) x).
Proof.
  intros Hw Hb Hx. unfold F_layer_norm. cbn [shape_is].
  rewrite Hw, Nat.eqb_refl. cbn [andb].
  assert (Hsb : shape_is n b = true).
  { destruct b as [b' |]; [cbn [shape_is]; rewrite Hb; apply Nat.eqb_refl | reflexivity]. }
  rewrite Hsb. cbn [andb]. apply forallb_length_eq in Hx. rewrite Hx. reflexivity.
Qed.

Lemma nn_LayerNorm_causal (l : nn_LayerNorm) (n bs : nat) :
  nn_LayerNorm_shaped l n ->
  causal_layer n n bs (fun x => lift (nn_LayerNorm_forward l x)).
Proof.
  intros (Hn & Hw & Hb).
  apply (causal_layer_rowwise _ _ _ _
           (fun r => affine (Some (nn_LayerNorm_weight l)) (Some (nn_LayerNorm_bias l))
                            (normalize eps_default r))).
  - intros x g Hx. unfold lift, nn_LayerNorm_forward. rewrite Hn.
    rewrite (F_layer_norm_ok x n _ (Some (nn_LayerNorm_bias l)) _ Hw Hb Hx). reflexivity.
  - intros v Hv. apply affine_length; [exact Hw | exact Hb |].
    rewrite normalize_length. exact Hv.
Qed.

Lemma LayerNorm_causal (l : LayerNorm) (n bs : nat) :
  LayerNorm_shaped l n ->
  causal_layer n n bs (fun x => lift (LayerNorm_forward l x)).
Proof.
  intros (Hw & Hb).
  apply (causal_layer_rowwise _ _ _ _
           (fun r => affine (Some (LayerNorm_weight l)) (LayerNorm_bias l)
                            (normalize eps_default r))).
  - intros x g Hx. unfold lift, LayerNorm_forward. rewrite Hw.
    rewrite (F_layer_norm_ok x n _ (LayerNorm_bias l) _ Hw Hb Hx). reflexivity.
  - intros v Hv. apply affine_length; [exact Hw | exact Hb |].
    rewrite normalize_length. exact Hv.
Qed.

(** The feed-forward networks act on every row by itself. *)
Lemma FeedFoward_forward_rows (f : FeedFoward) (n_embd : nat) (x : matrix) (g : rng) :
  FeedFoward_shaped f n_embd ->
  Forall (fun r => length r = n_embd) x ->
  FeedFoward_forward false f x g
  = Ok (map (fun r => Linear_row (FeedFoward_net2 f)
                        (map ReLU (Linear_row (FeedFoward_net0 f) r))) x, g).
Proof.
  intros (H0 & H2) Hx. unfold FeedFoward_forward.
  rewrite (bind_lift_ok _ _ _ _ (Linear_forward_ok _ _ _ _ x H0 Hx)).
  assert (Ha : Forall (fun r => length r = (4 * n_embd)%nat)
                 (map (map ReLU) (map (Linear_row (FeedFoward_net0 f)) x))).
  { apply List.Forall_forall. intros r Hr. apply in_map_iff in Hr.
    destruct Hr as (u & <- & Hu). apply in_map_iff in Hu. destruct Hu as (v & <- & _).
    rewrite length_map. apply (Linear_row_length _ _ _ _ v H0). }
  rewrite (bind_lift_ok _ _ _ _ (Linear_forward_ok _ _ _ _ _ H2 Ha)).
  cbn [Dropout_forward]. unfold ret. rewrite !map_map. reflexivity.
Qed.

Lemma FeedFowardGPT2_forward_rows (f : FeedFowardGPT2) (n_embd : nat) (x : matrix)
    (g : rng) :
  FeedFowardGPT2_shaped f n_embd ->
  Forall (fun r => length r = n_embd) x ->
  FeedFowardGPT2_forward false f x g
  = Ok (map (fun r => Linear_row (FeedFowardGPT2_net2 f)
                        (map GELU (Linear_row (FeedFowardGPT2_net0 f) r))) x, g).
Proof.
  intros (H0 & H2) Hx. unfold FeedFowardGPT2_forward.
  rewrite (bind_lift_ok _ _ _ _ (Linear_forward_ok _ _ _ _ x H0 Hx)).
  assert (Ha : Forall (fun r => length r = (4 * n_embd)%nat)
                 (map (map GELU) (map (Linear_row (FeedFowardGPT2_net0 f)) x))).
  { apply List.Forall_forall. intros r Hr. apply in_map_iff in Hr.
    destruct Hr as (u & <- & Hu). apply in_map_iff in Hu. destruct Hu as (v & <- & _).
    rewrite length_map. apply (Linear_row_length _ _ _ _ v H0). }
  rewrite (bind_lift_ok _ _ _ _ (Linear_forward_ok _ _ _ _ _ H2 Ha)).
  cbn [Dropout_forward]. unfold ret. rewrite !map_map. reflexivity.
Qed.

Lemma FeedFoward_causal (f : FeedFoward) (n_embd bs : nat) :
  FeedFoward_shaped f n_embd ->
  causal_layer n_embd n_embd bs (FeedFoward_forward false f).
Proof.
  intros Hf. eapply causal_layer_rowwise.
  - intros x g Hx. apply (FeedFoward_forward_rows f n_embd x g Hf Hx).
  - intros v _. destruct Hf as (_ & H2). apply (Linear_row_length _ _ _ _ _ H2).
Qed.

Lemma FeedFowardGPT2_causal (f : FeedFowardGPT2) (n_embd bs : nat) :
  FeedFowardGPT2_shaped f n_embd ->
  causal_layer n_embd n_embd bs (FeedFowardGPT2_forward false f).
Proof.
  intros Hf. eapply causal_layer_rowwise.
  - intros x g Hx. apply (FeedFowardGPT2_forward_rows f n_embd x g Hf Hx).
  - intros v _. destruct Hf as (_ & H2). apply (Linear_row_length _ _ _ _ _ H2).
Qed.

(** ** Attention *)

Lemma attend_length (h : Head) (pre : matrix) (xi : vector) :
  length (attend h pre xi) = out_features (Head_value h).
Proof. unfold attend. rewrite length_map, length_seq. reflexivity. Qed.

Lemma Head_causal (h : Head) (head_size n_embd block_size : nat) :
  Head_shaped h head_size n_embd block_size ->
  (1 <= head_size)%nat ->
  causal_layer n_embd head_size block_size (Head_forward false h).
Proof.
  intros Hh Hhs x Hx HT.
  destruct (Head_forward_rows h head_size n_embd block_size x Hh Hhs Hx HT)
    as (out & Hout & Hol & Hrows).
  exists out. split; [exact Hout |]. split; [exact Hol |]. split.
  - apply List.Forall_forall. intros r Hr. apply In_nth_error in Hr.
    destruct Hr as [i Hi].
    destruct (nth_error x i) as [xi |] eqn:Hxi.
    + pose proof (Hrows i xi Hxi) as Hri. unfold matrix, vector in *.
      rewrite Hri in Hi. injection Hi as <-.
      rewrite attend_length. destruct Hh as (_ & _ & (_ & Ho & _) & _). exact Ho.
    + apply nth_error_None in Hxi.
      assert (i < length out)%nat.
      { apply nth_error_Some. unfold matrix, vector in *. rewrite Hi. discriminate. }
      unfold matrix, vector in *. lia.
  - intros k g.
    destruct (Head_forward_rows h head_size n_embd block_size (firstn k x) Hh Hhs)
      as (out' & Hout' & Hol' & Hrows').
    { apply Forall_take, Hx. }
    { rewrite length_firstn. lia. }
    rewrite Hout'. do 2 f_equal. apply list_eq_nth_error. intros i.
    unfold matrix, vector in *.
    rewrite nth_error_firstn.
    destruct (Nat.ltb_spec i k) as [Hik | Hik].
    + destruct (nth_error x i) as [xi |] eqn:Hxi.
      * rewrite (Hrows i xi Hxi).
        rewrite (Hrows' i xi) by (rewrite nth_error_firstn;
          destruct (Nat.ltb_spec i k); [exact Hxi | lia]).
        rewrite firstn_firstn, Nat.min_l by lia. reflexivity.
      * pose proof Hxi as Hn. apply nth_error_None in Hn.
        assert (Ho : nth_error out i = None) by (apply nth_error_None; lia).
        rewrite Ho. apply nth_error_None. rewrite Hol', length_firstn. lia.
    + apply nth_error_None. rewrite Hol', length_firstn. lia.
Qed.

Lemma mapM_st_causal {L : Type} (f : L -> matrix -> M matrix) (d_in d_out bs : nat)
    (layers : list L) (x : matrix) :
  Forall (fun l => causal_layer d_in d_out bs (f l)) layers ->
  Forall (fun r => length r = d_in) x -> (length x <= bs)%nat ->
  exists outs,
    (forall g, mapM_st (fun l => f l x) layers g = Ok (outs, g))
    /\ length outs = length layers
    /\ Forall (fun t => length t = length x /\ Forall (fun r => length r = d_out) t)
              outs
    /\ forall k g, mapM_st (fun l => f l (firstn k x)) layers g
                   = Ok (map (firstn k) outs, g).
Proof.
  intros Hall Hx HT. induction Hall as [| l layers Hl Hall IH].
  - exists []. repeat split. constructor.
  - destruct IH as (outs & Houts & Hlen & Hsh & Hk).
    destruct (Hl x Hx HT) as (o & Ho & Hol & Hor & Hok).
    exists (o :: outs). cbn [mapM_st].
    split; [intros g; rewrite (bind_ok _ _ _ _ _ (Ho g)), (bind_ok _ _ _ _ _ (Houts g));
            reflexivity |].
    split; [simpl; lia |]. split.
    + constructor; [split; assumption | exact Hsh].
    + intros k g. rewrite (bind_ok _ _ _ _ _ (Hok k g)), (bind_ok _ _ _ _ _ (Hk k g)).
      reflexivity.
Qed.

Lemma torch_cat_last_firstn (outs : list matrix) (T d : nat) (c : matrix) (k : nat) :
  Forall (fun t => length t = T /\ Forall (fun r => length r = d) t) outs ->
  torch_cat_last outs = Ok c ->
  torch_cat_last (map (firstn k) outs) = Ok (firstn k c).
Proof.
  revert c. induction outs as [| t outs IH]; intros c Hall Hc; [discriminate |].
  pose proof (List.Forall_inv Hall) as [Htl Htr].
  pose proof (List.Forall_inv_tail Hall) as Hrest.
  destruct outs as [| t' outs'].
  - simpl in Hc. injection Hc as <-. reflexivity.
  - change (torch_cat_last (t :: t' :: outs'))
      with (let? r := torch_cat_last (t' :: outs') in
            if (length t =? length r)%nat
            then Ok (zip_with (@app R) t r) else Raise RuntimeError) in Hc.
    destruct (torch_cat_last (t' :: outs')) as [r |] eqn:Hr; [| discriminate].
    cbn [bind_res] in Hc.
    destruct (Nat.eqb_spec (length t) (length r)) as [Hlr | Hlr]; [| discriminate].
    injection Hc as <-.
    change (torch_cat_last (map (firstn k) (t :: t' :: outs')))
      with (let? r := torch_cat_last (map (firstn k) (t' :: outs')) in
            if (length (firstn k t) =? length r)%nat
            then Ok (zip_with (@app R) (firstn k t) r) else Raise RuntimeError).
    rewrite (IH r Hrest eq_refl). cbn [bind_res].
    unfold matrix, vector in *.
    rewrite !length_firstn, Hlr, Nat.eqb_refl, firstn_zip_with. reflexivity.
Qed.

Lemma MultiHeadAttention_causal (m : MultiHeadAttention)
    (num_heads head_size n_embd block_size : nat) :
  MultiHeadAttention_shaped m num_heads head_size n_embd block_size ->
  (1 <= num_heads)%nat -> (1 <= head_size)%nat ->
  (num_heads * head_size)%nat = n_embd ->
  causal_layer n_embd n_embd block_size (MultiHeadAttention_forward false m).
Proof.
  intros (Hlen & Hheads & Hproj) Hn Hs He x Hx HT.
  unfold MultiHeadAttention_forward.
  destruct (mapM_st_causal (Head_forward false) n_embd head_size block_size
              (MultiHeadAttention_heads m) x) as (outs & Houts & Hol & Hos & Hok);
    [| exact Hx | exact HT |].
  { eapply List.Forall_impl; [| exact Hheads]. intros h Hh.
    apply (Head_causal h head_size n_embd block_size Hh Hs). }
  destruct (torch_cat_last_shape outs (length x) head_size) as (c & Hc & Hcl & Hcr).
  { intros ->. simpl in Hol. lia. }
  { exact Hos. }
  rewrite Hol, Hlen, He in Hcr.
  exists (map (Linear_row (MultiHeadAttention_proj m)) c).
  split; [| split; [rewrite length_map; exact Hcl | split]].
  - intros g. rewrite (bind_ok _ _ _ _ _ (Houts g)).
    rewrite (bind_lift_ok _ _ _ _ Hc).
    rewrite (bind_lift_ok _ _ _ _ (Linear_forward_ok _ _ _ _ c Hproj Hcr)).
    reflexivity.
  - apply (Forall_map_Linear_row _ _ _ _ c Hproj).
  - intros k g. rewrite (bind_ok _ _ _ _ _ (Hok k g)).
    rewrite (bind_lift_ok _ _ _ _ (torch_cat_last_firstn outs _ _ c k Hos Hc)).
    assert (Hck : Forall (fun r => length r = n_embd) (firstn k c))
      by (apply Forall_take, Hcr).
    rewrite (bind_lift_ok _ _ _ _ (Linear_forward_ok _ _ _ _ _ Hproj Hck)).
    rewrite firstn_map. reflexivity.
Qed.

Lemma heads_divide_size (n_embd n_head : nat) :
  heads_divide n_embd n_head ->
  (1 <= n_head)%nat /\ (1 <= n_embd / n_head)%nat
  /\ (n_head * (n_embd / n_head))%nat = n_embd.
Proof.
  intros (Hh & He & Hm). split; [exact Hh |].
  pose proof (Nat.div_mod_eq n_embd n_head) as Hd. rewrite Hm in Hd.
  split; [| lia].
  destruct (n_embd / n_head)%nat; lia.
Qed.

(** ** The blocks *)

Lemma Block_causal (b : Block) (n_embd n_head block_size : nat) :
  Block_shaped b n_embd n_head block_size ->
  heads_divide n_embd n_head ->
  causal_layer n_embd n_embd block_size (Block_forward false b).
Proof.
  intros (Hsa & Hff & Hl1 & Hl2) Hd.
  destruct (heads_divide_size _ _ Hd) as (Hh & Hs & He).
  pose proof (MultiHeadAttention_causal _ _ _ _ _ Hsa Hh Hs He) as Ca.
  pose proof (FeedFoward_causal _ _ block_size Hff) as Cf.
  pose proof (nn_LayerNorm_causal _ _ block_size Hl1) as C1.
  pose proof (nn_LayerNorm_causal _ _ block_size Hl2) as C2.
  pose proof (causal_layer_bind _ _ _ _ _ _
                (causal_layer_residual _ _ _ (causal_layer_bind _ _ _ _ _ _ C1 Ca))
                (causal_layer_residual _ _ _ (causal_layer_bind _ _ _ _ _ _ C2 Cf)))
    as C.
  eapply causal_layer_ext; [| exact C].
  intros x g. unfold Block_forward. cbv beta. monad_norm.
Qed.

Lemma BlockGPT2_causal (b : BlockGPT2) (n_embd n_head block_size : nat) :
  BlockGPT2_shaped b n_embd n_head block_size ->
  heads_divide n_embd n_head ->
  causal_layer n_embd n_embd block_size (BlockGPT2_forward false b).
Proof.
  intros (Hsa & Hff & Hl1 & Hl2) Hd.
  destruct (heads_divide_size _ _ Hd) as (Hh & Hs & He).
  pose proof (MultiHeadAttention_causal _ _ _ _ _ Hsa Hh Hs He) as Ca.
  pose proof (FeedFowardGPT2_causal _ _ block_size Hff) as Cf.
  pose proof (LayerNorm_causal _ _ block_size Hl1) as C1.
  pose proof (LayerNorm_causal _ _ block_size Hl2) as C2.
  pose proof (causal_layer_bind _ _ _ _ _ _
                (causal_layer_residual _ _ _ (causal_layer_bind _ _ _ _ _ _ C1 Ca))
                (causal_layer_residual _ _ _ (causal_layer_bind _ _ _ _ _ _ C2 Cf)))
    as C.
  eapply causal_layer_ext; [| exact C].
  intros x g. unfold BlockGPT2_forward. cbv beta. monad_norm.
Qed.

Lemma BlockGPT1_causal (b : BlockGPT1) (n_embd n_head block_size : nat) :
  BlockGPT1_shaped b n_embd n_head block_size ->
  heads_divide n_embd n_head ->
  causal_layer n_embd n_embd block_size (BlockGPT1_forward false b).
Proof.
  intros (Hsa & Hff & Hl1 & Hl2) Hd.
  destruct (heads_divide_size _ _ Hd) as (Hh & Hs & He).
  pose proof (MultiHeadAttention_causal _ _ _ _ _ Hsa Hh Hs He) as Ca.
  pose proof (FeedFoward_causal _ _ block_size Hff) as Cf.
  pose proof (nn_LayerNorm_causal _ _ block_size Hl1) as C1.
  pose proof (nn_LayerNorm_causal _ _ block_size Hl2) as C2.
  pose proof (causal_layer_bind _ _ _ _ _ _
                (causal_layer_bind _ _ _ _ _ _ (causal_layer_residual_l _ _ _ Ca) C1)
                (causal_layer_bind _ _ _ _ _ _ (causal_layer_residual_l _ _ _ Cf) C2))
    as C.
  eapply causal_layer_ext; [| exact C].
  intros x g. unfold BlockGPT1_forward. cbv beta. monad_norm.
Qed.

Lemma causal_layer_ret (d bs : nat) : causal_layer d d bs ret.
Proof.
  intros x Hx _. exists x. split; [reflexivity |]. split; [reflexivity |].
  split; [exact Hx |]. intros k g. reflexivity.
Qed.

Lemma Sequential_causal {L : Type} (forward : bool -> L -> matrix -> M matrix)
    (d bs : nat) (layers : list L) :
  Forall (fun l => causal_layer d d bs (forward false l)) layers ->
  causal_layer d d bs (Sequential forward false layers).
Proof.
  intros Hall. induction Hall as [| l layers Hl Hall IH].
  - apply causal_layer_ret.
  - apply (causal_layer_bind _ _ _ _ _ _ Hl IH).
Qed.

(** ** Embeddings *)

Lemma Embedding_forward_rows (e : Embedding) (n d : nat) (idx : list nat) :
  Embedding_shaped e n d ->
  Forall (fun i => (i < n)%nat) idx ->
  Embedding_forward e idx = Ok (map (fun i => nth i (Embedding_weight e) []) idx).
Proof.
  intros (Hn & _) Hidx. unfold Embedding_forward. rewrite <- mapR_map.
  apply mapR_ext_in. intros i Hi. rewrite List.Forall_forall in Hidx.
  specialize (Hidx i Hi).
  destruct (nth_error (Embedding_weight e) i) as [row |] eqn:Hrow.
  - rewrite (nth_error_nth _ _ _ Hrow). reflexivity.
  - apply nth_error_None in Hrow. lia.
Qed.

Lemma Embedding_forward_raises (e : Embedding) (n d : nat) (idx : list nat) :
  Embedding_shaped e n d ->
  Exists (fun i => (n <= i)%nat) idx ->
  Embedding_forward e idx = Raise IndexError.
Proof.
  intros (Hn & _) Hex. unfold Embedding_forward.
  induction idx as [| i idx IH]; [inversion Hex |].
  cbn [mapR].
  destruct (nth_error (Embedding_weight e) i) as [row |] eqn:Hrow.
  - cbn [bind_res]. rewrite IH; [reflexivity |].
    inversion Hex as [? ? Hi | ? ? Hr]; subst; [| exact Hr].
    assert (i < length (Embedding_weight e))%nat
      by (apply nth_error_Some; rewrite Hrow; discriminate).
    lia.
  - reflexivity.
Qed.

Lemma zip_with_combine {A B C : Type} (f : A -> B -> C) (l : list A) (k : list B) :
  zip_with f l k = map (fun p => f (fst p) (snd p)) (combine l k).
Proof.
  revert k. induction l as [| a l IH]; intros [| b k]; simpl; try reflexivity.
  rewrite IH. reflexivity.
Qed.

Lemma combine_map {A B A' B' : Type} (f : A -> A') (h : B -> B') (l : list A)
    (k : list B) :
  combine (map f l) (map h k) = map (fun p => (f (fst p), h (snd p))) (combine l k).
Proof.
  revert k. induction l as [| a l IH]; intros [| b k]; simpl; try reflexivity.
  rewrite IH. reflexivity.
Qed.

Lemma embed_row_length (tok pos : Embedding) (row : list nat) :
  length (embed_row tok pos row) = length row.
Proof.
  unfold embed_row. rewrite length_map, length_combine, length_seq. lia.
Qed.

Lemma embed_row_width (tok pos : Embedding) (V ctx d : nat) (row : list nat) :
  Embedding_shaped tok V d -> Embedding_shaped pos ctx d ->
  Forall (fun t => (t < V)%nat) row -> (length row <= ctx)%nat ->
  Forall (fun r => length r = d) (embed_row tok pos row).
Proof.
  intros (Htn & Htr) (Hpn & Hpr) Hrow HT. unfold embed_row.
  apply List.Forall_forall. intros r Hr. apply in_map_iff in Hr.
  destruct Hr as ([t i] & <- & Hin). cbn [fst snd].
  pose proof (in_combine_l _ _ _ _ Hin) as Ht.
  pose proof (in_combine_r _ _ _ _ Hin) as Hi. apply in_seq in Hi.
  rewrite List.Forall_forall in Hrow, Htr, Hpr.
  rewrite zip_with_length.
  rewrite (Htr (nth t (Embedding_weight tok) [])) by (apply nth_In; specialize (Hrow t Ht); lia).
  rewrite (Hpr (nth i (Embedding_weight pos) [])) by (apply nth_In; lia).
  lia.
Qed.

Lemma firstn_combine {A B : Type} (k : nat) (l : list A) (m : list B) :
  firstn k (combine l m) = combine (firstn k l) (firstn k m).
Proof.
  revert l m. induction k as [| k IH]; intros [| a l] [| b m]; simpl; try reflexivity.
  rewrite IH. reflexivity.
Qed.

Lemma embed_row_firstn (tok pos : Embedding) (row : list nat) (k : nat) :
  embed_row tok pos (firstn k row) = firstn k (embed_row tok pos row).
Proof.
  unfold embed_row. rewrite firstn_map. f_equal.
  rewrite firstn_combine, take_seq, length_firstn. reflexivity.
Qed.

Lemma ncols_in_vocab (V T : nat) (idx : tokens) :
  in_vocab V T idx -> idx <> [] -> ncols idx = T.
Proof.
  intros H Hne. destruct idx as [| r idx]; [contradiction |].
  apply (List.Forall_inv H).
Qed.

Lemma mapR_compose {A B C : Type} (f : B -> res C) (h : A -> B) (l : list A) :
  mapR f (map h l) = mapR (fun a => f (h a)) l.
Proof.
  induction l as [| a l IH]; [reflexivity |]. cbn [map mapR]. rewrite IH. reflexivity.
Qed.

Lemma embed_ok (tok pos : Embedding) (V ctx d T : nat) (idx : tokens) :
  Embedding_shaped tok V d -> Embedding_shaped pos ctx d ->
  in_vocab V T idx -> (T <= ctx)%nat ->
  embed tok pos idx = Ok (map (embed_row tok pos) idx).
Proof.
  intros Htok Hpos Hidx HT. unfold embed.
  assert (Htoks : mapR (Embedding_forward tok) idx
                  = Ok (map (fun row => map (fun i => nth i (Embedding_weight tok) []) row)
                            idx)).
  { rewrite <- mapR_map. apply mapR_ext_in. intros row Hrow.
    unfold in_vocab in Hidx. rewrite List.Forall_forall in Hidx.
    apply (Embedding_forward_rows tok V d row Htok). apply (Hidx row Hrow). }
  rewrite Htoks. cbn [bind_res].
  assert (Hn : (ncols idx <= ctx)%nat).
  { destruct idx as [| r idx]; [unfold ncols; simpl; lia |].
    rewrite (ncols_in_vocab V T _ Hidx) by discriminate. exact HT. }
  rewrite (Embedding_forward_rows pos ctx d (seq 0 (ncols idx)) Hpos).
  2:{ apply List.Forall_forall. intros i Hi. apply in_seq in Hi. lia. }
  cbn [bind_res]. rewrite mapR_compose, <- mapR_map.
  apply mapR_ext_in. intros row Hrow.
  assert (Hne : idx <> []) by (intros ->; contradiction).
  rewrite (ncols_in_vocab V T idx Hidx Hne).
  unfold in_vocab in Hidx. rewrite List.Forall_forall in Hidx.
  destruct (Hidx row Hrow) as [Hlen Hlt].
  destruct (tensor_add_ok (map (fun i => nth i (Embedding_weight tok) []) row)
              (map (fun i => nth i (Embedding_weight pos) []) (seq 0 T)) d)
    as (Hadd & _).
  - rewrite !length_map, length_seq. exact Hlen.
  - destruct Htok as (Htn & Htr). rewrite List.Forall_forall in Htr.
    apply List.Forall_forall. intros r Hr. apply in_map_iff in Hr.
    destruct Hr as (t & <- & Ht). apply Htr, nth_In.
    rewrite List.Forall_forall in Hlt. specialize (Hlt t Ht). lia.
  - destruct Hpos as (Hpn & Hpr). rewrite List.Forall_forall in Hpr.
    apply List.Forall_forall. intros r Hr. apply in_map_iff in Hr.
    destruct Hr as (i & <- & Hi). apply in_seq in Hi. apply Hpr, nth_In. lia.
  - rewrite Hadd. f_equal. unfold embed_row.
    rewrite zip_with_combine, combine_map, map_map, Hlen. reflexivity.
Qed.

Lemma in_vocab_firstn (V T k : nat) (idx : tokens) :
  in_vocab V T idx -> in_vocab V (Nat.min k T) (map (firstn k) idx).
Proof.
  unfold in_vocab. intros H. apply List.Forall_forall. intros r Hr.
  apply in_map_iff in Hr. destruct Hr as (r0 & <- & Hr0).
  rewrite List.Forall_forall in H. destruct (H r0 Hr0) as [Hl Hv].
  split; [rewrite length_firstn, Hl; reflexivity | apply Forall_take, Hv].
Qed.

Lemma embed_causal (tok pos : Embedding) (V ctx d T : nat) (idx : tokens) :
  Embedding_shaped tok V d -> Embedding_shaped pos ctx d ->
  in_vocab V T idx -> (T <= ctx)%nat ->
  exists xs,
    embed tok pos idx = Ok xs
    /\ length xs = length idx
    /\ Forall (fun x => length x = T /\ Forall (fun r => length r = d) x) xs
    /\ forall k, embed tok pos (map (firstn k) idx) = Ok (map (firstn k) xs).
Proof.
  intros Htok Hpos Hidx HT. exists (map (embed_row tok pos) idx).
  split; [apply (embed_ok tok pos V ctx d T idx Htok Hpos Hidx HT) |].
  split; [apply length_map |]. split.
  - apply List.Forall_forall. intros x Hx. apply in_map_iff in Hx.
    destruct Hx as (row & <- & Hrow).
    unfold in_vocab in Hidx. rewrite List.Forall_forall in Hidx.
    destruct (Hidx row Hrow) as [Hlen Hlt]. split.
    + rewrite embed_row_length. exact Hlen.
    + apply (embed_row_width tok pos V ctx d row Htok Hpos Hlt). lia.
  - intros k.
    rewrite (embed_ok tok pos V ctx d (Nat.min k T) _ Htok Hpos
               (in_vocab_firstn V T k idx Hidx)) by lia.
    rewrite !map_map. f_equal. apply map_ext. intros row. apply embed_row_firstn.
Qed.

(** ** Batches *)

Lemma lift_mapR {A B : Type} (f : A -> res B) (l : list A) (g : rng) :
  lift (mapR f l) g = mapM_st (fun a => lift (f a)) l g.
Proof.
  induction l as [| a l IH]; [reflexivity |].
  cbn [mapR mapM_st]. destruct (f a) as [b |] eqn:Hfa.
  - rewrite (bind_lift_ok _ _ _ _ eq_refl). unfold bind. rewrite <- IH.
    cbn [bind_res]. unfold lift. destruct (mapR f l); reflexivity.
  - reflexivity.
Qed.

Lemma batch_causal (a b bs T : nat) (f : matrix -> M matrix) (xs : batch) :
  causal_layer a b bs f ->
  Forall (fun x => length x = T /\ Forall (fun r => length r = a) x) xs ->
  (T <= bs)%nat ->
  exists outs,
    (forall g, mapM_st f xs g = Ok (outs, g))
    /\ length outs = length xs
    /\ Forall (fun x => length x = T /\ Forall (fun r => length r = b) x) outs
    /\ forall k g, mapM_st f (map (firstn k) xs) g = Ok (map (firstn k) outs, g).
Proof.
  intros Hf Hxs HT. induction Hxs as [| x xs [Hxl Hxr] Hxs IH].
  - exists []. repeat split. constructor.
  - destruct IH as (outs & Houts & Hlen & Hsh & Hk).
    assert (Hxb : (length x <= bs)%nat) by (rewrite Hxl; exact HT).
    destruct (Hf x Hxr Hxb) as (o & Ho & Hol & Hor & Hok).
    exists (o :: outs). cbn [mapM_st].
    split; [intros g; rewrite (bind_ok _ _ _ _ _ (Ho g)), (bind_ok _ _ _ _ _ (Houts g));
            reflexivity |].
    split; [simpl; lia |]. split.
    + constructor; [split; [unfold matrix, vector in *; lia | exact Hor] | exact Hsh].
    + intros k g. cbn [map mapM_st].
      rewrite (bind_ok _ _ _ _ _ (Hok k g)), (bind_ok _ _ _ _ _ (Hk k g)). reflexivity.
Qed.

(** ** The decoder stacks *)

Lemma decoder_causal (tok pos : Embedding) (hd : Linear) (blocks : matrix -> M matrix)
    (V ctx d T : nat) (idx : tokens) :
  Embedding_shaped tok V d -> Embedding_shaped pos ctx d ->
  Linear_shaped hd d V true ->
  causal_layer d d ctx blocks ->
  in_vocab V T idx -> (T <= ctx)%nat ->
  exists logits,
    (forall g,
       (let* x := lift (embed tok pos idx) in
        let* x := mapM_st blocks x in
        lift (mapR (Linear_forward hd) x)) g = Ok (logits, g))
    /\ length logits = length idx
    /\ Forall (fun t => length t = T /\ Forall (fun r => length r = V) t) logits
    /\ forall k g,
         (let* x := lift (embed tok pos (map (firstn k) idx)) in
          let* x := mapM_st blocks x in
          lift (mapR (Linear_forward hd) x)) g = Ok (map (firstn k) logits, g).
Proof.
  intros Htok Hpos Hhd Hb Hidx HT.
  destruct (embed_causal tok pos V ctx d T idx Htok Hpos Hidx HT)
    as (xs & Hxs & Hxl & Hxr & Hxk).
  destruct (batch_causal d d ctx T blocks xs Hb Hxr HT)
    as (ys & Hys & Hyl & Hyr & Hyk).
  destruct (batch_causal d V ctx T (fun x => lift (Linear_forward hd x)) ys
              (Linear_causal hd d V ctx true Hhd) Hyr HT)
    as (zs & Hzs & Hzl & Hzr & Hzk).
  exists zs.
  split; [| split; [lia | split; [exact Hzr |]]].
  - intros g.
    rewrite (bind_lift_ok _ _ _ _ Hxs), (bind_ok _ _ _ _ _ (Hys g)), lift_mapR.
    apply Hzs.
  - intros k g.
    rewrite (bind_lift_ok _ _ _ _ (Hxk k)), (bind_ok _ _ _ _ _ (Hyk k g)), lift_mapR.
    apply Hzk.
Qed.

Lemma mapM_st_ret {S A : Type} (l : list A) (s : S) :
  mapM_st (fun a => ret a) l s = Ok (l, s).
Proof.
  induction l as [| a l IH]; [reflexivity |].
  cbn [mapM_st]. unfold bind at 1. unfold ret at 1.
  rewrite (bind_ok _ _ _ _ _ IH). reflexivity.
Qed.

Lemma GPT2_blocks_causal (m : GPT2) (config : Config) :
  GPT2_shaped m config ->
  n_layer config = 0%nat \/ heads_divide (dim_embeddings config) (num_heads config) ->
  causal_layer (dim_embeddings config) (dim_embeddings config) (dim_context config)
               (Sequential BlockGPT2_forward false (GPT2_blocks m)).
Proof.
  intros (_ & _ & Hlen & Hblocks & _) Hd. apply Sequential_causal.
  destruct Hd as [H0 | Hd].
  - rewrite H0 in Hlen. destruct (GPT2_blocks m); [constructor | discriminate].
  - eapply List.Forall_impl; [| exact Hblocks]. intros b Hb.
    apply (BlockGPT2_causal b _ _ _ Hb Hd).
Qed.

Lemma GPT2_forward_prefix (m : GPT2) (config : Config) (T : nat) (idx : tokens) :
  GPT2_shaped m config ->
  n_layer config = 0%nat \/ heads_divide (dim_embeddings config) (num_heads config) ->
  in_vocab (vocab_size config) T idx -> (T <= dim_context config)%nat ->
  exists logits,
    (forall g, GPT2_forward false m idx g = Ok (logits, g))
    /\ length logits = length idx
    /\ Forall (fun t => length t = T /\ Forall (fun r => length r = vocab_size config) t)
              logits
    /\ forall k g, GPT2_forward false m (map (firstn k) idx) g
                   = Ok (map (firstn k) logits, g).
Proof.
  intros Hm Hd Hidx HT.
  pose proof (GPT2_blocks_causal m config Hm Hd) as Hb.
  destruct Hm as (Htok & Hpos & _ & _ & Hhd).
  destruct (decoder_causal _ _ _ _ _ _ _ T idx Htok Hpos Hhd Hb Hidx HT)
    as (logits & Hl & Hlen & Hsh & Hk).
  assert (Heq : forall i g, GPT2_forward false m i g
                = (let* x := lift (embed (GPT2_token_embedding_table m)
                                         (GPT2_position_embedding_table m) i) in
                   let* x := mapM_st (Sequential BlockGPT2_forward false (GPT2_blocks m))
                                     x in
                   lift (mapR (Linear_forward (GPT2_lm_head m)) x)) g).
  { intros i g. unfold GPT2_forward. apply bind_ext. intros x s.
    cbn [Dropout_forward]. rewrite (bind_ok _ _ _ _ _ (mapM_st_ret x s)). reflexivity. }
  exists logits. split; [intros g; rewrite Heq; apply Hl |]. split; [exact Hlen |].
  split; [exact Hsh |]. intros k g. rewrite Heq. apply Hk.
Qed.

Lemma GPT1_forward_prefix (m : GPT1) (config : Config) (T : nat) (idx : tokens) :
  GPT1_shaped m config ->
  n_layer config = 0%nat \/ heads_divide (dim_embeddings config) (num_heads config) ->
  in_vocab (vocab_size config) T idx -> (T <= dim_context config)%nat ->
  exists logits,
    (forall g, GPT1_forward false m idx g = Ok (logits, g))
    /\ length logits = length idx
    /\ Forall (fun t => length t = T /\ Forall (fun r => length r = vocab_size config) t)
              logits
    /\ forall k g, GPT1_forward false m (map (firstn k) idx) g
                   = Ok (map (firstn k) logits, g).
Proof.
  intros (Htok & Hpos & Hlen & Hblocks & Hhd) Hd Hidx HT.
  apply (decoder_causal _ _ _ _ _ _ _ T idx Htok Hpos Hhd); try assumption.
  apply Sequential_causal. destruct Hd as [H0 | Hd].
  - rewrite H0 in Hlen. destruct (GPT1_blocks m); [constructor | discriminate].
  - eapply List.Forall_impl; [| exact Hblocks]. intros b Hb.
    apply (BlockGPT1_causal b _ _ _ Hb Hd).
Qed.

Lemma simpleGPT_forward_prefix (m : simpleGPT) (vocab n_embd heads block_size layers
    T : nat) (idx : tokens) :
  simpleGPT_shaped m vocab n_embd heads block_size layers ->
  layers = 0%nat \/ heads_divide n_embd heads ->
  in_vocab vocab T idx -> (T <= block_size)%nat ->
  exists logits,
    (forall g, simpleGPT_forward false m idx g = Ok (logits, g))
    /\ length logits = length idx
    /\ Forall (fun t => length t = T /\ Forall (fun r => length r = vocab) t) logits
    /\ forall k g, simpleGPT_forward false m (map (firstn k) idx) g
                   = Ok (map (firstn k) logits, g).
Proof.
  intros (Htok & Hpos & Hlen & Hblocks & Hhd) Hd Hidx HT.
  apply (decoder_causal _ _ _ _ _ _ _ T idx Htok Hpos Hhd); try assumption.
  apply Sequential_causal. destruct Hd as [H0 | Hd].
  - rewrite H0 in Hlen. destruct (simpleGPT_blocks m); [constructor | discriminate].
  - eapply List.Forall_impl; [| exact Hblocks]. intros b Hb.
    apply (Block_causal b _ _ _ Hb Hd).
Qed.

(** ** The small instances have the constructors' shapes *)

Lemma tiny_attention_shaped : MultiHeadAttention_shaped tiny_attention 1 1 1 2.
Proof.
  split; [reflexivity |]. split; [constructor; [apply tiny_head_shaped | constructor] |].
  apply zero_Linear_shaped.
Qed.


Lemma nn_LayerNorm_init_shaped (n : nat) : nn_LayerNorm_shaped (nn_LayerNorm_init n) n.
Proof. repeat split; apply repeat_length. Qed.

Lemma LayerNorm_init_shaped (n : nat) (b : bool) : LayerNorm_shaped (LayerNorm_init n b) n.
Proof.
  split; [apply repeat_length |]. destruct b; [apply repeat_length | exact I].
Qed.

Lemma tiny_embeddings_shaped :
  Embedding_shaped (GPT2_token_embedding_table tiny_GPT2) 2 1
  /\ Embedding_shaped (GPT2_position_embedding_table tiny_GPT2) 2 1
  /\ Linear_shaped (GPT2_lm_head tiny_GPT2) 1 2 true.
Proof.
  repeat split; repeat constructor.
Qed.

Lemma tiny_GPT2_shaped : GPT2_shaped tiny_GPT2 tiny_config.
Proof.
  destruct tiny_embeddings_shaped as (Ht & Hp & Hh).
  split; [exact Ht |]. split; [exact Hp |]. split; [reflexivity |].
  split; [| exact Hh].
  constructor; [| constructor].
  split; [exact tiny_attention_shaped |].
  split; [split; apply zero_Linear_shaped |].
  split; apply LayerNorm_init_shaped.
Qed.

Lemma tiny_GPT1_shaped : GPT1_shaped tiny_GPT1 tiny_config.
Proof.
  destruct tiny_embeddings_shaped as (Ht & Hp & Hh).
  split; [exact Ht |]. split; [exact Hp |]. split; [reflexivity |].
  split; [| exact Hh].
  constructor; [| constructor].
  split; [exact tiny_attention_shaped |].
  split; [split; apply zero_Linear_shaped |].
  split; apply nn_LayerNorm_init_shaped.
Qed.

Lemma tiny_simpleGPT_shaped : simpleGPT_shaped tiny_simpleGPT 2 1 1 2 1.
Proof.
  destruct tiny_embeddings_shaped as (Ht & Hp & Hh).
  split; [exact Ht |]. split; [exact Hp |]. split; [reflexivity |].
  split; [| exact Hh].
  constructor; [| constructor].
  split; [exact tiny_attention_shaped |].
  split; [split; apply zero_Linear_shaped |].
  split; apply nn_LayerNorm_init_shaped.
Qed.

(** ** A head on more rows than its mask has *)








(** ** Lookups outside the embedding tables *)

Lemma Embedding_forward_cases (e : Embedding) (idx : list nat) :
  (exists m, Embedding_forward e idx = Ok m) \/ Embedding_forward e idx = Raise IndexError.
Proof.
  unfold Embedding_forward. induction idx as [| i idx IH]; [left; exists []; reflexivity |].
  cbn [mapR]. destruct (nth_error (Embedding_weight e) i) as [row |].
  - cbn [bind_res]. destruct IH as [[m Hm] | Hr].
    + left. rewrite Hm. eexists. reflexivity.
    + right. rewrite Hr. reflexivity.
  - right. reflexivity.
Qed.

Lemma mapR_Embedding_cases (e : Embedding) (idx : tokens) :
  (exists ms, mapR (Embedding_forward e) idx = Ok ms
              /\ Forall (fun r => exists m, Embedding_forward e r = Ok m) idx)
  \/ mapR (Embedding_forward e) idx = Raise IndexError.
Proof.
  induction idx as [| r idx IH]; [left; exists []; split; [reflexivity | constructor] |].
  cbn [mapR]. destruct (Embedding_forward_cases e r) as [[m Hm] | Hr].
  - rewrite Hm. cbn [bind_res]. destruct IH as [(ms & Hms & Hall) | Hr].
    + left. rewrite Hms. eexists. split; [reflexivity |].
      constructor; [exists m; exact Hm | exact Hall].
    + right. rewrite Hr. reflexivity.
  - right. rewrite Hr. reflexivity.
Qed.

Lemma embed_index_error (tok pos : Embedding) (V ctx d T : nat) (idx : tokens) :
  Embedding_shaped tok V d -> Embedding_shaped pos ctx d ->
  idx <> [] -> Forall (fun r => length r = T) idx ->
  Exists (fun r => Exists (fun t => (V <= t)%nat) r) idx \/ (ctx < T)%nat ->
  embed tok pos idx = Raise IndexError.
Proof.
  intros Htok Hpos Hne Hrect Hbad. unfold embed.
  destruct (mapR_Embedding_cases tok idx) as [(ms & Hms & Hall) | Hr].
  2:{ rewrite Hr. reflexivity. }
  rewrite Hms. cbn [bind_res].
  destruct Hbad as [Hex | HT].
  - exfalso. apply List.Exists_exists in Hex. destruct Hex as (r & Hr & Hex).
    rewrite List.Forall_forall in Hall. destruct (Hall r Hr) as [m Hm].
    rewrite (Embedding_forward_raises tok V d r Htok Hex) in Hm. discriminate.
  - assert (Hn : ncols idx = T).
    { destruct idx as [| r idx]; [contradiction |]. apply (List.Forall_inv Hrect). }
    rewrite Hn.
    rewrite (Embedding_forward_raises pos ctx d (seq 0 T) Hpos); [reflexivity |].
    apply List.Exists_exists. exists ctx. split; [apply in_seq; lia | lia].
Qed.

(** ** The sampler on the decoder stack *)

Lemma extends_in_vocab_T (V T n : nat) (idx out : tokens) :
  in_vocab V T idx -> extends V n idx out -> in_vocab V (T + n) out.
Proof.
  unfold in_vocab, extends. intros Hidx H.
  induction H as [| r r' idx out (new & -> & Hl & Hv) H IH]; [constructor |].
  pose proof (List.Forall_inv Hidx) as [Hlen Hr].
  constructor; [| apply IH, (List.Forall_inv_tail Hidx)].
  split; [rewrite length_app; lia | apply Forall_app; split; assumption].
Qed.

Lemma slice_from_length {A : Type} (start : Z) (l : list A) :
  (start < 0)%Z ->
  length (slice_from start l) = Nat.min (length l) (Z.to_nat (- start)).
Proof.
  intros Hs. unfold slice_from. destruct (Z.ltb_spec start 0); [| lia].
  rewrite length_skipn. lia.
Qed.

Lemma Forall_slice_from {A : Type} (P : A -> Prop) (start : Z) (l : list A) :
  Forall P l -> Forall P (slice_from start l).
Proof.
  intros H. unfold slice_from. destruct (start <? 0)%Z; apply Forall_drop, H.
Qed.

Lemma context_in_vocab (V T : nat) (bs : Z) (idx : tokens) :
  (0 <= bs)%Z -> in_vocab V T idx ->
  in_vocab V (if (bs =? 0)%Z then T else Nat.min T (Z.to_nat bs))
           (context (Some bs) idx).
Proof.
  intros Hbs Hidx. unfold in_vocab, context in *.
  apply List.Forall_forall. intros r Hr. apply in_map_iff in Hr.
  destruct Hr as (r0 & <- & Hr0). rewrite List.Forall_forall in Hidx.
  destruct (Hidx r0 Hr0) as [Hl Hv]. split; [| apply Forall_slice_from, Hv].
  destruct (Z.eqb_spec bs 0) as [-> | Hne].
  - unfold slice_from. simpl. exact Hl.
  - rewrite slice_from_length by lia. rewrite Z.opp_involutive, Hl. reflexivity.
Qed.

Lemma last_step_rows (t : matrix) (T V : nat) :
  (1 <= T)%nat -> length t = T -> Forall (fun r => length r = V) t ->
  exists v, last_step t = Ok v /\ length v = V.
Proof.
  intros HT Hl Hr. destruct t as [| r t]; [simpl in Hl; lia |].
  exists (List.last (r :: t) []). split; [reflexivity |].
  rewrite List.Forall_forall in Hr. apply Hr, last_In. discriminate.
Qed.

Lemma GPT2_model_returns (m : GPT2) (config : Config) (T : nat) (bs : option Z)
    (idx : tokens) (g : rng) :
  GPT2_shaped m config ->
  n_layer config = 0%nat \/ heads_divide (dim_embeddings config) (num_heads config) ->
  in_vocab (vocab_size config) T (context bs idx) ->
  (1 <= T <= dim_context config)%nat ->
  model_returns (GPT2_model m) (vocab_size config) bs idx g.
Proof.
  intros Hm Hd Hidx [HT1 HT].
  destruct (GPT2_forward_prefix m config T (context bs idx) Hm Hd Hidx HT)
    as (logits & Hl & Hlen & Hsh & _).
  exists logits, g. split; [apply Hl |]. split.
  - rewrite Hlen. unfold context. destruct bs; [apply length_map | reflexivity].
  - eapply List.Forall_impl; [| exact Hsh]. intros t [Htl Htr].
    apply (last_step_rows t T _ HT1 Htl Htr).
Qed.

Lemma generate_step_raise (model : Model) (bs : option Z) (idx : tokens) (g : rng)
    (e : exn) :
  model false (context bs idx) g = Raise e ->
  generate_step model bs idx g = Raise e.
Proof. intros H. unfold generate_step. apply bind_raise. exact H. Qed.

Lemma generate_step_no_rows (model : Model) (bs : option Z) (idx : tokens) (g g' : rng)
    (logits : batch) :
  model false (context bs idx) g = Ok (logits, g') ->
  logits <> [] -> Forall (fun t => length t = 0%nat) logits ->
  generate_step model bs idx g = Raise IndexError.
Proof.
  intros Hm Hne Hall. unfold generate_step. rewrite (bind_ok _ _ _ _ _ Hm).
  apply bind_lift_raise.
  destruct logits as [| t logits]; [contradiction |].
  pose proof (List.Forall_inv Hall) as Ht. destruct t; [reflexivity | discriminate].
Qed.

Lemma context_empty_rows (bs : option Z) (idx : tokens) :
  Forall (fun r => r = []) idx -> context bs idx = idx.
Proof.
  intros H. destruct bs as [b |]; [| reflexivity]. unfold context.
  induction H as [| r idx -> H IH]; [reflexivity |].
  cbn [map]. rewrite IH. f_equal. unfold slice_from.
  destruct (- b <? 0)%Z; apply skipn_nil.
Qed.

Lemma in_vocab_nonempty (V T : nat) (idx : tokens) :
  in_vocab V T idx -> (1 <= T)%nat ->
  Forall (fun r => r <> [] /\ Forall (fun t => (t < V)%nat) r) idx.
Proof.
  intros H HT. eapply List.Forall_impl; [| exact H]. intros r [Hl Hv].
  split; [intros ->; simpl in Hl; lia | exact Hv].
Qed.

Lemma GPT2_forward_too_long (m : GPT2) (config : Config) (T : nat) (idx : tokens)
    (g : rng) :
  GPT2_shaped m config -> idx <> [] -> in_vocab (vocab_size config) T idx ->
  (dim_context config < T)%nat ->
  GPT2_forward false m idx g = Raise IndexError.
Proof.
  intros (Htok & Hpos & _) Hne Hidx HT. unfold GPT2_forward. apply bind_lift_raise.
  apply (embed_index_error _ _ _ _ _ T idx Htok Hpos Hne).
  - eapply List.Forall_impl; [| exact Hidx]. intros r [Hl _]. exact Hl.
  - right. exact HT.
Qed.

Lemma generate_GPT2_overflow (m : GPT2) (config : Config) :
  GPT2_shaped m config ->
  n_layer config = 0%nat \/ heads_divide (dim_embeddings config) (num_heads config) ->
  (1 <= vocab_size config)%nat ->
  forall (N T : nat) (idx : tokens) (g : rng),
    idx <> [] -> in_vocab (vocab_size config) T idx -> (1 <= T)%nat ->
    (1 <= N)%nat -> (dim_context config + 1 < T + N)%nat ->
    generate (GPT2_model m) idx N None g = Raise IndexError.
Proof.
  intros Hm Hd HV. induction N as [| N IH]; intros T idx g Hne Hidx HT HN Hover; [lia |].
  cbn [generate].
  destruct (Nat.le_gt_cases T (dim_context config)) as [Hle | Hgt].
  - destruct (generate_step_ok (GPT2_model m) (vocab_size config) None idx g HV)
      as (nxt & g1 & Hs & He).
    { apply (GPT2_model_returns m config T None idx g Hm Hd Hidx). lia. }
    rewrite (bind_ok _ _ _ _ _ Hs).
    apply (IH (T + 1)%nat nxt g1).
    + intros ->. apply extends_length in He. destruct idx; [contradiction | discriminate].
    + apply (extends_in_vocab_T _ _ _ idx nxt Hidx He).
    + lia.
    + lia.
    + lia.
  - apply bind_raise, generate_step_raise.
    apply (GPT2_forward_too_long m config T idx g Hm Hne Hidx Hgt).
Qed.

(** ** Statistics of a normalized row *)

Lemma vsum_map_plus {A : Type} (f h : A -> R) (l : list A) :
  vsum (map (fun a => f a + h a) l) = vsum (map f l) + vsum (map h l).
Proof. induction l as [| a l IH]; simpl; [ring | rewrite IH; ring]. Qed.

Lemma vsum_map_const {A : Type} (c : R) (l : list A) :
  vsum (map (fun _ => c) l) = c * INR (length l).
Proof.
  induction l as [| a l IH]; [simpl; ring |].
  cbn [map vsum fold_right length]. fold (vsum (map (fun _ : A => c) l)).
  rewrite IH, S_INR. ring.
Qed.

Lemma vsum_map_mult {A : Type} (f : A -> R) (c : R) (l : list A) :
  vsum (map (fun a => f a * c) l) = vsum (map f l) * c.
Proof. induction l as [| a l IH]; simpl; [ring | rewrite IH; ring]. Qed.

Lemma INR_length_pos {A : Type} (l : list A) : l <> [] -> 0 < INR (length l).
Proof.
  intros Hne. destruct l as [| a l]; [contradiction |].
  apply lt_0_INR. simpl. lia.
Qed.

Lemma mean_shift (v : vector) (c : R) :
  v <> [] -> mean (map (fun a => a + c) v) = mean v + c.
Proof.
  intros Hne. unfold mean. rewrite length_map.
  rewrite <- (map_id v) at 1. rewrite map_map.
  rewrite (vsum_map_plus (fun a => a) (fun _ => c)), vsum_map_const, map_id.
  pose proof (INR_length_pos v Hne). field. lra.
Qed.

Lemma variance_shift (v : vector) (c : R) :
  variance (map (fun a => a + c) v) = variance v.
Proof.
  destruct v as [| a0 v]; [reflexivity |].
  unfold variance. rewrite length_map, map_map.
  rewrite (mean_shift (a0 :: v) c) by discriminate.
  f_equal. f_equal. apply map_ext. intros a. ring.
Qed.

Lemma normalize_shift (eps : R) (v : vector) (c : R) :
  normalize eps (map (fun a => a + c) v) = normalize eps v.
Proof.
  destruct v as [| a0 v]; [reflexivity |].
  unfold normalize. rewrite map_map, variance_shift.
  rewrite (mean_shift (a0 :: v) c) by discriminate.
  apply map_ext. intros a. f_equal. ring.
Qed.

Lemma variance_nonneg (v : vector) : 0 <= variance v.
Proof.
  unfold variance. destruct v as [| a0 v].
  - simpl. unfold Rdiv. rewrite Rmult_0_l. lra.
  - apply Rmult_le_pos.
    + generalize (mean (a0 :: v)). intros mu.
      induction (a0 :: v) as [| a l IH]; simpl; [lra |].
      pose proof (Rle_0_sqr (a - mu)) as Hs. unfold Rsqr in Hs. lra.
    + left. apply Rinv_0_lt_compat, INR_length_pos. discriminate.
Qed.

Lemma vsum_centered (v : vector) :
  v <> [] -> vsum (map (fun a => a - mean v) v) = 0.
Proof.
  intros Hne.
  replace (map (fun a => a - mean v) v) with (map (fun a => a + - mean v) v)
    by (apply map_ext; intros a; ring).
  rewrite (vsum_map_plus (fun a => a) (fun _ => - mean v)), vsum_map_const, map_id.
  unfold mean. pose proof (INR_length_pos v Hne). field. lra.
Qed.

Lemma mean_normalize (eps : R) (v : vector) :
  v <> [] -> mean (normalize eps v) = 0.
Proof.
  intros Hne. unfold mean at 1, normalize. rewrite length_map.
  unfold Rdiv at 2.
  rewrite (vsum_map_mult (fun a => a - mean v) (/ sqrt (variance v + eps))).
  rewrite (vsum_centered v Hne). unfold Rdiv. ring.
Qed.

Lemma variance_normalize (eps : R) (v : vector) :
  v <> [] -> 0 < eps ->
  variance (normalize eps v) = variance v / (variance v + eps).
Proof.
  intros Hne Heps. pose proof (variance_nonneg v) as Hv.
  pose proof (INR_length_pos v Hne) as Hn.
  assert (Hs : 0 < sqrt (variance v + eps)) by (apply sqrt_lt_R0; lra).
  assert (Hss : sqrt (variance v + eps) * sqrt (variance v + eps) = variance v + eps)
    by (apply sqrt_sqrt; lra).
  unfold variance at 1. rewrite (mean_normalize eps v Hne).
  unfold normalize. rewrite length_map, map_map.
  replace (map (fun a => ((a - mean v) / sqrt (variance v + eps) - 0)
                         * ((a - mean v) / sqrt (variance v + eps) - 0)) v)
    with (map (fun a => (a - mean v) * (a - mean v) * / (variance v + eps)) v).
  2:{ apply map_ext. intros a. set (s := sqrt (variance v + eps)) in *.
      rewrite <- Hss. field. lra. }
  rewrite (vsum_map_mult (fun a => (a - mean v) * (a - mean v))).
  replace (vsum (map (fun a => (a - mean v) * (a - mean v)) v))
    with (variance v * INR (length v)) by (unfold variance; field; lra).
  field. split; lra.
Qed.

Lemma zip_with_Rmult_ones (v : vector) (n : nat) :
  (length v <= n)%nat -> zip_with Rmult v (repeat 1 n) = v.
Proof.
  revert n. induction v as [| a v IH]; intros [| n] H; simpl in *; try reflexivity.
  - lia.
  - rewrite IH by lia. f_equal. ring.
Qed.

Lemma affine_init (n : nat) (b : bool) (v : vector) :
  length v = n ->
  affine (Some (repeat 1 n)) (if b then Some (repeat 0 n) else None) v = v.
Proof.
  intros Hv. unfold affine. rewrite zip_with_Rmult_ones by lia.
  destruct b; [apply zip_with_Rplus_zeros; lia | reflexivity].
Qed.

(** ** The constructors *)

Lemma nn_Embedding_ok (n d : nat) (g : rng) :
  exists e g', nn_Embedding n d g = Ok (e, g') /\ Embedding_shaped e n d.
Proof.
  unfold nn_Embedding.
  destruct (rand_matrix_ok n d g) as (w & g1 & Hw & Hwl & Hwr).
  rewrite (bind_ok _ _ _ _ _ Hw). eexists _, _. split; [reflexivity |].
  split; assumption.
Qed.

Lemma nn_Dropout_raises (rate : R) :
  ~ (0 <= rate <= 1) -> nn_Dropout rate = Raise ValueError.
Proof.
  intros Hr. unfold nn_Dropout.
  destruct (Rle_dec 0 rate); [| reflexivity].
  destruct (Rle_dec rate 1); [exfalso; apply Hr; split; assumption | reflexivity].
Qed.

Lemma FeedFoward_init_shaped (n_embd : nat) (rate : R) (g : rng) :
  0 <= rate <= 1 ->
  exists f g', FeedFoward_init n_embd rate g = Ok (f, g') /\ FeedFoward_shaped f n_embd.
Proof.
  intros Hr. unfold FeedFoward_init.
  destruct (nn_Linear_ok n_embd (4 * n_embd) true g) as (l0 & g1 & H0 & Hs0).
  destruct (nn_Linear_ok (4 * n_embd) n_embd true g1) as (l2 & g2 & H2 & Hs2).
  rewrite (bind_ok _ _ _ _ _ H0), (bind_ok _ _ _ _ _ H2).
  rewrite (bind_lift_ok _ _ _ _ (nn_Dropout_ok rate Hr)).
  eexists _, _. split; [reflexivity |]. split; assumption.
Qed.

Lemma FeedFowardGPT2_init_shaped (n_embd : nat) (rate : R) (g : rng) :
  0 <= rate <= 1 ->
  exists f g', FeedFowardGPT2_init n_embd rate g = Ok (f, g')
               /\ FeedFowardGPT2_shaped f n_embd.
Proof.
  intros Hr. unfold FeedFowardGPT2_init.
  destruct (nn_Linear_ok n_embd (4 * n_embd) true g) as (l0 & g1 & H0 & Hs0).
  destruct (nn_Linear_ok (4 * n_embd) n_embd true g1) as (l2 & g2 & H2 & Hs2).
  rewrite (bind_ok _ _ _ _ _ H0), (bind_ok _ _ _ _ _ H2).
  rewrite (bind_lift_ok _ _ _ _ (nn_Dropout_ok rate Hr)).
  eexists _, _. split; [reflexivity |]. split; assumption.
Qed.

Lemma floordiv_ok (a b : nat) : (1 <= b)%nat -> floordiv a b = Ok (a / b)%nat.
Proof.
  intros Hb. unfold floordiv. destruct (Nat.eqb_spec b 0); [lia | reflexivity].
Qed.

Lemma BlockGPT2_init_shaped (n_embd n_head block_size : nat) (with_bias : bool)
    (rate : R) (g : rng) :
  (1 <= n_head)%nat -> 0 <= rate <= 1 ->
  exists b g', BlockGPT2_init n_embd n_head block_size with_bias rate g = Ok (b, g')
               /\ BlockGPT2_shaped b n_embd n_head block_size.
Proof.
  intros Hh Hr. unfold BlockGPT2_init.
  rewrite (bind_lift_ok _ _ _ _ (floordiv_ok n_embd n_head Hh)).
  destruct (MultiHeadAttention_init_ok n_head (n_embd / n_head) n_embd block_size rate g Hr)
    as (sa & g1 & Hsa & Hsas).
  destruct (FeedFowardGPT2_init_shaped n_embd rate g1 Hr) as (ff & g2 & Hff & Hffs).
  rewrite (bind_ok _ _ _ _ _ Hsa), (bind_ok _ _ _ _ _ Hff).
  eexists _, _. split; [reflexivity |].
  split; [exact Hsas |]. split; [exact Hffs |]. split; apply LayerNorm_init_shaped.
Qed.

Lemma BlockGPT1_init_shaped (n_embd n_head block_size : nat) (rate : R) (g : rng) :
  (1 <= n_head)%nat -> 0 <= rate <= 1 ->
  exists b g', BlockGPT1_init n_embd n_head block_size rate g = Ok (b, g')
               /\ BlockGPT1_shaped b n_embd n_head block_size.
Proof.
  intros Hh Hr. unfold BlockGPT1_init.
  rewrite (bind_lift_ok _ _ _ _ (floordiv_ok n_embd n_head Hh)).
  destruct (MultiHeadAttention_init_ok n_head (n_embd / n_head) n_embd block_size rate g Hr)
    as (sa & g1 & Hsa & Hsas).
  destruct (FeedFoward_init_shaped n_embd rate g1 Hr) as (ff & g2 & Hff & Hffs).
  rewrite (bind_ok _ _ _ _ _ Hsa), (bind_ok _ _ _ _ _ Hff).
  eexists _, _. split; [reflexivity |].
  split; [exact Hsas |]. split; [exact Hffs |]. split; apply nn_LayerNorm_init_shaped.
Qed.

Lemma Head_init_raises (head_size n_embd block_size : nat) (rate : R) (g : rng) :
  ~ (0 <= rate <= 1) ->
  Head_init head_size n_embd block_size rate g = Raise ValueError.
Proof.
  intros Hr. unfold Head_init.
  destruct (nn_Linear_ok n_embd head_size false g) as (k & g1 & Hk & _).
  destruct (nn_Linear_ok n_embd head_size false g1) as (q & g2 & Hq & _).
  destruct (nn_Linear_ok n_embd head_size false g2) as (v & g3 & Hv & _).
  rewrite (bind_ok _ _ _ _ _ Hk), (bind_ok _ _ _ _ _ Hq), (bind_ok _ _ _ _ _ Hv).
  apply bind_lift_raise, nn_Dropout_raises, Hr.
Qed.

Lemma mapM_st_seq_raise {S B : Type} (m : ST S B) (n : nat) (e : exn) (s : S) :
  (1 <= n)%nat -> m s = Raise e ->
  mapM_st (fun _ : nat => m) (seq 0 n) s = Raise e.
Proof.
  intros Hn Hm. destruct n as [| n]; [lia |].
  cbn [seq mapM_st]. apply bind_raise. exact Hm.
Qed.

Lemma MultiHeadAttention_init_raises (num_heads head_size n_embd block_size : nat)
    (rate : R) (g : rng) :
  (1 <= num_heads)%nat -> ~ (0 <= rate <= 1) ->
  MultiHeadAttention_init num_heads head_size n_embd block_size rate g
  = Raise ValueError.
Proof.
  intros Hn Hr. unfold MultiHeadAttention_init. apply bind_raise.
  apply mapM_st_seq_raise; [exact Hn |]. apply Head_init_raises, Hr.
Qed.

Lemma BlockGPT1_init_raises (n_embd n_head block_size : nat) (rate : R) (g : rng) :
  (n_head = 0%nat -> BlockGPT1_init n_embd n_head block_size rate g
                     = Raise ZeroDivisionError)
  /\ ((1 <= n_head)%nat -> ~ (0 <= rate <= 1) ->
      BlockGPT1_init n_embd n_head block_size rate g = Raise ValueError).
Proof.
  split.
  - intros ->. reflexivity.
  - intros Hh Hr. unfold BlockGPT1_init.
    rewrite (bind_lift_ok _ _ _ _ (floordiv_ok n_embd n_head Hh)).
    apply bind_raise, MultiHeadAttention_init_raises; assumption.
Qed.

Lemma BlockGPT2_init_zero_heads (n_embd block_size : nat) (with_bias : bool) (rate : R)
    (g : rng) :
  BlockGPT2_init n_embd 0 block_size with_bias rate g = Raise ZeroDivisionError.
Proof. reflexivity. Qed.

Lemma mapM_st_seq_ok {S B : Type} (P : B -> Prop) (m : ST S B) (n : nat) :
  (forall s, exists b s', m s = Ok (b, s') /\ P b) ->
  forall s, exists bs s',
    mapM_st (fun _ : nat => m) (seq 0 n) s = Ok (bs, s')
    /\ length bs = n /\ Forall P bs.
Proof.
  intros Hm s.
  destruct (mapM_st_ok P (fun _ : nat => m) (seq 0 n) (fun _ => Hm) s)
    as (bs & s' & Hbs & Hl & HP).
  exists bs, s'. rewrite length_seq in Hl. repeat split; assumption.
Qed.

(** ** Cutting a contiguous tensor *)

Lemma skipn_concat_rect {A : Type} (rows : list (list A)) (n i : nat) :
  Forall (fun r => length r = n) rows ->
  skipn (i * n) (concat rows) = concat (skipn i rows).
Proof.
  intros H. revert i. induction H as [| r rows Hr _ IH]; intros i.
  - rewrite !skipn_nil. reflexivity.
  - destruct i as [| i]; [reflexivity |].
    cbn [concat skipn]. rewrite <- IH.
    replace (S i * n)%nat with (length r + i * n)%nat by lia.
    rewrite skipn_app, Nat.add_comm, Nat.add_sub.
    rewrite skipn_all2 by lia. reflexivity.
Qed.

Lemma firstn_concat_rect {A : Type} (rows : list (list A)) (n i : nat) :
  Forall (fun r => length r = n) rows ->
  firstn (i * n) (concat rows) = concat (firstn i rows).
Proof.
  intros H. revert i. induction H as [| r rows Hr _ IH]; intros i.
  - rewrite !firstn_nil. reflexivity.
  - destruct i as [| i]; [reflexivity |].
    cbn [concat firstn]. rewrite <- IH.
    replace (S i * n)%nat with (length r + i * n)%nat by lia.
    rewrite firstn_app_2. reflexivity.
Qed.

Lemma Forall_skipn {A : Type} (P : A -> Prop) (n : nat) (l : list A) :
  Forall P l -> Forall P (skipn n l).
Proof. apply Forall_drop. Qed.

Lemma unflatten_groups {A : Type} (k d n : nat) (rows : list (list A)) :
  Forall (fun r => length r = n) rows ->
  unflatten k (d * n) (concat rows) = map (@concat A) (unflatten k d rows).
Proof.
  intros H. unfold unflatten. rewrite map_map. apply map_ext. intros i.
  replace (i * (d * n))%nat with ((i * d) * n)%nat by lia.
  rewrite (skipn_concat_rect rows n (i * d) H).
  apply firstn_concat_rect, Forall_skipn, H.
Qed.

Lemma unflatten_singletons {A : Type} (k : nat) (l : list A) :
  length l = k -> unflatten k 1 l = map (fun a => [a]) l.
Proof.
  intros <-. unfold unflatten.
  rewrite <- (map_nth_seq (map (fun a => [a]) l) []) at 1.
  rewrite length_map. apply map_ext_in. intros i Hi. apply in_seq in Hi.
  rewrite Nat.mul_1_r.
  destruct (nth_error l i) as [a |] eqn:Ha.
  2:{ apply nth_error_None in Ha. lia. }
  rewrite (nth_error_nth _ _ _ (map_nth_error (fun a => [a]) _ _ Ha)).
  apply nth_error_split in Ha. destruct Ha as (l1 & l2 & -> & <-).
  rewrite skipn_app, Nat.sub_diag, skipn_all. reflexivity.
Qed.

Lemma unflatten_concat {A : Type} (k n : nat) (rows : list (list A)) :
  Forall (fun r => length r = n) rows -> length rows = k ->
  unflatten k n (concat rows) = rows.
Proof.
  intros H Hk.
  replace n with (1 * n)%nat by lia. rewrite (unflatten_groups k 1 n rows H).
  rewrite (unflatten_singletons k rows Hk), map_map.
  rewrite <- (map_id rows) at 2. apply map_ext. intros r. simpl. apply app_nil_r.
Qed.

Lemma unflatten_length {A : Type} (k n : nat) (l : list A) :
  length (unflatten k n l) = k.
Proof. unfold unflatten. rewrite length_map, length_seq. reflexivity. Qed.

Lemma unflatten_nth {A : Type} (k d i : nat) (l : list A) :
  (i < k)%nat -> nth_error (unflatten k d l) i = Some (firstn d (skipn (i * d) l)).
Proof.
  intros Hi. unfold unflatten.
  apply (nth_error_map_seq (fun j => firstn d (skipn (j * d) l)) k i Hi).
Qed.

Lemma length_concat_rect {A : Type} (l : list (list A)) (n : nat) :
  Forall (fun r => length r = n) l -> length (concat l) = (length l * n)%nat.
Proof.
  induction 1 as [| r l Hr _ IH]; simpl; [reflexivity |].
  rewrite length_app, Hr, IH. reflexivity.
Qed.

Lemma unflatten_map {A B : Type} (f : A -> B) (k d : nat) (l : list A) :
  unflatten k d (map f l) = map (map f) (unflatten k d l).
Proof.
  unfold unflatten. rewrite map_map. apply map_ext. intros i.
  rewrite skipn_map, firstn_map. reflexivity.
Qed.

Lemma view4_states (L D B H : nat) (hs : list matrix) :
  (1 <= L)%nat -> (1 <= D)%nat -> (1 <= B)%nat ->
  length hs = (L * D)%nat ->
  Forall (fun m => length m = B /\ Forall (fun r => length r = H) m) hs ->
  view4 L D B (concat (map (@concat R) hs)) = Ok (unflatten L D hs).
Proof.
  intros HL HD HB Hlen Hshape. unfold matrix, vector in *.
  assert (Hm : Forall (fun m : list (list R) => length (concat m) = (B * H)%nat) hs).
  { eapply List.Forall_impl; [| exact Hshape]. intros m [Hb Hr].
    rewrite (length_concat_rect m H Hr), Hb. reflexivity. }
  assert (Hrows : Forall (fun r => length r = (B * H)%nat) (map (@concat R) hs)).
  { apply List.Forall_forall. intros r Hr. apply in_map_iff in Hr.
    destruct Hr as (m & <- & Hin). rewrite List.Forall_forall in Hm. apply Hm, Hin. }
  assert (Hnumel : length (concat (map (@concat R) hs)) = (L * D * B * H)%nat).
  { rewrite (length_concat_rect _ (B * H) Hrows), length_map, Hlen. lia. }
  unfold view4. rewrite Hnumel.
  assert (Hk : (L * D * B)%nat <> 0%nat) by nia.
  destruct (Nat.eqb_spec (L * D * B) 0) as [H0 | _]; [contradiction |].
  replace (L * D * B * H)%nat with (H * (L * D * B))%nat by lia.
  rewrite Nat.Div0.mod_mul, Nat.eqb_refl, Nat.div_mul by exact Hk. f_equal.
  replace (D * B * H)%nat with (D * (B * H))%nat by lia.
  rewrite (unflatten_groups L D (B * H) _ Hrows), map_map.
  rewrite unflatten_map, map_map.
  rewrite <- (map_id (unflatten L D hs)) at 2. apply map_ext_in. intros G HinG.
  unfold unflatten in HinG. apply in_map_iff in HinG.
  destruct HinG as (l & <- & Hl). apply in_seq in Hl.
  set (G := firstn D (skipn (l * D) hs)).
  assert (HG : Forall (fun m => length m = B /\ Forall (fun r => length r = H) m) G)
    by (apply Forall_take, Forall_skipn, Hshape).
  assert (HGl : length G = D).
  { unfold G. rewrite length_firstn, length_skipn, Hlen. nia. }
  rewrite (unflatten_concat D (B * H) (map (@concat R) G)).
  - rewrite map_map. rewrite <- (map_id G) at 2. apply map_ext_in. intros m Hin.
    rewrite List.Forall_forall in HG. destruct (HG m Hin) as [Hb Hr].
    apply (unflatten_concat B H m Hr Hb).
  - apply List.Forall_forall. intros r Hr. apply in_map_iff in Hr.
    destruct Hr as (m & <- & Hin). rewrite List.Forall_forall in HG.
    destruct (HG m Hin) as [Hb Hr]. rewrite (length_concat_rect m H Hr), Hb. reflexivity.
  - rewrite length_map. exact HGl.
Qed.

(** ** The last layer's states, batch first *)

Lemma LastTimeStep_forward_states (L D B H : nat) (hs : list matrix) (out : batch)
    (st : rnn_state) :
  (1 <= L)%nat -> (1 <= D)%nat -> (1 <= B)%nat ->
  length hs = (L * D)%nat ->
  Forall (fun m => length m = B /\ Forall (fun r => length r = H) m) hs ->
  (st = h_t (tensor_of B H hs) \/ exists c, st = h_c (tensor_of B H hs) c) ->
  LastTimeStep_forward {| rnn_layers := L; num_driections := D |} (out, st)
  = Ok (map (fun b => concat (map (fun x : matrix => nth b x [])
                                  (skipn ((L - 1) * D) hs)))
            (seq 0 B)).
Proof.
  intros HL HD HB Hlen Hshape Hst. unfold LastTimeStep_forward.
  cbn [snd rnn_layers num_driections].
  assert (Hh : match st with h_t h => h | h_c h _ => h end = tensor_of B H hs).
  { destruct Hst as [-> | [c ->]]; reflexivity. }
  rewrite Hh. cbn [tensor_of shape1 storage].
  rewrite (view4_states L D B H hs HL HD HB Hlen Hshape). cbn [bind_res].
  unfold index0. rewrite (unflatten_nth L D (L - 1) hs) by lia. cbn [bind_res].
  unfold reshape2, permute102. rewrite map_map. f_equal.
  apply map_ext. intros b. do 2 f_equal.
  apply firstn_all2. unfold matrix, vector in *. rewrite length_skipn, Hlen. nia.
Qed.

Lemma concat_map_concat {A : Type} (l : list (list (list A))) :
  concat (map (@concat A) l) = concat (concat l).
Proof.
  induction l as [| m l IH]; [reflexivity |].
  cbn [map concat]. rewrite concat_app, IH. reflexivity.
Qed.

Lemma Forall_concat {A : Type} (P : A -> Prop) (l : list (list A)) :
  Forall (Forall P) l -> Forall P (concat l).
Proof.
  induction 1 as [| r l Hr _ IH]; simpl; [constructor |].
  apply Forall_app. split; assumption.
Qed.

Lemma last_RNN_states (r : nn_RNN) (h : vector) (xs : matrix) :
  xs <> [] -> List.last (RNN_states r h xs) [] = fold_left (RNN_cell r) xs h.
Proof.
  revert h. induction xs as [| x xs IH]; intros h Hne; [contradiction |].
  destruct xs as [| x' xs']; [reflexivity |].
  change (RNN_states r h (x :: x' :: xs'))
    with (RNN_cell r h x :: RNN_states r (RNN_cell r h x) (x' :: xs')).
  change (fold_left (RNN_cell r) (x :: x' :: xs') h)
    with (fold_left (RNN_cell r) (x' :: xs') (RNN_cell r h x)).
  rewrite <- IH by discriminate.
  cbn [RNN_states]. reflexivity.
Qed.

Lemma RNN_cell_length (r : nn_RNN) (dim hidden : nat) (h x : vector) :
  nn_RNN_shaped r dim hidden -> length (RNN_cell r h x) = hidden.
Proof.
  intros (_ & _ & Hwi & _ & Hwh & _ & Hbi & Hbh). unfold RNN_cell.
  rewrite length_map, !zip_with_length, !length_map. lia.
Qed.

Lemma fold_RNN_cell_length (r : nn_RNN) (dim hidden : nat) (xs : matrix) (h : vector) :
  nn_RNN_shaped r dim hidden -> length h = hidden ->
  length (fold_left (RNN_cell r) xs h) = hidden.
Proof.
  intros Hr. revert h. induction xs as [| x xs IH]; intros h Hh; [exact Hh |].
  cbn [fold_left]. apply IH. apply (RNN_cell_length r dim hidden h x Hr).
Qed.

Lemma causal_layer_depends_on_past (d_in d_out bs : nat) (f : matrix -> M matrix) :
  causal_layer d_in d_out bs f -> depends_on_past d_in d_out bs f.
Proof.
  intros Hf x x' k g g' Hx HT Hx' HT' Hk.
  destruct (Hf x Hx HT) as (out & Hout & Hol & Hor & Hok).
  destruct (Hf x' Hx' HT') as (out' & Hout' & _ & _ & Hok').
  exists out, out'. split; [apply Hout |]. split; [apply Hout' |].
  split; [exact Hol |]. split; [exact Hor |].
  pose proof (Hok k g) as H1. pose proof (Hok' k g) as H2.
  rewrite Hk in H1. rewrite H1 in H2. injection H2 as H2. exact H2.
Qed.

(** X1.  [Head.forward] in closed form.  In inference mode, a head with
    parameters of the constructor's shapes (head size at least 1) returns,
    on every input of at most [block_size] rows of width [n_embd] and
    whatever the state of the random source, one row of width [head_size]
    per input row; row [i] is [attend] on the rows [0..i]: the values of
    these rows averaged with the softmax of the scaled scores of query [i]
    against their keys.  No later row enters. *)
Theorem Head_forward_attends (h : Head) (head_size n_embd block_size : nat)
    (x : matrix) (g : rng) :
  Head_shaped h head_size n_embd block_size ->
  (1 <= head_size)%nat ->
  Forall (fun r => length r = n_embd) x ->
  (length x <= block_size)%nat ->
  exists out,
    Head_forward false h x g = Ok (out, g)
    /\ length out = length x
    /\ Forall (fun r => length r = head_size) out
    /\ forall i xi, nth_error x i = Some xi ->
         nth_error out i = Some (attend h (firstn (S i) x) xi).
Proof.
  intros Hh Hhs Hx HT.
  destruct (Head_forward_rows h head_size n_embd block_size x Hh Hhs Hx HT)
    as (out & Hout & Hol & Hrows).
  destruct (Head_causal h head_size n_embd block_size Hh Hhs x Hx HT)
    as (out' & Hout' & _ & Hor & _).
  assert (He : out' = out).
  { pose proof (Hout g) as H1. rewrite (Hout' g) in H1. injection H1 as H1. exact H1. }
  subst out'. exists out.
  split; [apply Hout |]. split; [exact Hol |]. split; [exact Hor | exact Hrows].
Qed.

Lemma Head_forward_attends_witness :
  exists out,
    Head_forward false tiny_head [[1]; [2]] rng0 = Ok (out, rng0)
    /\ nth_error out 0 = Some (attend tiny_head [[1]] [1]).
Proof.
  destruct (Head_forward_attends tiny_head 1 1 2 [[1]; [2]] rng0)
    as (out & Hout & _ & _ & Hrows).
  - apply tiny_head_shaped.
  - lia.
  - repeat constructor.
  - simpl. lia.
  - exists out. split; [exact Hout |]. apply (Hrows 0%nat [1]). reflexivity.
Defined.

(** X2.  The attention layer and the three transformer blocks look
    only backwards.  When the head count divides the embedding width (both
    at least 1), [MultiHeadAttention.forward], [Block.forward],
    [BlockGPT1.forward] and [BlockGPT2.forward] with parameters of the
    constructors' shapes return, in inference mode, on every input of at
    most [block_size] rows of width [n_embd], as many rows of the same
    width, without reading or advancing the random source; and two inputs
    that agree on their first [k] rows give outputs that agree on their
    first [k] rows. *)
Theorem transformer_blocks_causal (n_embd n_head block_size : nat) :
  heads_divide n_embd n_head ->
  (forall m, MultiHeadAttention_shaped m n_head (n_embd / n_head) n_embd block_size ->
             depends_on_past n_embd n_embd block_size (MultiHeadAttention_forward false m))
  /\ (forall b, Block_shaped b n_embd n_head block_size ->
                depends_on_past n_embd n_embd block_size (Block_forward false b))
  /\ (forall b, BlockGPT1_shaped b n_embd n_head block_size ->
                depends_on_past n_embd n_embd block_size (BlockGPT1_forward false b))
  /\ (forall b, BlockGPT2_shaped b n_embd n_head block_size ->
                depends_on_past n_embd n_embd block_size (BlockGPT2_forward false b)).
Proof.
  intros Hd. destruct (heads_divide_size _ _ Hd) as (Hh & Hs & He).
  split; [| split; [| split]].
  - intros m Hm. apply causal_layer_depends_on_past.
    apply (MultiHeadAttention_causal m n_head (n_embd / n_head) n_embd block_size
             Hm Hh Hs He).
  - intros b Hb. apply causal_layer_depends_on_past.
    apply (Block_causal b n_embd n_head block_size Hb Hd).
  - intros b Hb. apply causal_layer_depends_on_past.
    apply (BlockGPT1_causal b n_embd n_head block_size Hb Hd).
  - intros b Hb. apply causal_layer_depends_on_past.
    apply (BlockGPT2_causal b n_embd n_head block_size Hb Hd).
Qed.

Lemma tiny_Block_shaped : Block_shaped tiny_Block 1 1 2.
Proof.
  split; [exact tiny_attention_shaped |].
  split; [split; apply zero_Linear_shaped |].
  split; apply nn_LayerNorm_init_shaped.
Qed.

Lemma transformer_blocks_causal_witness :
  depends_on_past 1 1 2 (Block_forward false tiny_Block).
Proof.
  destruct (transformer_blocks_causal 1 1 2) as (_ & Hb & _).
  - repeat split; lia.
  - apply Hb. exact tiny_Block_shaped.
Defined.

(** X3.  [GPT2.forward] returns logits of shape (B, T, vocab_size) and is
    causal.  For a model with parameters of the constructor's shapes whose
    head count divides the embedding width (or with no block), in inference
    mode, every batch of sequences of [T <= dim_context] token ids below
    [vocab_size] is answered, whatever the state of the random source and
    without advancing it, with one matrix of [T] rows of [vocab_size]
    logits per sequence; and two batches that agree on the first [k] tokens
    of every sequence get logits that agree on the first [k] positions. *)
Theorem GPT2_forward_causal (m : GPT2) (config : Config) (T T' k : nat)
    (idx idx' : tokens) (g g' : rng) :
  GPT2_shaped m config ->
  n_layer config = 0%nat \/ heads_divide (dim_embeddings config) (num_heads config) ->
  in_vocab (vocab_size config) T idx -> (T <= dim_context config)%nat ->
  in_vocab (vocab_size config) T' idx' -> (T' <= dim_context config)%nat ->
  map (firstn k) idx = map (firstn k) idx' ->
  exists logits logits',
    GPT2_forward false m idx g = Ok (logits, g)
    /\ GPT2_forward false m idx' g' = Ok (logits', g')
    /\ length logits = length idx
    /\ Forall (fun t => length t = T
                        /\ Forall (fun r => length r = vocab_size config) t) logits
    /\ map (firstn k) logits = map (firstn k) logits'.
Proof.
  intros Hm Hd Hidx HT Hidx' HT' Hk.
  destruct (GPT2_forward_prefix m config T idx Hm Hd Hidx HT)
    as (logits & Hl & Hlen & Hsh & Hpre).
  destruct (GPT2_forward_prefix m config T' idx' Hm Hd Hidx' HT')
    as (logits' & Hl' & _ & _ & Hpre').
  exists logits, logits'. split; [apply Hl |]. split; [apply Hl' |].
  split; [exact Hlen |]. split; [exact Hsh |].
  pose proof (Hpre k g) as H1. pose proof (Hpre' k g) as H2.
  rewrite Hk in H1. rewrite H1 in H2. injection H2 as H2. exact H2.
Qed.

Lemma GPT2_forward_causal_witness :
  exists logits logits',
    GPT2_forward false tiny_GPT2 [[0; 1]]%nat rng0 = Ok (logits, rng0)
    /\ GPT2_forward false tiny_GPT2 [[0; 0]]%nat rng0 = Ok (logits', rng0)
    /\ map (firstn 1) logits = map (firstn 1) logits'.
Proof.
  destruct (GPT2_forward_causal tiny_GPT2 tiny_config 2 2 1 [[0; 1]]%nat [[0; 0]]%nat
              rng0 rng0) as (l & l' & Hl & Hl' & _ & _ & He).
  - exact tiny_GPT2_shaped.
  - right. repeat split; simpl; lia.
  - repeat constructor.
  - simpl. lia.
  - repeat constructor.
  - simpl. lia.
  - reflexivity.
  - exists l, l'. split; [exact Hl |]. split; [exact Hl' | exact He].
Defined.

(** X4.  [GPT1.forward] returns logits of shape (B, T, vocab_size) and is
    causal, under the conditions and in the sense of [GPT2.forward]. *)
Theorem GPT1_forward_causal (m : GPT1) (config : Config) (T T' k : nat)
    (idx idx' : tokens) (g g' : rng) :
  GPT1_shaped m config ->
  n_layer config = 0%nat \/ heads_divide (dim_embeddings config) (num_heads config) ->
  in_vocab (vocab_size config) T idx -> (T <= dim_context config)%nat ->
  in_vocab (vocab_size config) T' idx' -> (T' <= dim_context config)%nat ->
  map (firstn k) idx = map (firstn k) idx' ->
  exists logits logits',
    GPT1_forward false m idx g = Ok (logits, g)
    /\ GPT1_forward false m idx' g' = Ok (logits', g')
    /\ length logits = length idx
    /\ Forall (fun t => length t = T
                        /\ Forall (fun r => length r = vocab_size config) t) logits
    /\ map (firstn k) logits = map (firstn k) logits'.
Proof.
  intros Hm Hd Hidx HT Hidx' HT' Hk.
  destruct (GPT1_forward_prefix m config T idx Hm Hd Hidx HT)
    as (logits & Hl & Hlen & Hsh & Hpre).
  destruct (GPT1_forward_prefix m config T' idx' Hm Hd Hidx' HT')
    as (logits' & Hl' & _ & _ & Hpre').
  exists logits, logits'. split; [apply Hl |]. split; [apply Hl' |].
  split; [exact Hlen |]. split; [exact Hsh |].
  pose proof (Hpre k g) as H1. pose proof (Hpre' k g) as H2.
  rewrite Hk in H1. rewrite H1 in H2. injection H2 as H2. exact H2.
Qed.

Lemma GPT1_forward_causal_witness :
  exists logits logits',
    GPT1_forward false tiny_GPT1 [[0; 1]]%nat rng0 = Ok (logits, rng0)
    /\ GPT1_forward false tiny_GPT1 [[0; 0]]%nat rng0 = Ok (logits', rng0)
    /\ map (firstn 1) logits = map (firstn 1) logits'.
Proof.
  destruct (GPT1_forward_causal tiny_GPT1 tiny_config 2 2 1 [[0; 1]]%nat [[0; 0]]%nat
              rng0 rng0) as (l & l' & Hl & Hl' & _ & _ & He).
  - exact tiny_GPT1_shaped.
  - right. repeat split; simpl; lia.
  - repeat constructor.
  - simpl. lia.
  - repeat constructor.
  - simpl. lia.
  - reflexivity.
  - exists l, l'. split; [exact Hl |]. split; [exact Hl' | exact He].
Defined.

(** X5.  [simpleGPT.forward] returns logits of shape (B, T, vocab_size)
    and is causal, under the conditions and in the sense of [GPT2.forward];
    the context window is the constructor's [block_size]. *)
Theorem simpleGPT_forward_causal (m : simpleGPT)
    (vocab n_embd heads block_size layers T T' k : nat)
    (idx idx' : tokens) (g g' : rng) :
  simpleGPT_shaped m vocab n_embd heads block_size layers ->
  layers = 0%nat \/ heads_divide n_embd heads ->
  in_vocab vocab T idx -> (T <= block_size)%nat ->
  in_vocab vocab T' idx' -> (T' <= block_size)%nat ->
  map (firstn k) idx = map (firstn k) idx' ->
  exists logits logits',
    simpleGPT_forward false m idx g = Ok (logits, g)
    /\ simpleGPT_forward false m idx' g' = Ok (logits', g')
    /\ length logits = length idx
    /\ Forall (fun t => length t = T /\ Forall (fun r => length r = vocab) t) logits
    /\ map (firstn k) logits = map (firstn k) logits'.
Proof.
  intros Hm Hd Hidx HT Hidx' HT' Hk.
  destruct (simpleGPT_forward_prefix m vocab n_embd heads block_size layers T idx
              Hm Hd Hidx HT) as (logits & Hl & Hlen & Hsh & Hpre).
  destruct (simpleGPT_forward_prefix m vocab n_embd heads block_size layers T' idx'
              Hm Hd Hidx' HT') as (logits' & Hl' & _ & _ & Hpre').
  exists logits, logits'. split; [apply Hl |]. split; [apply Hl' |].
  split; [exact Hlen |]. split; [exact Hsh |].
  pose proof (Hpre k g) as H1. pose proof (Hpre' k g) as H2.
  rewrite Hk in H1. rewrite H1 in H2. injection H2 as H2. exact H2.
Qed.

Lemma simpleGPT_forward_causal_witness :
  exists logits logits',
    simpleGPT_forward false tiny_simpleGPT [[0; 1]]%nat rng0 = Ok (logits, rng0)
    /\ simpleGPT_forward false tiny_simpleGPT [[0; 0]]%nat rng0 = Ok (logits', rng0)
    /\ map (firstn 1) logits = map (firstn 1) logits'.
Proof.
  destruct (simpleGPT_forward_causal tiny_simpleGPT 2 1 1 2 1 2 2 1
              [[0; 1]]%nat [[0; 0]]%nat rng0 rng0) as (l & l' & Hl & Hl' & _ & _ & He).
  - exact tiny_simpleGPT_shaped.
  - right. repeat split; simpl; lia.
  - repeat constructor.
  - simpl. lia.
  - repeat constructor.
  - simpl. lia.
  - reflexivity.
  - exists l, l'. split; [exact Hl |]. split; [exact Hl' | exact He].
Defined.





(** X8.  The decoder stacks refuse what their embedding tables do not
    hold.  With a token table of [V] rows and a position table of [ctx]
    rows, [GPT2.forward], [GPT1.forward] and [simpleGPT.forward] raise
    IndexError, in either mode and before any block runs, on every
    non-empty batch of sequences of [T] tokens in which some token id is
    [V] or more, or whose length [T] exceeds [ctx]. *)
Theorem decoder_forward_index_error (training : bool) (tok pos : Embedding)
    (V ctx d T : nat) (idx : tokens) (g : rng) :
  Embedding_shaped tok V d -> Embedding_shaped pos ctx d ->
  idx <> [] -> Forall (fun r => length r = T) idx ->
  Exists (fun r => Exists (fun t => (V <= t)%nat) r) idx \/ (ctx < T)%nat ->
  (forall m : GPT2,
      GPT2_token_embedding_table m = tok -> GPT2_position_embedding_table m = pos ->
      GPT2_forward training m idx g = Raise IndexError)
  /\ (forall m : GPT1,
      GPT1_token_embedding_table m = tok -> GPT1_position_embedding_table m = pos ->
      GPT1_forward training m idx g = Raise IndexError)
  /\ (forall m : simpleGPT,
      simpleGPT_token_embedding_table m = tok ->
      simpleGPT_position_embedding_table m = pos ->
      simpleGPT_forward training m idx g = Raise IndexError).
Proof.
  intros Htok Hpos Hne Hrect Hbad.
  pose proof (embed_index_error tok pos V ctx d T idx Htok Hpos Hne Hrect Hbad) as He.
  split; [| split]; intros m <- <-.
  - unfold GPT2_forward. apply bind_lift_raise. exact He.
  - unfold GPT1_forward. apply bind_lift_raise. exact He.
  - unfold simpleGPT_forward. apply bind_lift_raise. exact He.
Qed.

Lemma decoder_forward_index_error_witness :
  GPT2_forward false tiny_GPT2 [[0; 1; 0]]%nat rng0 = Raise IndexError
  /\ GPT2_forward false tiny_GPT2 [[0; 2]]%nat rng0 = Raise IndexError.
Proof.
  destruct tiny_embeddings_shaped as (Ht & Hp & _).
  split.
  - destruct (decoder_forward_index_error false _ _ 2 2 1 3 [[0; 1; 0]]%nat rng0 Ht Hp)
      as (H2 & _).
    + discriminate.
    + repeat constructor.
    + right. lia.
    + apply H2; reflexivity.
  - destruct (decoder_forward_index_error false _ _ 2 2 1 2 [[0; 2]]%nat rng0 Ht Hp)
      as (H2 & _).
    + discriminate.
    + repeat constructor.
    + left. constructor. right. left. lia.
    + apply H2; reflexivity.
Defined.

(** X9.  [BigramLanguageModel.forward] is a table lookup with no
    context window.  With [V] the number of rows of the table, a batch whose
    token ids are all below [V] is answered, for sequences of any length, by
    the rows of the table that the tokens select, without touching the
    random source; a batch that holds a token id of [V] or more raises
    IndexError. *)
Theorem BigramLanguageModel_forward_table (m : BigramLanguageModel) (idx : tokens)
    (g : rng) :
  let W := Embedding_weight (BigramLanguageModel_token_embedding_table m) in
  (Forall (Forall (fun t => (t < length W)%nat)) idx ->
   BigramLanguageModel_forward m idx g
   = Ok (map (map (fun t => nth t W [])) idx, g))
  /\ (Exists (Exists (fun t => (length W <= t)%nat)) idx ->
      BigramLanguageModel_forward m idx g = Raise IndexError).
Proof.
  intros W. split.
  - intros Hall. unfold BigramLanguageModel_forward, lift.
    replace (mapR (Embedding_forward (BigramLanguageModel_token_embedding_table m)) idx)
      with (Ok (map (map (fun t => nth t W [])) idx)); [reflexivity |].
    symmetry. rewrite <- mapR_map. apply mapR_ext_in. intros r Hr.
    rewrite List.Forall_forall in Hall. specialize (Hall r Hr).
    unfold Embedding_forward. rewrite <- mapR_map. apply mapR_ext_in. intros t Ht.
    rewrite List.Forall_forall in Hall. specialize (Hall t Ht).
    change (Embedding_weight (BigramLanguageModel_token_embedding_table m)) with W.
    destruct (nth_error W t) as [row |] eqn:Hrow.
    + rewrite (nth_error_nth _ _ _ Hrow). reflexivity.
    + apply nth_error_None in Hrow. lia.
  - intros Hex. unfold BigramLanguageModel_forward.
    destruct (mapR_Embedding_cases (BigramLanguageModel_token_embedding_table m) idx)
      as [(ms & Hms & Hall) | Hr].
    + exfalso. apply List.Exists_exists in Hex. destruct Hex as (r & Hr & Hex).
      rewrite List.Forall_forall in Hall. destruct (Hall r Hr) as [mr Hmr].
      clear - Hex Hmr. unfold Embedding_forward in Hmr.
      change (Embedding_weight (BigramLanguageModel_token_embedding_table m)) with W
        in Hmr.
      revert mr Hmr. induction Hex as [t r Ht | t r Hex IH]; intros mr Hmr.
      * cbn [mapR] in Hmr. destruct (nth_error W t) as [row |] eqn:Hrow;
          [| discriminate].
        assert (t < length W)%nat by (apply nth_error_Some; rewrite Hrow; discriminate).
        lia.
      * cbn [mapR] in Hmr. destruct (nth_error W t) as [row |]; [| discriminate].
        cbn [bind_res] in Hmr.
        destruct (mapR _ r) as [mr' |] eqn:Hr'; [| discriminate].
        apply (IH mr' eq_refl).
    + unfold lift. rewrite Hr. reflexivity.
Qed.

Lemma BigramLanguageModel_forward_table_witness :
  BigramLanguageModel_forward tiny_bigram [[0; 1]; [1; 1]]%nat rng0
  = Ok (map (map (fun t => nth t (Embedding_weight
                                    (BigramLanguageModel_token_embedding_table tiny_bigram))
                                 []))
            [[0; 1]; [1; 1]]%nat, rng0)
  /\ BigramLanguageModel_forward tiny_bigram [[0; 2]]%nat rng0 = Raise IndexError.
Proof.
  destruct (BigramLanguageModel_forward_table tiny_bigram [[0; 1]; [1; 1]]%nat rng0)
    as (Hok & _).
  destruct (BigramLanguageModel_forward_table tiny_bigram [[0; 2]]%nat rng0)
    as (_ & Hraise).
  split.
  - apply Hok. repeat constructor.
  - apply Hraise. left. right. left. simpl. lia.
Defined.


(** X11.  A block size that is not positive does not truncate to the
    last tokens.  [idx[:, -block_size:]] with [block_size = 0] is
    [idx[:, 0:]], the whole sequence, and with [block_size = -k] it is
    [idx[:, k:]], the sequence without its first [k] tokens: [generate]
    called with [block_size <= 0] behaves as [generate] without a block
    size on the model that drops the first [-block_size] tokens of its
    input. *)
Theorem generate_nonpositive_block_size (model : Model) (idx : tokens) (N : nat)
    (bs : Z) (g : rng) :
  (bs <= 0)%Z ->
  context (Some bs) idx = map (skipn (Z.to_nat (- bs))) idx
  /\ generate model idx N (Some bs) g
     = generate (fun training i => model training (map (skipn (Z.to_nat (- bs))) i))
                idx N None g.
Proof.
  intros Hbs.
  assert (Hc : forall i, context (Some bs) i = map (skipn (Z.to_nat (- bs))) i).
  { intros i. unfold context. apply map_ext. intros r. unfold slice_from.
    destruct (Z.ltb_spec (- bs) 0); [lia | reflexivity]. }
  split; [apply Hc |].
  revert idx g. induction N as [| N IH]; intros idx g; [reflexivity |].
  cbn [generate].
  assert (Hs : generate_step model (Some bs) idx g
               = generate_step (fun training i =>
                                  model training (map (skipn (Z.to_nat (- bs))) i))
                               None idx g).
  { unfold generate_step. rewrite Hc. reflexivity. }
  unfold bind. rewrite Hs.
  destruct (generate_step _ None idx g) as [[nxt g1] | e]; [apply IH | reflexivity].
Qed.

Lemma generate_nonpositive_block_size_witness :
  context (Some 0%Z) [[0; 1; 0]]%nat = [[0; 1; 0]]%nat
  /\ generate tiny_GPT2_model [[0; 1; 0]]%nat 1 (Some 0%Z) rng0
     = generate (fun training i => tiny_GPT2_model training (map (skipn 0) i))
                [[0; 1; 0]]%nat 1 None rng0.
Proof.
  apply (generate_nonpositive_block_size tiny_GPT2_model [[0; 1; 0]]%nat 1 0 rng0).
  lia.
Defined.

(** X12.  [generate] cannot start from empty sequences.  For a bigram
    model and for a GPT2 with parameters of the constructor's shapes, a
    non-empty batch of empty sequences and one or more tokens to sample,
    whatever the block size: the model answers with logits of no time step
    and [logits[:, -1, :]] raises IndexError. *)
Theorem generate_empty_prompt (idx : tokens) (n : nat) (block_size : option Z)
    (g : rng) :
  idx <> [] -> Forall (fun r => r = []) idx ->
  (forall m : BigramLanguageModel,
      generate (BigramLanguageModel_model m) idx (S n) block_size g = Raise IndexError)
  /\ (forall (m : GPT2) (config : Config),
      GPT2_shaped m config ->
      n_layer config = 0%nat
      \/ heads_divide (dim_embeddings config) (num_heads config) ->
      generate (GPT2_model m) idx (S n) block_size g = Raise IndexError).
Proof.
  intros Hne Hempty. split.
  - intros m. cbn [generate]. apply bind_raise.
    apply (generate_step_no_rows _ block_size idx g g (map (fun _ => []) idx)).
    + rewrite (context_empty_rows block_size idx Hempty).
      unfold BigramLanguageModel_model, BigramLanguageModel_forward, lift.
      replace (mapR _ idx) with (Ok (map (fun _ : list nat => @nil vector) idx));
        [reflexivity |].
      symmetry. rewrite <- mapR_map. apply mapR_ext_in. intros r Hr.
      rewrite List.Forall_forall in Hempty. rewrite (Hempty r Hr). reflexivity.
    + destruct idx; [contradiction | discriminate].
    + apply List.Forall_forall. intros t Ht. apply in_map_iff in Ht.
      destruct Ht as (r & <- & _). reflexivity.
  - intros m config Hm Hd. cbn [generate]. apply bind_raise.
    assert (Hidx : in_vocab (vocab_size config) 0 idx).
    { eapply List.Forall_impl; [| exact Hempty]. intros r ->. split; [reflexivity |].
      constructor. }
    destruct (GPT2_forward_prefix m config 0 idx Hm Hd Hidx ltac:(lia))
      as (logits & Hl & Hlen & Hsh & _).
    apply (generate_step_no_rows _ block_size idx g g logits).
    + rewrite (context_empty_rows block_size idx Hempty). apply Hl.
    + intros ->. destruct idx; [contradiction | discriminate].
    + eapply List.Forall_impl; [| exact Hsh]. intros t [Ht _]. exact Ht.
Qed.

Lemma generate_empty_prompt_witness :
  generate (BigramLanguageModel_model tiny_bigram) [[]] 1 None rng0 = Raise IndexError
  /\ generate (GPT2_model tiny_GPT2) [[]] 1 (Some 2%Z) rng0 = Raise IndexError.
Proof.
  split.
  - destruct (generate_empty_prompt [[]] 0 None rng0) as (Hb & _).
    + discriminate.
    + repeat constructor.
    + apply Hb.
  - destruct (generate_empty_prompt [[]] 0 (Some 2%Z) rng0) as (_ & Hg).
    + discriminate.
    + repeat constructor.
    + apply (Hg tiny_GPT2 tiny_config tiny_GPT2_shaped).
      right. repeat split; simpl; lia.
Defined.

(** X13.  [generate] on a GPT2 with a block size within the context
    window always returns.  For a model with parameters of the
    constructor's shapes whose head count divides the embedding width (or
    with no block), a vocabulary of at least one token, a batch of
    sequences of [T >= 1] token ids below [vocab_size] and a block size
    between 1 and [dim_context]: for every [N], [generate] returns every
    sequence followed by [N] token ids below [vocab_size], however long the
    sequences grow. *)
Theorem generate_GPT2_windowed (m : GPT2) (config : Config) (T N : nat) (bs : Z)
    (idx : tokens) (g : rng) :
  GPT2_shaped m config ->
  n_layer config = 0%nat \/ heads_divide (dim_embeddings config) (num_heads config) ->
  (1 <= vocab_size config)%nat ->
  in_vocab (vocab_size config) T idx -> (1 <= T)%nat ->
  (1 <= bs <= Z.of_nat (dim_context config))%Z ->
  exists out g',
    generate (GPT2_model m) idx N (Some bs) g = Ok (out, g')
    /\ extends (vocab_size config) N idx out.
Proof.
  intros Hm Hd HV Hidx HT Hbs.
  destruct (generate_from (GPT2_model m) (vocab_size config) (Some bs) idx N HV
              0 idx g (extends_refl _ idx)) as (out & g' & Hout & Hext).
  - intros n idx' g1 _ Hext.
    pose proof (extends_in_vocab_T _ _ _ idx idx' Hidx Hext) as Hidx'.
    pose proof (context_in_vocab _ _ bs idx' ltac:(lia) Hidx') as Hc.
    destruct (Z.eqb_spec bs 0) as [H0 | _]; [lia |].
    apply (GPT2_model_returns m config _ (Some bs) idx' g1 Hm Hd Hc). lia.
  - exists out, g'. split; [exact Hout | exact Hext].
Qed.

Lemma generate_GPT2_windowed_witness :
  exists out g',
    generate (GPT2_model tiny_GPT2) [[0; 1]]%nat 5 (Some 2%Z) rng0 = Ok (out, g')
    /\ extends 2 5 [[0; 1]]%nat out.
Proof.
  apply (generate_GPT2_windowed tiny_GPT2 tiny_config 2 5 2 [[0; 1]]%nat rng0).
  - exact tiny_GPT2_shaped.
  - right. repeat split; simpl; lia.
  - simpl. lia.
  - repeat constructor.
  - lia.
  - simpl. lia.
Defined.

(** X14.  [generate] on a GPT2 without a block size runs out of
    context.  Under the conditions of the previous property on the model
    and on a non-empty batch of sequences of [T >= 1] tokens, called with
    [block_size = None] and [N] tokens to sample: [generate] returns the
    extended sequences when [T + N <= dim_context + 1] (the last token
    sampled is never fed back), and raises IndexError when [N >= 1] and
    [T + N > dim_context + 1], the position lookup refusing the first
    sequence longer than [dim_context]. *)
Theorem generate_GPT2_outgrows_context (m : GPT2) (config : Config) (T N : nat)
    (idx : tokens) (g : rng) :
  GPT2_shaped m config ->
  n_layer config = 0%nat \/ heads_divide (dim_embeddings config) (num_heads config) ->
  (1 <= vocab_size config)%nat ->
  idx <> [] -> in_vocab (vocab_size config) T idx -> (1 <= T)%nat ->
  ((T + N <= dim_context config + 1)%nat ->
   exists out g',
     generate (GPT2_model m) idx N None g = Ok (out, g')
     /\ extends (vocab_size config) N idx out)
  /\ ((1 <= N)%nat -> (dim_context config + 1 < T + N)%nat ->
      generate (GPT2_model m) idx N None g = Raise IndexError).
Proof.
  intros Hm Hd HV Hne Hidx HT. split.
  - intros Hfit.
    destruct (generate_from (GPT2_model m) (vocab_size config) None idx N HV
                0 idx g (extends_refl _ idx)) as (out & g' & Hout & Hext).
    + intros n idx' g1 Hn Hext.
      pose proof (extends_in_vocab_T _ _ _ idx idx' Hidx Hext) as Hidx'.
      apply (GPT2_model_returns m config (T + n) None idx' g1 Hm Hd Hidx'). lia.
    + exists out, g'. split; [exact Hout | exact Hext].
  - intros HN Hover.
    apply (generate_GPT2_overflow m config Hm Hd HV N T idx g Hne Hidx HT HN Hover).
Qed.

Lemma generate_GPT2_outgrows_context_witness :
  (exists out g',
      generate (GPT2_model tiny_GPT2) [[0]]%nat 2 None rng0 = Ok (out, g')
      /\ extends 2 2 [[0]]%nat out)
  /\ generate (GPT2_model tiny_GPT2) [[0]]%nat 3 None rng0 = Raise IndexError.
Proof.
  split.
  - destruct (generate_GPT2_outgrows_context tiny_GPT2 tiny_config 1 2 [[0]]%nat rng0)
      as (Hfit & _).
    + exact tiny_GPT2_shaped.
    + right. repeat split; simpl; lia.
    + simpl. lia.
    + discriminate.
    + repeat constructor.
    + lia.
    + apply Hfit. simpl. lia.
  - destruct (generate_GPT2_outgrows_context tiny_GPT2 tiny_config 1 3 [[0]]%nat rng0)
      as (_ & Hover).
    + exact tiny_GPT2_shaped.
    + right. repeat split; simpl; lia.
    + simpl. lia.
    + discriminate.
    + repeat constructor.
    + lia.
    + apply Hover; simpl; lia.
Defined.

(** X15.  Layer normalization ignores a constant offset.  Over the
    reals, for every scale and bias (learned or not) and every input,
    adding one constant [c] to every entry of the input changes neither the
    result of [LayerNorm.forward] nor whether it raises; the same holds for
    torch's own layer as the blocks use it. *)
Theorem LayerNorm_shift_invariant (x : matrix) (c : R) :
  (forall l : LayerNorm,
      LayerNorm_forward l (map (map (fun a => a + c)) x) = LayerNorm_forward l x)
  /\ (forall l : nn_LayerNorm,
      nn_LayerNorm_forward l (map (map (fun a => a + c)) x) = nn_LayerNorm_forward l x).
Proof.
  assert (H : forall n w b eps,
             F_layer_norm (map (map (fun a => a + c)) x) n w b eps
             = F_layer_norm x n w b eps).
  { intros n w b eps. unfold F_layer_norm.
    match goal with
    | |- context [forallb ?f (map ?h x)] =>
        assert (Hf : forallb f (map h x) = forallb f x)
    end.
    { induction x as [| r x IH]; [reflexivity |].
      cbn [map forallb]. rewrite IH, length_map. reflexivity. }
    rewrite Hf. destruct (_ && _ && _); [| reflexivity].
    f_equal. rewrite map_map. apply map_ext. intros r.
    rewrite normalize_shift. reflexivity. }
  split; intros l; [unfold LayerNorm_forward | unfold nn_LayerNorm_forward]; apply H.
Qed.

(** X16.  A freshly constructed [LayerNorm] standardizes every row.
    With the weight of ones and the bias of zeros (or no bias) that
    [LayerNorm.__init__] sets, on an input whose rows have the width
    [ndim >= 1], [forward] returns every row normalized, and every output
    row has mean 0 and variance [var / (var + 1e-5)], which is below 1,
    [var] being the variance of the input row. *)
Theorem LayerNorm_init_standardizes (ndim : nat) (bias : bool) (x : matrix) :
  (1 <= ndim)%nat ->
  Forall (fun r => length r = ndim) x ->
  LayerNorm_forward (LayerNorm_init ndim bias) x = Ok (map (normalize eps_default) x)
  /\ forall r, In r x ->
       length (normalize eps_default r) = ndim
       /\ mean (normalize eps_default r) = 0
       /\ variance (normalize eps_default r) = variance r / (variance r + eps_default)
       /\ variance (normalize eps_default r) < 1.
Proof.
  intros Hn Hx. assert (Heps : 0 < eps_default) by (unfold eps_default; lra). split.
  - unfold LayerNorm_forward, LayerNorm_init.
    cbn [LayerNorm_weight LayerNorm_bias]. rewrite repeat_length.
    rewrite (F_layer_norm_ok x ndim (repeat 1 ndim)
               (if bias then Some (repeat 0 ndim) else None) eps_default).
    + f_equal. apply map_ext_in. intros r Hr. apply affine_init.
      rewrite normalize_length. rewrite List.Forall_forall in Hx. apply Hx, Hr.
    + apply repeat_length.
    + destruct bias; [apply repeat_length | exact I].
    + exact Hx.
  - intros r Hr. rewrite List.Forall_forall in Hx. pose proof (Hx r Hr) as Hl.
    assert (Hne : r <> []) by (intros ->; simpl in Hl; lia).
    split; [rewrite normalize_length; exact Hl |].
    split; [apply (mean_normalize eps_default r Hne) |].
    rewrite (variance_normalize eps_default r Hne Heps).
    split; [reflexivity |].
    pose proof (variance_nonneg r) as Hv.
    apply (Rmult_lt_reg_r (variance r + eps_default)); [lra |].
    unfold Rdiv. rewrite Rmult_assoc, Rinv_l by lra. lra.
Qed.

Lemma LayerNorm_init_standardizes_witness :
  LayerNorm_forward (LayerNorm_init 2 false) [[1; 3]]
  = Ok (map (normalize eps_default) [[1; 3]])
  /\ mean (normalize eps_default [1; 3]) = 0.
Proof.
  destruct (LayerNorm_init_standardizes 2 false [[1; 3]]) as (Hf & Hr).
  - lia.
  - repeat constructor.
  - split; [exact Hf |]. apply (Hr [1; 3]). left. reflexivity.
Defined.

(** X17.  What [GPT2.__init__] accepts.  The constructor checks
    nothing but what its layers check: it raises ValueError when the
    dropout rate is outside [0, 1] (from [nn.Dropout], before any block is
    built), raises ZeroDivisionError when the rate is valid, there is a
    block to build and [num_heads] is 0 (from [n_embd // n_head]), and
    otherwise returns a model whose tables, blocks and output layer have
    the shapes the config names; the head count need not divide the
    embedding width. *)
Theorem GPT2_init_cases (config : Config) (g : rng) :
  (~ (0 <= dropout config <= 1) -> GPT2_init config g = Raise ValueError)
  /\ (0 <= dropout config <= 1 -> (1 <= n_layer config)%nat ->
      num_heads config = 0%nat ->
      GPT2_init config g = Raise ZeroDivisionError)
  /\ (0 <= dropout config <= 1 ->
      n_layer config = 0%nat \/ (1 <= num_heads config)%nat ->
      exists m g', GPT2_init config g = Ok (m, g') /\ GPT2_shaped m config).
Proof.
  unfold GPT2_init.
  destruct (nn_Embedding_ok (vocab_size config) (dim_embeddings config) g)
    as (te & g1 & Hte & Htes).
  destruct (nn_Embedding_ok (dim_context config) (dim_embeddings config) g1)
    as (pe & g2 & Hpe & Hpes).
  rewrite (bind_ok _ _ _ _ _ Hte), (bind_ok _ _ _ _ _ Hpe).
  split; [| split].
  - intros Hr. apply bind_lift_raise, nn_Dropout_raises, Hr.
  - intros Hr Hl Hh. rewrite (bind_lift_ok _ _ _ _ (nn_Dropout_ok _ Hr)).
    apply bind_raise, mapM_st_seq_raise; [exact Hl |]. rewrite Hh. reflexivity.
  - intros Hr Hd. rewrite (bind_lift_ok _ _ _ _ (nn_Dropout_ok _ Hr)).
    assert (Hblocks : exists bs g3,
               mapM_st (fun _ : nat =>
                          BlockGPT2_init (dim_embeddings config) (num_heads config)
                            (dim_context config) (bias config) (dropout config))
                       (seq 0 (n_layer config)) g2 = Ok (bs, g3)
               /\ length bs = n_layer config
               /\ Forall (fun b => BlockGPT2_shaped b (dim_embeddings config)
                                     (num_heads config) (dim_context config)) bs).
    { destruct Hd as [H0 | Hh].
      - rewrite H0. exists [], g2. repeat split. constructor.
      - apply mapM_st_seq_ok. intros s. apply BlockGPT2_init_shaped; assumption. }
    destruct Hblocks as (bs & g3 & Hbs & Hbl & Hbsh).
    rewrite (bind_ok _ _ _ _ _ Hbs).
    destruct (nn_Linear_ok (dim_embeddings config) (vocab_size config) true g3)
      as (hd & g4 & Hhd & Hhds).
    rewrite (bind_ok _ _ _ _ _ Hhd).
    eexists _, _. split; [reflexivity |].
    split; [exact Htes |]. split; [exact Hpes |]. split; [exact Hbl |].
    split; [exact Hbsh | exact Hhds].
Qed.

Lemma GPT2_init_cases_witness :
  GPT2_init {| vocab_size := 2; dim_embeddings := 4; dim_context := 2; num_heads := 3;
               n_layer := 1; dropout := 2; bias := true; device := "cpu" |} rng0
  = Raise ValueError
  /\ exists m g',
      GPT2_init {| vocab_size := 2; dim_embeddings := 4; dim_context := 2;
                   num_heads := 3; n_layer := 1; dropout := 0; bias := true;
                   device := "cpu" |} rng0 = Ok (m, g').
Proof.
  split.
  - destruct (GPT2_init_cases
                {| vocab_size := 2; dim_embeddings := 4; dim_context := 2;
                   num_heads := 3; n_layer := 1; dropout := 2; bias := true;
                   device := "cpu" |} rng0) as (Hv & _).
    apply Hv. cbn [dropout]. lra.
  - destruct (GPT2_init_cases
                {| vocab_size := 2; dim_embeddings := 4; dim_context := 2;
                   num_heads := 3; n_layer := 1; dropout := 0; bias := true;
                   device := "cpu" |} rng0) as (_ & _ & Hok).
    destruct Hok as (m & g' & Hm & _).
    + cbn [dropout]. lra.
    + right. cbn [num_heads]. lia.
    + exists m, g'. exact Hm.
Defined.

(** X18.  What [GPT1.__init__] accepts.  [GPT1] has no dropout layer of
    its own, so the rate is checked only inside the blocks: with
    [n_layer = 0] the constructor returns for every rate; with a block to
    build it raises ZeroDivisionError when [num_heads] is 0, raises
    ValueError when [num_heads >= 1] and the rate is outside [0, 1], and
    otherwise returns.  What it returns has the shapes the config names. *)
Theorem GPT1_init_cases (config : Config) (g : rng) :
  ((1 <= n_layer config)%nat -> num_heads config = 0%nat ->
   GPT1_init config g = Raise ZeroDivisionError)
  /\ ((1 <= n_layer config)%nat -> (1 <= num_heads config)%nat ->
      ~ (0 <= dropout config <= 1) ->
      GPT1_init config g = Raise ValueError)
  /\ (n_layer config = 0%nat
      \/ ((1 <= num_heads config)%nat /\ 0 <= dropout config <= 1) ->
      exists m g', GPT1_init config g = Ok (m, g') /\ GPT1_shaped m config).
Proof.
  unfold GPT1_init.
  destruct (nn_Embedding_ok (vocab_size config) (dim_embeddings config) g)
    as (te & g1 & Hte & Htes).
  destruct (nn_Embedding_ok (dim_context config) (dim_embeddings config) g1)
    as (pe & g2 & Hpe & Hpes).
  rewrite (bind_ok _ _ _ _ _ Hte), (bind_ok _ _ _ _ _ Hpe).
  split; [| split].
  - intros Hl Hh. apply bind_raise, mapM_st_seq_raise; [exact Hl |].
    apply (BlockGPT1_init_raises _ _ _ _ g2), Hh.
  - intros Hl Hh Hr. apply bind_raise, mapM_st_seq_raise; [exact Hl |].
    apply (BlockGPT1_init_raises _ _ _ _ g2); assumption.
  - intros Hd.
    assert (Hblocks : exists bs g3,
               mapM_st (fun _ : nat =>
                          BlockGPT1_init (dim_embeddings config) (num_heads config)
                            (dim_context config) (dropout config))
                       (seq 0 (n_layer config)) g2 = Ok (bs, g3)
               /\ length bs = n_layer config
               /\ Forall (fun b => BlockGPT1_shaped b (dim_embeddings config)
                                     (num_heads config) (dim_context config)) bs).
    { destruct Hd as [H0 | [Hh Hr]].
      - rewrite H0. exists [], g2. repeat split. constructor.
      - apply mapM_st_seq_ok. intros s. apply BlockGPT1_init_shaped; assumption. }
    destruct Hblocks as (bs & g3 & Hbs & Hbl & Hbsh).
    rewrite (bind_ok _ _ _ _ _ Hbs).
    destruct (nn_Linear_ok (dim_embeddings config) (vocab_size config) true g3)
      as (hd & g4 & Hhd & Hhds).
    rewrite (bind_ok _ _ _ _ _ Hhd).
    eexists _, _. split; [reflexivity |].
    split; [exact Htes |]. split; [exact Hpes |]. split; [exact Hbl |].
    split; [exact Hbsh | exact Hhds].
Qed.

Lemma GPT1_init_cases_witness :
  exists m g',
    GPT1_init {| vocab_size := 2; dim_embeddings := 4; dim_context := 2; num_heads := 0;
                 n_layer := 0; dropout := 2; bias := true; device := "cpu" |} rng0
    = Ok (m, g').
Proof.
  destruct (GPT1_init_cases
              {| vocab_size := 2; dim_embeddings := 4; dim_context := 2; num_heads := 0;
                 n_layer := 0; dropout := 2; bias := true; device := "cpu" |} rng0)
    as (_ & _ & Hok).
  destruct Hok as (m & g' & Hm & _).
  - left. reflexivity.
  - exists m, g'. exact Hm.
Defined.

(** X19.  The feed-forward networks act on every position by itself and
    know no context window.  In inference mode, [FeedFoward.forward] and
    [FeedFowardGPT2.forward] with layers of the constructors' shapes
    return, on an input of any number of rows of width [n_embd] and
    without touching the random source, the rows
    [net2 (act (net0 row))], with [act] the ReLU and the GELU: an output
    row depends on its own input row only. *)
Theorem feed_forward_position_wise (n_embd : nat) (x : matrix) (g : rng) :
  Forall (fun r => length r = n_embd) x ->
  (forall f : FeedFoward, FeedFoward_shaped f n_embd ->
     FeedFoward_forward false f x g
     = Ok (map (fun r => Linear_row (FeedFoward_net2 f)
                           (map ReLU (Linear_row (FeedFoward_net0 f) r))) x, g)
     /\ Forall (fun r => length r = n_embd)
               (map (fun r => Linear_row (FeedFoward_net2 f)
                                (map ReLU (Linear_row (FeedFoward_net0 f) r))) x))
  /\ (forall f : FeedFowardGPT2, FeedFowardGPT2_shaped f n_embd ->
     FeedFowardGPT2_forward false f x g
     = Ok (map (fun r => Linear_row (FeedFowardGPT2_net2 f)
                           (map GELU (Linear_row (FeedFowardGPT2_net0 f) r))) x, g)
     /\ Forall (fun r => length r = n_embd)
               (map (fun r => Linear_row (FeedFowardGPT2_net2 f)
                                (map GELU (Linear_row (FeedFowardGPT2_net0 f) r))) x)).
Proof.
  intros Hx. split; intros f Hf.
  - split; [apply (FeedFoward_forward_rows f n_embd x g Hf Hx) |].
    destruct Hf as (_ & H2). apply List.Forall_forall. intros r Hr.
    apply in_map_iff in Hr. destruct Hr as (r0 & <- & _).
    apply (Linear_row_length _ _ _ _ _ H2).
  - split; [apply (FeedFowardGPT2_forward_rows f n_embd x g Hf Hx) |].
    destruct Hf as (_ & H2). apply List.Forall_forall. intros r Hr.
    apply in_map_iff in Hr. destruct Hr as (r0 & <- & _).
    apply (Linear_row_length _ _ _ _ _ H2).
Qed.

Lemma feed_forward_position_wise_witness :
  FeedFoward_forward false tiny_ffwd [[1]; [2]; [3]] rng0
  = Ok (map (fun r => Linear_row (FeedFoward_net2 tiny_ffwd)
                        (map ReLU (Linear_row (FeedFoward_net0 tiny_ffwd) r)))
            [[1]; [2]; [3]], rng0).
Proof.
  destruct (feed_forward_position_wise 1 [[1]; [2]; [3]] rng0) as (Hf & _).
  - repeat constructor.
  - apply Hf. split; apply zero_Linear_shaped.
Defined.

(** X20.  [LastTimeStep.forward] returns the states of the last layer,
    batch first.  For a module built for [layers >= 1] layers and [D]
    directions (2 when bidirectional, else 1) and a hidden state that holds
    [layers * D] matrices of [B >= 1] rows of width [H], given alone or as
    the first item of an LSTM's tuple: the result has [B] rows of width
    [D * H], and row [b] is the concatenation, over the [D] directions of
    the last layer, of the state of batch element [b]; the output sequence
    of the module is not looked at. *)
Theorem LastTimeStep_forward_last_layer (layers : nat) (bidirectional : bool)
    (B H : nat) (hs : list matrix) (c : tensor3) (out : batch) :
  let self := LastTimeStep_init layers bidirectional in
  let D := num_driections self in
  let result :=
    map (fun b => concat (map (fun x : matrix => nth b x [])
                              (skipn ((layers - 1) * D) hs)))
        (seq 0 B) in
  (1 <= layers)%nat -> (1 <= B)%nat ->
  length hs = (layers * D)%nat ->
  Forall (fun m => length m = B /\ Forall (fun r => length r = H) m) hs ->
  LastTimeStep_forward self (out, h_t (tensor_of B H hs)) = Ok result
  /\ LastTimeStep_forward self (out, h_c (tensor_of B H hs) c) = Ok result
  /\ length result = B
  /\ Forall (fun r => length r = (D * H)%nat) result.
Proof.
  intros self D result HL HB Hlen Hshape.
  assert (HD : (1 <= D)%nat) by (unfold D, self; destruct bidirectional; simpl; lia).
  split; [| split; [| split]].
  - apply (LastTimeStep_forward_states layers D B H hs out _ HL HD HB Hlen Hshape).
    left. reflexivity.
  - apply (LastTimeStep_forward_states layers D B H hs out _ HL HD HB Hlen Hshape).
    right. exists c. reflexivity.
  - unfold result. rewrite length_map, length_seq. reflexivity.
  - unfold result. apply List.Forall_forall. intros r Hr. apply in_map_iff in Hr.
    destruct Hr as (b & <- & Hb). apply in_seq in Hb.
    set (G := skipn ((layers - 1) * D) hs).
    assert (HG : Forall (fun m => length m = B /\ Forall (fun r => length r = H) m) G)
      by (apply Forall_skipn, Hshape).
    assert (HGl : length G = D).
    { unfold G, matrix, vector in *. rewrite length_skipn, Hlen. nia. }
    rewrite (length_concat_rect _ H), length_map, HGl; [reflexivity |].
    apply List.Forall_forall. intros v Hv. apply in_map_iff in Hv.
    destruct Hv as (m & <- & Hm). rewrite List.Forall_forall in HG.
    destruct (HG m Hm) as [Hmb Hmr]. rewrite List.Forall_forall in Hmr.
    apply Hmr, nth_In. unfold matrix, vector in *. lia.
Qed.

Lemma LastTimeStep_forward_last_layer_witness :
  LastTimeStep_forward (LastTimeStep_init 2 true)
    ([], h_t (tensor_of 2 1 [[[1]; [2]]; [[3]; [4]]; [[5]; [6]]; [[7]; [8]]]))
  = Ok [[5; 7]; [6; 8]].
Proof.
  destruct (LastTimeStep_forward_last_layer 2 true 2 1
              [[[1]; [2]]; [[3]; [4]]; [[5]; [6]]; [[7]; [8]]]
              (tensor_of 2 1 []) []) as (Hf & _).
  - lia.
  - lia.
  - reflexivity.
  - repeat constructor.
  - exact Hf.
Defined.

Lemma LastTimeStep_default_view (K B H : nat) (hs : list matrix) (out : batch) :
  (1 <= K)%nat -> (1 <= B)%nat ->
  length hs = K ->
  Forall (fun m => length m = B /\ Forall (fun r => length r = H) m) hs ->
  LastTimeStep_forward (LastTimeStep_init 1 false) (out, h_t (tensor_of B H hs))
  = Ok (map (@concat R) (unflatten B K (concat hs))).
Proof.
  intros HS HB Hlen Hshape. unfold matrix, vector in *.
  assert (Hrows : Forall (fun r : list R => length r = H) (concat hs)).
  { apply Forall_concat. eapply List.Forall_impl; [| exact Hshape].
    intros m [_ Hm]. exact Hm. }
  assert (Hcount : length (concat hs) = (K * B)%nat).
  { rewrite (length_concat_rect hs B), Hlen; [reflexivity |].
    eapply List.Forall_impl; [| exact Hshape]. intros m [Hm _]. exact Hm. }
  assert (Hnumel : length (concat (concat hs)) = (K * H * B)%nat).
  { rewrite (length_concat_rect _ H Hrows), Hcount. lia. }
  unfold LastTimeStep_forward, LastTimeStep_init.
  cbn [snd rnn_layers num_driections tensor_of shape1 storage].
  rewrite concat_map_concat. unfold view4, matrix, vector. rewrite Hnumel.
  replace (1 * 1 * B)%nat with B by lia.
  destruct (Nat.eqb_spec B 0) as [H0 | _]; [lia |].
  rewrite Nat.Div0.mod_mul, Nat.eqb_refl, Nat.div_mul by lia.
  cbn [bind_res]. unfold index0, unflatten at 3. cbn [seq map nth_error Nat.sub].
  unfold unflatten at 2. cbn [seq map Nat.mul skipn].
  cbn [skipn].
  assert (Hall : forall n, (K * H * B <= n)%nat ->
                 firstn n (concat (concat hs)) = concat (concat hs))
    by (intros n Hn; apply firstn_all2; rewrite Hnumel; exact Hn).
  rewrite !skipn_O.
  rewrite (Hall ((B + 0) * (K * H))%nat) by lia.
  rewrite (Hall (B * (K * H))%nat) by lia.
  cbn [bind_res]. f_equal.
  rewrite (unflatten_groups B K H (concat hs) Hrows).
  set (m := map (@concat R) (unflatten B K (concat hs))).
  assert (Hm : length m = B) by (unfold m; rewrite length_map; apply unflatten_length).
  unfold permute102, reshape2. rewrite map_map. cbn [map concat].
  transitivity (map (fun j => nth j m []) (seq 0 (length m)));
    [| apply map_nth_seq].
  rewrite Hm. apply map_ext. intros b. apply app_nil_r.
Qed.

(** X21.  [LastTimeStep()] with its defaults does not check what
    it is given.  Built for one layer and one direction, on a hidden state
    of [K >= 1] matrices of [B >= 1] rows of width [H], [forward] raises
    nothing: [view(1, 1, B, -1)] infers a width of [K * H], and the result
    is the list of all [K * B] state vectors, layer and direction first,
    cut into [B] runs of [K] vectors.  For [K = 1] this is the state of
    every batch element; for a bidirectional or stacked module ([K >= 2])
    with [B >= 2] the first row of the result starts with the states of
    the batch elements 0 and 1 of the first layer. *)
Theorem LastTimeStep_default_reinterprets (K B H : nat) (hs : list matrix)
    (out : batch) :
  (1 <= K)%nat -> (1 <= B)%nat ->
  length hs = K ->
  Forall (fun m => length m = B /\ Forall (fun r => length r = H) m) hs ->
  LastTimeStep_forward (LastTimeStep_init 1 false) (out, h_t (tensor_of B H hs))
  = Ok (map (@concat R) (unflatten B K (concat hs)))
  /\ (K = 1%nat -> map (@concat R) (unflatten B K (concat hs)) = nth 0 hs [])
  /\ ((2 <= K)%nat -> (2 <= B)%nat ->
      exists rest,
        nth 0 (map (@concat R) (unflatten B K (concat hs))) []
        = nth 0 (nth 0 hs []) [] ++ nth 1 (nth 0 hs []) [] ++ rest).
Proof.
  intros HK HB Hlen Hshape.
  split; [apply (LastTimeStep_default_view K B H hs out HK HB Hlen Hshape) |].
  unfold matrix, vector in *. split.
  - intros ->. destruct hs as [| m [| m' hs']]; try discriminate Hlen.
    cbn [concat nth]. rewrite app_nil_r.
    apply Forall_cons_iff in Hshape. destruct Hshape as [[Hm _] _].
    rewrite (unflatten_singletons B m Hm), map_map.
    cbn [concat]. transitivity (map (fun v : list R => v) m); [| apply map_id].
    apply map_ext. intros v. apply app_nil_r.
  - intros HK2 HB2.
    destruct hs as [| m hs']; [cbn [length] in Hlen; lia |].
    apply Forall_cons_iff in Hshape. destruct Hshape as [[Hm _] _].
    destruct m as [| a [| b m']]; cbn [length] in Hm; try lia.
    destruct K as [| [| K']]; try lia.
    destruct B as [| B']; [lia |].
    unfold unflatten. cbn [seq map nth concat Nat.mul skipn app firstn].
    eexists. reflexivity.
Qed.

Lemma LastTimeStep_default_reinterprets_witness :
  LastTimeStep_forward (LastTimeStep_init 1 false)
    ([], h_t (tensor_of 2 1 [[[1]; [2]]; [[3]; [4]]]))
  = Ok [[1; 2]; [3; 4]].
Proof.
  destruct (LastTimeStep_default_reinterprets 2 2 1 [[[1]; [2]]; [[3]; [4]]] [])
    as (Hf & _).
  - lia.
  - lia.
  - reflexivity.
  - repeat constructor.
  - exact Hf.
Defined.

Lemma nn_RNN_forward_ok (r : nn_RNN) (dim hidden T : nat) (x : batch) :
  nn_RNN_shaped r dim hidden -> (1 <= T)%nat ->
  Forall (fun s => length s = T /\ Forall (fun v => length v = dim) s) x ->
  nn_RNN_forward r x
  = Ok (map (RNN_states r (repeat 0 hidden)) x,
        h_t (tensor_of (length x) hidden
               [map (fun s => fold_left (RNN_cell r) s (repeat 0 hidden)) x])).
Proof.
  intros Hr HT Hx. pose proof Hr as (Hin & Hhid & _). unfold nn_RNN_forward.
  rewrite Hin, Hhid.
  replace (forallb _ x) with true.
  2:{ symmetry. apply forallb_forall. intros s Hs. rewrite List.Forall_forall in Hx.
      destruct (Hx s Hs) as [_ Hw]. apply forallb_length_eq. exact Hw. }
  replace (forallb _ x) with true.
  2:{ symmetry. apply forallb_forall. intros s Hs. rewrite List.Forall_forall in Hx.
      destruct (Hx s Hs) as [Hl _]. apply Nat.ltb_lt.
      unfold matrix, vector in *. lia. }
  do 4 f_equal. rewrite map_map. f_equal. apply map_ext_in. intros s Hs.
  apply last_RNN_states. rewrite List.Forall_forall in Hx.
  destruct (Hx s Hs) as [Hl _]. intros ->. simpl in Hl. lia.
Qed.

(** X22.  [RNN.forward] classifies every sequence from its own final
    state.  For a model with parameters of the constructor's shapes and a
    non-empty batch of sequences of [T >= 1] token ids below [vocab_size],
    [forward] returns one row of [n_classes] logits per sequence: the
    output layer applied to the state that the recurrence
    [h = tanh(x W_ih^T + b_ih + h W_hh^T + b_hh)], started at 0, reaches
    after the last token of that sequence.  The [LastTimeStep] in the
    middle hands on exactly these states, so no sequence sees another. *)
Theorem RNN_forward_final_state (m : RNN) (vocab dim hidden n_classes T : nat)
    (idx : tokens) :
  RNN_shaped m vocab dim hidden n_classes ->
  idx <> [] -> in_vocab vocab T idx -> (1 <= T)%nat ->
  let final row :=
    fold_left (RNN_cell (RNN_rnn m))
              (map (fun t => nth t (Embedding_weight (RNN_embedding m)) []) row)
              (repeat 0 hidden) in
  RNN_forward m idx = Ok (map (fun row => Linear_row (RNN_fc m) (final row)) idx)
  /\ Forall (fun r => length r = n_classes)
            (map (fun row => Linear_row (RNN_fc m) (final row)) idx).
Proof.
  intros (He & Hr & Hlast & Hfc) Hne Hidx HT final.
  set (W := Embedding_weight (RNN_embedding m)).
  set (emb := map (fun row : list nat => map (fun t => nth t W []) row) idx).
  assert (Hemb : mapR (Embedding_forward (RNN_embedding m)) idx = Ok emb).
  { unfold emb. rewrite <- mapR_map. apply mapR_ext_in. intros row Hrow.
    unfold in_vocab in Hidx. rewrite List.Forall_forall in Hidx.
    apply (Embedding_forward_rows _ vocab dim row He). apply (Hidx row Hrow). }
  assert (Hshape : Forall (fun s : matrix => length s = T
                                              /\ Forall (fun v => length v = dim) s) emb).
  { unfold emb. apply List.Forall_forall. intros s Hs. apply in_map_iff in Hs.
    destruct Hs as (row & <- & Hrow).
    unfold in_vocab in Hidx. rewrite List.Forall_forall in Hidx.
    destruct (Hidx row Hrow) as [Hl Hv]. split; [rewrite length_map; exact Hl |].
    apply List.Forall_forall. intros v Hin. apply in_map_iff in Hin.
    destruct Hin as (t & <- & Ht). destruct He as (Hn & Hw).
    rewrite List.Forall_forall in Hw, Hv. apply Hw, nth_In.
    specialize (Hv t Ht). unfold W, matrix, vector in *. lia. }
  set (finals := map (fun s => fold_left (RNN_cell (RNN_rnn m)) s (repeat 0 hidden)) emb).
  assert (Hfl : length finals = length idx)
    by (unfold finals, emb; rewrite !length_map; reflexivity).
  assert (Hfw : Forall (fun r => length r = hidden) finals).
  { unfold finals. apply List.Forall_forall. intros v Hv. apply in_map_iff in Hv.
    destruct Hv as (s & <- & _).
    apply (fold_RNN_cell_length _ dim hidden s _ Hr). apply repeat_length. }
  assert (HB : (1 <= length idx)%nat) by (destruct idx; [contradiction | simpl; lia]).
  assert (Hlts : LastTimeStep_forward (RNN_last m)
                   (map (RNN_states (RNN_rnn m) (repeat 0 hidden)) emb,
                    h_t (tensor_of (length emb) hidden [finals]))
                 = Ok finals).
  { rewrite Hlast.
    rewrite (LastTimeStep_forward_states 1 1 (length emb) hidden [finals]);
      [| lia | lia | unfold emb; rewrite length_map; exact HB | reflexivity | | left; reflexivity].
    - cbn [Nat.sub Nat.mul skipn map concat]. f_equal.
      transitivity (map (fun j => nth j finals []) (seq 0 (length finals)));
        [| apply map_nth_seq].
      rewrite Hfl. unfold emb. rewrite length_map.
      apply map_ext. intros b. apply app_nil_r.
    - constructor; [| constructor]. split; [| exact Hfw].
      unfold finals. rewrite length_map. reflexivity. }
  split.
  - unfold RNN_forward. rewrite Hemb. cbn [bind_res].
    rewrite (nn_RNN_forward_ok _ dim hidden T emb Hr HT Hshape). cbn [bind_res].
    fold finals.
    match goal with
    | |- context [LastTimeStep_forward ?a ?b] =>
        replace (LastTimeStep_forward a b) with (@Ok matrix finals)
          by (symmetry; exact Hlts)
    end.
    cbn [bind_res].
    rewrite (Linear_forward_ok _ _ _ _ finals Hfc Hfw).
    unfold finals, emb. rewrite !map_map. reflexivity.
  - apply List.Forall_forall. intros r Hin. apply in_map_iff in Hin.
    destruct Hin as (row & <- & _). apply (Linear_row_length _ _ _ _ _ Hfc).
Qed.

Lemma tiny_RNN_shaped : RNN_shaped tiny_RNN 2 1 1 2.
Proof.
  split; [split; [reflexivity | repeat constructor] |].
  split; [repeat split; repeat constructor |].
  split; [reflexivity | apply zero_Linear_shaped].
Qed.

Lemma RNN_forward_final_state_witness :
  exists logits, RNN_forward tiny_RNN [[0; 1]; [1; 1]]%nat = Ok logits
                 /\ Forall (fun r => length r = 2%nat) logits.
Proof.
  destruct (RNN_forward_final_state tiny_RNN 2 1 1 2 2 [[0; 1]; [1; 1]]%nat)
    as (Hf & Hw).
  - exact tiny_RNN_shaped.
  - discriminate.
  - repeat constructor.
  - lia.
  - eexists. split; [exact Hf | exact Hw].
Defined.

(** ** The sampler and the models it is given *)




End models_spec.

(** * Properties of [src/training.py] *)

Module training_spec.

Import training.

Section Loop.

Context {Features Labels Output LossT Label Pred Preds Params num : Type}.
Variable item : LossT -> pyfloat num.
Variable is_tensor : Labels -> bool.
Variable labels_tolist : Labels -> list Label.
Variable output_tolist : Output -> list Pred.
Variable np_asarray_argmax : list Pred -> Preds.
Variable np_mean : list (pyfloat num) -> pyfloat num.
Variable elapsed : num -> num -> num.
Variable persist : Params -> Features -> res unit.

Local Abbreviation results_t := (gmap string (list (pyfloat num))).
Local Abbreviation Config :=
  (@TrainingConfig Features Labels Output LossT Label Preds Params num).
Local Abbreviation Env := (@env Params num).
Local Abbreviation batch_step_ :=
  (batch_step item is_tensor labels_tolist output_tolist).
Local Abbreviation run_epoch_ :=
  (run_epoch item is_tensor labels_tolist output_tolist np_asarray_argmax np_mean
             elapsed).
Local Abbreviation epoch_ :=
  (epoch item is_tensor labels_tolist output_tolist np_asarray_argmax np_mean elapsed).
Local Abbreviation epochs_loop_ :=
  (epochs_loop item is_tensor labels_tolist output_tolist np_asarray_argmax np_mean
               elapsed).
Local Abbreviation train_ :=
  (train item is_tensor labels_tolist output_tolist np_asarray_argmax np_mean elapsed
         persist).
Local Abbreviation pass_of_ :=
  (pass_of item is_tensor labels_tolist output_tolist np_asarray_argmax np_mean).
Local Abbreviation epoch_of_ :=
  (epoch_of item is_tensor labels_tolist output_tolist np_asarray_argmax np_mean
            elapsed).

(** ** Appends *)

Lemma fold_left_raise (f : string * scorer (Label := Label) (Preds := Preds) (num := num)
                           -> results_t -> res results_t)
    (l : list (string * scorer)) (e : exn) :
  fold_left (fun acc nf => let? r := acc in f nf r) l (Raise e) = Raise e.
Proof. induction l as [| a l IH]; simpl; [reflexivity | exact IH]. Qed.

Lemma record_scores_appends (prefix : string) (yt : list Label) (yp : Preds)
    (scores : list (string * scorer)) (results : results_t) :
  record_scores prefix yt yp scores results
  = appends (map (fun nf => (prefix +:+ "_" +:+ fst nf, score_entry (snd nf) yt yp))
                 scores) results.
Proof.
  unfold record_scores. revert results.
  induction scores as [| nf scores IH]; intros results; simpl; [reflexivity |].
  destruct (append results (prefix +:+ "_" +:+ fst nf) (score_entry (snd nf) yt yp))
    as [r |] eqn:Ha; simpl.
  - apply IH.
  - apply (fold_left_raise
             (fun nf r => append r (prefix +:+ "_" +:+ fst nf)
                                 (score_entry (snd nf) yt yp))).
Qed.

Lemma appends_app (l1 l2 : list (string * pyfloat num)) (r : results_t) :
  appends (l1 ++ l2) r = let? r1 := appends l1 r in appends l2 r1.
Proof.
  revert r. induction l1 as [| kv l1 IH]; intros r; simpl; [reflexivity |].
  destruct (append r (fst kv) (snd kv)); simpl; [apply IH | reflexivity].
Qed.

Lemma written_app (k : string) (l1 l2 : list (string * pyfloat num)) :
  written k (l1 ++ l2) = written k l1 ++ written k l2.
Proof. unfold written. rewrite List.filter_app, map_app. reflexivity. Qed.

Lemma appends_spec (kvs : list (string * pyfloat num)) (r : results_t) :
  (forall kv, In kv kvs -> is_Some (r !! fst kv)) ->
  exists r', appends kvs r = Ok r'
    /\ forall k, r' !! k = (fun l => l ++ written k kvs) <$> (r !! k).
Proof.
  revert r. induction kvs as [| [k0 v0] kvs IH]; intros r Hkeys.
  - exists r. split; [reflexivity |]. intros k. unfold written. simpl.
    destruct (r !! k) as [l |]; simpl; [rewrite app_nil_r |]; reflexivity.
  - destruct (Hkeys (k0, v0) (or_introl eq_refl)) as [l0 Hl0]. simpl in Hl0.
    destruct (IH (<[k0 := l0 ++ [v0]]> r)) as (r' & Hr' & Hcols).
    { intros kv Hkv. destruct (decide (k0 = fst kv)) as [<- | Hne].
      - rewrite lookup_insert_eq. eauto.
      - rewrite lookup_insert_ne by exact Hne. apply Hkeys. right. exact Hkv. }
    exists r'. split.
    + simpl. unfold append. rewrite Hl0. simpl. exact Hr'.
    + intros k. rewrite Hcols. unfold written. simpl.
      destruct (String.eqb_spec k0 k) as [-> | Hne].
      * rewrite lookup_insert_eq, Hl0. simpl. rewrite <- app_assoc. reflexivity.
      * rewrite lookup_insert_ne by exact Hne. reflexivity.
Qed.

(** ** The frame of results *)

Lemma init_results_from (keys : list string) (r : results_t) (k : string) :
  fold_left (fun r key => <[key := []]> r) keys r !! k
  = if decide (k ∈ keys) then Some [] else r !! k.
Proof.
  revert r. induction keys as [| k0 keys IH]; intros r; cbn [fold_left].
  - rewrite decide_False; [reflexivity | apply not_elem_of_nil].
  - rewrite IH. destruct (decide (k ∈ keys)) as [Hin | Hnin].
    + rewrite decide_True by (apply elem_of_cons; right; exact Hin). reflexivity.
    + destruct (decide (k0 = k)) as [-> | Hne].
      * rewrite lookup_insert_eq, decide_True by (apply elem_of_cons; left; reflexivity).
        reflexivity.
      * rewrite lookup_insert_ne by exact Hne.
        rewrite decide_False; [reflexivity |].
        intros H. apply elem_of_cons in H. destruct H as [-> | H]; contradiction.
Qed.

Lemma init_results_lookup (keys : list string) (k : string) :
  init_results (num := num) keys !! k = if decide (k ∈ keys) then Some [] else None.
Proof. unfold init_results. rewrite init_results_from, lookup_empty. reflexivity. Qed.

Lemma DataFrame_from_dict_ok (r : results_t) (n : nat) :
  (forall k l, r !! k = Some l -> length l = n) ->
  DataFrame_from_dict r = Ok r.
Proof.
  intros Hall. unfold DataFrame_from_dict.
  destruct (map_to_list r) as [| [k l] rest] eqn:Hlist; [reflexivity |].
  assert (Hin : forall kv, In kv ((k, l) :: rest) -> length (snd kv) = n).
  { intros [k' l'] Hkv. rewrite <- Hlist in Hkv.
    apply list_elem_of_In, elem_of_map_to_list in Hkv. apply (Hall k' l' Hkv). }
  replace (forallb _ rest) with true; [reflexivity |].
  symmetry. apply forallb_forall. intros kv Hkv. apply Nat.eqb_eq.
  rewrite (Hin kv (or_intror Hkv)), (Hin (k, l) (or_introl eq_refl)). reflexivity.
Qed.

Lemma DataFrame_from_dict_ragged (r : results_t) (k1 k2 : string)
    (l1 l2 : list (pyfloat num)) :
  r !! k1 = Some l1 -> r !! k2 = Some l2 -> length l1 <> length l2 ->
  DataFrame_from_dict r = Raise ValueError.
Proof.
  intros H1 H2 Hne. unfold DataFrame_from_dict.
  apply elem_of_map_to_list, list_elem_of_In in H1.
  apply elem_of_map_to_list, list_elem_of_In in H2.
  destruct (map_to_list r) as [| kv rest]; [contradiction |].
  destruct (forallb (fun kv' => length (snd kv') =? length (snd kv)) rest) eqn:Hf;
    [| reflexivity].
  exfalso. rewrite forallb_forall in Hf.
  assert (Hlen : forall k l, In (k, l) (kv :: rest) -> length l = length (snd kv)).
  { intros k l [Heq | Hin]; [subst kv; reflexivity |].
    apply Nat.eqb_eq. apply (Hf (k, l) Hin). }
  apply Hne. rewrite (Hlen k1 l1 H1), (Hlen k2 l2 H2). reflexivity.
Qed.

(** ** One pass and one epoch *)

Lemma batch_step_ok (config : Config) (a : locals) (xy : Features * Labels) (e : Env) :
  total config ->
  exists a' e', batch_step_ config a xy e = Ok (a', e')
                /\ x_last a' = Some (fst xy).
Proof.
  intros [Hm Hl]. unfold batch_step, get, bind, lift.
  destruct (Hm (params e) (model_training e) (fst xy)) as [o Ho]. rewrite Ho.
  destruct (Hl o (snd xy)) as [l Hloss]. rewrite Hloss.
  destruct (model_training e); simpl; eexists _, _; split; reflexivity.
Qed.

Lemma batch_loop_ok (config : Config) (loader : list (Features * Labels)) :
  total config ->
  forall (a : locals) (e : Env),
    exists a' e', foldM_st (batch_step_ config) loader a e = Ok (a', e')
      /\ (loader <> [] \/ is_Some (x_last a) -> is_Some (x_last a')).
Proof.
  intros Ht. induction loader as [| xy loader IH]; intros a e.
  - exists a, e. split; [reflexivity |]. intros [H | H]; [contradiction | exact H].
  - destruct (batch_step_ok config a xy e Ht) as (a1 & e1 & H1 & Hx).
    destruct (IH a1 e1) as (a' & e' & H' & Hx').
    exists a', e'. split.
    + cbn [foldM_st]. unfold bind at 1. rewrite H1. exact H'.
    + intros _. apply Hx'. right. rewrite Hx. eauto.
Qed.

Lemma pass_keys_training (config : Config) (d : pass_data) (kv : string * pyfloat num) :
  In kv (pass_writes config "training" d) -> In (fst kv) (to_track config).
Proof.
  unfold pass_writes, to_track. intros H. apply in_app_or in H.
  destruct H as [H | [<- | []]].
  - apply in_map_iff in H. destruct H as (nf & <- & Hnf).
    apply in_or_app. right. apply in_or_app. right.
    apply in_flat_map. exists nf. split; [exact Hnf | left; reflexivity].
  - apply in_or_app. left. right. left. reflexivity.
Qed.

Lemma pass_keys_validation (config : Config) (d : pass_data) (kv : string * pyfloat num)
    (vl : list (Features * Labels)) :
  validation_loader config = Some vl ->
  In kv (pass_writes config "validation" d) -> In (fst kv) (to_track config).
Proof.
  unfold pass_writes, to_track. intros Hv H. rewrite Hv. apply in_app_or in H.
  destruct H as [H | [<- | []]].
  - apply in_map_iff in H. destruct H as (nf & <- & Hnf).
    apply in_or_app. right. apply in_or_app. right.
    apply in_flat_map. exists nf. split; [exact Hnf | right; left; reflexivity].
  - apply in_or_app. right. apply in_or_app. left. left. reflexivity.
Qed.

Lemma framed_appends (config : Config) (kvs : list (string * pyfloat num))
    (r : results_t) :
  framed config r ->
  (forall kv, In kv kvs -> In (fst kv) (to_track config)) ->
  exists r', appends kvs r = Ok r'
    /\ framed config r'
    /\ forall k, r' !! k = (fun l => l ++ written k kvs) <$> (r !! k).
Proof.
  intros Hf Hk.
  destruct (appends_spec kvs r) as (r' & Hr' & Hcols).
  { intros kv Hkv. apply Hf, Hk, Hkv. }
  exists r'. split; [exact Hr' |]. split; [| exact Hcols].
  intros k Hin. rewrite Hcols. destruct (Hf k Hin) as [l Hl]. rewrite Hl. eauto.
Qed.

Lemma run_epoch_spec (config : Config) (r : results_t) (prefix : string)
    (loader : list (Features * Labels)) (e : Env) :
  total config ->
  select_loader config prefix = Ok loader ->
  loader <> [] ->
  (forall d kv, In kv (pass_writes config prefix d) -> is_Some (r !! fst kv)) ->
  exists d t x r' e',
    run_epoch_ config r prefix e = Ok ((r', (t, x)), e')
    /\ appends (pass_writes config prefix d) r = Ok r'.
Proof.
  intros Ht Hsel Hne Hkeys. unfold run_epoch.
  rewrite Hsel. unfold bind at 1, lift at 1.
  unfold bind at 1, time_time at 1.
  set (e0 := {| params := params e; model_training := model_training e;
                clk := {| reading := reading (clk e); ticks := S (ticks (clk e)) |} |}).
  destruct (batch_loop_ok config loader Ht
              {| running_loss := []; y_true := []; y_pred := []; x_last := None |} e0)
    as (a & e1 & Ha & Hx).
  unfold bind at 1. rewrite Ha.
  unfold bind at 1, time_time at 1.
  destruct (Hx (or_introl Hne)) as [x Hxl].
  set (d := {| pass_true := y_true a;
               pass_pred := np_asarray_argmax (y_pred a);
               pass_loss := np_mean (running_loss a) |}).
  destruct (appends_spec (pass_writes config prefix d) r (Hkeys d)) as (r' & Hr' & _).
  unfold pass_writes, pass_score in Hr'. rewrite appends_app in Hr'.
  rewrite <- record_scores_appends in Hr'. cbn [pass_true pass_pred pass_loss d] in Hr'.
  destruct (record_scores prefix (y_true a) (np_asarray_argmax (y_pred a))
              (score_funcs config) r) as [r1 |] eqn:H1; [| discriminate Hr'].
  cbn [bind_res appends fst snd] in Hr'.
  destruct (append r1 (prefix +:+ "_loss") (np_mean (running_loss a))) as [r2 |] eqn:H2;
    [| discriminate Hr'].
  cbn [bind_res] in Hr'. inversion Hr'; subst r2.
  exists d, (elapsed (reading (clk e1) (ticks (clk e1))) (reading (clk e) (ticks (clk e)))),
    x, r'.
  eexists. split.
  - unfold bind, lift. rewrite H2, Hxl. unfold ret. reflexivity.
  - unfold pass_writes, pass_score. rewrite appends_app, <- record_scores_appends.
    cbn [pass_true pass_pred pass_loss d]. rewrite H1. cbn [bind_res appends fst snd].
    rewrite H2. reflexivity.
Qed.

Lemma epoch_keys_tracked (config : Config) (d : epoch_data)
    (kv : string * pyfloat num) :
  consistent config d ->
  In kv (epoch_writes config d) -> In (fst kv) (to_track config).
Proof.
  intros Hc H. unfold epoch_writes in H.
  apply in_app_or in H. destruct H as [H | H].
  - apply (pass_keys_training config _ kv H).
  - apply in_app_or in H. destruct H as [H | [<- | []]].
    + destruct (validation_pass d) as [v |] eqn:Hv; [| contradiction].
      destruct (validation_loader config) as [vl |] eqn:Hvl.
      * apply (pass_keys_validation config v kv vl Hvl H).
      * destruct Hc as [_ Hc]. rewrite (Hc Hvl) in Hv. discriminate Hv.
    + left. reflexivity.
Qed.

Lemma epoch_spec (config : Config) (r : results_t) (ox : option Features) (e : Env) :
  total config ->
  training_loader config <> [] ->
  (forall vl, validation_loader config = Some vl -> vl <> []) ->
  framed config r ->
  exists d x r' e',
    epoch_ config (r, ox) e = Ok ((r', Some x), e')
    /\ appends (epoch_writes config d) r = Ok r'
    /\ framed config r'
    /\ consistent config d.
Proof.
  intros Ht Htl Hvl Hf. unfold epoch. cbn [fst].
  unfold bind at 1, set_mode at 1.
  set (e0 := {| params := params e; model_training := true; clk := clk e |}).
  destruct (run_epoch_spec config r "training" (training_loader config) e0 Ht eq_refl Htl)
    as (d1 & t & x & r1 & e1 & Hrun1 & Hap1).
  { intros d kv Hkv. apply Hf, (pass_keys_training config d kv Hkv). }
  unfold bind at 1. rewrite Hrun1. cbn [fst snd].
  destruct (framed_appends config (pass_writes config "training" d1) r Hf)
    as (r1' & Hap1' & Hf1 & _).
  { intros kv Hkv. apply (pass_keys_training config d1 kv Hkv). }
  rewrite Hap1 in Hap1'. inversion Hap1'; subst r1'. clear Hap1'.
  assert (Het : In "epoch_time" (to_track config)) by (left; reflexivity).
  destruct (validation_loader config) as [vl |] eqn:Hv.
  - set (e2 := {| params := params e1; model_training := false; clk := clk e1 |}).
    destruct (run_epoch_spec config r1 "validation" vl e2 Ht) as
      (d2 & t2 & x2 & r2 & e3 & Hrun2 & Hap2).
    { unfold select_loader. cbn [String.eqb Ascii.eqb]. rewrite Hv. reflexivity. }
    { apply (Hvl vl eq_refl). }
    { intros d kv Hkv. apply Hf1, (pass_keys_validation config d kv vl Hv Hkv). }
    destruct (framed_appends config (pass_writes config "validation" d2) r1 Hf1)
      as (r2' & Hap2' & Hf2 & _).
    { intros kv Hkv. apply (pass_keys_validation config d2 kv vl Hv Hkv). }
    rewrite Hap2 in Hap2'. inversion Hap2'; subst r2'. clear Hap2'.
    destruct (framed_appends config [("epoch_time", Float t)] r2 Hf2)
      as (r3 & Hap3 & Hf3 & _).
    { intros kv [<- | []]. exact Het. }
    exists {| training_pass := d1; validation_pass := Some d2; epoch_time := t |},
      x, r3, e3.
    split; [| split; [| split]].
    + unfold bind at 1. unfold bind at 1, set_mode at 1. fold e2.
      unfold bind at 1. rewrite Hrun2. unfold ret at 1. cbn [fst].
      cbn [appends fst snd] in Hap3.
      unfold bind, lift. destruct (append r2 "epoch_time" (Float t)) as [r3' |];
        [| discriminate Hap3].
      cbn [bind_res] in Hap3. inversion Hap3; subst. reflexivity.
    + unfold epoch_writes. cbn [training_pass validation_pass epoch_time].
      rewrite appends_app, Hap1. cbn [bind_res].
      rewrite appends_app, Hap2. cbn [bind_res]. exact Hap3.
    + exact Hf3.
    + unfold consistent. cbn [validation_pass]. rewrite Hv. split; discriminate.
  - destruct (framed_appends config [("epoch_time", Float t)] r1 Hf1)
      as (r3 & Hap3 & Hf3 & _).
    { intros kv [<- | []]. exact Het. }
    exists {| training_pass := d1; validation_pass := None; epoch_time := t |},
      x, r3, e1.
    split; [| split; [| split]].
    + unfold bind at 1. unfold ret at 1.
      cbn [appends fst snd] in Hap3.
      unfold bind, lift. destruct (append r1 "epoch_time" (Float t)) as [r3' |];
        [| discriminate Hap3].
      cbn [bind_res] in Hap3. inversion Hap3; subst. reflexivity.
    + unfold epoch_writes. cbn [training_pass validation_pass epoch_time].
      rewrite appends_app, Hap1. cbn [bind_res app]. exact Hap3.
    + exact Hf3.
    + unfold consistent. cbn [validation_pass]. rewrite Hv. split; reflexivity.
Qed.

Lemma loop_spec (config : Config) (l : list nat) :
  total config ->
  training_loader config <> [] ->
  (forall vl, validation_loader config = Some vl -> vl <> []) ->
  forall (st : results_t * option Features) (e : Env),
    framed config (fst st) ->
    exists ds st' e',
      foldM_st (fun st _ => epoch_ config st) l st e = Ok (st', e')
      /\ length ds = length l
      /\ appends (concat (map (epoch_writes config) ds)) (fst st) = Ok (fst st')
      /\ Forall (consistent config) ds.
Proof.
  intros Ht Htl Hvl. induction l as [| n l IH]; intros [r ox] e Hf.
  - exists [], (r, ox), e. repeat split. constructor.
  - destruct (epoch_spec config r ox e Ht Htl Hvl Hf) as (d & x & r1 & e1 & He & Ha & Hf1 & Hc).
    destruct (IH (r1, Some x) e1 Hf1) as (ds & st' & e' & Hl & Hlen & Has & Hcs).
    exists (d :: ds), st', e'. split; [| split; [| split]].
    + cbn [foldM_st]. unfold bind at 1. rewrite He. exact Hl.
    + simpl. rewrite Hlen. reflexivity.
    + cbn [map concat fst]. rewrite appends_app, Ha. exact Has.
    + constructor; assumption.
Qed.

Lemma init_results_framed (config : Config) :
  framed config (init_results (to_track config)).
Proof.
  intros k Hk. rewrite init_results_lookup.
  rewrite decide_True by (apply list_elem_of_In; exact Hk). eauto.
Qed.

(** The dictionary that leaves the loop over the epochs: every tracked key
    holds what the epochs appended under it, in order. *)
Lemma epochs_loop_spec (config : Config) (e : Env) :
  total config ->
  training_loader config <> [] ->
  (forall vl, validation_loader config = Some vl -> vl <> []) ->
  exists ds st e',
    epochs_loop_ config e = Ok (st, e')
    /\ length ds = epochs config
    /\ Forall (consistent config) ds
    /\ forall k,
         fst st !! k = if decide (k ∈ to_track config)
                       then Some (written k (concat (map (epoch_writes config) ds)))
                       else None.
Proof.
  intros Ht Htl Hvl. unfold epochs_loop.
  destruct (loop_spec config (seq 0 (epochs config)) Ht Htl Hvl
              (init_results (to_track config), None) e (init_results_framed config))
    as (ds & st & e' & Hl & Hlen & Ha & Hc).
  exists ds, st, e'. split; [exact Hl |]. split; [rewrite Hlen; apply length_seq |].
  split; [exact Hc |].
  destruct (framed_appends config (concat (map (epoch_writes config) ds))
              (init_results (to_track config)) (init_results_framed config))
    as (r' & Ha' & _ & Hcols).
  { intros kv Hkv. apply in_concat in Hkv. destruct Hkv as (kvs & Hkvs & Hin).
    apply in_map_iff in Hkvs. destruct Hkvs as (d & <- & Hd).
    rewrite List.Forall_forall in Hc. apply (epoch_keys_tracked config d kv (Hc d Hd) Hin). }
  cbn [fst] in Ha. rewrite Ha in Ha'. injection Ha' as Heq. subst r'.
  intros k. rewrite Hcols, init_results_lookup.
  destruct (decide (k ∈ to_track config)); reflexivity.
Qed.

(** ** What is written under each key *)

Lemma eqb_prefix (pre a b : string) :
  String.eqb (pre +:+ a) (pre +:+ b) = String.eqb a b.
Proof.
  induction pre as [| c pre IH]; simpl; [reflexivity |].
  rewrite Ascii.eqb_refl. exact IH.
Qed.

Lemma written_map (k : string) (K : string * scorer -> string)
    (E : string * scorer -> pyfloat num)
    (scores : list (string * scorer (Label := Label) (Preds := Preds) (num := num))) :
  written k (map (fun nf => (K nf, E nf)) scores)
  = map E (List.filter (fun nf => String.eqb (K nf) k) scores).
Proof.
  unfold written. induction scores as [| nf scores IH]; cbn [map List.filter fst];
    [reflexivity |].
  destruct (String.eqb (K nf) k); cbn [map snd]; rewrite IH; reflexivity.
Qed.

Lemma filter_false {A : Type} (l : list A) : List.filter (fun _ => false) l = [].
Proof. induction l as [| a l IH]; simpl; [reflexivity | exact IH]. Qed.

Lemma filter_absent (n : string)
    (scores : list (string * scorer (Label := Label) (Preds := Preds) (num := num))) :
  ~ In n (map fst scores) ->
  List.filter (fun nf => String.eqb (fst nf) n) scores = [].
Proof.
  induction scores as [| nf scores IH]; simpl; intros Hn; [reflexivity |].
  destruct (String.eqb_spec (fst nf) n) as [Heq | Hne].
  - exfalso. apply Hn. left. exact Heq.
  - apply IH. intros H. apply Hn. right. exact H.
Qed.

Lemma filter_unique (n : string) (f : scorer)
    (scores : list (string * scorer (Label := Label) (Preds := Preds) (num := num))) :
  List.NoDup (map fst scores) -> In (n, f) scores ->
  List.filter (fun nf => String.eqb (fst nf) n) scores = [(n, f)].
Proof.
  induction scores as [| nf scores IH]; simpl; intros Hnd Hin; [contradiction |].
  inversion Hnd as [| ? ? Hnotin Hnd']; subst.
  destruct Hin as [-> | Hin].
  - simpl. rewrite String.eqb_refl. f_equal. apply filter_absent. exact Hnotin.
  - destruct (String.eqb_spec (fst nf) n) as [Heq | Hne].
    + exfalso. apply Hnotin. rewrite Heq.
      apply (in_map fst scores (n, f) Hin).
    + apply IH; assumption.
Qed.

Lemma written_epoch (config : Config) (d : epoch_data) (k : string) :
  written k (epoch_writes config d)
  = written k (pass_writes config "training" (training_pass d))
    ++ match validation_pass d with
       | Some v => written k (pass_writes config "validation" v)
       | None => []
       end
    ++ (if String.eqb "epoch_time" k then [Float (epoch_time d)] else []).
Proof.
  unfold epoch_writes. rewrite !written_app. f_equal. f_equal.
  - destruct (validation_pass d); reflexivity.
  - unfold written. cbn [List.filter fst]. destruct (String.eqb "epoch_time" k); reflexivity.
Qed.

Lemma written_pass (config : Config) (prefix n : string) (pd : pass_data) :
  written (prefix +:+ "_" +:+ n) (pass_writes config prefix pd)
  = map (fun nf => pass_score (snd nf) pd)
        (List.filter (fun nf => String.eqb (fst nf) n) (score_funcs config))
    ++ (if String.eqb "loss" n then [pass_loss pd] else []).
Proof.
  unfold pass_writes. rewrite written_app. f_equal.
  - rewrite (written_map _ (fun nf => prefix +:+ "_" +:+ fst nf)
               (fun nf => pass_score (snd nf) pd)).
    f_equal. apply List.filter_ext. intros nf. rewrite !eqb_prefix. reflexivity.
  - unfold written. cbn [List.filter fst].
    change (prefix +:+ "_loss") with (prefix +:+ "_" +:+ "loss").
    rewrite !eqb_prefix. destruct (String.eqb "loss" n); reflexivity.
Qed.

Lemma written_pass_other (config : Config) (prefix k : string) (pd : pass_data) :
  (forall n, String.eqb (prefix +:+ "_" +:+ n) k = false) ->
  written k (pass_writes config prefix pd) = [].
Proof.
  intros Hk. unfold pass_writes. rewrite written_app.
  rewrite (written_map _ (fun nf => prefix +:+ "_" +:+ fst nf)
             (fun nf => pass_score (snd nf) pd)).
  rewrite (List.filter_ext _ (fun _ => false)) by (intros nf; apply Hk).
  rewrite filter_false.
  unfold written. cbn [List.filter fst app map].
  change (prefix +:+ "_loss") with (prefix +:+ "_" +:+ "loss").
  rewrite Hk. reflexivity.
Qed.

Lemma written_concat {D : Type} (k : string) (f : D -> list (string * pyfloat num))
    (ds : list D) :
  written k (concat (map f ds)) = concat (map (fun d => written k (f d)) ds).
Proof.
  induction ds as [| d ds IH]; simpl; [reflexivity |].
  rewrite written_app, IH. reflexivity.
Qed.

Lemma concat_singletons {D V : Type} (w : D -> list V) (g : D -> V) (ds : list D) :
  Forall (fun d => w d = [g d]) ds -> concat (map w ds) = map g ds.
Proof.
  induction 1 as [| d ds Hd _ IH]; simpl; [reflexivity |].
  rewrite Hd, IH. reflexivity.
Qed.

Lemma concat_empties {D V : Type} (w : D -> list V) (ds : list D) :
  Forall (fun d => w d = []) ds -> concat (map w ds) = [].
Proof.
  induction 1 as [| d ds Hd _ IH]; simpl; [reflexivity |].
  rewrite Hd, IH. reflexivity.
Qed.

Lemma written_training_score (config : Config) (d : epoch_data) (name : string)
    (f : scorer) :
  List.NoDup (map fst (score_funcs config)) ->
  In (name, f) (score_funcs config) ->
  name <> "loss" ->
  written ("training_" +:+ name) (epoch_writes config d)
  = [pass_score f (training_pass d)].
Proof.
  intros Hnd Hin Hne. rewrite written_epoch.
  change ("training_" +:+ name) with ("training" +:+ "_" +:+ name).
  rewrite written_pass, (filter_unique name f _ Hnd Hin).
  replace (String.eqb "loss" name) with false
    by (symmetry; apply String.eqb_neq; congruence).
  destruct (validation_pass d) as [v |].
  - rewrite (written_pass_other config "validation" _ v) by (intros n; reflexivity).
    reflexivity.
  - reflexivity.
Qed.

Lemma written_validation_score (config : Config) (d : epoch_data) (v : pass_data)
    (name : string) (f : scorer) :
  List.NoDup (map fst (score_funcs config)) ->
  In (name, f) (score_funcs config) ->
  name <> "loss" ->
  validation_pass d = Some v ->
  written ("validation_" +:+ name) (epoch_writes config d) = [pass_score f v].
Proof.
  intros Hnd Hin Hne Hv. rewrite written_epoch, Hv.
  rewrite (written_pass_other config "training") by (intros n; reflexivity).
  change ("validation_" +:+ name) with ("validation" +:+ "_" +:+ name).
  rewrite written_pass, (filter_unique name f _ Hnd Hin).
  replace (String.eqb "loss" name) with false
    by (symmetry; apply String.eqb_neq; congruence).
  reflexivity.
Qed.

Lemma written_training_loss (config : Config) (d : epoch_data) :
  ~ In "loss" (map fst (score_funcs config)) ->
  written "training_loss" (epoch_writes config d) = [pass_loss (training_pass d)].
Proof.
  intros Hn. rewrite written_epoch.
  change "training_loss" with ("training" +:+ "_" +:+ "loss").
  rewrite written_pass, (filter_absent "loss" _ Hn).
  destruct (validation_pass d) as [v |].
  - rewrite (written_pass_other config "validation" _ v) by (intros n; reflexivity).
    reflexivity.
  - reflexivity.
Qed.

Lemma written_validation_loss (config : Config) (d : epoch_data) (v : pass_data) :
  ~ In "loss" (map fst (score_funcs config)) ->
  validation_pass d = Some v ->
  written "validation_loss" (epoch_writes config d) = [pass_loss v].
Proof.
  intros Hn Hv. rewrite written_epoch, Hv.
  rewrite (written_pass_other config "training") by (intros n; reflexivity).
  change "validation_loss" with ("validation" +:+ "_" +:+ "loss").
  rewrite written_pass, (filter_absent "loss" _ Hn). reflexivity.
Qed.

Lemma written_epoch_time (config : Config) (d : epoch_data) :
  written "epoch_time" (epoch_writes config d) = [Float (epoch_time d)].
Proof.
  rewrite written_epoch.
  rewrite (written_pass_other config "training") by (intros n; reflexivity).
  destruct (validation_pass d) as [v |].
  - rewrite (written_pass_other config "validation" _ v) by (intros n; reflexivity).
    reflexivity.
  - reflexivity.
Qed.

Lemma written_validation_absent (config : Config) (d : epoch_data) (name : string) :
  validation_pass d = None ->
  written ("validation_" +:+ name) (epoch_writes config d) = [].
Proof.
  intros Hv. rewrite written_epoch, Hv.
  rewrite (written_pass_other config "training") by (intros n; reflexivity).
  reflexivity.
Qed.

Lemma to_track_cases (config : Config) (k : string) :
  In k (to_track config) ->
  k = "epoch_time" \/ k = "training_loss"
  \/ (k = "validation_loss" /\ validation_loader config <> None)
  \/ exists name f, In (name, f) (score_funcs config)
                    /\ (k = "training_" +:+ name \/ k = "validation_" +:+ name).
Proof.
  unfold to_track. intros H. apply in_app_or in H.
  destruct H as [[<- | [<- | []]] | H]; [tauto | tauto |].
  apply in_app_or in H. destruct H as [H | H].
  - destruct (validation_loader config); [| contradiction].
    destruct H as [<- | []]. right. right. left. split; [reflexivity | discriminate].
  - apply in_flat_map in H. destruct H as ([name f] & Hnf & Hk).
    right. right. right. exists name, f. split; [exact Hnf |].
    destruct Hk as [<- | [<- | []]]; [left | right]; reflexivity.
Qed.

Lemma to_track_scores (config : Config) (name : string) (f : scorer) :
  In (name, f) (score_funcs config) ->
  In ("training_" +:+ name) (to_track config)
  /\ In ("validation_" +:+ name) (to_track config).
Proof.
  intros Hin. unfold to_track.
  split; apply in_or_app; right; apply in_or_app; right; apply in_flat_map;
    exists (name, f); (split; [exact Hin |]).
  - left. reflexivity.
  - right. left. reflexivity.
Qed.

Lemma written_once (config : Config) (d : epoch_data) (v : pass_data) (k : string) :
  List.NoDup (map fst (score_funcs config)) ->
  ~ In "loss" (map fst (score_funcs config)) ->
  validation_pass d = Some v ->
  In k (to_track config) ->
  length (written k (epoch_writes config d)) = 1.
Proof.
  intros Hnd Hn Hv Hk.
  destruct (to_track_cases config k Hk)
    as [-> | [-> | [[-> _] | (name & f & Hin & [-> | ->])]]].
  - rewrite written_epoch_time. reflexivity.
  - rewrite written_training_loss by exact Hn. reflexivity.
  - rewrite (written_validation_loss config d v Hn Hv). reflexivity.
  - rewrite (written_training_score config d name f Hnd Hin); [reflexivity |].
    intros ->. apply Hn. apply (in_map fst _ _ Hin).
  - rewrite (written_validation_score config d v name f Hnd Hin); [reflexivity | | exact Hv].
    intros ->. apply Hn. apply (in_map fst _ _ Hin).
Qed.

Lemma length_concat_ones {D V : Type} (w : D -> list V) (ds : list D) :
  Forall (fun d => length (w d) = 1) ds -> length (concat (map w ds)) = length ds.
Proof.
  induction 1 as [| d ds Hd _ IH]; simpl; [reflexivity |].
  rewrite length_app, Hd, IH. reflexivity.
Qed.


(** C8, on the code.  Without a validation loader the code does not give
    the table the specification describes: for every scoring function the
    dictionary still gets a ["validation_..."] key, which stays empty while
    ["epoch_time"] gets one entry per epoch, and [pd.DataFrame.from_dict]
    refuses the columns of unequal length: [train] raises [ValueError]. *)
Theorem train_without_validation_raises (config : Config) (e : Env) (name : string)
    (f : scorer) :
  total config ->
  training_loader config <> [] ->
  validation_loader config = None ->
  save_model config = false ->
  1 <= epochs config ->
  In (name, f) (score_funcs config) ->
  (exists st e' times,
      epochs_loop_ config e = Ok (st, e')
      /\ fst st !! ("validation_" +:+ name) = Some []
      /\ fst st !! "epoch_time" = Some times
      /\ length times = epochs config)
  /\ train_ config e = Raise ValueError.
Proof.
  intros Ht Htl Hv Hsave Hep Hin.
  destruct (epochs_loop_spec config e Ht Htl) as (ds & st & e' & Hloop & Hlen & Hc & Hcols).
  { intros vl Hvl. rewrite Hv in Hvl. discriminate Hvl. }
  assert (Hnone : Forall (fun d => validation_pass d = None) ds).
  { apply List.Forall_forall. intros d Hd. rewrite List.Forall_forall in Hc.
    apply (Hc d Hd). exact Hv. }
  assert (Hval : fst st !! ("validation_" +:+ name) = Some []).
  { rewrite Hcols, decide_True
      by (apply list_elem_of_In, (to_track_scores config name f Hin)).
    rewrite written_concat, concat_empties; [reflexivity |].
    apply List.Forall_forall. intros d Hd. rewrite List.Forall_forall in Hnone.
    apply written_validation_absent, Hnone, Hd. }
  assert (Htime : fst st !! "epoch_time"
                  = Some (map (fun d => Float (epoch_time d)) ds)).
  { rewrite Hcols, decide_True by (apply list_elem_of_In; left; reflexivity).
    rewrite written_concat, (concat_singletons _ (fun d => Float (epoch_time d)));
      [reflexivity |].
    apply List.Forall_forall. intros d _. apply written_epoch_time. }
  split.
  - exists st, e', (map (fun d => Float (epoch_time d)) ds).
    split; [exact Hloop |]. split; [exact Hval |]. split; [exact Htime |].
    rewrite length_map. exact Hlen.
  - unfold train. rewrite (models_spec.bind_ok _ _ _ _ _ Hloop), Hsave.
    unfold bind, ret, lift.
    rewrite (DataFrame_from_dict_ragged (fst st) _ _ _ _ Hval Htime); [reflexivity |].
    rewrite length_map, Hlen. simpl. lia.
Qed.

(** * Further properties of [src/training.py] *)

(** ** A pass over an empty loader *)

Lemma run_epoch_empty (config : Config) (r : results_t) (prefix : string) (e : Env) :
  select_loader config prefix = Ok [] ->
  (forall d kv, In kv (pass_writes config prefix d) -> is_Some (r !! fst kv)) ->
  run_epoch_ config r prefix e = Raise UnboundLocalError.
Proof.
  intros Hsel Hkeys. unfold run_epoch.
  rewrite Hsel. unfold bind at 1, lift at 1.
  unfold bind at 1, time_time at 1. cbn [foldM_st].
  unfold bind at 1, ret at 1. unfold bind at 1, time_time at 1.
  set (d := {| pass_true := @nil Label;
               pass_pred := np_asarray_argmax [];
               pass_loss := np_mean [] |}).
  destruct (appends_spec (pass_writes config prefix d) r (Hkeys d)) as (r' & Hr' & _).
  unfold pass_writes, pass_score in Hr'. rewrite appends_app in Hr'.
  rewrite <- record_scores_appends in Hr'. cbn [pass_true pass_pred pass_loss d] in Hr'.
  cbn [running_loss y_true y_pred x_last].
  destruct (record_scores prefix [] (np_asarray_argmax []) (score_funcs config) r)
    as [r1 |] eqn:H1; [| discriminate Hr'].
  cbn [bind_res appends fst snd] in Hr'.
  destruct (append r1 (prefix +:+ "_loss") (np_mean [])) as [r2 |] eqn:H2;
    [| discriminate Hr'].
  unfold bind, lift. rewrite H2. reflexivity.
Qed.

Lemma epochs_loop_first (config : Config) (e : Env) (ex : exn) :
  1 <= epochs config ->
  epoch_ config (init_results (to_track config), None) e = Raise ex ->
  epochs_loop_ config e = Raise ex.
Proof.
  intros Hep He. unfold epochs_loop.
  destruct (epochs config) as [| n]; [lia |].
  cbn [seq foldM_st]. apply models_spec.bind_raise. exact He.
Qed.

(** X23.  [train] on an empty loader raises UnboundLocalError.
    [run_epoch] returns the batch variable [x] of its loop, which an empty
    loader never binds.  So, with one epoch or more: when the training
    loader is empty, or when it is not (and the model and the loss return)
    but the validation loader is empty, [train] raises UnboundLocalError,
    whatever the scoring functions are. *)
Theorem train_empty_loader_raises (config : Config) (e : Env) :
  1 <= epochs config ->
  training_loader config = []
  \/ (total config /\ training_loader config <> []
      /\ validation_loader config = Some []) ->
  train_ config e = Raise UnboundLocalError.
Proof.
  intros Hep Hcase. unfold train. apply models_spec.bind_raise.
  apply (epochs_loop_first config e UnboundLocalError Hep).
  unfold epoch. cbn [fst].
  unfold bind at 1, set_mode at 1.
  set (e0 := {| params := params e; model_training := true; clk := clk e |}).
  pose proof (init_results_framed config) as Hf.
  destruct Hcase as [Hempty | (Ht & Htl & Hv)].
  - apply models_spec.bind_raise. apply run_epoch_empty.
    + unfold select_loader. cbn [String.eqb Ascii.eqb]. rewrite Hempty. reflexivity.
    + intros d kv Hkv. apply Hf, (pass_keys_training config d kv Hkv).
  - destruct (run_epoch_spec config (init_results (to_track config)) "training"
                (training_loader config) e0 Ht eq_refl Htl)
      as (d1 & t & x & r1 & e1 & Hrun1 & Hap1).
    { intros d kv Hkv. apply Hf, (pass_keys_training config d kv Hkv). }
    rewrite (models_spec.bind_ok _ _ _ _ _ Hrun1). cbn [fst snd].
    destruct (framed_appends config (pass_writes config "training" d1)
                (init_results (to_track config)) Hf)
      as (r1' & Hap1' & Hf1 & _).
    { intros kv Hkv. apply (pass_keys_training config d1 kv Hkv). }
    rewrite Hap1 in Hap1'. inversion Hap1'; subst r1'. clear Hap1'.
    rewrite Hv. apply models_spec.bind_raise.
    unfold bind at 1, set_mode at 1. apply models_spec.bind_raise.
    apply run_epoch_empty.
    + unfold select_loader. cbn [String.eqb Ascii.eqb]. rewrite Hv. reflexivity.
    + intros d kv Hkv. apply Hf1, (pass_keys_validation config d kv [] Hv Hkv).
Qed.

(** X24.  [train] with [epochs = 0].  The loop body never runs:
    without saving, [train] returns, for every configuration (with or
    without a validation loader, whatever the loaders hold), the table in
    which every tracked key has an empty column, leaves the parameters and
    the mode of the model as they were and never calls [time.time]. *)
Theorem train_zero_epochs (config : Config) (e : Env) :
  epochs config = 0 ->
  save_model config = false ->
  train_ config e = Ok (init_results (to_track config), e)
  /\ forall k, init_results (num := num) (to_track config) !! k
               = if decide (k ∈ to_track config) then Some [] else None.
Proof.
  intros Hep Hsave. split; [| intros k; apply init_results_lookup].
  unfold train, epochs_loop. rewrite Hep, Hsave. cbn [seq foldM_st].
  unfold bind, ret, lift. cbn [fst snd].
  rewrite (DataFrame_from_dict_ok _ 0); [reflexivity |].
  intros k l Hk. rewrite init_results_lookup in Hk.
  destruct (decide (k ∈ to_track config)); [| discriminate Hk].
  injection Hk as <-. reflexivity.
Qed.

(** ** A scoring function under the name ["loss"] *)

Lemma written_training_loss_twice (config : Config) (d : epoch_data) (f : scorer) :
  In ("loss", f) (score_funcs config) ->
  2 <= length (written "training_loss" (epoch_writes config d)).
Proof.
  intros Hin. rewrite written_epoch, !length_app.
  change "training_loss" with ("training" +:+ "_" +:+ "loss").
  rewrite written_pass, length_app, length_map.
  change (String.eqb "loss" "loss") with true. cbn [length].
  assert (1 <= length (List.filter (fun nf => String.eqb (fst nf) "loss")
                                   (score_funcs config))).
  { assert (Hf : In ("loss", f)
                    (List.filter (fun nf : string * scorer => String.eqb (fst nf) "loss")
                                 (score_funcs config)))
      by (apply List.filter_In; split; [exact Hin | reflexivity]).
    destruct (List.filter _ (score_funcs config)); [contradiction | simpl; lia]. }
  lia.
Qed.

Lemma length_concat_ge {D V : Type} (w : D -> list V) (ds : list D) (n : nat) :
  Forall (fun d => n <= length (w d)) ds -> n * length ds <= length (concat (map w ds)).
Proof.
  induction 1 as [| d ds Hd _ IH]; simpl; [lia |].
  rewrite length_app. lia.
Qed.

(** X25.  A scoring function named ["loss"] breaks the table.  Its
    training key is ["training_loss"], the key of the mean loss, so every
    epoch appends two values to that column and one to ["epoch_time"]: with
    non-empty loaders, a model and a loss that return and one epoch or
    more, the loop runs to its end with a ["training_loss"] column of at
    least [2 * epochs] entries, and [pd.DataFrame.from_dict] refuses the
    columns: [train] raises ValueError. *)
Theorem train_scorer_named_loss_raises (config : Config) (e : Env) (f : scorer) :
  total config ->
  training_loader config <> [] ->
  (forall vl, validation_loader config = Some vl -> vl <> []) ->
  save_model config = false ->
  1 <= epochs config ->
  In ("loss", f) (score_funcs config) ->
  (exists st e' losses times,
      epochs_loop_ config e = Ok (st, e')
      /\ fst st !! "training_loss" = Some losses
      /\ 2 * epochs config <= length losses
      /\ fst st !! "epoch_time" = Some times
      /\ length times = epochs config)
  /\ train_ config e = Raise ValueError.
Proof.
  intros Ht Htl Hvl Hsave Hep Hin.
  destruct (epochs_loop_spec config e Ht Htl Hvl)
    as (ds & st & e' & Hloop & Hlen & Hc & Hcols).
  assert (Hloss : fst st !! "training_loss"
                  = Some (written "training_loss"
                                  (concat (map (epoch_writes config) ds)))).
  { rewrite Hcols, decide_True; [reflexivity |].
    apply list_elem_of_In. right. left. reflexivity. }
  assert (Htime : fst st !! "epoch_time"
                  = Some (map (fun d => Float (epoch_time d)) ds)).
  { rewrite Hcols, decide_True by (apply list_elem_of_In; left; reflexivity).
    rewrite written_concat, (concat_singletons _ (fun d => Float (epoch_time d)));
      [reflexivity |].
    apply List.Forall_forall. intros d _. apply written_epoch_time. }
  assert (Hmany : 2 * epochs config
                  <= length (written "training_loss"
                                     (concat (map (epoch_writes config) ds)))).
  { rewrite written_concat, <- Hlen. apply length_concat_ge.
    apply List.Forall_forall. intros d _.
    apply (written_training_loss_twice config d f Hin). }
  split.
  - eexists st, e', _, _. split; [exact Hloop |]. split; [exact Hloss |].
    split; [exact Hmany |]. split; [exact Htime |]. rewrite length_map. exact Hlen.
  - unfold train. rewrite (models_spec.bind_ok _ _ _ _ _ Hloop), Hsave.
    unfold bind, ret, lift.
    rewrite (DataFrame_from_dict_ragged (fst st) _ _ _ _ Hloss Htime); [reflexivity |].
    rewrite length_map, Hlen. lia.
Qed.

(** ** What a pass does to the environment *)

Lemma bind_inv {S A B : Type} (m : ST S A) (k : A -> ST S B) (s s' : S) (b : B) :
  bind m k s = Ok (b, s') ->
  exists a s1, m s = Ok (a, s1) /\ k a s1 = Ok (b, s').
Proof.
  unfold bind. destruct (m s) as [[a s1] |]; [| discriminate].
  intros H. exists a, s1. split; [reflexivity | exact H].
Qed.

Lemma lift_inv {S A : Type} (r : res A) (s s' : S) (a : A) :
  lift r s = Ok (a, s') -> r = Ok a /\ s' = s.
Proof.
  unfold lift. destruct r as [a0 |]; [| discriminate].
  intros H. injection H as -> ->. split; reflexivity.
Qed.

Lemma appends_inv (kvs : list (string * pyfloat num)) (r r' : results_t) :
  appends kvs r = Ok r' ->
  forall k, r' !! k = (fun l => l ++ written k kvs) <$> (r !! k).
Proof.
  revert r. induction kvs as [| [k0 v0] kvs IH]; intros r Hr k.
  - injection Hr as <-. unfold written. simpl.
    destruct (r !! k) as [l |]; simpl; [rewrite app_nil_r |]; reflexivity.
  - cbn [appends fst snd] in Hr. unfold append in Hr.
    destruct (r !! k0) as [l0 |] eqn:Hl0; [| discriminate Hr].
    cbn [bind_res] in Hr. rewrite (IH _ Hr k). unfold written. simpl.
    destruct (String.eqb_spec k0 k) as [-> | Hne].
    + rewrite lookup_insert_eq, Hl0. simpl. rewrite <- app_assoc. reflexivity.
    + rewrite lookup_insert_ne by exact Hne. reflexivity.
Qed.

Lemma batch_step_env (config : Config) (a a' : locals) (xy : Features * Labels)
    (e e' : Env) :
  batch_step_ config a xy e = Ok (a', e') ->
  clk e' = clk e /\ model_training e' = model_training e
  /\ (model_training e = false -> params e' = params e).
Proof.
  unfold batch_step, get, bind, lift.
  destruct (model config (params e) (model_training e) (fst xy)) as [o |];
    [| discriminate].
  destruct (loss_func config o (snd xy)) as [l |]; [| discriminate].
  destruct (model_training e) eqn:Hm; simpl; intros H; injection H as _ <-; simpl.
  - repeat split; [exact Hm | discriminate].
  - destruct e; simpl in *. subst. repeat split.
Qed.

Lemma batch_loop_env (config : Config) (loader : list (Features * Labels)) :
  forall (a a' : locals) (e e' : Env),
    foldM_st (batch_step_ config) loader a e = Ok (a', e') ->
    clk e' = clk e /\ model_training e' = model_training e
    /\ (model_training e = false -> params e' = params e).
Proof.
  induction loader as [| xy loader IH]; intros a a' e e' H.
  - injection H as _ <-. repeat split.
  - cbn [foldM_st] in H. apply bind_inv in H. destruct H as (a1 & e1 & H1 & H2).
    destruct (batch_step_env config a a1 xy e e1 H1) as (Hc1 & Hm1 & Hp1).
    destruct (IH a1 a' e1 e' H2) as (Hc2 & Hm2 & Hp2).
    split; [congruence |]. split; [congruence |].
    intros Hm. rewrite Hp2 by congruence. apply Hp1, Hm.
Qed.

Lemma run_epoch_inv (config : Config) (r : results_t) (prefix : string) (e e' : Env)
    (out : results_t * (num * Features)) :
  run_epoch_ config r prefix e = Ok (out, e') ->
  (exists loader d, select_loader config prefix = Ok loader
                    /\ appends (pass_writes config prefix d) r = Ok (fst out))
  /\ model_training e' = model_training e
  /\ reading (clk e') = reading (clk e)
  /\ ticks (clk e') = S (S (ticks (clk e)))
  /\ (model_training e = false -> params e' = params e)
  /\ fst (snd out) = elapsed (reading (clk e) (S (ticks (clk e))))
                             (reading (clk e) (ticks (clk e))).
Proof.
  unfold run_epoch. intros H.
  apply bind_inv in H. destruct H as (loader & e0 & Hsel & H).
  apply lift_inv in Hsel. destruct Hsel as [Hsel ->].
  apply bind_inv in H. destruct H as (start & e1 & Hstart & H).
  unfold time_time in Hstart. injection Hstart as <- <-.
  apply bind_inv in H. destruct H as (a & e2 & Hloop & H).
  apply batch_loop_env in Hloop. cbn [clk model_training params] in Hloop.
  destruct Hloop as (Hc & Hm & Hp).
  apply bind_inv in H. destruct H as (stop & e3 & Hstop & H).
  unfold time_time in Hstop. injection Hstop as <- <-.
  apply bind_inv in H. destruct H as (r1 & e4 & H1 & H).
  apply lift_inv in H1. destruct H1 as [H1 ->].
  apply bind_inv in H. destruct H as (r2 & e5 & H2 & H).
  apply lift_inv in H2. destruct H2 as [H2 ->].
  destruct (x_last a) as [x |]; [| discriminate H].
  unfold ret in H. injection H as <- <-.
  cbn [fst snd clk model_training params reading ticks].
  rewrite Hc. cbn [reading ticks].
  split; [| repeat split; try assumption; reflexivity].
  exists loader, {| pass_true := y_true a;
                    pass_pred := np_asarray_argmax (y_pred a);
                    pass_loss := np_mean (running_loss a) |}.
  split; [exact Hsel |].
  unfold pass_writes, pass_score. rewrite appends_app, <- record_scores_appends.
  cbn [pass_true pass_pred pass_loss]. rewrite H1. cbn [bind_res appends fst snd].
  rewrite H2. reflexivity.
Qed.

Lemma select_loader_prefix (config : Config) (prefix : string)
    (loader : list (Features * Labels)) :
  select_loader config prefix = Ok loader ->
  prefix = "training" \/ prefix = "validation".
Proof.
  unfold select_loader.
  destruct (String.eqb_spec prefix "training") as [-> | _]; [left; reflexivity |].
  destruct (String.eqb_spec prefix "validation") as [-> | _]; [right; reflexivity |].
  discriminate.
Qed.

Lemma run_epoch_epoch_time (config : Config) (r : results_t) (prefix : string)
    (e e' : Env) (out : results_t * (num * Features)) :
  run_epoch_ config r prefix e = Ok (out, e') ->
  fst out !! "epoch_time" = r !! "epoch_time".
Proof.
  intros H. destruct (run_epoch_inv config r prefix e e' out H)
    as ((loader & d & Hsel & Hap) & _).
  rewrite (appends_inv _ _ _ Hap "epoch_time").
  destruct (select_loader_prefix config prefix loader Hsel) as [-> | ->];
    rewrite written_pass_other by (intros n; reflexivity);
    destruct (r !! "epoch_time") as [l |]; simpl; [rewrite app_nil_r | | rewrite app_nil_r |];
    reflexivity.
Qed.

Lemma epoch_inv (config : Config) (st st' : results_t * option Features) (e e' : Env) :
  epoch_ config st e = Ok (st', e') ->
  model_training e' = mode_after config
  /\ reading (clk e') = reading (clk e)
  /\ ticks (clk e') = ticks (clk e) + epoch_ticks config
  /\ fst st' !! "epoch_time"
     = (fun l => l ++ [Float (elapsed (reading (clk e) (S (ticks (clk e))))
                                      (reading (clk e) (ticks (clk e))))])
       <$> (fst st !! "epoch_time").
Proof.
  unfold epoch, epoch_ticks, mode_after. intros H.
  apply bind_inv in H. destruct H as (u & e0 & Hmode & H).
  unfold set_mode in Hmode. injection Hmode as _ <-.
  apply bind_inv in H. destruct H as (out1 & e1 & Hrun1 & H).
  pose proof (run_epoch_epoch_time _ _ _ _ _ _ Hrun1) as Hk1.
  apply run_epoch_inv in Hrun1. cbn [clk model_training params] in Hrun1.
  destruct Hrun1 as (_ & Hm1 & Hr1 & Ht1 & _ & Htime).
  apply bind_inv in H. destruct H as (r2 & e2 & Hval & H).
  apply bind_inv in H. destruct H as (r3 & e3 & Hap & H).
  apply lift_inv in Hap. destruct Hap as [Hap ->].
  unfold ret in H. injection H as <- <-. cbn [fst].
  assert (Hcol : r3 !! "epoch_time"
                 = (fun l => l ++ [Float (fst (snd out1))]) <$> (r2 !! "epoch_time")).
  { unfold append in Hap. destruct (r2 !! "epoch_time") as [l |]; [| discriminate Hap].
    injection Hap as <-. rewrite lookup_insert_eq. reflexivity. }
  rewrite Hcol, Htime.
  destruct (validation_loader config) as [vl |].
  - apply bind_inv in Hval. destruct Hval as (u2 & e4 & Hmode2 & Hval).
    unfold set_mode in Hmode2. injection Hmode2 as _ <-.
    apply bind_inv in Hval. destruct Hval as (out2 & e5 & Hrun2 & Hval).
    unfold ret in Hval. injection Hval as <- <-.
    pose proof (run_epoch_epoch_time _ _ _ _ _ _ Hrun2) as Hk2.
    apply run_epoch_inv in Hrun2. cbn [clk model_training params] in Hrun2.
    destruct Hrun2 as (_ & Hm2 & Hr2 & Ht2 & _).
    rewrite Hk2, Hk1.
    split; [exact Hm2 |]. split; [congruence |]. split; [lia | reflexivity].
  - unfold ret in Hval. injection Hval as <- <-. rewrite Hk1.
    split; [exact Hm1 |]. split; [exact Hr1 |]. split; [lia | reflexivity].
Qed.

Lemma loop_inv (config : Config) (l : list nat) :
  forall (st st' : results_t * option Features) (e e' : Env),
    foldM_st (fun st _ => epoch_ config st) l st e = Ok (st', e') ->
    reading (clk e') = reading (clk e)
    /\ ticks (clk e') = ticks (clk e) + epoch_ticks config * length l
    /\ (l <> [] -> model_training e' = mode_after config)
    /\ fst st' !! "epoch_time"
       = (fun col =>
            col ++ map (fun i =>
                          Float (elapsed
                                   (reading (clk e)
                                            (S (ticks (clk e) + epoch_ticks config * i)))
                                   (reading (clk e)
                                            (ticks (clk e) + epoch_ticks config * i))))
                       (seq 0 (length l)))
         <$> (fst st !! "epoch_time").
Proof.
  induction l as [| n l IH]; intros st st' e e' H.
  - injection H as <- <-. split; [reflexivity |]. split; [simpl; lia |].
    split; [intros Hne; contradiction |].
    destruct (fst st !! "epoch_time") as [col |]; simpl; [rewrite app_nil_r |];
      reflexivity.
  - cbn [foldM_st] in H. apply bind_inv in H. destruct H as (st1 & e1 & H1 & H2).
    destruct (epoch_inv config st st1 e e1 H1) as (Hm1 & Hr1 & Ht1 & Hc1).
    destruct (IH st1 st' e1 e' H2) as (Hr2 & Ht2 & Hm2 & Hc2).
    split; [congruence |]. split; [simpl; lia |]. split.
    + intros _. destruct l as [| n' l']; [| apply Hm2; discriminate].
      injection H2 as _ <-. exact Hm1.
    + rewrite Hc2, Hc1. destruct (fst st !! "epoch_time") as [col |]; [| reflexivity].
      cbn [fmap option_fmap option_map length seq map]. f_equal.
      rewrite <- app_assoc. f_equal. cbn [app]. rewrite Nat.mul_0_r, Nat.add_0_r.
      f_equal. rewrite <- seq_shift, map_map. apply map_ext. intros i.
      rewrite Hr1, Ht1. do 3 f_equal; lia.
Qed.

(** X26.  A pass in inference mode does not touch the parameters.  With
    a model and a loss that return, a non-empty loader behind [prefix] and
    the keys of the pass in [results], [run_epoch] called while
    [model.training] is off returns, and it leaves the parameters and the
    mode as they were, whichever loader the prefix names: the optimizer
    steps in training mode only.  The pass calls [time.time] twice, and
    the time it returns is the difference of these two readings. *)
Theorem run_epoch_in_eval_mode (config : Config) (r : results_t) (prefix : string)
    (loader : list (Features * Labels)) (e : Env) :
  total config ->
  select_loader config prefix = Ok loader ->
  loader <> [] ->
  (forall d kv, In kv (pass_writes config prefix d) -> is_Some (r !! fst kv)) ->
  model_training e = false ->
  exists out e',
    run_epoch_ config r prefix e = Ok (out, e')
    /\ params e' = params e
    /\ model_training e' = false
    /\ ticks (clk e') = ticks (clk e) + 2
    /\ fst (snd out) = elapsed (reading (clk e) (S (ticks (clk e))))
                               (reading (clk e) (ticks (clk e))).
Proof.
  intros Ht Hsel Hne Hkeys Hmode.
  destruct (run_epoch_spec config r prefix loader e Ht Hsel Hne Hkeys)
    as (d & t & x & r' & e' & Hrun & _).
  destruct (run_epoch_inv config r prefix e e' _ Hrun)
    as (_ & Hm & _ & Hticks & Hp & Htime).
  exists (r', (t, x)), e'. split; [exact Hrun |]. split; [apply Hp, Hmode |].
  split; [congruence |]. split; [lia | exact Htime].
Qed.

(** X27.  ["epoch_time"] is the time of the training pass.  With
    non-empty loaders and a model and a loss that return, the loop over the
    epochs runs to its end; an epoch calls [time.time] four times when
    there is a validation loader and twice when there is none, and the entry
    it appends to ["epoch_time"] is the difference of its first two readings:
    the validation pass is timed and its time dropped.  After one epoch or
    more the model is in inference mode when there is a validation loader
    and in training mode when there is none. *)
Theorem epoch_time_is_training_time (config : Config) (e : Env) :
  total config ->
  training_loader config <> [] ->
  (forall vl, validation_loader config = Some vl -> vl <> []) ->
  exists st e',
    epochs_loop_ config e = Ok (st, e')
    /\ fst st !! "epoch_time"
       = Some (map (fun i =>
                      Float (elapsed
                               (reading (clk e)
                                        (S (ticks (clk e) + epoch_ticks config * i)))
                               (reading (clk e)
                                        (ticks (clk e) + epoch_ticks config * i))))
                   (seq 0 (epochs config)))
    /\ ticks (clk e') = ticks (clk e) + epoch_ticks config * epochs config
    /\ (1 <= epochs config -> model_training e' = mode_after config).
Proof.
  intros Ht Htl Hvl.
  destruct (epochs_loop_spec config e Ht Htl Hvl) as (ds & st & e' & Hloop & _).
  exists st, e'. split; [exact Hloop |].
  unfold epochs_loop in Hloop.
  destruct (loop_inv config _ _ _ _ _ Hloop) as (_ & Hticks & Hmode & Hcol).
  rewrite length_seq in Hticks, Hcol. cbn [fst] in Hcol.
  rewrite init_results_lookup, decide_True in Hcol
    by (apply list_elem_of_In; left; reflexivity).
  split; [exact Hcol |]. split; [exact Hticks |].
  intros Hep. apply Hmode. destruct (epochs config); [lia | discriminate].
Qed.

(** X28.  [train] without a validation loader returns when there is no
    scoring function.  With [score_funcs] empty no ["validation_..."] key
    is tracked: for a non-empty training loader, a model and a loss that
    return and no saving, [train] returns a table of exactly two columns,
    ["epoch_time"] and ["training_loss"], each with one entry per epoch,
    and (after one epoch or more) leaves the model in training mode. *)
Theorem train_without_scorers (config : Config) (e : Env) :
  total config ->
  training_loader config <> [] ->
  validation_loader config = None ->
  score_funcs config = [] ->
  save_model config = false ->
  exists table e' times losses,
    train_ config e = Ok (table, e')
    /\ table !! "epoch_time" = Some times /\ length times = epochs config
    /\ table !! "training_loss" = Some losses /\ length losses = epochs config
    /\ (forall k, k <> "epoch_time" -> k <> "training_loss" -> table !! k = None)
    /\ (1 <= epochs config -> model_training e' = true).
Proof.
  intros Ht Htl Hv Hs Hsave.
  destruct (epochs_loop_spec config e Ht Htl) as (ds & st & e' & Hloop & Hlen & Hc & Hcols).
  { intros vl Hvl. rewrite Hv in Hvl. discriminate Hvl. }
  assert (Hn : ~ In "loss" (map fst (score_funcs config))) by (rewrite Hs; intros []).
  assert (Htrack : to_track config = ["epoch_time"; "training_loss"]).
  { unfold to_track. rewrite Hv, Hs. reflexivity. }
  assert (Htime : fst st !! "epoch_time"
                  = Some (map (fun d => Float (epoch_time d)) ds)).
  { rewrite Hcols, decide_True by (apply list_elem_of_In; left; reflexivity).
    rewrite written_concat, (concat_singletons _ (fun d => Float (epoch_time d)));
      [reflexivity |].
    apply List.Forall_forall. intros d _. apply written_epoch_time. }
  assert (Hloss : fst st !! "training_loss"
                  = Some (map (fun d => pass_loss (training_pass d)) ds)).
  { rewrite Hcols, decide_True
      by (apply list_elem_of_In; rewrite Htrack; right; left; reflexivity).
    rewrite written_concat,
      (concat_singletons _ (fun d => pass_loss (training_pass d))); [reflexivity |].
    apply List.Forall_forall. intros d _. apply written_training_loss, Hn. }
  assert (Hother : forall k, k <> "epoch_time" -> k <> "training_loss" ->
                             fst st !! k = None).
  { intros k H1 H2. rewrite Hcols, decide_False; [reflexivity |].
    rewrite Htrack. intros Hin. apply list_elem_of_In in Hin.
    destruct Hin as [<- | [<- | []]]; congruence. }
  exists (fst st), e', (map (fun d => Float (epoch_time d)) ds),
    (map (fun d => pass_loss (training_pass d)) ds).
  split; [| split; [exact Htime | split; [rewrite length_map; exact Hlen |
            split; [exact Hloss | split; [rewrite length_map; exact Hlen |
            split; [exact Hother |]]]]]].
  - unfold train. rewrite (models_spec.bind_ok _ _ _ _ _ Hloop), Hsave.
    unfold bind, ret, lift.
    rewrite (DataFrame_from_dict_ok (fst st) (epochs config)); [reflexivity |].
    intros k l Hk.
    destruct (String.eqb_spec k "epoch_time") as [-> | H1].
    { rewrite Htime in Hk. injection Hk as <-. rewrite length_map. exact Hlen. }
    destruct (String.eqb_spec k "training_loss") as [-> | H2].
    { rewrite Hloss in Hk. injection Hk as <-. rewrite length_map. exact Hlen. }
    rewrite (Hother k H1 H2) in Hk. discriminate Hk.
  - intros Hep. unfold epochs_loop in Hloop.
    destruct (loop_inv config _ _ _ _ _ Hloop) as (_ & _ & Hmode & _).
    rewrite Hmode by (destruct (epochs config); [lia | discriminate]).
    unfold mode_after. rewrite Hv. reflexivity.
Qed.

(** ** The data of the passes

    For a model and a loss function that return, the loop over the batches
    leaves the lists and the parameters that [pass_labels], [pass_preds],
    [pass_losses] and [pass_params] describe, and the loop over the epochs
    appends what [epoch_of] describes. *)

Lemma batch_step_run (config : Config) (net : Params -> bool -> Features -> Output)
    (lossf : Output -> Labels -> LossT) (a : locals) (xy : Features * Labels) (e : Env) :
  (forall p b x, model config p b x = Ok (net p b x)) ->
  (forall o y, loss_func config o y = Ok (lossf o y)) ->
  batch_step_ config a xy e
  = Ok ({| running_loss :=
             running_loss a
             ++ [item (lossf (net (params e) (model_training e) (fst xy)) (snd xy))];
           y_true :=
             y_true a ++ (if collects is_tensor config (snd xy)
                          then labels_tolist (snd xy) else []);
           y_pred :=
             y_pred a ++ (if collects is_tensor config (snd xy)
                          then output_tolist
                                 (net (params e) (model_training e) (fst xy))
                          else []);
           x_last := Some (fst xy) |},
        {| params := batch_params net lossf config (model_training e) (params e) xy;
           model_training := model_training e;
           clk := clk e |}).
Proof.
  intros Hnet Hloss. unfold batch_step, get, bind, lift, collects, batch_params.
  rewrite Hnet, Hloss. destruct e as [p m c]. cbn [params model_training clk].
  destruct m; destruct ((0 <? length (score_funcs config)) && is_tensor (snd xy));
    cbn; rewrite ?app_nil_r; reflexivity.
Qed.

Lemma batch_loop_run (config : Config) (net : Params -> bool -> Features -> Output)
    (lossf : Output -> Labels -> LossT) (loader : list (Features * Labels)) :
  (forall p b x, model config p b x = Ok (net p b x)) ->
  (forall o y, loss_func config o y = Ok (lossf o y)) ->
  forall (a a' : locals) (e e' : Env),
    foldM_st (batch_step_ config) loader a e = Ok (a', e') ->
    running_loss a'
    = running_loss a ++ pass_losses item net lossf config (model_training e) (params e)
                                    loader
    /\ y_true a' = y_true a ++ pass_labels is_tensor labels_tolist config loader
    /\ y_pred a'
       = y_pred a ++ pass_preds is_tensor output_tolist net lossf config
                                (model_training e) (params e) loader
    /\ params e' = pass_params net lossf config (model_training e) (params e) loader.
Proof.
  intros Hnet Hloss. induction loader as [| xy loader IH]; intros a a' e e' H.
  - injection H as <- <-. cbn. rewrite !app_nil_r. repeat split.
  - cbn [foldM_st] in H. apply bind_inv in H. destruct H as (a1 & e1 & H1 & H2).
    rewrite (batch_step_run config net lossf a xy e Hnet Hloss) in H1.
    injection H1 as <- <-.
    destruct (IH _ _ _ _ H2) as (Hl & Ht & Hp & Hq).
    cbn [running_loss y_true y_pred params model_training] in Hl, Ht, Hp, Hq.
    rewrite Hl, Ht, Hp, Hq. cbn [pass_losses pass_labels flat_map pass_preds pass_params
                                  fold_left].
    rewrite <- !app_assoc. repeat split.
Qed.

Lemma pass_params_eval (config : Config) (net : Params -> bool -> Features -> Output)
    (lossf : Output -> Labels -> LossT) (p : Params) (loader : list (Features * Labels)) :
  pass_params net lossf config false p loader = p.
Proof.
  unfold pass_params. induction loader as [| xy loader IH]; [reflexivity | exact IH].
Qed.

Lemma run_epoch_data (config : Config) (net : Params -> bool -> Features -> Output)
    (lossf : Output -> Labels -> LossT) (r : results_t) (prefix : string) (e e' : Env)
    (out : results_t * (num * Features)) :
  (forall p b x, model config p b x = Ok (net p b x)) ->
  (forall o y, loss_func config o y = Ok (lossf o y)) ->
  run_epoch_ config r prefix e = Ok (out, e') ->
  exists loader,
    select_loader config prefix = Ok loader
    /\ appends (pass_writes config prefix
                  (pass_of_ net lossf config (model_training e) (params e) loader)) r
       = Ok (fst out)
    /\ params e' = pass_params net lossf config (model_training e) (params e) loader.
Proof.
  intros Hnet Hloss. unfold run_epoch. intros H.
  apply bind_inv in H. destruct H as (loader & e0 & Hsel & H).
  apply lift_inv in Hsel. destruct Hsel as [Hsel ->].
  apply bind_inv in H. destruct H as (start & e1 & Hstart & H).
  unfold time_time in Hstart. injection Hstart as <- <-.
  apply bind_inv in H. destruct H as (a & e2 & Hloop & H).
  apply (batch_loop_run config net lossf loader Hnet Hloss) in Hloop.
  cbn [running_loss y_true y_pred params model_training app] in Hloop.
  destruct Hloop as (Hl & Ht & Hp & Hq).
  apply bind_inv in H. destruct H as (stop & e3 & Hstop & H).
  unfold time_time in Hstop. injection Hstop as <- <-.
  apply bind_inv in H. destruct H as (r1 & e4 & H1 & H).
  apply lift_inv in H1. destruct H1 as [H1 ->].
  apply bind_inv in H. destruct H as (r2 & e5 & H2 & H).
  apply lift_inv in H2. destruct H2 as [H2 ->].
  destruct (x_last a) as [x |]; [| discriminate H].
  unfold ret in H. injection H as <- <-.
  cbn [fst snd params]. exists loader. split; [exact Hsel |]. split; [| exact Hq].
  unfold pass_writes, pass_score, pass_of. rewrite appends_app, <- record_scores_appends.
  cbn [pass_true pass_pred pass_loss]. rewrite <- Ht, <- Hp, <- Hl, H1.
  cbn [bind_res appends fst snd]. rewrite H2. reflexivity.
Qed.

Lemma epoch_data_inv (config : Config) (net : Params -> bool -> Features -> Output)
    (lossf : Output -> Labels -> LossT) (st st' : results_t * option Features)
    (e e' : Env) :
  (forall p b x, model config p b x = Ok (net p b x)) ->
  (forall o y, loss_func config o y = Ok (lossf o y)) ->
  epoch_ config st e = Ok (st', e') ->
  appends (epoch_writes config (epoch_of_ net lossf config (params e) (clk e) 0)) (fst st)
  = Ok (fst st')
  /\ params e' = pass_params net lossf config true (params e) (training_loader config).
Proof.
  intros Hnet Hloss. unfold epoch. intros H.
  apply bind_inv in H. destruct H as (u & e0 & Hmode & H).
  unfold set_mode in Hmode. injection Hmode as _ <-.
  apply bind_inv in H. destruct H as (out1 & e1 & Hrun1 & H).
  destruct (run_epoch_inv config _ _ _ _ _ Hrun1) as (_ & Hm1 & _ & _ & _ & Htime).
  destruct (run_epoch_data config net lossf _ _ _ _ _ Hnet Hloss Hrun1)
    as (tl & Hsel1 & Hap1 & Hp1).
  cbn [params model_training clk] in Hap1, Hp1, Htime, Hm1.
  injection Hsel1 as <-.
  apply bind_inv in H. destruct H as (r2 & e2 & Hval & H).
  apply bind_inv in H. destruct H as (r3 & e3 & Hap & H).
  apply lift_inv in Hap. destruct Hap as [Hap ->].
  unfold ret in H. injection H as <- <-. cbn [fst].
  unfold epoch_of, epoch_writes.
  cbn [training_pass validation_pass epoch_time].
  change (epoch_params net lossf config (params e) 0) with (params e).
  change (epoch_params net lossf config (params e) 1)
    with (pass_params net lossf config true (params e) (training_loader config)).
  rewrite Nat.mul_0_r, Nat.add_0_r, appends_app, Hap1. cbn [bind_res].
  rewrite <- Htime.
  destruct (validation_loader config) as [vl |] eqn:Hv.
  - apply bind_inv in Hval. destruct Hval as (u2 & e4 & Hmode2 & Hval).
    unfold set_mode in Hmode2. injection Hmode2 as _ <-.
    apply bind_inv in Hval. destruct Hval as (out2 & e5 & Hrun2 & Hval).
    unfold ret in Hval. injection Hval as <- <-.
    destruct (run_epoch_data config net lossf _ _ _ _ _ Hnet Hloss Hrun2)
      as (vl' & Hsel2 & Hap2 & Hp2).
    cbn [params model_training clk] in Hap2, Hp2.
    unfold select_loader in Hsel2. cbn [String.eqb Ascii.eqb] in Hsel2.
    rewrite Hv in Hsel2. injection Hsel2 as <-.
    rewrite pass_params_eval in Hp2. rewrite Hp1 in Hap2.
    rewrite appends_app, Hap2. cbn [bind_res appends fst snd].
    rewrite Hap. split; [reflexivity | congruence].
  - unfold ret in Hval. injection Hval as <- <-.
    cbn [app appends fst snd]. rewrite Hap. split; [reflexivity | exact Hp1].
Qed.

Lemma epoch_of_shift (config : Config) (net : Params -> bool -> Features -> Output)
    (lossf : Output -> Labels -> LossT) (p : Params) (c c1 : clock) (i : nat) :
  reading c1 = reading c ->
  ticks c1 = ticks c + epoch_ticks config ->
  epoch_of_ net lossf config p c (S i)
  = epoch_of_ net lossf config
      (pass_params net lossf config true p (training_loader config)) c1 i.
Proof.
  intros Hr Ht. unfold epoch_of, epoch_params. rewrite !Nat.iter_succ_r, Hr, Ht.
  replace (ticks c + epoch_ticks config * S i)
    with (ticks c + epoch_ticks config + epoch_ticks config * i) by lia.
  reflexivity.
Qed.

Lemma loop_data (config : Config) (net : Params -> bool -> Features -> Output)
    (lossf : Output -> Labels -> LossT) (l : list nat) :
  (forall p b x, model config p b x = Ok (net p b x)) ->
  (forall o y, loss_func config o y = Ok (lossf o y)) ->
  forall (st st' : results_t * option Features) (e e' : Env),
    foldM_st (fun st _ => epoch_ config st) l st e = Ok (st', e') ->
    appends (concat (map (fun i => epoch_writes config
                                     (epoch_of_ net lossf config (params e) (clk e) i))
                         (seq 0 (length l))))
            (fst st)
    = Ok (fst st').
Proof.
  intros Hnet Hloss. induction l as [| n l IH]; intros st st' e e' H.
  - injection H as <- <-. reflexivity.
  - cbn [foldM_st] in H. apply bind_inv in H. destruct H as (st1 & e1 & H1 & H2).
    destruct (epoch_inv config st st1 e e1 H1) as (_ & Hr1 & Ht1 & _).
    destruct (epoch_data_inv config net lossf st st1 e e1 Hnet Hloss H1) as (Ha & Hp).
    cbn [length seq map concat]. rewrite appends_app, Ha. cbn [bind_res].
    rewrite <- seq_shift, map_map.
    rewrite <- (IH st1 st' e1 e' H2). f_equal. f_equal. apply map_ext. intros i.
    rewrite Hp. f_equal. apply epoch_of_shift; assumption.
Qed.

Lemma map_constant {A B : Type} (g : A -> B) (c : B) (l : list A) :
  (forall a, g a = c) -> map g l = repeat c (length l).
Proof.
  intros Hg. induction l as [| a l IH]; simpl; [reflexivity |].
  rewrite Hg, IH. reflexivity.
Qed.

(** C9.  A scoring function that raises is caught, metric by metric.
    Take a model and a loss function that return (the functions [net] and
    [lossf]), non-empty loaders, and scoring functions under distinct names
    other than ["loss"].  Then the loop over the epochs runs to its end,
    and the column of every scoring function holds one entry per epoch: the
    value the function returns on the labels and predictions that the pass
    of that epoch has collected, and NaN where the function raises on them.
    The labels are those of the batches of the loader, and the predictions
    are the outputs of the model on these batches at the parameters the
    training so far has reached.  So a failure costs one entry: the other
    functions, the losses and the later epochs are recorded as without it,
    and a function that always raises has a column of NaN.  What [train]
    returns or raises is what [pd.DataFrame.from_dict] returns or raises on
    the completed dictionary, never the exception of a scoring function;
    with a validation loader every column has one entry per epoch and
    [train] returns the dictionary as its table. *)
Theorem train_records_nan_for_raising_scorer (config : Config) (e : Env)
    (net : Params -> bool -> Features -> Output) (lossf : Output -> Labels -> LossT) :
  (forall p b x, model config p b x = Ok (net p b x)) ->
  (forall o y, loss_func config o y = Ok (lossf o y)) ->
  training_loader config <> [] ->
  (forall vl, validation_loader config = Some vl -> vl <> []) ->
  List.NoDup (map fst (score_funcs config)) ->
  ~ In "loss" (map fst (score_funcs config)) ->
  let recorded (f : scorer) (d : pass_data) : pyfloat num :=
    match f (pass_true d) (pass_pred d) with
    | Ok v => v
    | Raise _ => NaN
    end in
  let training (i : nat) : pass_data :=
    pass_of_ net lossf config true (epoch_params net lossf config (params e) i)
             (training_loader config) in
  let validation (vl : list (Features * Labels)) (i : nat) : pass_data :=
    pass_of_ net lossf config false (epoch_params net lossf config (params e) (S i))
             vl in
  exists st e',
    epochs_loop_ config e = Ok (st, e')
    /\ (forall name f, In (name, f) (score_funcs config) ->
          fst st !! ("training_" +:+ name)
          = Some (map (fun i => recorded f (training i)) (seq 0 (epochs config)))
          /\ ((forall yt yp, exists ex, f yt yp = Raise ex) ->
              fst st !! ("training_" +:+ name) = Some (repeat NaN (epochs config))))
    /\ fst st !! "training_loss"
       = Some (map (fun i => pass_loss (training i)) (seq 0 (epochs config)))
    /\ (save_model config = false ->
        train_ config e = match DataFrame_from_dict (fst st) with
                          | Ok table => Ok (table, e')
                          | Raise ex => Raise ex
                          end)
    /\ (forall vl, validation_loader config = Some vl ->
          (forall name f, In (name, f) (score_funcs config) ->
             fst st !! ("validation_" +:+ name)
             = Some (map (fun i => recorded f (validation vl i))
                         (seq 0 (epochs config)))
             /\ ((forall yt yp, exists ex, f yt yp = Raise ex) ->
                 fst st !! ("validation_" +:+ name)
                 = Some (repeat NaN (epochs config))))
          /\ fst st !! "validation_loss"
             = Some (map (fun i => pass_loss (validation vl i)) (seq 0 (epochs config)))
          /\ (forall k l, fst st !! k = Some l -> length l = epochs config)
          /\ (save_model config = false -> train_ config e = Ok (fst st, e'))).
Proof.
  intros Hnet Hloss Htl Hvl Hnd Hn recorded training validation.
  assert (Ht : total config).
  { split; [intros p b x; exists (net p b x); apply Hnet
           | intros o y; exists (lossf o y); apply Hloss]. }
  destruct (epochs_loop_spec config e Ht Htl Hvl) as (ds & st & e' & Hloop & _).
  pose proof Hloop as Hdata. unfold epochs_loop in Hdata.
  apply (loop_data config net lossf _ Hnet Hloss) in Hdata.
  rewrite length_seq in Hdata. cbn [fst] in Hdata.
  set (E := fun i => epoch_of_ net lossf config (params e) (clk e) i).
  assert (Hwritten : forall k, In k (to_track config) ->
            fst st !! k
            = Some (concat (map (fun i => written k (epoch_writes config (E i)))
                                (seq 0 (epochs config))))).
  { intros k Hk. rewrite (appends_inv _ _ _ Hdata k), init_results_lookup.
    rewrite decide_True by (apply list_elem_of_In, Hk).
    cbn [fmap option_fmap option_map app]. f_equal.
    apply (written_concat k (fun i => epoch_writes config (E i))). }
  assert (Hcol : forall k, In k (to_track config) ->
            forall g, (forall i, written k (epoch_writes config (E i)) = [g i]) ->
            fst st !! k = Some (map g (seq 0 (epochs config)))).
  { intros k Hk g Hg. rewrite (Hwritten k Hk). f_equal.
    apply (concat_singletons (fun i => written k (epoch_writes config (E i))) g).
    apply List.Forall_forall. intros i _. apply Hg. }
  assert (Hname : forall name f, In (name, f) (score_funcs config) -> name <> "loss").
  { intros name f Hin ->. apply Hn. apply (in_map fst _ _ Hin). }
  assert (Hnan : forall (f : scorer) (d : nat -> pass_data) n,
            (forall yt yp, exists ex, f yt yp = Raise ex) ->
            map (fun i => recorded f (d i)) (seq 0 n) = repeat NaN n).
  { intros f d n Hraise.
    transitivity (repeat (@NaN num) (length (seq 0 n))); [| rewrite length_seq; reflexivity].
    apply map_constant. intros i. unfold recorded.
    destruct (Hraise (pass_true (d i)) (pass_pred (d i))) as [ex ->]. reflexivity. }
  assert (Htrain : train_ config e = match DataFrame_from_dict (fst st) with
                                     | Ok table => Ok (table, e')
                                     | Raise ex => Raise ex
                                     end \/ save_model config = true).
  { destruct (save_model config) eqn:Hsave; [right; reflexivity | left].
    unfold train. rewrite (models_spec.bind_ok _ _ _ _ _ Hloop), Hsave.
    unfold bind, ret, lift. destruct (DataFrame_from_dict (fst st)); reflexivity. }
  exists st, e'. split; [exact Hloop |]. split; [| split; [| split]].
  - intros name f Hin.
    destruct (to_track_scores config name f Hin) as [Hkt _].
    assert (Htr : fst st !! ("training_" +:+ name)
                  = Some (map (fun i => recorded f (training i))
                              (seq 0 (epochs config)))).
    { apply (Hcol _ Hkt). intros i.
      rewrite (written_training_score config (E i) name f Hnd Hin (Hname name f Hin)).
      reflexivity. }
    split; [exact Htr |]. intros Hraise. rewrite Htr, (Hnan f training _ Hraise).
    reflexivity.
  - apply (Hcol "training_loss"); [right; left; reflexivity |].
    intros i. rewrite written_training_loss by exact Hn. reflexivity.
  - intros Hsave. destruct Htrain as [Htrain | Htrain]; [exact Htrain | congruence].
  - intros vl Hv.
    assert (Hsome : forall i, validation_pass (E i) = Some (validation vl i)).
    { intros i. unfold E, epoch_of. cbn [validation_pass]. rewrite Hv. reflexivity. }
    assert (Hall : forall k l, fst st !! k = Some l -> length l = epochs config).
    { intros k l Hl.
      rewrite (appends_inv _ _ _ Hdata k), init_results_lookup in Hl.
      destruct (decide (k ∈ to_track config)) as [Hk |]; [| discriminate Hl].
      cbn [fmap option_fmap option_map app] in Hl. injection Hl as <-.
      rewrite (written_concat k (fun i => epoch_writes config (E i))).
      rewrite length_concat_ones; [apply length_seq |].
      apply List.Forall_forall. intros i _.
      apply (written_once config (E i) (validation vl i) k Hnd Hn (Hsome i)).
      apply list_elem_of_In, Hk. }
    split; [| split; [| split]].
    + intros name f Hin.
      destruct (to_track_scores config name f Hin) as [_ Hkv].
      assert (Hva : fst st !! ("validation_" +:+ name)
                    = Some (map (fun i => recorded f (validation vl i))
                                (seq 0 (epochs config)))).
      { apply (Hcol _ Hkv). intros i.
        rewrite (written_validation_score config (E i) (validation vl i) name f Hnd Hin
                   (Hname name f Hin) (Hsome i)).
        reflexivity. }
      split; [exact Hva |]. intros Hraise.
      rewrite Hva, (Hnan f (validation vl) _ Hraise). reflexivity.
    + apply (Hcol "validation_loss").
      * unfold to_track. rewrite Hv. right. right. left. reflexivity.
      * intros i. apply (written_validation_loss config (E i) (validation vl i) Hn (Hsome i)).
    + exact Hall.
    + intros Hsave. destruct Htrain as [Htrain | Htrain]; [| congruence].
      rewrite Htrain, (DataFrame_from_dict_ok (fst st) (epochs config) Hall).
      reflexivity.
Qed.
End Loop.

Lemma train_without_validation_raises_witness :
  example_train (example_config false false) example_env = Raise ValueError.
Proof.
  apply (train_without_validation_raises Float (fun _ => true) (fun y => [y])
           (fun o => [o]) (fun l => l) example_mean Nat.sub (fun _ _ => Ok tt)
           (example_config false false) example_env "accuracy" (example_scorer false)).
  - split; intros; eexists; reflexivity.
  - discriminate.
  - reflexivity.
  - reflexivity.
  - simpl. lia.
  - left. reflexivity.
Defined.

Lemma train_records_nan_for_raising_scorer_witness :
  exists table e',
    toy_train (toy_config [(1, 1); (2, 0)] (Some [(3, 1)]) 2 toy_scorers) (toy_env false)
    = Ok (table, e')
    /\ table !! "training_accuracy" = Some [NaN; NaN]
    /\ table !! "training_sum" = Some [Float 4; Float 8]
    /\ table !! "validation_accuracy" = Some [NaN; NaN]
    /\ table !! "validation_sum" = Some [Float 5; Float 7].
Proof.
  destruct (train_records_nan_for_raising_scorer Float (fun _ => true) (fun y => [y])
              (fun o => [o]) (fun l => l) example_mean Nat.sub (fun _ _ => Ok tt)
              (toy_config [(1, 1); (2, 0)] (Some [(3, 1)]) 2 toy_scorers) (toy_env false)
              (fun p _ x => p + x) (fun o y => o + y))
    as (st & e' & _ & Htr & _ & _ & Hval).
  - intros p b x. reflexivity.
  - intros o y. reflexivity.
  - discriminate.
  - intros vl H. injection H as <-. discriminate.
  - repeat constructor; simpl; intuition discriminate.
  - simpl. intuition discriminate.
  - destruct (Hval [(3, 1)] eq_refl) as (Hva & _ & _ & Hret).
    exists (fst st), e'. split; [exact (Hret eq_refl) |].
    split; [exact (proj1 (Htr "accuracy" _ (or_introl eq_refl))) |].
    split; [exact (proj1 (Htr "sum" _ (or_intror (or_introl eq_refl)))) |].
    split; [exact (proj1 (Hva "accuracy" _ (or_introl eq_refl))) |].
    exact (proj1 (Hva "sum" _ (or_intror (or_introl eq_refl)))).
Defined.


(** ** The further properties on small runs *)

Lemma train_empty_loader_raises_witness :
  toy_train (toy_config [] None 1 []) (toy_env false) = Raise UnboundLocalError
  /\ toy_train (toy_config [(1, 1)] (Some []) 1 []) (toy_env false)
     = Raise UnboundLocalError.
Proof.
  split.
  - apply (train_empty_loader_raises Float (fun _ => true) (fun y => [y])
             (fun o => [o]) (fun l => l) example_mean Nat.sub (fun _ _ => Ok tt)
             (toy_config [] None 1 []) (toy_env false)).
    + simpl. lia.
    + left. reflexivity.
  - apply (train_empty_loader_raises Float (fun _ => true) (fun y => [y])
             (fun o => [o]) (fun l => l) example_mean Nat.sub (fun _ _ => Ok tt)
             (toy_config [(1, 1)] (Some []) 1 []) (toy_env false)).
    + simpl. lia.
    + right. split; [split; intros; eexists; reflexivity |].
      split; [discriminate | reflexivity].
Defined.

Lemma train_zero_epochs_witness :
  toy_train (toy_config [(1, 1)] None 0 [("accuracy", example_scorer false)])
            (toy_env false)
  = Ok (init_results
          (to_track (toy_config [(1, 1)] None 0 [("accuracy", example_scorer false)])),
        toy_env false).
Proof.
  apply (train_zero_epochs Float (fun _ => true) (fun y => [y])
           (fun o => [o]) (fun l => l) example_mean Nat.sub (fun _ _ => Ok tt)
           (toy_config [(1, 1)] None 0 [("accuracy", example_scorer false)])
           (toy_env false)).
  - reflexivity.
  - reflexivity.
Defined.

Lemma train_scorer_named_loss_raises_witness :
  toy_train (toy_config [(1, 1)] (Some [(2, 0)]) 1 [("loss", example_scorer false)])
            (toy_env false)
  = Raise ValueError.
Proof.
  apply (train_scorer_named_loss_raises Float (fun _ => true) (fun y => [y])
           (fun o => [o]) (fun l => l) example_mean Nat.sub (fun _ _ => Ok tt)
           (toy_config [(1, 1)] (Some [(2, 0)]) 1 [("loss", example_scorer false)])
           (toy_env false) (example_scorer false)).
  - split; intros; eexists; reflexivity.
  - discriminate.
  - intros vl H. injection H as <-. discriminate.
  - reflexivity.
  - simpl. lia.
  - left. reflexivity.
Defined.

Lemma run_epoch_in_eval_mode_witness :
  exists out e',
    toy_run_epoch (toy_config [(1, 1); (2, 0)] None 1 [])
                  (init_results (to_track (toy_config [(1, 1); (2, 0)] None 1 [])))
                  "training" (toy_env false) = Ok (out, e')
    /\ params e' = 0
    /\ fst (snd out) = 1.
Proof.
  destruct (run_epoch_in_eval_mode Float (fun _ => true) (fun y => [y])
              (fun o => [o]) (fun l => l) example_mean Nat.sub
              (toy_config [(1, 1); (2, 0)] None 1 [])
              (init_results (to_track (toy_config [(1, 1); (2, 0)] None 1 [])))
              "training" [(1, 1); (2, 0)] (toy_env false))
    as (out & e' & Hrun & Hp & _ & _ & Ht).
  - split; intros; eexists; reflexivity.
  - reflexivity.
  - discriminate.
  - intros d kv Hkv. apply init_results_framed.
    apply (pass_keys_training _ d kv Hkv).
  - reflexivity.
  - exists out, e'. split; [exact Hrun |]. split; [exact Hp | exact Ht].
Defined.

Lemma epoch_time_is_training_time_witness :
  exists st e',
    toy_epochs_loop (toy_config [(1, 1)] (Some [(2, 0)]) 2 []) (toy_env false)
    = Ok (st, e')
    /\ fst st !! "epoch_time" = Some [Float 1; Float 9]
    /\ ticks (clk e') = 8.
Proof.
  destruct (epoch_time_is_training_time Float (fun _ => true) (fun y => [y])
              (fun o => [o]) (fun l => l) example_mean Nat.sub
              (toy_config [(1, 1)] (Some [(2, 0)]) 2 []) (toy_env false))
    as (st & e' & Hloop & Hcol & Hticks & _).
  - split; intros; eexists; reflexivity.
  - discriminate.
  - intros vl H. injection H as <-. discriminate.
  - exists st, e'. split; [exact Hloop |]. split; [exact Hcol | exact Hticks].
Defined.

Lemma train_without_scorers_witness :
  exists table e',
    toy_train (toy_config [(1, 1)] None 2 []) (toy_env false) = Ok (table, e')
    /\ model_training e' = true.
Proof.
  destruct (train_without_scorers Float (fun _ => true) (fun y => [y])
              (fun o => [o]) (fun l => l) example_mean Nat.sub (fun _ _ => Ok tt)
              (toy_config [(1, 1)] None 2 []) (toy_env false))
    as (table & e' & times & losses & Htrain & _ & _ & _ & _ & _ & Hmode).
  - split; intros; eexists; reflexivity.
  - discriminate.
  - reflexivity.
  - reflexivity.
  - reflexivity.
  - exists table, e'. split; [exact Htrain |]. apply Hmode. simpl. lia.
Defined.

(** ** The loss of the language models *)

Local Open Scope R_scope.

Lemma vsum_exp_ge (row : list R) (t : nat) (a : R) :
  nth_error row t = Some a -> exp a <= models.vsum (map exp row).
Proof.
  revert t. induction row as [| b row IH]; intros [| t] H; try discriminate.
  - injection H as ->. simpl.
    assert (0 <= models.vsum (map exp row)).
    { clear. induction row as [| c row IH]; simpl; [lra |].
      pose proof (exp_pos c). lra. }
    lra.
  - simpl in *. pose proof (IH t H). pose proof (exp_pos b). lra.
Qed.

Lemma cross_entropy_row_ok (row : list R) (t : nat) :
  (t < length row)%nat ->
  exists l, cross_entropy_row row t = Ok l /\ 0 <= l.
Proof.
  intros Ht. unfold cross_entropy_row.
  destruct (nth_error row t) as [a |] eqn:Ha.
  - eexists. split; [reflexivity |].
    pose proof (vsum_exp_ge row t a Ha) as Hge. pose proof (exp_pos a) as Hpos.
    assert (a <= ln (models.vsum (map exp row))).
    { rewrite <- (ln_exp a) at 1.
      destruct (Rle_lt_or_eq_dec _ _ Hge) as [Hlt | Heq].
      - left. apply ln_increasing; assumption.
      - rewrite Heq. lra. }
    lra.
  - apply nth_error_None in Ha. lia.
Qed.

Lemma vsum_nonneg (l : list R) : Forall (fun a => 0 <= a) l -> 0 <= models.vsum l.
Proof.
  induction 1 as [| a l Ha _ IH]; simpl; lra.
Qed.

Lemma F_cross_entropy_ok (input : list (list R)) (target : list nat) (C : nat) :
  input <> [] -> length input = length target ->
  Forall (fun r => length r = C) input ->
  Forall (fun t => (t < C)%nat) target ->
  exists losses,
    mapR (fun p => cross_entropy_row (fst p) (snd p)) (combine input target) = Ok losses
    /\ length losses = length input
    /\ Forall (fun l => 0 <= l) losses
    /\ F_cross_entropy input target = Ok (models.vsum losses / INR (length losses)).
Proof.
  intros Hne Hlen Hin Htg.
  destruct (models_spec.mapR_Forall (fun l => 0 <= l)
              (fun p => cross_entropy_row (fst p) (snd p)) (combine input target))
    as (losses & Hl & Hll & Hpos).
  { apply List.Forall_forall. intros [r t] Hp. cbn [fst snd].
    rewrite List.Forall_forall in Hin, Htg.
    apply cross_entropy_row_ok.
    rewrite (Hin r (in_combine_l _ _ _ _ Hp)). apply (Htg t (in_combine_r _ _ _ _ Hp)). }
  rewrite length_combine, <- Hlen, Nat.min_id in Hll.
  exists losses. split; [exact Hl |]. split; [exact Hll |]. split; [exact Hpos |].
  unfold F_cross_entropy. rewrite Hlen, Nat.eqb_refl, Hl. cbn [bind_res].
  destruct losses as [| l0 losses]; [| reflexivity].
  destruct input; [contradiction | discriminate].
Qed.

Lemma Forall_concat_rows {A : Type} (P : A -> Prop) (l : list (list A)) :
  Forall (Forall P) l -> Forall P (concat l).
Proof.
  induction 1 as [| r l Hr _ IH]; simpl; [constructor |].
  apply Forall_app. split; assumption.
Qed.

(** X29.  [cross_entropy_language_model] returns a mean that is never
    negative, and asks the targets for their number only.  For logits of
    shape (B, T, C) with [B >= 1] and [T >= 1], and targets of any shape
    with [B * T] class indices below [C], the function returns the mean,
    over the [B * T] positions in row-major order, of
    [log (sum (exp row)) - row[target]], and this loss is at least 0; the
    targets need not have the shape (B, T). *)
Theorem cross_entropy_language_model_nonneg (logits : list (list (list R)))
    (targets : list (list nat)) (T C : nat) :
  logits <> [] -> (1 <= T)%nat ->
  Forall (fun m => length m = T /\ Forall (fun r => length r = C) m) logits ->
  length (concat targets) = (length logits * T)%nat ->
  Forall (fun t => (t < C)%nat) (concat targets) ->
  exists losses,
    mapR (fun p => cross_entropy_row (fst p) (snd p))
         (combine (concat logits) (concat targets)) = Ok losses
    /\ length losses = (length logits * T)%nat
    /\ cross_entropy_language_model logits targets
       = Ok (models.vsum losses / INR (length losses))
    /\ 0 <= models.vsum losses / INR (length losses).
Proof.
  intros Hne HT Hshape Hcount Hrange.
  assert (Hrows : length (concat logits) = (length logits * T)%nat).
  { apply models_spec.length_concat_rect. eapply List.Forall_impl; [| exact Hshape].
    intros m [Hm _]. exact Hm. }
  assert (Hwidth : Forall (fun r => length r = C) (concat logits)).
  { apply Forall_concat_rows. eapply List.Forall_impl; [| exact Hshape].
    intros m [_ Hm]. exact Hm. }
  assert (Hpos : (1 <= length logits * T)%nat).
  { destruct logits; [contradiction | simpl; lia]. }
  destruct (F_cross_entropy_ok (concat logits) (concat targets) C)
    as (losses & Hl & Hll & Hnn & Hce).
  { intros Hnil. rewrite Hnil in Hrows. simpl in Hrows. lia. }
  { rewrite Hrows, Hcount. reflexivity. }
  { exact Hwidth. }
  { exact Hrange. }
  exists losses. split; [exact Hl |]. split; [rewrite Hll; exact Hrows |]. split.
  - unfold cross_entropy_language_model.
    assert (HT' : length (hd [] logits) = T).
    { destruct logits as [| m logits']; [contradiction |].
      apply (List.Forall_inv Hshape). }
    rewrite HT', Hcount, Nat.eqb_refl. exact Hce.
  - apply Rmult_le_pos; [apply vsum_nonneg, Hnn |].
    left. apply Rinv_0_lt_compat, lt_0_INR. lia.
Qed.

Lemma cross_entropy_language_model_nonneg_witness :
  exists losses,
    cross_entropy_language_model [[[0; 1]; [2; 0]]] [[1%nat; 0%nat]]
    = Ok (models.vsum losses / INR (length losses))
    /\ 0 <= models.vsum losses / INR (length losses).
Proof.
  destruct (cross_entropy_language_model_nonneg [[[0; 1]; [2; 0]]] [[1%nat; 0%nat]] 2 2)
    as (losses & _ & _ & Hce & Hnn).
  - discriminate.
  - lia.
  - repeat constructor.
  - reflexivity.
  - repeat constructor.
  - exists losses. split; [exact Hce | exact Hnn].
Defined.

Lemma vsum_repeat (a : R) (n : nat) : models.vsum (repeat a n) = INR n * a.
Proof.
  induction n as [| n IH]; [simpl; ring |].
  cbn [repeat models.vsum fold_right]. fold (models.vsum (repeat a n)).
  rewrite IH, S_INR. ring.
Qed.

Lemma cross_entropy_row_uniform (c : R) (C t : nat) :
  (t < C)%nat -> cross_entropy_row (repeat c C) t = Ok (ln (INR C)).
Proof.
  intros Ht. unfold cross_entropy_row.
  rewrite (nth_error_repeat c Ht).
  f_equal. rewrite map_repeat, vsum_repeat.
  rewrite ln_mult; [| apply lt_0_INR; lia | apply exp_pos].
  rewrite ln_exp. ring.
Qed.

(** X30.  Logits that do not tell the classes apart cost [log C].
    Under the conditions of the previous property, when every row of
    logits is constant (one value for all [C] classes, any value, row by
    row), [cross_entropy_language_model] returns [log C] whatever the
    targets are: the loss of a uniform guess over the vocabulary. *)
Theorem cross_entropy_language_model_uniform (logits : list (list (list R)))
    (targets : list (list nat)) (T C : nat) :
  logits <> [] -> (1 <= T)%nat ->
  Forall (fun m => length m = T /\ Forall (fun r => exists c, r = repeat c C) m)
         logits ->
  length (concat targets) = (length logits * T)%nat ->
  Forall (fun t => (t < C)%nat) (concat targets) ->
  cross_entropy_language_model logits targets = Ok (ln (INR C)).
Proof.
  intros Hne HT Hshape Hcount Hrange.
  assert (Hrows : length (concat logits) = (length logits * T)%nat).
  { apply models_spec.length_concat_rect. eapply List.Forall_impl; [| exact Hshape].
    intros m [Hm _]. exact Hm. }
  assert (Hconst : Forall (fun r => exists c, r = repeat c C) (concat logits)).
  { apply Forall_concat_rows. eapply List.Forall_impl; [| exact Hshape].
    intros m [_ Hm]. exact Hm. }
  assert (Hpos : (1 <= length logits * T)%nat).
  { destruct logits; [contradiction | simpl; lia]. }
  assert (HT' : length (hd [] logits) = T).
  { destruct logits as [| m logits']; [contradiction |].
    apply (List.Forall_inv Hshape). }
  unfold cross_entropy_language_model. rewrite HT', Hcount, Nat.eqb_refl.
  unfold F_cross_entropy. rewrite Hrows, Hcount, Nat.eqb_refl.
  assert (Hl : mapR (fun p => cross_entropy_row (fst p) (snd p))
                    (combine (concat logits) (concat targets))
               = Ok (repeat (ln (INR C)) (length logits * T))).
  { assert (Hlen : length (concat logits) = length (concat targets))
      by (rewrite Hrows, Hcount; reflexivity).
    rewrite <- Hrows. clear - Hconst Hrange Hlen.
    revert Hlen Hrange. generalize (concat targets) as tg.
    induction Hconst as [| r rows [c ->] _ IH]; intros [| t tg] Hlen Hrange;
      try discriminate; [reflexivity |].
    cbn [combine mapR fst snd length repeat].
    rewrite (cross_entropy_row_uniform c C t (List.Forall_inv Hrange)).
    cbn [bind_res].
    rewrite (IH tg) by (simpl in Hlen; try lia; apply (List.Forall_inv_tail Hrange)).
    reflexivity. }
  rewrite Hl. cbn [bind_res].
  destruct (length logits * T)%nat as [| n] eqn:Hn; [lia |].
  cbn [repeat]. f_equal.
  change (ln (INR C) :: repeat (ln (INR C)) n) with (repeat (ln (INR C)) (S n)).
  rewrite vsum_repeat, repeat_length. field.
  apply not_0_INR. lia.
Qed.

Lemma cross_entropy_language_model_uniform_witness :
  cross_entropy_language_model [[[5; 5]; [7; 7]]] [[1%nat; 0%nat]] = Ok (ln (INR 2)).
Proof.
  apply (cross_entropy_language_model_uniform [[[5; 5]; [7; 7]]] [[1%nat; 0%nat]] 2 2).
  - discriminate.
  - lia.
  - constructor; [| constructor]. split; [reflexivity |].
    constructor; [exists 5; reflexivity |].
    constructor; [exists 7; reflexivity | constructor].
  - reflexivity.
  - repeat constructor.
Defined.
End training_spec.
